(* ===== verification/_CoqProject ===== *)
-Q . S2P
Prelude.v
PyStr.v
Basics.v
Launch.v
LaunchProofs.v
DistLauncher.v
P4Control.v
LaunchDemo.v
Tensor.v
BitIO.v
Compressors.v
Exact.v
TorchOps.v
TorchCompression.v
DistOptim.v
DistOptimProofs.v
DistSync.v
DistTopK.v
DistDemo.v
IncaInit.v
Broadcast.v
CrossBarrier.v
CrossBarrierOpt.v
DDP.v
MXNet.v
TFPlugin.v
TFProofs.v
Keras.v
KerasProofs.v
KerasDemo.v
CrossDevice.v
Rabit.v
RabitProofs.v
Wire.v
Tracker.v
TrackerProofs.v
TrackerRun.v
DmlcSubmit.v
Training.v
TrainingDemo.v
IncaVariant.v
HalfOpt.v
HalfProofs.v
HalfStep.v
HalfDemo.v
HalfInit.v
HalfBroadcast.v
HalfBcProofs.v
HalfBcAgree.v
CompressorProofs.v
Dithering.v
Drive.v
CompObj.v
ErrorFeedback.v
Registry.v
CompDemo.v
Server.v
ServerProofs.v
ServerRounds.v
ServerSum.v
ServerModes.v
ServerDemo.v
Mirrored.v
Replicas.v
ReplicasProofs.v
Packet.v
DpdkPkt.v
Switch.v
SwitchProofs.v
SoftPS.v
SoftPSProofs.v
Dpdk.v
IncaDemo.v
Aggregation.v
AggPieces.v
AggWorker.v
AggServer.v
AggSystem.v
AggLive.v
AggDemo.v
