(* ===== verification/Prelude.v ===== *)
(** * BytePS with in-network aggregation: a verification library

    BytePS trains one model on many workers: every worker computes gradients,
    pushes them to servers (or through a programmable switch) that sum them, and
    pulls the sum back. This library models the Python side of the system, its
    compressors and servers in C++, the programs of the switch and the workers'
    end of the in-network aggregation, as the source has them, and proves what
    their users rely on. Paths below are relative to [byteps/] in the repository,
    except [P4/].

    ** The program and the files that model it

    The framework plugins share one shape: an _operation layer_ that hands named
    tensors to a native extension, _compressors_ that change what is sent, and an
    _optimizer wrapper_ that exchanges every gradient between backward pass and
    update. Launchers start the processes. Gradients are summed by one of three:
    the key-value servers of [byteps/server], the switch, or a software server
    that does what the switch does; the last two take packets of 1024 bytes from
    the DPDK client of the workers.

    - Language. [Prelude] (this file): exceptions as the type [exn], fallible
      code as [res], stateful code as the monad [M S A = S → res A * S] in which
      a raised exception keeps the state reached, Python dictionaries in
      insertion order as [odict]; the hint database and tactics. [PyStr]: the
      methods of [str] and the conversions of [int].
    - Start-up. [Basics]: [byteps/common/__init__.py]. [Launch], [LaunchProofs]:
      [launcher/launch.py]; the answers of the operating system are a parameter
      and the processes started are a list of effects. [DistLauncher] (module
      [Dist]): [launcher/dist_launcher.py]. [P4Control] (module [P4]):
      [P4/control.py] and [P4/setup_ports.py] as lists of driver calls.
      [LaunchDemo]: concrete inputs for these.
    - Tensors. [Tensor]: scalars as the class [Scalar], laws of exact arithmetic
      as [ScalarLaws] (asked for only where a theorem needs them), tensors as
      objects on a heap, so that in-place updates are seen through every
      reference.
    - PyTorch plugin. [TorchOps]: [byteps/torch/ops.py] on the state [ops]: the
      handle map, the extension's table of pending operations, the heap.
      [TorchCompression]: [torch/compression.py]. [DistOptim]: the whole of
      [_DistributedOptimizer] in [torch/__init__.py], one definition per method
      on the state [optim]; theorems in [DistOptimProofs] (construction, hooks),
      [DistSync] (one operation per tensor), [DistTopK] (batched gradients),
      concrete runs in [DistDemo]. [Broadcast]: the broadcasts of the same
      source. [IncaInit] (module [Inca]): the variant [torch/inca_init.py];
      [IncaVariant]: the methods it shares with the current one. [CrossBarrier]:
      [torch/cross_barrier.py], two threads as a transition system;
      [CrossBarrierOpt]: its SGD, Adam and RMSprop updates and module search.
      [DDP]: [torch/parallel/distributed.py]. [Training] and [TrainingDemo]
      compose hooks, [step] and the operation layer into the training loop of
      many workers.
    - Mixed precision. [HalfOpt] (module [Half]): the optimizer of
      [misc/imagenet18/__init__.py], with 16-bit parameters and 32-bit masters,
      hooks of forward and backward pass and the waiting loops; theorems in
      [HalfProofs] and [HalfStep], concrete runs in [HalfDemo]. [HalfInit]: the
      construction; [HalfBroadcast] (module [HalfBc]), [HalfBcProofs],
      [HalfBcAgree]: the broadcasts of parameters and optimizer state.
    - Other plugins. [MXNet] (module [Mx]): [byteps/mxnet]. [TFPlugin] (module
      [Tf]) and [TFProofs]: [byteps/tensorflow]. [Keras], [KerasProofs],
      [KerasDemo]: [byteps/_keras]. [CrossDevice] (modules [Cdo],
      [Collective]): [tensorflow/distribute/cross_device_ops.py]. [Mirrored]: device lists and
      the initialisation of [tensorflow/distribute/mirrored_strategy.py];
      [Replicas], [ReplicasProofs]: its replica threads, [merge_call] and the
      coordinator as a transition system.
    - Job tracker, [3rdparty/ps-lite/tracker]. [Rabit], [RabitProofs]: the tree
      and the ring of ranks; [Wire]: the messages on a connection, which the
      network delivers in arbitrary pieces; [Tracker], [TrackerProofs],
      [TrackerRun]: the handshake with a worker and the accept loop, on the
      monad [D S A] of computations that may wait for ever; [DmlcSubmit] (module
      [Dmlc]): the schedulers and the local, ssh and mpi launchers.

    - Compressors in C++, [byteps/common/compressor]. [BitIO]: machine words, the
      bit writer and reader and the Elias codes of [utils.h]; [Compressors] (module
      [Comp]), [CompressorProofs]: the 1-bit, top-k and random-k compressors;
      [Dithering] (module [Dither]), [Drive]: the other two; [CompObj]: compressor
      objects with error feedback and momentum around them, their parameters as
      strings, and the registry that makes them; [ErrorFeedback] (module [EF]),
      [Registry]: its theorems; [Exact]: the laws of exact arithmetic that some of
      them ask for; [CompDemo]: concrete inputs. Undefined behaviour and failed
      checks are values of [cres].
    - Server, [byteps/server]. [Server]: the handler of [server.cc] and its engine
      threads, as steps on the state of a key; [ServerProofs], [ServerSum],
      [ServerRounds], [ServerModes]: its theorems; [ServerDemo]: concrete runs.
    - Switch, [P4/]. [Packet]: headers, parser and deparser on bits. [Switch]: the
      control [AppIdSeq] with its registers as finite maps, the data registers, the
      recirculation of a packet and the forwarding tables; [SwitchProofs].
    - In-network aggregation, [byteps/common/dpdk]. [DpdkPkt]: the packets of
      [common/dpdk_pkt.h] and their bytes. [SoftPS], [SoftPSProofs]: the receiving
      thread of [server/ParameterServer.cc]. [Dpdk]: [client/dpdk_manager.cc] with
      its static arrays, one definition per thread's turn and per entry point, and
      buffers that pointers refer to. [IncaDemo]: packets run through switch and
      server. [Aggregation]: workers, server and network as a transition system:
      turns of the threads' loops in any order, lists of packets in flight from
      which any may be taken, or lost, and timeouts; [AggPieces], [AggWorker],
      [AggServer], [AggSystem]: its invariant, part by part; [AggLive]: progress;
      [AggDemo]: an instance.

    ** Interfaces

    Code outside the repository, or native, is a parameter with its documented
    behaviour as laws: [Extension]/[ExtensionLaws] (the C++ operations of the
    PyTorch plugin; the servers' reply is an arbitrary function that keeps the
    length), [TorchLib]/[TorchLibLaws] (tensor functions: rounding, [topk]),
    [Backend]/[BackendLaws] (the INCA compressors, which the repository names but
    does not contain, the native norm exchange, and the order in which Python
    enumerates a set of parameters), [IterOrder]/[IterOrderLaws] (the same for sets and
    dictionaries of ranks), [HostLaws] (ports and random numbers), [OptMath], [Native]
    (conversions and rounding of C++ floating-point numbers), and the
    record [Tf.runtime] for TensorFlow.
    The theorems of a client are proved against these classes; the modules named
    [...Demo] instantiate them and apply every theorem to a concrete state.

    ** What the theorems show

    - Operations: every sequence of calls of any of the functions, failing ones included, keeps the
      handle map and the extension's table in agreement ([TorchOps.ops_steps_inv]);
      waiting returns the servers' reply and releases exactly that handle
      ([synchronize_pending]).
    - Compression: what [decompress] returns after [compress] as long as at most half of
      the elements are sent (beyond that it raises), that the largest elements are chosen, and that error feedback loses nothing over any number
      of rounds ([topk_roundtrip], [topk_selects_largest], [topk_error_feedback]).
    - Optimizers: [synchronize] gives every gradient the average and leaves
      nothing pending without compression ([DistSync.synchronize_reduces]); with top-k
      it gives what the servers' reply names, whatever that is, and servers that sum
      the messages of several workers sum positions ([DistTopK.synchronize_topk_keeps]); the
      updates of the cross-barrier optimizer, with Adam's averages in closed form and
      its errors ([CrossBarrierOpt.adam_spec]); the
      counters that limit backward passes ([hook_passes]); the declared order is
      the same on all workers ([dist_init_spec]); the norm exchange makes workers
      agree ([Inca.max_norm_agreement]); one backward pass of data-parallel
      training ([DDP.ddp_backward_pass]).
    - Variants: the earlier optimizer does what the current one does, unless gradients
      are compressed in a batch ([IncaVariant.variants_agree]).
    - Composition: any number of training iterations on many workers, hooks in any
      order, computes what one machine computes with averaged gradients
      ([Training.data_parallel_refines]).
    - Mixed precision: [step] ends once the servers answer and updates every
      parameter once, a forward pass waits for its layer's parameters, what the
      pass counter allows, and its SGD is the cross-barrier optimizer's
      ([half_step_spec], [forward_hook_waits], [half_hook_passes],
      [sgd_updates_equivalent]).
    - Broadcasts: all workers end with the root's values ([Broadcast], [Mx],
      [TfProofs]), objects included.
    - Two threads: a parameter's lock is held exactly while its exchange is in
      flight, the forward pass never reads a stale parameter, the poller drains
      its queue; and the run in which the last step ends too early
      ([CrossBarrier.final_step_incomplete]).
    - TensorFlow and Keras: averaging on every branch of [push_pull], the
      optimizer's two modes, linear warm-up, momentum correction, metrics, packing. The replica threads
      refine a lockstep computation in every interleaving, without deadlock
      ([replicas_lockstep]); device lists of a cluster are taken apart as they were
      made, and several workers cannot be initialised ([Mirrored]); the collective
      all-reduce never works ([Collective.collective_never_reduces]).
    - Job tracker: messages are read back however they are cut ([wire_roundtrip]),
      the links form a ring and a binary tree ([link_map_spec]), a job of any size
      is served to its end ([tracker_completes]), and all processes of a local job
      are told where to meet ([local_job_rendezvous]).
    - Compressors in C++: what the receiver reconstructs and what the error keeps
      ([onebit_spec], [topk_compress_spec], [dithering_spec], and [drive_spec], which holds
      when [NDEBUG] is defined: otherwise an assertion aborts every call; the class [Build]
      has that choice); with the first three kinds (1-bit, top-k, random-k) nothing is lost over any
      number of rounds of error feedback ([error_feedback_telescopes]); parameters
      survive their string form ([serialize_roundtrip]).
    - Server: workers go through [T] rounds on a key, each on its own, and a message of
      the engine is two steps, [prepare] and [execute]. What a worker receives is the
      merged buffer after the rounds' messages in some order of arrival ([round_agrees]), without
      a compressor the sum over all workers ([server_sums]), except that a late pull can
      see what others push for the next round ([late_pull_reads_next_round]); without a compressor nobody is stuck or aborts
      ([round_terminates]); keys are spread evenly
      ([keys_balanced]); in asynchronous mode nothing is ever answered
      ([no_result_without_engine]).
    - Switch and software server: what a round of packets leaves and what is sent
      back or recirculated in each pass ([switch_aggregates], [registers_inv]), and what four passes
      add up to ([recirculation_recounts]); the two
      do the same, packet by packet ([ps_mirrors_switch]); headers are read as they
      were written ([worker_packet_parses], [parse_deparse]).
    - Aggregation as a whole: every reported tensor is the sum over all workers
      ([aggregation_exact]); with losses and timeouts a buffer has only own gradients
      and full sums, block by block ([aggregation_safe]); the system always can, and
      after boundedly many steps must, come to its end ([aggregation_live],
      [aggregation_terminates]).
    - Launchers and switch control: CPU sets are enough, and disjoint if hyper-threading
      siblings are numbered as the launcher takes them to be ([allocate_cpu_disjoint]), every rank is
      started and its failure reported, host files and CPU lists are read back
      as written, port numbers and bit maps are packed without loss.

    ** Fuel and bounds

    Recursion follows the data almost everywhere. [dec_while] (the quota loop of
    [allocate_cpu]) has the start value as fuel, which it decreases at each turn;
    [find_submodules] has the size of the module tree; [range_step] the length of
    the list, each step being at least one. In each case the theorem shows that
    the fuel is enough ([allocate_cpu_complete], [hooked_modules_leaves],
    [chunks_partition]). [find_share_ring] recurses to Python's recursion limit, a
    parameter, of which [link_map_spec] needs the logarithm of the number of
    workers. [recv_loop] has the bytes wanted as fuel and [link_loop] the bytes that
    have arrived: each turn uses one, and running out means that the peer sends no
    more, so that the code waits for ever. The waiting loops of [HalfOpt] depend on
    the servers: if every operation is answered eventually some fuel is enough, and
    more does not change the result. In C++ and P4 integers have their width, with
    the wrap-around written as [wrap]; loops that scan bits have the length of the
    words as fuel, [push_loop] the length of the tensor, of which every turn takes
    one byte at least. Transition systems need no fuel: that they end is a theorem
    about the number of steps. Python integers are unbounded and are [Z]; port
    arithmetic uses the bit operations of [Z]. Floating-point numbers are an
    abstract [Scalar].

    ** Not modelled

    The C++ core between the plugins and the network ([operations.cc],
    [core_loops.cc], [scheduled_queue.cc], NCCL and shared memory), of which the
    plugins' models assume what [Extension] says; the priorities of the server's
    queue; the two INCA compressors, which the repository does not contain;
    variables, datasets and graph contexts of the mirrored strategy, which follow
    TensorFlow's internal classes; the egress of the switch, which stamps the time;
    the variants of the client and the server under [NEW_INCA] and
    [USE_TX_THREAD], which are not compiled; set-up of DPDK and ports; pickling,
    argument parsing, printing, logging and timing; [setup.py], examples and tests.

    The model of the aggregation assumes that the switch passes the server's
    replies (Ethernet type 0x0d00) on to all workers, that the network does not
    duplicate packets (the server would count them twice), that a turn of a loop
    is one step and [Reset] of an aggregator another, though some of their locks are
    commented out, that all workers push the same tensors in the same order from
    buffers of their own, that a key comes round again only after its last piece is
    complete, and that no sum of bytes exceeds a byte. *)

From stdpp Require Export base gmap strings list fin_maps pretty sorting.
From Stdlib Require Import Ascii.

Declare Scope py_scope.
Delimit Scope py_scope with py.
#[global] Open Scope string_scope.
#[global] Open Scope Z_scope.
#[global] Open Scope list_scope.

(** ** Python exceptions and fallible computations *)

(** The exception classes the sources raise, or that the language and the
    libraries raise for them. [SystemExit c] is [os._exit(c)]: it ends the
    process and is not caught by [except Exception]. [Exception_] is the base class
    itself. *)
Inductive exn : Set :=
  | ValueError | TypeError | KeyError | IndexError | AttributeError
  | AssertionError | RuntimeError | NameError | UnboundLocalError
  | ImportError | OSError | ZeroDivisionError | StructError | Exception_
  | CalledProcessError (code : Z) | SystemExit (code : Z).

#[export] Instance exn_eq_dec : EqDecision exn.
Proof. solve_decision. Defined.

Inductive res (A : Type) : Type :=
  | Ok (a : A)
  | Raise (e : exn).
Arguments Ok {A} _.
Arguments Raise {A} _.

#[export] Instance res_eq_dec {A} `{EqDecision A} : EqDecision (res A).
Proof. solve_decision. Defined.

#[export] Instance res_ret : MRet res := @Ok.
#[export] Instance res_bind : MBind res := λ A B f m,
  match m with Ok a => f a | Raise e => Raise e end.
#[export] Instance res_fmap : FMap res := λ A B f m,
  match m with Ok a => Ok (f a) | Raise e => Raise e end.

(** [x if x is not None else raise e] *)
Definition or_raise {A} (e : exn) (o : option A) : res A :=
  match o with Some a => Ok a | None => Raise e end.

(** [assert b] *)
Definition py_assert (b : bool) : res () :=
  if b then Ok () else Raise AssertionError.

Definition is_ok {A} (r : res A) : bool :=
  match r with Ok _ => true | Raise _ => false end.

(** ** Stateful Python code

    A method is a function of the state it mutates; what it did to the state
    before an exception stays done. *)
Definition M (S A : Type) : Type := S → res A * S.

#[export] Instance M_ret {S} : MRet (M S) := λ A a s, (Ok a, s).
#[export] Instance M_bind {S} : MBind (M S) := λ A B f m s,
  match m s with
  | (Ok a, s') => f a s'
  | (Raise e, s') => (Raise e, s')
  end.
#[export] Instance M_fmap {S} : FMap (M S) := λ A B f m s,
  match m s with
  | (Ok a, s') => (Ok (f a), s')
  | (Raise e, s') => (Raise e, s')
  end.

Definition raise {S A} (e : exn) : M S A := λ s, (Raise e, s).
Definition get {S} : M S S := λ s, (Ok s, s).
Definition gets {S A} (f : S → A) : M S A := λ s, (Ok (f s), s).
Definition modify {S} (f : S → S) : M S () := λ s, (Ok (), f s).
Definition lift {S A} (r : res A) : M S A := λ s, (r, s).
Definition m_assert {S} (b : bool) : M S () := lift (py_assert b).

(** Code that works on one component of the state. *)
Definition zoom {S T A} (prj : S → T) (upd : T → S → S) (m : M T A) : M S A := λ s,
  let '(r, t) := m (prj s) in (r, upd t s).

(** [for x in l: body(x)] *)
Fixpoint for_each {S A} (body : A → M S ()) (l : list A) : M S () :=
  match l with
  | [] => mret ()
  | x :: l' => body x;; for_each body l'
  end.

(** [foldl] with effects. *)
Fixpoint foldM {S A B} (f : B → A → M S B) (b : B) (l : list A) : M S B :=
  match l with
  | [] => mret b
  | x :: l' => b' ← f b x; foldM f b' l'
  end.

Section monad_lemmas.
Context {S : Type}.

Lemma bind_Ok {A B} (m : M S A) (f : A → M S B) s a s' :
  m s = (Ok a, s') → (m ≫= f) s = f a s'.
Proof. unfold mbind, M_bind. by intros ->. Qed.

Lemma bind_Raise {A B} (m : M S A) (f : A → M S B) s e s' :
  m s = (Raise e, s') → (m ≫= f) s = (Raise e, s').
Proof. unfold mbind, M_bind. by intros ->. Qed.

Lemma for_each_app {A} (body : A → M S ()) l1 l2 s s' :
  for_each body l1 s = (Ok (), s') →
  for_each body (l1 ++ l2) s = for_each body l2 s'.
Proof.
  revert s. induction l1 as [|x l1 IH]; simpl; intros s H.
  { unfold mret, M_ret in H. by simplify_eq. }
  unfold mbind, M_bind in *. destruct (body x s) as [[[]|] s1]; [|done].
  by apply IH.
Qed.

Lemma for_each_app_eq {A} (body : A → M S ()) l1 l2 s :
  for_each body (l1 ++ l2) s = (for_each body l1;; for_each body l2) s.
Proof.
  revert s. induction l1 as [|x l1 IH]; intros s; simpl; [done|].
  unfold mbind, M_bind in *. destruct (body x s) as [[[]|] s1]; [|done]. apply IH.
Qed.

Lemma for_each_concat {A} (body : A → M S ()) ls s :
  for_each (for_each body) ls s = for_each body (concat ls) s.
Proof.
  revert s. induction ls as [|l ls IH]; intros s; simpl; [done|].
  rewrite for_each_app_eq. unfold mbind, M_bind.
  destruct (for_each body l s) as [[[]|] s1]; [|done]. apply IH.
Qed.

Lemma for_each_ext {A} (f g : A → M S ()) l st :
  (∀ x st, x ∈ l → f x st = g x st) → for_each f l st = for_each g l st.
Proof.
  revert st. induction l as [|x l IH]; intros st E; simpl; [done|].
  unfold mbind, M_bind. rewrite E by left. destruct (g x st) as [[[]|e] st']; [|done].
  apply IH. intros y st1 Hy. apply E. by right.
Qed.

(** Loop rule: an invariant indexed by what has been processed. *)
Lemma for_each_inv {A} (body : A → M S ()) (I : list A → S → Prop) l s :
  I [] s →
  (∀ done x rest s, l = done ++ x :: rest → I done s →
     ∃ s', body x s = (Ok (), s') ∧ I (done ++ [x]) s') →
  ∃ s', for_each body l s = (Ok (), s') ∧ I l s'.
Proof.
  intros H0 Hstep.
  cut (∀ todo dn s, l = dn ++ todo → I dn s →
         ∃ s', for_each body todo s = (Ok (), s') ∧ I l s').
  { intros H. by apply (H l []). }
  induction todo as [|x todo IH]; intros dn s' Hl Hi.
  { rewrite app_nil_r in Hl. subst. by exists s'. }
  destruct (Hstep dn x todo s' Hl Hi) as (s1 & Hb & Hi1).
  simpl. rewrite (bind_Ok _ _ _ _ _ Hb).
  apply (IH (dn ++ [x])); [|done]. by rewrite <-app_assoc.
Qed.

Lemma foldM_app {A B} (f : B → A → M S B) b l1 l2 st :
  foldM f b (l1 ++ l2) st = (foldM f b l1 ≫= λ b', foldM f b' l2) st.
Proof.
  revert b st. induction l1 as [|x l1 IH]; intros b st; [done|]. cbn [app foldM].
  unfold mbind, M_bind in *. destruct (f b x st) as [[b'|e] st']; [apply IH|done].
Qed.

Lemma foldM_inv {A B} (f : B → A → M S B) (I : list A → B → S → Prop) l b s :
  I [] b s →
  (∀ dn x rest b s, l = dn ++ x :: rest → I dn b s → ∃ b' s', f b x s = (Ok b', s') ∧ I (dn ++ [x]) b' s') →
  ∃ b' s', foldM f b l s = (Ok b', s') ∧ I l b' s'.
Proof.
  intros H0 Hstep. cut (∀ todo dn b s, l = dn ++ todo → I dn b s →
    ∃ b' s', foldM f b todo s = (Ok b', s') ∧ I l b' s').
  { intros Hc. by apply (Hc l []). }
  induction todo as [|x todo IH]; intros dn b1 s1 El HI; cbn [foldM].
  - rewrite app_nil_r in El. subst. by exists b1, s1.
  - destruct (Hstep dn x todo b1 s1 El HI) as (b2 & s2 & E & HI2).
    destruct (IH (dn ++ [x]) b2 s2) as (b3 & s3 & E3 & HI3); [by rewrite <-app_assoc|done|].
    exists b3, s3. split; [|done]. by erewrite bind_Ok by exact E.
Qed.
End monad_lemmas.

(** ** Code that may not return

    [D S A] is like [M S A], with [None] for a call that never returns, or that
    has not returned when its fuel is used up. *)
Definition D (S A : Type) : Type := S → option (res A * S).

#[export] Instance D_ret {S} : MRet (D S) := λ A a s, Some (Ok a, s).
#[export] Instance D_bind {S} : MBind (D S) := λ A B f m s,
  match m s with
  | Some (Ok a, s') => f a s'
  | Some (Raise e, s') => Some (Raise e, s')
  | None => None
  end.

Definition run {S A} (m : M S A) : D S A := λ s, Some (m s).
Definition never {S A} : D S A := λ _, None.
Definition zoomD {S T A} (prj : S → T) (upd : T → S → S) (m : D T A) : D S A := λ s,
  match m (prj s) with Some (r, t) => Some (r, upd t s) | None => None end.

Fixpoint for_eachD {S A} (body : A → D S ()) (l : list A) : D S () :=
  match l with
  | [] => mret ()
  | x :: l' => body x;; for_eachD body l'
  end.

Lemma D_bind_Ok {S A B} (m : D S A) (f : A → D S B) s a s' :
  m s = Some (Ok a, s') → (m ≫= f) s = f a s'.
Proof. unfold mbind, D_bind. by intros ->. Qed.

Lemma D_bind_Raise {S A B} (m : D S A) (f : A → D S B) s e s' :
  m s = Some (Raise e, s') → (m ≫= f) s = Some (Raise e, s').
Proof. unfold mbind, D_bind. by intros ->. Qed.

Lemma D_bind_never {S A B} (m : D S A) (f : A → D S B) s : m s = None → (m ≫= f) s = None.
Proof. unfold mbind, D_bind. by intros ->. Qed.

(** ** Insertion-ordered dictionaries

    [dict] iterates in insertion order and assignment to an existing key keeps
    its position; both matter where the code batches tensors by iterating over
    [self._handles]. *)
Definition odict (K V : Type) := list (K * V).

Section odict.
Context {K V : Type} `{EqDecision K}.
Implicit Types (d : odict K V) (k : K) (v : V).

Fixpoint od_get k d : option V :=
  match d with
  | [] => None
  | (k', v) :: d' => if decide (k = k') then Some v else od_get k d'
  end.

Fixpoint od_set k v d : odict K V :=
  match d with
  | [] => [(k, v)]
  | (k', v') :: d' => if decide (k = k') then (k', v) :: d' else (k', v') :: od_set k v d'
  end.

Fixpoint od_del k d : odict K V :=
  match d with
  | [] => []
  | (k', v') :: d' => if decide (k = k') then d' else (k', v') :: od_del k d'
  end.

Definition od_keys d : list K := d.*1.
Definition od_mem k d : bool := bool_decide (k ∈ od_keys d).

Lemma od_get_set_eq k v d : od_get k (od_set k v d) = Some v.
Proof.
  induction d as [|[k' v'] d IH]; simpl; [by rewrite decide_True|].
  case_decide; simpl; by case_decide.
Qed.

Lemma od_get_set_ne k k' v d : k ≠ k' → od_get k' (od_set k v d) = od_get k' d.
Proof.
  intros Hne. induction d as [|[k1 v1] d IH]; simpl.
  { by rewrite decide_False by done. }
  destruct (decide (k = k1)) as [->|]; simpl.
  - by rewrite !(decide_False (P := k' = k1)) by done.
  - by case_decide.
Qed.

Lemma od_keys_set_in k v d : k ∈ od_keys d → od_keys (od_set k v d) = od_keys d.
Proof.
  unfold od_keys. induction d as [|[k' v'] d IH]; simpl; [set_solver|].
  intros Hin. case_decide; simpl; [done|]. f_equal. apply IH. set_solver.
Qed.

Lemma od_keys_set_new k v d : k ∉ od_keys d → od_keys (od_set k v d) = od_keys d ++ [k].
Proof.
  unfold od_keys. induction d as [|[k' v'] d IH]; simpl; [done|].
  intros Hin. rewrite decide_False by set_solver. simpl. f_equal. apply IH. set_solver.
Qed.

Lemma od_set_new k v d : k ∉ od_keys d → od_set k v d = d ++ [(k, v)].
Proof.
  unfold od_keys. induction d as [|[k' v'] d IH]; simpl; [done|].
  intros Hin. rewrite decide_False by set_solver. f_equal. apply IH. set_solver.
Qed.

Lemma od_keys_set_elem k k' v d :
  k' ∈ od_keys (od_set k v d) ↔ k' = k ∨ k' ∈ od_keys d.
Proof.
  destruct (decide (k ∈ od_keys d)).
  - rewrite od_keys_set_in by done. naive_solver.
  - rewrite od_keys_set_new by done. set_solver.
Qed.

Lemma od_keys_set_NoDup k v d : NoDup (od_keys d) → NoDup (od_keys (od_set k v d)).
Proof.
  intros Hnd. destruct (decide (k ∈ od_keys d)).
  - by rewrite od_keys_set_in.
  - rewrite od_keys_set_new by done. apply NoDup_app; split_and!; [done| |apply NoDup_singleton].
    set_solver.
Qed.

Lemma od_get_Some_elem k v d : od_get k d = Some v → (k, v) ∈ d.
Proof.
  induction d as [|[k' v'] d IH]; simpl; [done|].
  case_decide; [intros; simplify_eq; left|]. intros. right. by apply IH.
Qed.

Lemma od_get_None k d : od_get k d = None ↔ k ∉ od_keys d.
Proof.
  unfold od_keys. induction d as [|[k' v'] d IH]; simpl; [set_solver|].
  case_decide; [set_solver|]. rewrite IH. set_solver.
Qed.

Lemma od_get_del k d : NoDup (od_keys d) → od_get k (od_del k d) = None.
Proof.
  unfold od_keys. induction d as [|[k' v'] d IH]; simpl; [done|].
  intros [Hk Hnd]%NoDup_cons. case_decide as E; simpl.
  - subst. by apply od_get_None.
  - rewrite decide_False by done. by apply IH.
Qed.

Lemma od_get_del_ne k k' d : k ≠ k' → od_get k (od_del k' d) = od_get k d.
Proof.
  intros Hne. induction d as [|[k1 v1] d IH]; simpl; [done|].
  destruct (decide (k' = k1)) as [->|]; simpl.
  - by rewrite (decide_False (P := k = k1)).
  - by rewrite IH.
Qed.

Lemma od_keys_del_NoDup k d : NoDup (od_keys d) → NoDup (od_keys (od_del k d)).
Proof.
  intros Hnd. assert (od_keys (od_del k d) `sublist_of` od_keys d) as Hs.
  { unfold od_keys. clear. induction d as [|[k1 v1] d IH]; simpl; [done|].
    case_decide; simpl; [by apply sublist_cons|by apply sublist_skip]. }
  eapply sublist_NoDup; [exact Hnd|exact Hs].
Qed.

Lemma od_get_is_Some k d : is_Some (od_get k d) ↔ k ∈ od_keys d.
Proof.
  destruct (od_get k d) eqn:E.
  - split; [|done]. intros _. apply od_get_Some_elem in E.
    unfold od_keys. apply list_elem_of_fmap. by exists (k, v).
  - apply od_get_None in E. split; [by intros []|done].
Qed.

Lemma od_get_elem_NoDup k v d : NoDup (od_keys d) → (k, v) ∈ d → od_get k d = Some v.
Proof.
  unfold od_keys. induction d as [|[k' v'] d IH]; simpl; [set_solver|].
  intros Hnd Hin. apply NoDup_cons in Hnd as [Hk Hnd].
  apply elem_of_cons in Hin as [?|Hin]; [simplify_eq; by rewrite decide_True|].
  rewrite decide_False; [by apply IH|]. intros ->. apply Hk.
  apply list_elem_of_fmap. by exists (k', v).
Qed.
End odict.

(** ** Lists *)

Lemma NoDup_of_submseteq {A} (l k : list A) : NoDup k → l ⊆+ k → NoDup l.
Proof.
  intros Hk [r E]%submseteq_Permutation. rewrite E in Hk. by apply NoDup_app in Hk as [? _].
Qed.

Lemma filter_all {A} (P : A → Prop) `{∀ x, Decision (P x)} (l : list A) :
  (∀ x, x ∈ l → P x) → filter P l = l.
Proof.
  induction l as [|x l IH]; intros HP; [done|].
  rewrite filter_cons, decide_True by (apply HP; left). f_equal.
  apply IH. intros y Hy. apply HP. by right.
Qed.

Lemma filter_none {A} (P : A → Prop) `{∀ x, Decision (P x)} (l : list A) :
  (∀ x, x ∈ l → ¬ P x) → filter P l = [].
Proof.
  induction l as [|x l IH]; intros HP; [done|].
  rewrite filter_cons, decide_False by (apply HP; left).
  apply IH. intros y Hy. apply HP. by right.
Qed.

Lemma Forall2_impl_in {A B} (P Q : A → B → Prop) l k :
  Forall2 P l k → (∀ x y, x ∈ l → P x y → Q x y) → Forall2 Q l k.
Proof.
  induction 1 as [|x y l k Hxy _ IH]; intros HPQ; constructor.
  - apply HPQ; [left|done].
  - apply IH. intros. apply HPQ; [by right|done].
Qed.

Lemma flat_map_ext_elem {A B} (f g : A → list B) l :
  (∀ x, x ∈ l → f x = g x) → flat_map f l = flat_map g l.
Proof.
  induction l as [|x l IH]; intros E; simpl; [done|].
  rewrite E, IH; [done| |left]. intros y Hy. apply E. by right.
Qed.

Create HintDb py.
#[export] Hint Rewrite @od_get_set_eq : py.
#[export] Hint Resolve od_keys_set_NoDup : py.
