(* ===== verification/PyStr.v ===== *)
(** * Python [str] and [int] operations

    The string methods the launchers and the MXNet bindings call ([split],
    [join], [find], [strip], [lower], [startswith]) and the conversions
    [str(int)] and [int(str)], on strings of single-byte characters, with the
    round trips between them. *)

From Stdlib Require Import Ascii.
From S2P Require Import Prelude.

(** ** Character classes *)

Definition in_range (lo hi : nat) (c : ascii) : bool :=
  (lo <=? nat_of_ascii c)%nat && (nat_of_ascii c <=? hi)%nat.

(** [str.isspace] on a character below 256. *)
Definition is_space (c : ascii) : bool :=
  in_range 9 13 c || in_range 28 32 c ||
  Ascii.eqb c (ascii_of_nat 133) || Ascii.eqb c (ascii_of_nat 160).

Definition digit_val (c : ascii) : option Z :=
  if in_range 48 57 c then Some (Z.of_nat (nat_of_ascii c) - 48) else None.

Definition lower_char (c : ascii) : ascii :=
  if in_range 65 90 c then ascii_of_nat (nat_of_ascii c + 32) else c.

Fixpoint str_forall (p : ascii → bool) (s : string) : bool :=
  match s with
  | "" => true
  | String c s' => p c && str_forall p s'
  end.

(** ** Methods *)

(** [s.lower()] *)
Fixpoint py_lower (s : string) : string :=
  match s with
  | "" => ""
  | String c s' => String (lower_char c) (py_lower s')
  end.

Fixpoint lstrip_by (p : ascii → bool) (s : string) : string :=
  match s with
  | "" => ""
  | String c s' => if p c then lstrip_by p s' else s
  end.

Fixpoint rstrip_by (p : ascii → bool) (s : string) : string :=
  match s with
  | "" => ""
  | String c s' =>
      match rstrip_by p s' with
      | "" => if p c then "" else String c ""
      | r => String c r
      end
  end.

Definition strip_by (p : ascii → bool) (s : string) : string := rstrip_by p (lstrip_by p s).

(** [s.strip()] and [s.strip(c)] *)
Definition py_strip : string → string := strip_by is_space.
Definition py_strip_char (c : ascii) : string → string := strip_by (Ascii.eqb c).

(** [s.split(c)] with a one-character separator. *)
Fixpoint py_split (sep : ascii) (s : string) : list string :=
  match s with
  | "" => [""]
  | String c s' =>
      if Ascii.eqb c sep then "" :: py_split sep s'
      else match py_split sep s' with
           | w :: ws => String c w :: ws
           | [] => [String c ""]
           end
  end.

(** [sep.join(l)] *)
Definition py_join (sep : string) (l : list string) : string := String.concat sep l.

(** [s.find(c)] for a one-character argument, [None] standing for [-1]; and
    [s.find(sub)]. *)
Fixpoint py_find_char (c : ascii) (s : string) : option nat :=
  match s with
  | "" => None
  | String c' s' => if Ascii.eqb c' c then Some O else S <$> py_find_char c s'
  end.
Definition py_find (sub s : string) : option nat := String.index 0 sub s.

(** [s.startswith(p)] *)
Definition py_startswith (p s : string) : bool := String.prefix p s.

(** [s[:i]] and [s[i:]] for [0 <= i]. *)
Fixpoint str_take (i : nat) (s : string) : string :=
  match i, s with
  | S i', String c s' => String c (str_take i' s')
  | _, _ => ""
  end.
Fixpoint str_drop (i : nat) (s : string) : string :=
  match i, s with
  | S i', String _ s' => str_drop i' s'
  | O, _ => s
  | S _, "" => ""
  end.

Definition py_endswith_char (c : ascii) (s : string) : bool :=
  match String.get (String.length s - 1) s with Some c' => Ascii.eqb c c' | None => false end.

(** [os.path.join(a, b)] for a relative [b]. *)
Definition path_join (a b : string) : string :=
  if String.eqb a "" || py_endswith_char "/" a then a +:+ b else a +:+ "/" +:+ b.

(** [str(z)] *)
Definition py_str (z : Z) : string := pretty z.

(** The digits of [int(s)]: single underscores may separate digits. *)
Fixpoint int_go (acc : Z) (after_digit : bool) (s : string) : option Z :=
  match s with
  | "" => if after_digit then Some acc else None
  | String c s' =>
      match digit_val c with
      | Some d => int_go (acc * 10 + d) true s'
      | None => if Ascii.eqb c "_" && after_digit then int_go acc false s' else None
      end
  end.

(** [int(s)]: surrounding white space and one sign are accepted; anything else
    that is not a decimal numeral raises [ValueError]. *)
Definition int_signed (s : string) : option Z :=
  match s with
  | "" => None
  | String c s' =>
      if Ascii.eqb c "-" then Z.opp <$> int_go 0 false s'
      else if Ascii.eqb c "+" then int_go 0 false s'
      else int_go 0 false s
  end.
Definition py_int_opt (s : string) : option Z := int_signed (py_strip s).
Definition py_int (s : string) : res Z := or_raise ValueError (py_int_opt s).

(** The process environment. *)
Notation env := (gmap string string).

(** [os.getenv(k, d)] *)
Definition getenv (e : env) (k d : string) : string := default d (e !! k).

(** [int(os.getenv(k, d))] where the default [d] is an integer already. *)
Definition getenv_int (e : env) (k : string) (d : Z) : res Z :=
  match e !! k with Some s => py_int s | None => Ok d end.

(** ** Properties *)

Lemma str_app_assoc s t u : (s +:+ t) +:+ u = s +:+ (t +:+ u).
Proof. induction s as [|c s IH]; [done|]. exact (f_equal (String c) IH). Qed.

Lemma str_app_nil_r s : s +:+ "" = s.
Proof. induction s as [|c s IH]; [done|]. exact (f_equal (String c) IH). Qed.

Lemma str_forall_app p s t : str_forall p (s +:+ t) = str_forall p s && str_forall p t.
Proof. induction s; simpl; [done|]. by rewrite IHs, andb_assoc. Qed.

Lemma str_forall_impl (p q : ascii → bool) s :
  (∀ c, p c → q c) → str_forall p s → str_forall q s.
Proof.
  intros Hpq. induction s as [|c s IH]; simpl; [done|].
  rewrite !andb_True. naive_solver.
Qed.

Lemma lstrip_none p s : str_forall (λ c, negb (p c)) s → lstrip_by p s = s.
Proof. destruct s as [|c s]; simpl; [done|]. by destruct (p c). Qed.

Lemma rstrip_none p s : str_forall (λ c, negb (p c)) s → rstrip_by p s = s.
Proof.
  induction s as [|c s IH]; simpl; [done|].
  rewrite andb_True. intros [Hc Hs]. rewrite IH by done.
  destruct s; [|done]. by destruct (p c).
Qed.

Lemma strip_none p s : str_forall (λ c, negb (p c)) s → strip_by p s = s.
Proof. intros. unfold strip_by. by rewrite lstrip_none, rstrip_none by (by rewrite ?lstrip_none). Qed.

Lemma py_split_nonempty sep s : py_split sep s ≠ [].
Proof. destruct s; simpl; [done|]. case_match; [done|]. by case_match. Qed.

Lemma py_split_none sep s : str_forall (λ c, negb (Ascii.eqb c sep)) s → py_split sep s = [s].
Proof.
  induction s as [|c s IH]; simpl; [done|].
  rewrite andb_True. intros [Hc Hs]. destruct (Ascii.eqb c sep); [done|]. by rewrite IH.
Qed.

Lemma py_split_app sep s t :
  str_forall (λ c, negb (Ascii.eqb c sep)) s →
  py_split sep (s +:+ String sep t) = s :: py_split sep t.
Proof.
  induction s as [|c s IH]; simpl.
  { by rewrite Ascii.eqb_refl. }
  rewrite andb_True. intros [Hc Hs]. destruct (Ascii.eqb c sep); [done|]. by rewrite IH.
Qed.

(** [sep.join(l).split(sep) == l] when no element contains the separator. *)
Lemma py_split_join sep l :
  l ≠ [] → Forall (λ s, Is_true (str_forall (λ c, negb (Ascii.eqb c sep)) s)) l →
  py_split sep (py_join (String sep "") l) = l.
Proof.
  unfold py_join. intros Hne Hl. induction Hl as [|s l Hs Hl IH]; [done|].
  destruct l as [|t l]; [by apply py_split_none|].
  change (py_split sep (s +:+ String sep (String.concat (String sep "") (t :: l))) = s :: t :: l).
  rewrite py_split_app by done. f_equal. by apply IH.
Qed.

Lemma digit_val_pretty x :
  (x < 10)%N → digit_val (pretty_N_char x) = Some (Z.of_N x).
Proof.
  intros H. assert (x = 0 ∨ x = 1 ∨ x = 2 ∨ x = 3 ∨ x = 4 ∨ x = 5 ∨ x = 6
    ∨ x = 7 ∨ x = 8 ∨ x = 9)%N as Hx by lia.
  by repeat (destruct Hx as [->|Hx]; [done|]); subst.
Qed.

Definition is_digit (c : ascii) : bool := in_range 48 57 c.

Lemma pretty_N_char_digit x : is_digit (pretty_N_char x).
Proof. unfold pretty_N_char. by repeat case_match. Qed.

Lemma pretty_N_go_digits x s : str_forall is_digit s → str_forall is_digit (pretty_N_go x s).
Proof.
  revert s. induction (N.lt_wf_0 x) as [x _ IH]; intros s Hs.
  destruct (decide (x = 0)%N) as [->|]; [done|].
  rewrite pretty_N_go_step by lia. apply IH; [by apply N.div_lt; lia|].
  simpl. rewrite andb_True. split; [apply pretty_N_char_digit|done].
Qed.

Lemma pretty_N_digits (x : N) : str_forall is_digit (pretty x).
Proof. unfold pretty, pretty_N. case_decide; [done|]. by apply pretty_N_go_digits. Qed.

Lemma int_go_pretty x b s :
  (0 < x)%N → int_go 0 b (pretty_N_go x s) = int_go (Z.of_N x) true s.
Proof.
  revert b s. induction (N.lt_wf_0 x) as [x _ IH]; intros b s Hx.
  rewrite pretty_N_go_step by done.
  destruct (decide (x < 10)%N) as [Hlt|Hge].
  - rewrite N.div_small, pretty_N_go_0 by done. simpl.
    rewrite digit_val_pretty by (apply N.mod_lt; lia).
    rewrite N.mod_small by done. f_equal.
  - rewrite IH; [|by apply N.div_lt; lia|by apply N.div_str_pos; lia].
    simpl. rewrite digit_val_pretty by (apply N.mod_lt; lia).
    f_equal. pose proof (N.div_mod x 10). lia.
Qed.

Lemma int_go_pretty_N b (x : N) : int_go 0 b (pretty x) = Some (Z.of_N x).
Proof.
  unfold pretty, pretty_N. case_decide as Hx; [by subst|].
  rewrite int_go_pretty by lia. done.
Qed.

Lemma digit_not_space c : is_digit c → negb (is_space c).
Proof. destruct c as [[] [] [] [] [] [] [] []]; vm_compute; done. Qed.

Lemma pretty_Z_not_space (z : Z) : str_forall (λ c, negb (is_space c)) (pretty z).
Proof.
  assert (∀ n : N, str_forall (λ c, negb (is_space c)) (pretty n)).
  { intros n. eapply str_forall_impl, pretty_N_digits. apply digit_not_space. }
  destruct z as [|p|p]; simpl; [done|apply (H (Npos p))|].
  unfold pretty, pretty_Z. rewrite str_forall_app, andb_True. split; [done|apply (H (Npos p))].
Qed.

Lemma first_digit_sign s : str_forall is_digit s → int_signed s = int_go 0 false s.
Proof.
  destruct s as [|c s]; simpl; [done|]. rewrite andb_True. intros [Hc _].
  destruct c as [[] [] [] [] [] [] [] []]; (done || by exfalso; vm_compute in Hc).
Qed.

(** [int(str(z)) == z] *)
Lemma py_int_str (z : Z) : py_int (py_str z) = Ok z.
Proof.
  unfold py_int, py_int_opt, py_str, py_strip.
  rewrite strip_none by apply pretty_Z_not_space.
  destruct z as [|p|p]; [done| |].
  - change (pretty (Z.pos p)) with (pretty (N.pos p)).
    rewrite first_digit_sign by apply pretty_N_digits. by rewrite int_go_pretty_N.
  - change (pretty (Z.neg p)) with (String "-" (pretty (N.pos p))). simpl.
    by rewrite int_go_pretty_N.
Qed.
#[export] Hint Rewrite py_int_str : py.

(** A numeral contains no separator the sources split on. *)
Lemma pretty_nonneg_forall (p : ascii → bool) z :
  (∀ c, is_digit c → p c) → 0 ≤ z → str_forall p (py_str z).
Proof.
  intros Hp Hz. unfold py_str. destruct z as [|x|x]; [|apply (str_forall_impl is_digit); [done|]|lia].
  { simpl. rewrite (proj1 (Is_true_true _) (Hp "0"%char I)). done. }
  apply (pretty_N_digits (Npos x)).
Qed.
