(* ===== verification/Basics.v ===== *)
(** * The basic API, [byteps/common/__init__.py]

    The path of the compiled extension and [BytePSBasics], the wrapper of the C
    functions that start, suspend, resume and query BytePS. *)

From Stdlib Require Import Ascii.
From S2P Require Import Prelude PyStr.

(** ** The extension's path *)

(** [s[:s.rfind('/') + 1]] and the rest. *)
Fixpoint split_dir (s : string) : string * string :=
  match s with
  | "" => ("", "")
  | String c s' =>
      let '(d, f) := split_dir s' in
      if decide (d = "") then if Ascii.eqb c "/" then ("/", f) else ("", String c f)
      else (String c d, f)
  end.

(** [os.path.dirname]: trailing slashes go, unless there is nothing else. *)
Definition dirname (s : string) : string :=
  let d := (split_dir s).1 in
  let d' := rstrip_by (Ascii.eqb "/") d in
  if decide (d' = "") then d else d'.

(** [get_ext_suffix]: the two configuration variables, if set and not empty. *)
Definition get_ext_suffix (ext_suffix so : option string) : string :=
  let nonempty o := match o with Some s => if decide (s = "") then None else Some s | None => None end in
  match nonempty ext_suffix with
  | Some s => s
  | None => default ".so" (nonempty so)
  end.

(** [get_extension_full_path(pkg_path, *args)] *)
Definition get_extension_full_path (suffix pkg_path : string) (args : list string) : res string :=
  match last args with
  | None => Raise AssertionError
  | Some name =>
      let dir_path := foldl path_join (dirname pkg_path) (removelast args) in
      Ok (path_join dir_path (name +:+ suffix))
  end.

Definition check_extension (exists_ : string → bool) (suffix pkg_path : string) (args : list string) :
    res () :=
  full_path ← get_extension_full_path suffix pkg_path args;
  if exists_ full_path then Ok () else Raise ImportError.

(** ** [BytePSBasics]

    [c_size] and the like are what the C functions answer; [-1] before
    initialisation. *)
Record clib_answers : Type := Answers {
  byteps_size : Z; byteps_local_size : Z; byteps_rank : Z; byteps_local_rank : Z
}.

(** Calls of the C library, in order, and the process environment. *)
Inductive c_call :=
  | byteps_lazy_init | byteps_init | byteps_shutdown | byteps_suspend
  | byteps_resume (num_workers num_servers : Z).
Record basics : Type := BasicsState {
  b_calls : list c_call;
  b_env : env;
  b_atexit : nat (** how often [shutdown] is registered *)
}.

Definition c_call_ (c : c_call) : M basics () :=
  modify (λ s, BasicsState (b_calls s ++ [c]) (b_env s) (b_atexit s)).

Definition basics_init (lazy : bool) : M basics () :=
  modify (λ s, BasicsState (b_calls s) (b_env s) (S (b_atexit s)));;
  if lazy then c_call_ byteps_lazy_init else c_call_ byteps_init.
Definition shutdown : M basics () := c_call_ byteps_shutdown.
Definition suspend : M basics () := c_call_ byteps_suspend.

Definition setenv (k v : string) : M basics () :=
  modify (λ s, BasicsState (b_calls s) (<[k := v]> (b_env s)) (b_atexit s)).

Definition resume (num_workers num_servers global_rank : Z) : M basics () :=
  setenv "DMLC_NUM_WORKER" (py_str num_workers);;
  setenv "DMLC_NUM_SERVER" (py_str num_servers);;
  setenv "BYTEPS_GLOBAL_RANK" (py_str global_rank);;
  c_call_ (byteps_resume num_workers num_servers).

Definition checked (answer : Z) : res Z := if decide (answer = -1) then Raise ValueError else Ok answer.
Definition size (a : clib_answers) : res Z := checked (byteps_size a).
Definition local_size (a : clib_answers) : res Z := checked (byteps_local_size a).
Definition rank (a : clib_answers) : res Z := checked (byteps_rank a).
Definition local_rank (a : clib_answers) : res Z := checked (byteps_local_rank a).

(** ** Properties *)

(** [resume] hands the same numbers to the C library and to every later
    reader of the environment: the variables parse back to its arguments, the
    library is called once, after they are set, and no other variable changes. *)
Theorem resume_spec nw ns gr s :
  ∃ s', resume nw ns gr s = (Ok (), s') ∧
    b_calls s' = b_calls s ++ [byteps_resume nw ns] ∧
    getenv_int (b_env s') "DMLC_NUM_WORKER" 0 = Ok nw ∧
    getenv_int (b_env s') "DMLC_NUM_SERVER" 0 = Ok ns ∧
    getenv_int (b_env s') "BYTEPS_GLOBAL_RANK" 0 = Ok gr ∧
    ∀ k, k ∉ ["DMLC_NUM_WORKER"; "DMLC_NUM_SERVER"; "BYTEPS_GLOBAL_RANK"] →
      b_env s' !! k = b_env s !! k.
Proof.
  eexists. split; [reflexivity|]. simpl. unfold getenv_int. simpl. split_and!; [done|..].
  - rewrite !lookup_insert_ne, lookup_insert_eq by done. apply py_int_str.
  - rewrite !lookup_insert_ne, lookup_insert_eq by done. apply py_int_str.
  - rewrite lookup_insert_eq. apply py_int_str.
  - intros k Hk. rewrite !lookup_insert_ne by set_solver. done.
Qed.

Definition no_slash (s : string) : Prop := str_forall (λ c, negb (Ascii.eqb c "/")) s.

Lemma split_dir_file f : no_slash f → split_dir f = ("", f).
Proof.
  unfold no_slash. induction f as [|c f IH]; simpl; [done|]. intros [Hc Hf]%andb_True.
  rewrite (IH Hf). simpl. by destruct (Ascii.eqb c "/").
Qed.

Lemma split_dir_app d f : no_slash f → split_dir (d +:+ "/" +:+ f) = (d +:+ "/", f).
Proof.
  intros Hf. induction d as [|c d IH]; simpl.
  { rewrite split_dir_file by done. done. }
  change (String c d +:+ "/" +:+ f) with (String c (d +:+ "/" +:+ f)). simpl. rewrite IH.
  rewrite decide_False; [done|]. by destruct d.
Qed.

Lemma rstrip_snoc p d c : p c = true → rstrip_by p (d +:+ String c "") = rstrip_by p d.
Proof.
  intros Hc. induction d as [|a d IH]; simpl; [by rewrite Hc|].
  change (String a d +:+ String c "") with (String a (d +:+ String c "")). simpl. by rewrite IH.
Qed.

(** The extension of a package is looked for beside the package's file: for a
    file in a directory (written without a trailing slash) the path is the
    directory, the extension's name and the suffix. *)
Theorem extension_path suffix dir file name :
  dir ≠ "" → rstrip_by (Ascii.eqb "/") dir = dir → py_endswith_char "/" dir = false → no_slash file →
  get_extension_full_path suffix (dir +:+ "/" +:+ file) [name] = Ok (dir +:+ "/" +:+ name +:+ suffix).
Proof.
  intros Hne Hr He Hf. unfold get_extension_full_path. simpl. unfold dirname.
  rewrite split_dir_app by done. simpl. rewrite rstrip_snoc, Hr by done.
  rewrite decide_False by done. unfold path_join. rewrite He.
  assert (String.eqb dir "" = false) as -> by (by apply String.eqb_neq). done.
Qed.

Lemma extension_path_witness :
  get_extension_full_path ".so" "/opt/byteps/torch/__init__.py" ["c_lib"]
  = Ok "/opt/byteps/torch/c_lib.so".
Proof.
  apply (extension_path ".so" "/opt/byteps/torch" "__init__.py" "c_lib");
    [discriminate|reflexivity|reflexivity|exact I].
Defined.
