(* ===== verification/Launch.v ===== *)
(** * The worker launcher, [byteps/launcher/launch.py]

    CPU allocation from the NUMA topology ([allocate_cpu] and its local
    functions), the environment check, the command line of one worker process
    and [launch_bps], which starts one process per visible GPU. *)

From Stdlib Require Import Ascii.
From S2P Require Import Prelude PyStr.

Definition COMMON_REQUIRED_ENVS : list string :=
  ["DMLC_ROLE"; "DMLC_NUM_WORKER"; "DMLC_NUM_SERVER"; "DMLC_PS_ROOT_URI"; "DMLC_PS_ROOT_PORT"].
Definition WORKER_REQUIRED_ENVS : list string := ["DMLC_WORKER_ID"].
Definition NUMA_PATH : string := "/sys/devices/system/node".

(** ** NUMA topology *)

Definition cpu_mt (e : env) : bool :=
  bool_decide (py_lower (getenv e "BYTEPS_MULTITHREADED_CPU" "1") ∈ ["1"; "true"]).

Fixpoint take_digits (s : string) : string :=
  match s with
  | "" => ""
  | String c s' => if is_digit c then String c (take_digits s') else ""
  end.

(** The number of the leftmost match of [cpu\d+] in a directory entry:
    [int(re.findall("cpu\d+", s)[0].split('cpu')[1])]. *)
Fixpoint cpu_id (s : string) : option Z :=
  match s with
  | "" => None
  | String _ s' =>
      if py_startswith "cpu" s && negb (String.eqb (take_digits (str_drop 3 s)) "")
      then int_go 0 false (take_digits (str_drop 3 s))
      else cpu_id s'
  end.

Definition halve {A} (mt : bool) (l : list A) : list A :=
  if mt then take (Nat.div2 (length l)) l else l.

(** [os.listdir] of the paths that exist. *)
Definition listdir_t := string → option (list string).

Definition node_cpus (ls : listdir_t) (mt : bool) (node : string) : res (list Z) :=
  items ← or_raise OSError (ls (path_join NUMA_PATH node));
  Ok (halve mt (merge_sort Z.le (omap cpu_id items))).

Definition get_numa_info (ls : listdir_t) (mt : bool) : res (list (list Z)) :=
  match ls NUMA_PATH with
  | None => Ok []
  | Some items => mapM (node_cpus ls mt) (filter (λ s, py_startswith "node" s = true) items)
  end.

(** ** Allocation of one process *)

(** [node[a:b]] *)
Definition slice {A} (a b : nat) (l : list A) : list A := take (b - a) (drop a l).

(** The indices [1 <= i < quota] where the CPU numbers are not consecutive. *)
Definition split_index (node : list Z) (quota : nat) : list nat :=
  filter (λ i, node !!! i ≠ node !!! (i - 1)%nat + 1) (seq 1 (quota - 1)).

(** One turn of [for idx in split_index], on [(last_idx, quota, ret)]. *)
Definition split_step (node : list Z) (st : nat * nat * list (list Z)) (idx : nat) :
    nat * nat * list (list Z) :=
  let '(last_idx, quota, ret) := st in
  (idx, (quota - (idx - last_idx))%nat, ret ++ [slice last_idx idx node]).

Definition not_blacklisted (bl : list Z) (l : list Z) : list Z := filter (λ c, c ∉ bl) l.

(** What a node with at least [quota] CPUs left contributes. *)
Definition alloc_node (mt : bool) (node : list Z) (quota : nat) (cpu_num : Z) (bl : list Z) :
    list (list Z) :=
  let '(last_idx, quota', ret) :=
    fold_left (split_step node) (split_index node quota) (O, quota, []) in
  let curr_alloc := not_blacklisted bl (slice last_idx (last_idx + quota') node) in
  ret ++ [curr_alloc] ++
    (if mt then [not_blacklisted bl (map (λ x, x + cpu_num) curr_alloc)] else []).

(** [_get_allocation]: the allocation and the nodes as it leaves them ([del
    node[idx]] removes the CPUs taken). *)
Fixpoint alloc_nodes (mt : bool) (nodes : list (list Z)) (quota : nat) (cpu_num : Z)
    (bl : list Z) : list (list Z) * list (list Z) :=
  match nodes with
  | [] => ([], [])
  | node :: nodes' =>
      if (length node <? quota)%nat then
        let '(ret, rest) := alloc_nodes mt nodes' quota cpu_num bl in (ret, node :: rest)
      else (alloc_node mt node quota cpu_num bl, drop quota node :: nodes')
  end.

Definition get_allocation (mt : bool) (nodes : list (list Z)) (quota cpu_num : Z)
    (bl : list Z) : res (list (list Z) * list (list Z)) :=
  if quota <? 1 then Raise ValueError
  else Ok (alloc_nodes mt nodes (Z.to_nat quota) cpu_num bl).

(** ** Quotas *)

(** [while q >= 1 and bad(q): q -= 1]; [Z.to_nat q] turns reach the exit. *)
Fixpoint dec_while (bad : Z → bool) (fuel : nat) (q : Z) : Z :=
  match fuel with
  | O => q
  | S n => if (1 <=? q) && bad q then dec_while bad n (q - 1) else q
  end.

Definition get_quota (e : env) (mt : bool) (nodes : list (list Z)) (local_size cpu_num : Z) :
    res (list Z) :=
  dq0 ← (if decide (local_size = 0) then Raise ZeroDivisionError else Ok (cpu_num `div` local_size));
  dq1 ← getenv_int e "BYTEPS_NUMA_DEFAULT_QUOTA" dq0;
  let dq := dec_while (λ q, cpu_num <? q * local_size) (Z.to_nat dq1) dq1 in
  ov ← getenv_int e "BYTEPS_NUMA_ROOT_QUOTA" 0;
  let rq0 := if decide (ov = 0) then cpu_num - dq * (local_size - 1) else ov in
  n0 ← or_raise IndexError (head nodes);
  let len0 := Z.of_nat (length n0) in
  let node_size := if mt then len0 `div` 2 else len0 in
  let rq := dec_while (λ q, node_size <? q) (Z.to_nat rq0) rq0 in
  Ok (replicate (Z.to_nat (local_size - 1)) dq ++ [rq]).

(** ** [allocate_cpu] *)

(** [while quota > 0: ... quota -= 1], with [quota] itself as the countdown. *)
Fixpoint alloc_quota (mt : bool) (nodes : list (list Z)) (quota : nat) (cpu_num : Z)
    (bl : list Z) : res (option (list (list Z)) * list (list Z)) :=
  match quota with
  | O => Ok (None, nodes)
  | S q =>
      '(allocation, nodes') ← get_allocation mt nodes (Z.of_nat quota) cpu_num bl;
      match allocation with
      | [] => alloc_quota mt nodes' q cpu_num bl
      | _ => Ok (Some allocation, nodes')
      end
  end.

Fixpoint alloc_all (mt : bool) (nodes : list (list Z)) (quotas : list Z) (cpu_num : Z)
    (bl : list Z) : res (list (list (list Z))) :=
  match quotas with
  | [] => Ok []
  | quota :: quotas' =>
      '(a, nodes') ← alloc_quota mt nodes (Z.to_nat quota) cpu_num bl;
      rest ← alloc_all mt nodes' quotas' cpu_num bl;
      Ok (match a with Some al => al :: rest | None => rest end)
  end.

Definition total_cpus (nodes : list (list Z)) : Z :=
  foldl (λ x y, x + Z.of_nat (length y)) 0 nodes.

Definition allocate_cpu (e : env) (ls : listdir_t) (local_size : Z) :
    res (option (list (list (list Z)))) :=
  let mt := cpu_mt e in
  nodes ← get_numa_info ls mt;
  match nodes with
  | [] => Ok None
  | _ =>
      let cpu_num := total_cpus nodes in
      quota_list ← get_quota e mt nodes local_size cpu_num;
      bl ← mapM py_int (py_split "," (getenv e "BYTEPS_CPU_BLACKLIST" "-1"));
      Some <$> alloc_all mt nodes quota_list cpu_num bl
  end.

(** ** The launcher's own state

    [os.environ], the module-level list [COMMON_REQUIRED_ENVS] (which
    [check_env] aliases and extends in place), and the subprocesses and
    directories created so far. Output to the terminal is not recorded. *)
Inductive effect : Type :=
  | CheckCall (cmd : string) (e : env)
  | MakeDirs (path : string).

Record launcher : Type := Launcher {
  l_environ : env;
  l_common_required : list string;
  l_effects : list effect
}.

Definition init_launcher (e : env) : launcher := Launcher e COMMON_REQUIRED_ENVS [].

Definition emit (x : effect) : M launcher () :=
  modify (λ s, Launcher (l_environ s) (l_common_required s) (l_effects s ++ [x])).
Definition set_environ (k v : string) : M launcher () :=
  modify (λ s, Launcher (<[k:=v]> (l_environ s)) (l_common_required s) (l_effects s)).
Definition set_common (l : list string) : M launcher () :=
  modify (λ s, Launcher (l_environ s) l (l_effects s)).

(** [for env in required_envs: if env not in os.environ: os._exit(0)] *)
Definition require_envs (e : env) (l : list string) : res () :=
  if forallb (λ k, bool_decide (is_Some (e !! k))) l then Ok () else Raise (SystemExit 0).

Definition check_env : M launcher () :=
  e ← gets l_environ;
  m_assert (match e !! "DMLC_ROLE" with
            | Some r => bool_decide (py_lower r ∈ ["worker"; "server"; "scheduler"])
            | None => false
            end);;
  common ← gets l_common_required;
  role ← lift (or_raise KeyError (e !! "DMLC_ROLE"));
  if decide (role = "worker") then
    m_assert (bool_decide (is_Some (e !! "DMLC_NUM_WORKER")));;
    num_worker ← lift (or_raise KeyError (e !! "DMLC_NUM_WORKER") ≫= py_int);
    m_assert (1 <=? num_worker);;
    if decide (num_worker = 1) then
      (* a fresh list *)
      lift (require_envs e WORKER_REQUIRED_ENVS)
    else
      (* [required_envs += ...] extends the module-level list itself *)
      set_common (common ++ WORKER_REQUIRED_ENVS);;
      lift (require_envs e (common ++ WORKER_REQUIRED_ENVS))
  else lift (require_envs e common).

(** ** One worker process *)

(** The [numactl] argument: [a,] or [first-last,] for each CPU set. *)
Definition cpu_set_arg (cpu_set : list Z) : res string :=
  match cpu_set with
  | [] => Raise IndexError
  | [c] => Ok (py_str c +:+ ",")
  | c :: rest => Ok (py_str c +:+ "-" +:+ py_str (List.last rest c) +:+ ",")
  end.

Fixpoint cpu_sets_arg (allocation : list (list Z)) : res string :=
  match allocation with
  | [] => Ok ""
  | cs :: rest => a ← cpu_set_arg cs; b ← cpu_sets_arg rest; Ok (a +:+ b)
  end.

Definition numa_prefix (allocation : list (list Z)) : res string :=
  args ← cpu_sets_arg allocation;
  Ok (py_strip_char "," ("numactl --physcpubind " +:+ args) +:+ " ").

(** What the outside answers: whether [dpkg -s numactl] succeeds, the exit
    status of a shell command in an environment, and which paths exist. *)
Record outside : Type := Outside {
  o_dpkg : Z;
  o_run : string → env → Z;
  o_exists : string → bool;
  o_listdir : listdir_t
}.

Section launcher.
Context (o : outside).

Definition check_call (cmd : string) (e : env) : M launcher () :=
  emit (CheckCall cmd e);;
  let rc := o_run o cmd e in
  if decide (rc = 0) then mret () else raise (CalledProcessError rc).

Definition gdb_prefix : string := "gdb -ex 'run' -ex 'bt' -batch --args ".

Definition worker_command (e : env) (command : string) (allocation : option (list (list Z))) :
    res string :=
  gdb ← getenv_int e "BYTEPS_ENABLE_GDB" 0;
  let command :=
    if decide (gdb = 0) then command
    else gdb_prefix +:+ (if py_startswith "python" command then command else "python " +:+ command) in
  match allocation with
  | None | Some [] => Ok command
  | Some al =>
      if decide (o_dpkg o = 0) then numa ← numa_prefix al; Ok (numa +:+ command)
      else Ok command
  end.

Definition worker (local_rank local_size : Z) (command : string)
    (allocation : option (list (list Z))) : M launcher () :=
  e ← gets l_environ;
  let my_env := <["BYTEPS_LOCAL_SIZE":=py_str local_size]>
                  (<["BYTEPS_LOCAL_RANK":=py_str local_rank]> e) in
  cmd ← lift (worker_command e command allocation);
  (if decide (getenv e "BYTEPS_TRACE_ON" "" = "1") then
     let trace_path := path_join (getenv e "BYTEPS_TRACE_DIR" ".") (py_str local_rank) in
     if o_exists o trace_path then mret () else emit (MakeDirs trace_path)
   else mret ());;
  check_call cmd my_env.

(** [list(map(int, elem.split('-')))] and [range(sub[0], sub[-1] + 1)] *)
Definition parse_elem (elem : string) : res (list Z) :=
  sub ← mapM py_int (py_split "-" elem);
  match sub with
  | [] => Raise IndexError
  | a :: rest => Ok (seqZ a (List.last rest a + 1 - a))
  end.

Definition parse_num_range (core_list : string) : res (list (list (list Z))) :=
  mapM (λ item, mapM parse_elem (py_split "," item)) (py_split ":" core_list).

(** [PropagatingThread.run]: the target's exception is kept, not raised. *)
Definition thread_run (target : M launcher ()) : M launcher (option exn) := λ s,
  match target s with
  | (Ok _, s') => (Ok None, s')
  | (Raise x, s') => (Ok (Some x), s')
  end.

(** [PropagatingThread.join]: raises the kept exception in the caller. *)
Definition thread_join (exc : option exn) : M launcher () :=
  match exc with Some x => raise x | None => mret () end.

(** [allocations[i]] *)
Definition alloc_at (allocations : option (list (list (list Z)))) (i : nat) :
    res (list (list Z)) :=
  match allocations with
  | None => Raise TypeError
  | Some l => or_raise IndexError (l !! i)
  end.

(** The start loop. The threads share nothing but [os.environ], which they
    only read, so each body is run where it is started. *)
Fixpoint start_threads (bind : bool) (allocations : option (list (list (list Z))))
    (command : string) (local_size : Z) (idxs : list nat) : M launcher (list (option exn)) :=
  match idxs with
  | [] => mret []
  | i :: idxs' =>
      al ← (if bind then a ← lift (alloc_at allocations i); mret (Some a) else mret None);
      t ← thread_run (worker (Z.of_nat i) local_size command al);
      ts ← start_threads bind allocations command local_size idxs';
      mret (t :: ts)
  end.

Definition launch_bps (argv : list string) : M launcher () :=
  e0 ← gets l_environ;
  lift (or_raise KeyError (e0 !! "DMLC_ROLE"));;
  check_env;;
  set_environ "PYTHONUNBUFFERED" "1";;
  e ← gets l_environ;
  role ← lift (or_raise KeyError (e !! "DMLC_ROLE"));
  if decide (role = "worker") then
    let local_size := match e !! "NVIDIA_VISIBLE_DEVICES" with
                      | Some v => length (py_split "," v)
                      | None => 1%nat
                      end in
    let bind := bool_decide (getenv e "BYTEPS_NUMA_ON" "1" = "1") in
    allocations ←
      (if bind then
         let user_override := py_strip (getenv e "BYTEPS_VISIBLE_CPU_CORES" "") in
         if decide (user_override = "") then
           lift (allocate_cpu e (o_listdir o) (Z.of_nat local_size))
         else a ← lift (parse_num_range user_override); mret (Some a)
       else mret None);
    ts ← start_threads bind allocations (py_join " " (tail argv)) (Z.of_nat local_size)
           (seq 0 local_size);
    for_each thread_join ts
  else
    forced ← mret (bool_decide (getenv e "BYTEPS_FORCE_DISTRIBUTED" "" = "1"));
    many ← (if forced : bool then mret true
            else n ← lift (py_int (getenv e "DMLC_NUM_WORKER" "1")); mret (1 <? n));
    if many : bool then
      gdb ← lift (getenv_int e "BYTEPS_ENABLE_GDB" 0);
      let command := "python3 -c 'import byteps.server'" in
      check_call (if decide (gdb = 0) then command else gdb_prefix +:+ command) e
    else mret ().
End launcher.
