(* ===== verification/LaunchProofs.v ===== *)
(** * Properties of the worker launcher

    What [allocate_cpu] guarantees about the CPU sets it hands out, the
    [numactl] / [BYTEPS_VISIBLE_CPU_CORES] notation, [check_env] and
    [launch_bps]. *)

From Stdlib Require Import Ascii.
From S2P Require Import Prelude PyStr Launch.

(** ** Slices *)

Lemma slice_split {A} (l : list A) (a b c : nat) :
  (a ≤ b ≤ c)%nat → slice a b l ++ slice b c l = slice a c l.
Proof.
  intros H. unfold slice.
  replace (c - a)%nat with ((b - a) + (c - b))%nat by lia.
  rewrite <-take_take_drop, drop_drop. do 3 f_equal; lia.
Qed.

Lemma slice_0 {A} (l : list A) n : slice 0 n l = take n l.
Proof. unfold slice. rewrite drop_0. f_equal. lia. Qed.

Lemma slice_same {A} (l : list A) n : slice n n l = [].
Proof. unfold slice. by rewrite Nat.sub_diag, take_0. Qed.

(** ** One node's contribution *)

Lemma fold_split node idxs last q ret :
  StronglySorted (λ x y, (x < y)%nat) (last :: idxs) →
  Forall (λ i, (i < last + q)%nat) idxs →
  let '(last', q', ret') := fold_left (split_step node) idxs (last, q, ret) in
  (last' + q' = last + q)%nat ∧
  concat ret' ++ slice last' (last' + q') node = concat ret ++ slice last (last + q) node.
Proof.
  revert last q ret. induction idxs as [|i idxs IH]; simpl; intros last q ret Hs Hb; [done|].
  apply StronglySorted_inv in Hs as [Hs Hlt].
  apply Forall_cons in Hb as [Hi Hb]. apply Forall_cons in Hlt as [Hli _].
  specialize (IH i (q - (i - last))%nat (ret ++ [slice last i node]) Hs).
  replace (i + (q - (i - last)))%nat with (last + q)%nat in IH by lia.
  specialize (IH Hb). destruct (fold_left _ _ _) as [[last' q'] ret'].
  destruct IH as [E1 E2]. split; [done|].
  rewrite E2, concat_app. simpl. rewrite app_nil_r, <-app_assoc. f_equal.
  apply slice_split. lia.
Qed.

Lemma seq_StronglySorted m n : StronglySorted (λ x y, (x < y)%nat) (seq m n).
Proof.
  revert m. induction n as [|n IH]; simpl; intros m; constructor; [apply IH|].
  apply Forall_forall. intros x Hx. apply elem_of_seq in Hx. lia.
Qed.

Lemma filter_StronglySorted {A} (R : relation A) (P : A → Prop) `{∀ x, Decision (P x)} l :
  StronglySorted R l → StronglySorted R (filter P l).
Proof.
  induction 1 as [|x l Hl IH Hx]; [constructor|].
  rewrite filter_cons. case_decide; [|done]. constructor; [done|].
  rewrite Forall_forall in *. intros y Hy. apply list_elem_of_filter in Hy. naive_solver.
Qed.

(** The CPU sets cut out of one node are a prefix of the node, in order; the
    blacklist only thins the last segment and its hyper-thread siblings. *)
Lemma alloc_node_shape mt node quota cn bl :
  (1 ≤ quota)%nat →
  ∃ segs cur,
    concat segs ++ cur = take quota node ∧
    alloc_node mt node quota cn bl =
      segs ++ [not_blacklisted bl cur] ++
      (if mt then [not_blacklisted bl (map (λ x, x + cn) (not_blacklisted bl cur))] else []).
Proof.
  intros Hq. unfold alloc_node.
  pose proof (fold_split node (split_index node quota) 0 quota []) as H.
  destruct (fold_left _ _ _) as [[last' q'] ret'].
  destruct H as [E1 E2].
  - unfold split_index. constructor; [by apply filter_StronglySorted, seq_StronglySorted|].
    apply Forall_forall. intros x Hx. apply list_elem_of_filter in Hx as [_ Hx].
    apply elem_of_seq in Hx. lia.
  - apply Forall_forall. intros x Hx. apply list_elem_of_filter in Hx as [_ Hx].
    apply elem_of_seq in Hx. lia.
  - exists ret', (slice last' (last' + q') node). split; [|done].
    rewrite E2. simpl. by rewrite slice_0.
Qed.

(** CPUs drawn from [src]: some as they are, and, with hyper-threading, the numbers of some
    plus [cn]. *)
Definition drawn_from (mt : bool) (cn : Z) (src cpus : list Z) : Prop :=
  ∃ a b, a ⊆+ src ∧ b ⊆+ src ∧ cpus ≡ₚ a ++ map (λ x, x + cn) b ∧ (mt = false → b = []).

Lemma not_blacklisted_sub bl l : not_blacklisted bl l ⊆+ l.
Proof. apply sublist_submseteq, sublist_filter. Qed.

Lemma filter_map_sub bl (f : Z → Z) l : ∃ l', l' ⊆+ l ∧ not_blacklisted bl (map f l) = map f l'.
Proof.
  unfold not_blacklisted. induction l as [|x l (l' & Hs & IH)]; [by exists []|].
  simpl. rewrite filter_cons. case_decide.
  - exists (x :: l'). split; [by apply submseteq_skip|]. simpl. by rewrite IH.
  - exists l'. split; [by apply submseteq_cons|done].
Qed.

Lemma alloc_node_drawn mt node quota cn bl :
  (1 ≤ quota)%nat → drawn_from mt cn (take quota node) (concat (alloc_node mt node quota cn bl)).
Proof.
  intros Hq. destruct (alloc_node_shape mt node quota cn bl Hq) as (segs & cur & <- & ->).
  rewrite !concat_app. simpl. rewrite app_nil_r.
  assert (not_blacklisted bl cur ⊆+ cur) as Hsub by apply not_blacklisted_sub.
  destruct (filter_map_sub bl (λ x, x + cn) (not_blacklisted bl cur)) as (b & Hb & E).
  exists (concat segs ++ not_blacklisted bl cur), (if mt then b else []). split_and!.
  - by apply submseteq_app.
  - destruct mt; [|apply submseteq_nil_l].
    etrans; [exact Hb|]. etrans; [exact Hsub|]. by apply submseteq_inserts_l.
  - destruct mt; simpl; rewrite ?E, ?app_nil_r; by rewrite <-?app_assoc.
  - by destruct mt.
Qed.

Lemma alloc_nodes_spec mt nodes quota cn bl ret nodes' :
  (1 ≤ quota)%nat → alloc_nodes mt nodes quota cn bl = (ret, nodes') →
  (ret = [] ∧ nodes' = nodes ∧ Forall (λ n, (length n < quota)%nat) nodes) ∨
  (ret ≠ [] ∧ ∃ taken, length taken = quota ∧ concat nodes ≡ₚ taken ++ concat nodes' ∧
     drawn_from mt cn taken (concat ret)).
Proof.
  intros Hq. revert ret nodes'. induction nodes as [|node nodes IH]; simpl; intros ret nodes' H.
  { simplify_eq. by left. }
  destruct (Nat.ltb_spec (length node) quota) as [Hlt|Hge].
  - destruct (alloc_nodes mt nodes quota cn bl) as [r rest] eqn:E. simplify_eq.
    destruct (IH ret rest eq_refl) as [(-> & -> & HF)|(Hne & taken & Hlen & Hp & Hd)].
    + left. split_and!; [done..|]. by constructor.
    + right. split; [done|]. exists taken. split_and!; [done| |done].
      simpl. rewrite Hp. by rewrite Permutation_app_swap_app.
  - simplify_eq. right. split.
    { destruct (alloc_node_shape mt node quota cn bl Hq) as (segs & ? & _ & ->). by destruct segs. }
    exists (take quota node). split_and!.
    + rewrite length_take. lia.
    + simpl. by rewrite app_assoc, take_drop.
    + by apply alloc_node_drawn.
Qed.

(** ** All processes *)

Lemma alloc_quota_spec mt nodes quota cn bl :
  ∃ a nodes', alloc_quota mt nodes quota cn bl = Ok (a, nodes') ∧
  match a with
  | None => nodes' = nodes ∧ ((1 ≤ quota)%nat → Forall (λ n, n = []) nodes)
  | Some al => al ≠ [] ∧ ∃ taken, (1 ≤ length taken ≤ quota)%nat ∧
      concat nodes ≡ₚ taken ++ concat nodes' ∧ drawn_from mt cn taken (concat al)
  end.
Proof.
  induction quota as [|q IH]; cbn [alloc_quota].
  { exists None, nodes. split; [done|]. split; [done|lia]. }
  unfold get_allocation. destruct (Z.ltb_spec (Z.of_nat (S q)) 1); [lia|].
  rewrite Nat2Z.id.
  destruct (alloc_nodes mt nodes (S q) cn bl) as [al rest] eqn:E. cbn.
  apply alloc_nodes_spec in E as [(-> & -> & HF)|(Hne & taken & Hl & Hp & Hd)]; [| |lia].
  - destruct IH as (a & nodes' & -> & Ha). exists a, nodes'. split; [done|].
    destruct a as [al|]; [|destruct Ha as [-> Ha]].
    + destruct Ha as (? & taken & ? & ? & ?). split; [done|]. exists taken. split_and!; [lia..|done|done].
    + split; [done|]. intros _. destruct q as [|q]; [|apply Ha; lia].
      eapply Forall_impl; [exact HF|]. intros [] Hn; simpl in *; [done|lia].
  - destruct al as [|x al]; [done|]. exists (Some (x :: al)), rest. split; [done|].
    split; [done|]. exists taken. split_and!; [lia..|done|done].
Qed.

Lemma drawn_from_app mt cn s1 s2 c1 c2 :
  drawn_from mt cn s1 c1 → drawn_from mt cn s2 c2 → drawn_from mt cn (s1 ++ s2) (c1 ++ c2).
Proof.
  intros (a1 & b1 & ? & ? & E1 & M1) (a2 & b2 & ? & ? & E2 & M2).
  exists (a1 ++ a2), (b1 ++ b2). split_and!; [by apply submseteq_app..| |intros Hm; by rewrite M1, M2].
  rewrite E1, E2, map_app. by rewrite <-!app_assoc, (Permutation_app_swap_app (map _ b1)).
Qed.

Lemma drawn_from_perm mt cn s s' c : s ≡ₚ s' → drawn_from mt cn s c → drawn_from mt cn s' c.
Proof. intros Hp (a & b & Ha & Hb & E). exists a, b. by rewrite <-Hp. Qed.

Lemma drawn_from_more mt cn s s' c : drawn_from mt cn s c → drawn_from mt cn (s ++ s') c.
Proof.
  intros (a & b & Ha & Hb & E). exists a, b. split_and!; [by apply submseteq_inserts_r..|apply E|apply E].
Qed.

Lemma alloc_all_drawn mt nodes quotas cn bl :
  ∃ ret, alloc_all mt nodes quotas cn bl = Ok ret ∧
    Forall (λ al, al ≠ []) ret ∧ drawn_from mt cn (concat nodes) (concat (concat ret)).
Proof.
  revert nodes. induction quotas as [|q quotas IH]; intros nodes; simpl.
  { exists []. split_and!; [done..|]. exists [], []. by split_and!; [apply submseteq_nil_l..| |]. }
  destruct (alloc_quota_spec mt nodes (Z.to_nat q) cn bl) as (a & nodes' & -> & Ha).
  cbn. destruct (IH nodes') as (rest & -> & Hne & Hd). cbn.
  destruct a as [al|].
  - destruct Ha as (Hal & taken & _ & Hp & Hd'). exists (al :: rest). split_and!; [done|by constructor|].
    simpl. rewrite concat_app. eapply drawn_from_perm; [symmetry; exact Hp|].
    by apply drawn_from_app.
  - destruct Ha as [-> _]. by exists rest.
Qed.

Lemma NoDup_drawn mt cn s c :
  NoDup s → mt = false ∨ Forall (λ x, 0 ≤ x < cn) s → drawn_from mt cn s c → NoDup c.
Proof.
  intros Hnd Hr (a & b & Ha & Hb & -> & Hm).
  pose proof (NoDup_of_submseteq _ _ Hnd Ha) as Na. pose proof (NoDup_of_submseteq _ _ Hnd Hb) as Nb.
  destruct Hr as [Hmt|Hr]; [rewrite (Hm Hmt); by rewrite app_nil_r|].
  apply NoDup_app. split_and!; [done| |by apply NoDup_fmap; [intros ???; lia|]].
  intros x Hx Hx2. apply list_elem_of_fmap in Hx2 as (y & -> & Hy).
  rewrite Forall_forall in Hr.
  pose proof (Hr _ (elem_of_submseteq _ _ _ Hx Ha)). pose proof (Hr _ (elem_of_submseteq _ _ _ Hy Hb)). lia.
Qed.

(** Progress: with enough CPUs, every process gets an allocation. *)
Lemma alloc_all_length mt nodes quotas cn bl ret :
  Forall (λ q, 1 ≤ q) quotas → foldr Z.add 0 quotas ≤ Z.of_nat (length (concat nodes)) →
  alloc_all mt nodes quotas cn bl = Ok ret → length ret = length quotas.
Proof.
  intros Hq. revert nodes ret. induction Hq as [|q quotas Hq HF IH]; intros nodes ret Hs; simpl.
  { intros. by simplify_eq. }
  assert (0 ≤ foldr Z.add 0 quotas) as Hnn.
  { clear -HF. induction HF; simpl; lia. }
  simpl in Hs.
  destruct (alloc_quota_spec mt nodes (Z.to_nat q) cn bl) as (a & nodes' & -> & Ha). cbn.
  destruct (alloc_all mt nodes' quotas cn bl) as [rest|] eqn:E; [|done]. cbn. intros; simplify_eq.
  destruct a as [al|].
  - destruct Ha as (_ & taken & Hl & Hp & _). simpl. f_equal. apply (IH nodes'); [|done].
    apply Permutation_length in Hp. rewrite length_app in Hp. lia.
  - destruct Ha as [-> HN]. exfalso. specialize (HN ltac:(lia)).
    assert (concat nodes = []) as Hc.
    { clear -HN. induction HN; simpl; [done|]. by subst. }
    rewrite Hc in Hs. simpl in Hs. lia.
Qed.

(** ** Quotas *)

Lemma dec_while_spec bad fuel q :
  (Z.to_nat q ≤ fuel)%nat →
  dec_while bad fuel q ≤ q ∧
  (dec_while bad fuel q < 1 ∨ bad (dec_while bad fuel q) = false) ∧
  (dec_while bad fuel q = q ∨ 0 ≤ dec_while bad fuel q).
Proof.
  revert q. induction fuel as [|n IH]; simpl; intros q Hf.
  { split_and!; [lia|left; lia|by left]. }
  destruct (Z.leb_spec 1 q); simpl; [|split_and!; [lia|left; lia|by left]].
  destruct (bad q) eqn:E; [|split_and!; [lia|by right|by left]].
  destruct (IH (q - 1)) as (? & ? & ?); [lia|]. split_and!; [lia|done|right; lia].
Qed.

(** A threshold test stops at the threshold. *)
Lemma dec_while_reach bad b fuel q :
  (∀ x, x ≤ b → bad x = false) → (Z.to_nat q ≤ fuel)%nat →
  Z.min b q ≤ dec_while bad fuel q.
Proof.
  intros Hb. revert q. induction fuel as [|n IH]; simpl; intros q Hf; [lia|].
  destruct (Z.leb_spec 1 q); simpl; [|lia].
  destruct (bad q) eqn:E; [|lia]. specialize (IH (q - 1) ltac:(lia)).
  destruct (decide (q ≤ b)) as [Hq|]; [|lia]. rewrite Hb in E by done. done.
Qed.

Definition node_size (mt : bool) (n0 : list Z) : Z :=
  if mt then Z.of_nat (length n0) `div` 2 else Z.of_nat (length n0).

Lemma foldr_replicate n (q r : Z) :
  foldr Z.add 0 (replicate n q ++ [r]) = Z.of_nat n * q + r.
Proof. induction n as [|n IH]; cbn [replicate app foldr]; [lia|]. rewrite IH. lia. Qed.

Lemma get_quota_default e mt n0 rest n cn :
  e !! "BYTEPS_NUMA_DEFAULT_QUOTA" = None → e !! "BYTEPS_NUMA_ROOT_QUOTA" = None →
  1 ≤ n ≤ cn → 1 ≤ node_size mt n0 →
  ∃ qs, get_quota e mt (n0 :: rest) n cn = Ok qs ∧ length qs = Z.to_nat n ∧
    Forall (λ q, 1 ≤ q) qs ∧ foldr Z.add 0 qs ≤ cn.
Proof.
  intros Hd Hr Hn Hns. unfold get_quota, getenv_int. rewrite Hd, Hr.
  rewrite decide_False by lia. cbn. rewrite decide_True by done.
  fold (node_size mt n0).
  assert (n * (cn `div` n) ≤ cn) as Hdiv by (apply Z.mul_div_le; lia).
  assert (1 ≤ cn `div` n) as Hdq by (apply Z.div_le_lower_bound; lia).
  assert (dec_while (λ q, cn <? q * n) (Z.to_nat (cn `div` n)) (cn `div` n) = cn `div` n) as ->.
  { destruct (Z.to_nat (cn `div` n)) as [|k] eqn:Hk; [done|]. simpl.
    destruct (Z.ltb_spec cn (cn `div` n * n)); [lia|]. by rewrite andb_false_r. }
  set (dq := cn `div` n) in *. set (rq0 := cn - dq * (n - 1)).
  assert (1 ≤ rq0) by (unfold rq0; nia).
  destruct (dec_while_spec (λ q, node_size mt n0 <? q) (Z.to_nat rq0) rq0) as (Hle & _ & _); [lia|].
  pose proof (dec_while_reach (λ q, node_size mt n0 <? q) (node_size mt n0) (Z.to_nat rq0) rq0
    ltac:(intros; apply Z.ltb_ge; lia) ltac:(lia)) as Hge.
  set (rq := dec_while _ _ rq0) in *.
  eexists. split; [done|]. rewrite length_app, length_replicate. split_and!.
  - simpl. lia.
  - apply Forall_app. split; [|by constructor; [lia|]]. by apply Forall_replicate.
  - rewrite foldr_replicate. unfold rq0 in *. nia.
Qed.

(** The quota loops end within their bounds, whatever the two override
    variables say: a positive quota of a non-root process, times the number of
    processes, fits in the machine, and a positive root quota fits in the first
    node. *)
Theorem get_quota_bounds e mt n0 rest n cn qs :
  1 ≤ n → get_quota e mt (n0 :: rest) n cn = Ok qs →
  ∃ dq rq, qs = replicate (Z.to_nat (n - 1)) dq ++ [rq] ∧ length qs = Z.to_nat n ∧
    (1 ≤ dq → dq * n ≤ cn) ∧ (1 ≤ rq → rq ≤ node_size mt n0).
Proof.
  intros Hn. unfold get_quota. rewrite decide_False by lia. cbn.
  destruct (getenv_int e "BYTEPS_NUMA_DEFAULT_QUOTA" _) as [dq1|]; [|done]. cbn.
  destruct (getenv_int e "BYTEPS_NUMA_ROOT_QUOTA" 0) as [ov|]; [|done]. cbn.
  fold (node_size mt n0).
  destruct (dec_while_spec (λ q, cn <? q * n) (Z.to_nat dq1) dq1) as (_ & Hd & _); [lia|].
  set (dq := dec_while _ _ dq1) in *.
  set (rq0 := if decide (ov = 0) then _ else _).
  destruct (dec_while_spec (λ q, node_size mt n0 <? q) (Z.to_nat rq0) rq0) as (_ & Hr & _); [lia|].
  set (rq := dec_while _ _ rq0) in *. intros [= <-].
  exists dq, rq. rewrite length_app, length_replicate. split_and!; [done|simpl; lia|..].
  - intros. destruct Hd as [?|Hd%Z.ltb_ge]; lia.
  - intros. destruct Hr as [?|Hr%Z.ltb_ge]; lia.
Qed.

(** ** [allocate_cpu] *)

Lemma total_cpus_concat nodes : total_cpus nodes = Z.of_nat (length (concat nodes)).
Proof.
  unfold total_cpus. cut (∀ k, foldl (λ x (y : list Z), x + Z.of_nat (length y)) k nodes
    = k + Z.of_nat (length (concat nodes))); [intros ->; lia|].
  induction nodes as [|n nodes IH]; intros k; simpl; [lia|].
  rewrite IH, length_app. lia.
Qed.

(** C39: Let the topology that is read list no CPU twice. The CPUs of all processes together are then
    some listed CPUs, none of them twice, and, with hyper-threading, numbers [c + n] of some listed [c], none of them
    twice, where [n] is how many are listed. So no CPU is given out twice without
    hyper-threading, or if all listed numbers are below [n], that is if the siblings of
    [0..n-1] are [n..2n-1]. With another numbering of the siblings a CPU can be given
    out twice. *)
Theorem allocate_cpu_disjoint e ls n nodes ret :
  get_numa_info ls (cpu_mt e) = Ok nodes → NoDup (concat nodes) → allocate_cpu e ls n = Ok (Some ret) →
  (∃ listed siblings, NoDup listed ∧ NoDup siblings ∧ listed ⊆ concat nodes ∧ siblings ⊆ concat nodes ∧
     concat (concat ret) ≡ₚ listed ++ map (λ c, c + total_cpus nodes) siblings ∧
     (cpu_mt e = false → siblings = [])) ∧
  (cpu_mt e = false ∨ Forall (λ c, 0 ≤ c < total_cpus nodes) (concat nodes) → NoDup (concat (concat ret))).
Proof.
  intros Hi Hnd. unfold allocate_cpu. rewrite Hi. cbn [mbind res_bind].
  destruct nodes as [|n0 nodes]; [done|].
  set (cn := total_cpus (n0 :: nodes)) in *.
  destruct (get_quota _ _ _ _ _) as [qs|]; [|done]. cbn [mbind res_bind].
  destruct (mapM _ _) as [bl|]; [|done]. cbn [mbind res_bind].
  destruct (alloc_all_drawn (cpu_mt e) (n0 :: nodes) qs cn bl) as (r & -> & _ & Hd).
  cbn. intros [= ->]. split; [|intros Hr; by eapply NoDup_drawn].
  destruct Hd as (a & b & Ha & Hb & E & Hm). exists a, b. split_and!; [by eapply NoDup_of_submseteq..| | |exact E|exact Hm].
  - intros c Hc. exact (elem_of_submseteq _ _ _ Hc Ha).
  - intros c Hc. exact (elem_of_submseteq _ _ _ Hc Hb).
Qed.

(** With no override and no blacklist, every one of at most as many processes
    as there are CPUs gets a non-empty allocation, one entry per local rank. *)
Theorem allocate_cpu_complete e ls n n0 nodes :
  get_numa_info ls (cpu_mt e) = Ok (n0 :: nodes) →
  e !! "BYTEPS_NUMA_DEFAULT_QUOTA" = None → e !! "BYTEPS_NUMA_ROOT_QUOTA" = None →
  e !! "BYTEPS_CPU_BLACKLIST" = None →
  1 ≤ n ≤ total_cpus (n0 :: nodes) → 1 ≤ node_size (cpu_mt e) n0 →
  ∃ ret, allocate_cpu e ls n = Ok (Some ret) ∧ length ret = Z.to_nat n ∧
    Forall (λ al, al ≠ []) ret.
Proof.
  intros Hi Hd Hr Hb Hn Hns. unfold allocate_cpu. rewrite Hi. cbn [mbind res_bind].
  destruct (get_quota_default e (cpu_mt e) n0 nodes n (total_cpus (n0 :: nodes)))
    as (qs & -> & Hlen & Hpos & Hsum); [done..|].
  unfold getenv. rewrite Hb. cbn [mbind res_bind default].
  replace (mapM py_int (py_split "," "-1")) with (Ok [-1]) by done. cbn [mbind res_bind].
  destruct (alloc_all_drawn (cpu_mt e) (n0 :: nodes) qs (total_cpus (n0 :: nodes)) [-1])
    as (r & E & Hne & _).
  rewrite E. exists r. split_and!; [done| |done].
  rewrite <-Hlen. eapply alloc_all_length; [done| |exact E].
  by rewrite total_cpus_concat in Hsum.
Qed.

(** ** The CPU-set notation *)

Lemma rstrip_app p s t :
  rstrip_by p (s +:+ t) =
  if String.eqb (rstrip_by p t) "" then rstrip_by p s else s +:+ rstrip_by p t.
Proof.
  induction s as [|c s IH].
  { destruct (String.eqb_spec (rstrip_by p t) "") as [E|]; [exact E|done]. }
  change (rstrip_by p (String c s +:+ t)) with
    (match rstrip_by p (s +:+ t) with "" => if p c then "" else String c ""
     | r => String c r end).
  rewrite IH. destruct (String.eqb_spec (rstrip_by p t) "") as [E|Hne]; [done|].
  destruct s as [|c' s]; [|done]. change ("" +:+ rstrip_by p t) with (rstrip_by p t).
  by destruct (rstrip_by p t).
Qed.

(** The printed form of the contiguous set [a, a+1, ..., a+n-1]. *)
Definition range_str (a n : Z) : string :=
  if decide (n = 1) then py_str a else py_str a +:+ "-" +:+ py_str (a + n - 1).

Definition is_range (cs : list Z) : Prop := ∃ a n, 0 ≤ a ∧ 1 ≤ n ∧ cs = seqZ a n.

Lemma seqZ_last a n d : 1 ≤ n → List.last (seqZ a n) d = a + n - 1.
Proof.
  intros Hn. replace n with ((n - 1) + 1) at 1 by lia. rewrite seqZ_app by lia.
  change (seqZ (a + (n - 1)) 1) with [0 + (a + (n - 1))]. rewrite List.last_last. lia.
Qed.

Lemma cpu_set_arg_range a n : 1 ≤ n → cpu_set_arg (seqZ a n) = Ok (range_str a n +:+ ",").
Proof.
  intros Hn. unfold range_str. case_decide as E; [by subst|].
  rewrite seqZ_cons by lia. destruct (seqZ (Z.succ a) (Z.pred n)) as [|y l] eqn:El.
  { apply (f_equal length) in El. rewrite length_seqZ in El. simpl in El. lia. }
  change (cpu_set_arg (a :: y :: l)) with
    (Ok (py_str a +:+ "-" +:+ py_str (List.last (y :: l) a) +:+ ",")).
  rewrite <-El, (seqZ_last _ _ a) by lia.
  replace (Z.succ a + Z.pred n - 1) with (a + n - 1) by lia.
  by rewrite !str_app_assoc.
Qed.

(** [c] may occur in a printed set only if it is a digit or ['-']. *)
Lemma range_str_chars (p : ascii → bool) a n :
  (∀ c, is_digit c → p c) → p "-"%char → 0 ≤ a → 1 ≤ n → str_forall p (range_str a n).
Proof.
  intros Hd Hm Ha Hn. unfold range_str. case_decide; [by apply pretty_nonneg_forall|].
  rewrite !str_forall_app, !andb_True. simpl. rewrite andb_true_r.
  split_and!; [by apply pretty_nonneg_forall|done|apply pretty_nonneg_forall; [done|lia]].
Qed.

Lemma not_char_digit (c : ascii) : is_digit c = false → ∀ c', is_digit c' → negb (Ascii.eqb c' c).
Proof. intros Hc c' Hc'. destruct (Ascii.eqb_spec c' c); [|done]. subst. by rewrite Hc in Hc'. Qed.

Lemma parse_elem_range a n : 0 ≤ a → 1 ≤ n → parse_elem (range_str a n) = Ok (seqZ a n).
Proof.
  intros Ha Hn. unfold parse_elem, range_str.
  pose proof (not_char_digit "-" eq_refl) as Hm.
  case_decide as E.
  - subst. rewrite py_split_none by (by apply pretty_nonneg_forall). cbn.
    rewrite py_int_str. cbn. do 2 f_equal. lia.
  - change ("-" +:+ py_str (a + n - 1)) with (String "-" (py_str (a + n - 1))).
    rewrite py_split_app by (by apply pretty_nonneg_forall).
    rewrite py_split_none by (apply pretty_nonneg_forall; [done|lia]). cbn.
    rewrite !py_int_str. cbn. do 2 f_equal. lia.
Qed.

(** A printed set: non-empty, made of digits and ['-'] only. *)
Definition numeral_chars (s : string) : Prop :=
  s ≠ "" ∧ ∀ p : ascii → bool, (∀ c, is_digit c → p c) → p "-"%char → str_forall p s.

Lemma range_str_numeral a n : 0 ≤ a → 1 ≤ n → numeral_chars (range_str a n).
Proof.
  intros Ha Hn. split; [|intros; by apply range_str_chars].
  intros E. pose proof (parse_elem_range a n Ha Hn) as HH. by rewrite E in HH.
Qed.

Lemma cpu_sets_arg_ranges al :
  al ≠ [] → Forall is_range al →
  ∃ strs, strs ≠ [] ∧ cpu_sets_arg al = Ok (py_join "," strs +:+ ",") ∧
    Forall numeral_chars strs ∧ mapM parse_elem strs = Ok al.
Proof.
  intros Hne Hal. induction Hal as [|cs al (a & n & Ha & Hn & ->) Hal IH]; [done|].
  pose proof (range_str_numeral a n Ha Hn) as Hnum.
  destruct al as [|cs' al].
  - exists [range_str a n]. split_and!; [done| |by apply Forall_singleton|].
    + simpl. rewrite cpu_set_arg_range by done. cbn. by rewrite str_app_nil_r.
    + simpl. by rewrite parse_elem_range.
  - destruct IH as (strs & Hs & E & HF & HP); [done|].
    exists (range_str a n :: strs). split_and!; [done| |by constructor|].
    + cbn [cpu_sets_arg]. cbn [cpu_sets_arg] in E. rewrite E, cpu_set_arg_range by done.
      cbn [mbind res_bind]. destruct strs as [|s strs]; [done|]. unfold py_join.
      change (String.concat "," (range_str a n :: s :: strs)) with
        (range_str a n +:+ "," +:+ String.concat "," (s :: strs)).
      by rewrite !str_app_assoc.
    + cbn [mapM]. by rewrite parse_elem_range, HP by done.
Qed.

Lemma numeral_no_char (c : ascii) strs :
  is_digit c = false → c ≠ "-"%char → Forall numeral_chars strs →
  Forall (λ s, Is_true (str_forall (λ c', negb (Ascii.eqb c' c)) s)) strs.
Proof.
  intros Hc Hm HF. eapply Forall_impl; [exact HF|]. intros s [_ Hp].
  apply Hp; [by apply not_char_digit|]. destruct (Ascii.eqb_spec "-" c); [by subst|done].
Qed.

Lemma join_no_char (c : ascii) sep strs :
  str_forall (λ c', negb (Ascii.eqb c' c)) sep →
  Forall (λ s, Is_true (str_forall (λ c', negb (Ascii.eqb c' c)) s)) strs →
  str_forall (λ c', negb (Ascii.eqb c' c)) (py_join sep strs).
Proof.
  intros Hsep. induction 1 as [|s strs Hs HF IH]; [done|]. destruct strs as [|t strs]; [done|].
  change (py_join sep (s :: t :: strs)) with (s +:+ sep +:+ py_join sep (t :: strs)).
  by rewrite !str_forall_app, !andb_True.
Qed.

Lemma rstrip_join strs :
  strs ≠ [] → Forall numeral_chars strs →
  py_join "," strs ≠ "" ∧ rstrip_by (Ascii.eqb ",") (py_join "," strs) = py_join "," strs.
Proof.
  intros Hne HF. induction HF as [|s strs [Hs Hc] HF IH]; [done|].
  destruct strs as [|t strs].
  { split; [done|]. apply rstrip_none, Hc; [|done]. intros c Hd.
    destruct (Ascii.eqb_spec "," c); [by subst|done]. }
  destruct IH as [IH1 IH2]; [done|].
  change (py_join "," (s :: t :: strs)) with (s +:+ "," +:+ py_join "," (t :: strs)).
  split; [by destruct s|]. rewrite rstrip_app, (rstrip_app _ ","), IH2.
  rewrite (proj2 (String.eqb_neq _ "") IH1). by destruct (py_join _ _).
Qed.

Lemma numactl_args_parse al :
  al ≠ [] → Forall is_range al →
  ∃ args, numa_prefix al = Ok ("numactl --physcpubind " +:+ args +:+ " ") ∧
    parse_num_range args = Ok [al].
Proof.
  intros Hne Hal. destruct (cpu_sets_arg_ranges al Hne Hal) as (strs & Hs & E & HF & HP).
  exists (py_join "," strs). split.
  - unfold numa_prefix. rewrite E. cbn [mbind res_bind]. unfold py_strip_char, strip_by.
    destruct (rstrip_join strs Hs HF) as [Hj1 Hj2].
    replace (lstrip_by (Ascii.eqb ",") ("numactl --physcpubind " +:+ py_join "," strs +:+ ","))
      with ("numactl --physcpubind " +:+ py_join "," strs +:+ ",") by done.
    rewrite <-str_app_assoc, rstrip_app, rstrip_app, Hj2.
    rewrite (proj2 (String.eqb_neq _ "") Hj1). simpl. by rewrite !str_app_assoc.
  - unfold parse_num_range. rewrite py_split_none.
    + cbn [mapM]. rewrite py_split_join by (done || by apply numeral_no_char). by rewrite HP.
    + apply join_no_char; [done|]. by apply numeral_no_char.
Qed.

(** The [numactl] argument [worker] prints for contiguous CPU sets is read back
    by [parse_num_range], the notation of [BYTEPS_VISIBLE_CPU_CORES], as the
    same sets. *)
Theorem numactl_args_roundtrip al :
  al ≠ [] → Forall is_range al →
  ∃ args, numa_prefix al = Ok ("numactl --physcpubind " +:+ args +:+ " ") ∧
    parse_num_range args = Ok [al].
Proof. apply numactl_args_parse. Qed.

(** ** The blacklist *)

Lemma split_index_range a n : 1 ≤ n → split_index (seqZ a n) (Z.to_nat n) = [].
Proof.
  intros Hn. apply filter_none. intros i Hi%elem_of_seq Hne. apply Hne.
  rewrite !list_lookup_total_alt, !lookup_seqZ_lt by lia. simpl. lia.
Qed.

Lemma not_blacklisted_range a n b :
  a ≤ b < a + n → not_blacklisted [b] (seqZ a n) = seqZ a (b - a) ++ seqZ (b + 1) (a + n - 1 - b).
Proof.
  intros Hb. replace n with ((b - a) + (1 + (n - 1 - (b - a)))) at 1 by lia.
  rewrite seqZ_app, (seqZ_app _ 1) by lia. unfold not_blacklisted. rewrite !filter_app.
  change (seqZ (a + (b - a)) 1) with [0 + (a + (b - a))].
  replace (0 + (a + (b - a))) with b by lia.
  rewrite filter_cons, decide_False, filter_nil by (intros H; apply H; left).
  rewrite !filter_all.
  - simpl. do 2 f_equal; lia.
  - intros x Hx%elem_of_seqZ ->%list_elem_of_singleton. lia.
  - intros x Hx%elem_of_seqZ ->%list_elem_of_singleton. lia.
Qed.

(** The blacklist is undone by the range notation: when an inner CPU of a
    contiguous node is blacklisted, the allocation omits it, but the argument
    printed for [numactl] is [first-last] and binds it again. *)
Theorem blacklist_inner_rebound a n b cn :
  0 ≤ a → a < b < a + n - 1 →
  let al := alloc_node false (seqZ a n) (Z.to_nat n) cn [b] in
  b ∉ concat al ∧
  ∃ args, numa_prefix al = Ok ("numactl --physcpubind " +:+ args +:+ " ") ∧
    parse_num_range args = Ok [[seqZ a n]].
Proof.
  intros Ha Hb al.
  assert (al = [seqZ a (b - a) ++ seqZ (b + 1) (a + n - 1 - b)]) as ->.
  { subst al. unfold alloc_node. rewrite split_index_range by lia. simpl.
    rewrite slice_0, take_ge by (rewrite length_seqZ; lia). by rewrite not_blacklisted_range by lia. }
  split.
  { simpl. rewrite app_nil_r. intros [Hx%elem_of_seqZ|Hx%elem_of_seqZ]%elem_of_app; lia. }
  assert (numa_prefix [seqZ a (b - a) ++ seqZ (b + 1) (a + n - 1 - b)] = numa_prefix [seqZ a n]) as ->.
  { unfold numa_prefix. cbn [cpu_sets_arg]. rewrite cpu_set_arg_range by lia.
    rewrite (seqZ_cons a) by lia. simpl app.
    assert (seqZ (Z.succ a) (Z.pred (b - a)) ++ seqZ (b + 1) (a + n - 1 - b) ≠ []) as Hne.
    { intros E%(f_equal length). rewrite length_app, !length_seqZ in E. simpl in E. lia. }
    destruct (_ ++ _) as [|y l] eqn:E; [done|].
    change (cpu_set_arg (a :: y :: l)) with
      (Ok (py_str a +:+ "-" +:+ py_str (List.last (y :: l) a) +:+ ",")).
    rewrite <-E. replace (a + n - 1 - b) with ((a + n - 2 - b) + 1) by lia.
    rewrite seqZ_app by lia. rewrite app_assoc.
    change (seqZ (b + 1 + (a + n - 2 - b)) 1) with [0 + (b + 1 + (a + n - 2 - b))].
    rewrite List.last_last. unfold range_str. rewrite decide_False by lia.
    replace (0 + (b + 1 + (a + n - 2 - b))) with (a + n - 1) by lia.
    by rewrite !str_app_assoc. }
  apply numactl_args_parse; [done|]. apply Forall_singleton. exists a, n. split_and!; [lia..|done].
Qed.

(** ** [check_env] *)

Definition has_env (e : env) (k : string) : Prop := is_Some (e !! k).

Lemma require_envs_ok e l : require_envs e l = Ok () ↔ Forall (has_env e) l.
Proof.
  unfold require_envs. destruct (forallb _ _) eqn:E.
  - split; [|done]. intros _. apply Forall_forall. intros k Hk.
    eapply bool_decide_eq_true, (proj1 (forallb_forall _ _) E). by apply list_elem_of_In.
  - split; [done|]. intros HF. exfalso. apply eq_true_false_abs with (2 := E).
    apply forallb_forall. intros k Hk%list_elem_of_In. apply bool_decide_eq_true.
    by eapply Forall_forall in HF.
Qed.

Lemma require_envs_cases e l : require_envs e l = Ok () ∨ require_envs e l = Raise (SystemExit 0).
Proof. unfold require_envs. case_match; auto. Qed.

(** [check_env] touches neither the environment nor the subprocesses. *)
Lemma check_env_frame s r s' :
  check_env s = (r, s') → l_environ s' = l_environ s ∧ l_effects s' = l_effects s.
Proof.
  unfold check_env, mbind, M_bind, gets, m_assert, lift, py_assert, or_raise, mret, M_ret.
  repeat (case_match; simplify_eq; simpl; try (intros; by simplify_eq)).
  all: unfold set_common, modify in *; intros; by simplify_eq.
Qed.

Definition with_common (l : list string) (s : launcher) : launcher :=
  Launcher (l_environ s) l (l_effects s).

(** What [check_env] requires of each role, and that for a worker of a
    multi-worker job it appends to the module-level [COMMON_REQUIRED_ENVS]
    every time it is called. *)
Theorem check_env_spec s role nw n :
  l_environ s !! "DMLC_ROLE" = Some role →
  role ∈ ["worker"; "server"; "scheduler"] →
  l_environ s !! "DMLC_NUM_WORKER" = Some nw → py_int nw = Ok n → 1 ≤ n →
  let required :=
    if decide (role = "worker") then
      if decide (n = 1) then WORKER_REQUIRED_ENVS
      else l_common_required s ++ WORKER_REQUIRED_ENVS
    else l_common_required s in
  let s' :=
    if decide (role = "worker") then
      if decide (n = 1) then s else with_common (l_common_required s ++ WORKER_REQUIRED_ENVS) s
    else s in
  (Forall (has_env (l_environ s)) required → check_env s = (Ok (), s')) ∧
  (¬ Forall (has_env (l_environ s)) required → check_env s = (Raise (SystemExit 0), s')).
Proof.
  intros Hr Hin Hnw Hn Hpos required s'.
  assert (check_env s = (require_envs (l_environ s) required, s')) as ->.
  { assert (bool_decide (py_lower role ∈ ["worker"; "server"; "scheduler"]) = true) as Hlow.
    { apply bool_decide_eq_true. unfold elem_of in Hin.
      repeat (apply elem_of_cons in Hin as [->|Hin]); [set_solver..|].
      by apply not_elem_of_nil in Hin. }
    subst required s'. unfold check_env, mbind, M_bind, m_assert, py_assert, lift, gets.
    rewrite Hr, Hlow. simpl.
    destruct (decide (role = "worker")) as [Hw|]; [|done].
    rewrite Hnw. simpl. rewrite Hn. simpl.
    destruct (Z.leb_spec 1 n); [|lia]. by destruct (decide (n = 1)). }
  split; intros HF.
  - by rewrite (proj2 (require_envs_ok _ _) HF).
  - destruct (require_envs_cases (l_environ s) required) as [E| ->]; [|done].
    by apply require_envs_ok in E.
Qed.

(** ** [launch_bps] *)

Section launch.
Context (o : outside).

Definition add_effects (l : list effect) (s : launcher) : launcher :=
  Launcher (l_environ s) (l_common_required s) (l_effects s ++ l).

Lemma add_effects_nil s : add_effects [] s = s.
Proof. destruct s. unfold add_effects. simpl. by rewrite app_nil_r. Qed.

Lemma add_effects_app l1 l2 s : add_effects l2 (add_effects l1 s) = add_effects (l1 ++ l2) s.
Proof. unfold add_effects. simpl. by rewrite <-app_assoc. Qed.

(** The environment and the exit status of the process of rank [i]. *)
Definition rank_env (e : env) (i n : Z) : env :=
  <["BYTEPS_LOCAL_SIZE":=py_str n]> (<["BYTEPS_LOCAL_RANK":=py_str i]> e).

Definition exit_exn (rc : Z) : option exn :=
  if decide (rc = 0) then None else Some (CalledProcessError rc).

Lemma worker_run i n command al cmd s :
  worker_command o (l_environ s) command al = Ok cmd →
  l_environ s !! "BYTEPS_TRACE_ON" = None →
  thread_run (worker o i n command al) s =
    (Ok (exit_exn (o_run o cmd (rank_env (l_environ s) i n))),
     add_effects [CheckCall cmd (rank_env (l_environ s) i n)] s).
Proof.
  intros Hc Ht.
  unfold thread_run, worker, check_call, mbind, M_bind, gets, lift, emit, modify, getenv, exit_exn.
  rewrite Hc, Ht. simpl. fold (rank_env (l_environ s) i n).
  by destruct (decide (o_run o cmd (rank_env (l_environ s) i n) = 0)).
Qed.

(** The start loop runs every rank, whether or not an earlier one failed. *)
Lemma start_threads_run bind allocations command n (cmds : nat → string) idxs s :
  l_environ s !! "BYTEPS_TRACE_ON" = None →
  (∀ i, i ∈ idxs →
     (if bind : bool then ∃ al, alloc_at allocations i = Ok al ∧
                         worker_command o (l_environ s) command (Some al) = Ok (cmds i)
      else worker_command o (l_environ s) command None = Ok (cmds i))) →
  start_threads o bind allocations command n idxs s =
    (Ok (map (λ i, exit_exn (o_run o (cmds i) (rank_env (l_environ s) (Z.of_nat i) n))) idxs),
     add_effects (map (λ i, CheckCall (cmds i) (rank_env (l_environ s) (Z.of_nat i) n)) idxs) s).
Proof.
  revert s. induction idxs as [|i idxs IH]; intros s Ht Hc; simpl.
  { by rewrite add_effects_nil. }
  assert (∃ al : option (list (list Z)),
    (if bind then a ← lift (alloc_at allocations i); mret (Some a)
     else mret None : M launcher (option (list (list Z)))) s = (Ok al, s) ∧ worker_command o (l_environ s) command al = Ok (cmds i)) as (al & Ea & Ec).
  { specialize (Hc i ltac:(left)). destruct bind; [|by exists None].
    destruct Hc as (al & Ha & Hw). exists (Some al). split; [|done].
    unfold mbind, M_bind, lift. by rewrite Ha. }
  rewrite (bind_Ok _ _ _ _ _ Ea), (bind_Ok _ _ _ _ _ (worker_run _ _ _ _ _ _ Ec Ht)).
  erewrite bind_Ok; [|apply IH; [done|intros j Hj; apply (Hc j); by right]].
  unfold mret, M_ret. by rewrite add_effects_app.
Qed.

Lemma join_first ts s :
  for_each thread_join ts s = (match head (omap id ts) with Some x => Raise x | None => Ok () end, s).
Proof.
  induction ts as [|[x|] ts IH]; simpl; [done|done|].
  unfold mbind, M_bind. simpl. exact IH.
Qed.

(** [launch_bps] in a process that passed [check_env] as a worker. *)
Lemma launch_worker_unfold argv s s1 :
  check_env s = (Ok (), s1) → l_environ s !! "DMLC_ROLE" = Some "worker" →
  let e := <["PYTHONUNBUFFERED":="1"]> (l_environ s) in
  let n := match l_environ s !! "NVIDIA_VISIBLE_DEVICES" with
           | Some v => length (py_split "," v) | None => 1%nat end in
  let bind := bool_decide (getenv e "BYTEPS_NUMA_ON" "1" = "1") in
  launch_bps o argv s =
    (allocations ←
       (if bind then
          let user_override := py_strip (getenv e "BYTEPS_VISIBLE_CPU_CORES" "") in
          if decide (user_override = "") then lift (allocate_cpu e (o_listdir o) (Z.of_nat n))
          else a ← lift (parse_num_range user_override); mret (Some a)
        else mret None);
     ts ← start_threads o bind allocations (py_join " " (tail argv)) (Z.of_nat n) (seq 0 n);
     for_each thread_join ts)
    (Launcher e (l_common_required s1) (l_effects s)).
Proof.
  intros Hce Hr e n bind. destruct (check_env_frame _ _ _ Hce) as [He1 He2].
  unfold launch_bps. rewrite (bind_Ok (gets l_environ) _ _ _ _ eq_refl).
  erewrite (bind_Ok (lift _)); [|unfold lift; by rewrite Hr].
  rewrite (bind_Ok _ _ _ _ _ Hce), (bind_Ok (set_environ _ _) _ _ _ _ eq_refl).
  rewrite (bind_Ok (gets l_environ) _ _ _ _ eq_refl). simpl l_environ. rewrite He1, He2. fold e.
  assert (∀ k, k ≠ "PYTHONUNBUFFERED" → e !! k = l_environ s !! k) as Hk.
  { intros k Hk. unfold e. by rewrite lookup_insert_ne. }
  erewrite (bind_Ok (lift _)); [|unfold lift; by rewrite (Hk "DMLC_ROLE"), Hr].
  rewrite decide_True by done. by rewrite (Hk "NVIDIA_VISIBLE_DEVICES").
Qed.

Lemma omap_id_map {A B} (f : A → option B) l : omap id (map f l) = omap f l.
Proof. induction l as [|x l IH]; [done|]. unfold omap, id in *. simpl. by rewrite IH. Qed.

Lemma omap_map {A B C} (f : B → option C) (g : A → B) l : omap f (map g l) = omap (λ x, f (g x)) l.
Proof. induction l as [|x l IH]; [done|]. unfold omap in *. simpl. by rewrite IH. Qed.

(** Without NUMA binding: one process per visible GPU, each told its own rank,
    all started in rank order; the launcher then raises the failure of the
    lowest failed rank, if any. *)
Theorem launch_runs_every_rank argv s s1 cmd n :
  check_env s = (Ok (), s1) →
  l_environ s !! "DMLC_ROLE" = Some "worker" →
  l_environ s !! "BYTEPS_NUMA_ON" = Some "0" →
  l_environ s !! "BYTEPS_TRACE_ON" = None →
  match l_environ s !! "NVIDIA_VISIBLE_DEVICES" with
  | Some v => length (py_split "," v) | None => 1%nat end = n →
  let e := <["PYTHONUNBUFFERED":="1"]> (l_environ s) in
  worker_command o e (py_join " " (tail argv)) None = Ok cmd →
  let envs := map (λ i, rank_env e (Z.of_nat i) (Z.of_nat n)) (seq 0 n) in
  ∃ s', launch_bps o argv s =
    (match head (omap (λ v, exit_exn (o_run o cmd v)) envs) with
     | Some x => Raise x | None => Ok () end, s') ∧
    l_effects s' = l_effects s ++ map (CheckCall cmd) envs.
Proof.
  intros Hce Hr Hb Ht Hn e Hcmd envs. erewrite launch_worker_unfold by done.
  cbv zeta. fold e. rewrite Hn.
  unfold getenv, e. rewrite lookup_insert_ne, Hb by done. cbn [default]. fold e.
  rewrite (bool_decide_eq_false_2 ("0" = "1")) by done.
  rewrite (bind_Ok (mret None) _ _ _ _ eq_refl).
  erewrite bind_Ok; [|apply (start_threads_run false None _ _ (λ _, cmd))].
  - rewrite join_first. cbn [l_environ].
    eexists. split.
    + subst envs. by rewrite omap_id_map, omap_map.
    + simpl. subst envs. by rewrite map_map.
  - simpl. unfold e. by rewrite lookup_insert_ne.
  - by intros i _.
Qed.

(** With NUMA binding on, as it is by default, and no [/sys/devices/system/node],
    [allocate_cpu] returns [None] and the launcher fails on [allocations[0]]
    before it starts any process. *)
Theorem launch_without_numa_fails argv s s1 :
  check_env s = (Ok (), s1) →
  l_environ s !! "DMLC_ROLE" = Some "worker" →
  l_environ s !! "BYTEPS_NUMA_ON" = None →
  l_environ s !! "BYTEPS_VISIBLE_CPU_CORES" = None →
  o_listdir o NUMA_PATH = None →
  ∃ s', launch_bps o argv s = (Raise TypeError, s') ∧ l_effects s' = l_effects s.
Proof.
  intros Hce Hr Hb Hv Hls. destruct (check_env_frame _ _ _ Hce) as [He1 He2].
  erewrite launch_worker_unfold by done. unfold getenv.
  rewrite !lookup_insert_ne, Hb, Hv by done. cbn [default].
  rewrite (bool_decide_eq_true_2 ("1" = "1")) by done.
  change (py_strip "") with "". rewrite decide_True by done.
  assert (∀ e n, allocate_cpu e (o_listdir o) n = Ok None) as Ha.
  { intros. unfold allocate_cpu, get_numa_info. by rewrite Hls. }
  erewrite (bind_Ok (lift _)); [|unfold lift; by rewrite Ha].
  set (n := match _ with Some _ => _ | None => _ end).
  assert (∃ m, n = S m) as [m ->].
  { subst n. case_match; [|by exists O]. pose proof (py_split_nonempty "," s0).
    destruct (py_split "," s0); [done|]. by eexists. }
  cbn [seq start_threads]. eexists. split.
  - erewrite bind_Raise; [done|]. erewrite bind_Raise; [done|]. by erewrite bind_Raise.
  - done.
Qed.
End launch.
