(* ===== verification/DistLauncher.v ===== *)
(** * The cluster launcher, [byteps/launcher/dist_launcher.py]

    Parsing of host files and [--env] items, the [export] prefix of a remote
    command, the [ssh] command line and [submit], which starts the scheduler,
    the workers and the servers. *)

From Stdlib Require Import Ascii.
From S2P Require Import Prelude PyStr.

Module Dist.

(** [preprocess_envs]: [key] and [val] are function-level variables, so an
    item without [":"] reuses those of the previous item, or raises if there is
    none. *)
Fixpoint preprocess_loop (items : list string) (kv : option (string * string))
    (envs_map : odict string string) : res (odict string string) :=
  match items with
  | [] => Ok envs_map
  | item :: items' =>
      let kv := match py_find_char ":" item with
                | Some i => Some (str_take i item, str_drop (i + 1) item)
                | None => kv
                end in
      match kv with
      | Some (key, val) => preprocess_loop items' kv (od_set key val envs_map)
      | None => Raise UnboundLocalError
      end
  end.

Definition preprocess_envs (args_envs : list string) : res (odict string string) :=
  preprocess_loop args_envs None [].

Definition export_item (k v : string) : string := "export " +:+ k +:+ "=" +:+ v +:+ ";".

(** [get_env]: [sysenv] is [os.environ] of the launching machine. *)
Definition get_env (sysenv : gmap string string) (envs_map : odict string string) : string :=
  py_join " "
    (omap (λ k, (λ v, export_item k v) <$> sysenv !! k) ["OMP_NUM_THREADS"; "KMP_AFFINITY"] ++
     map (λ '(k, v), export_item k v) envs_map).

(** One line of a host file: [None] for a blank line. *)
Definition parse_host (line : string) : option (string * string) :=
  let h := py_strip line in
  if decide (h = "") then None
  else match py_find_char ":" h with
       | Some i => Some (str_take i h, str_drop (i + 1) h)
       | None => Some (h, "22")
       end.

(** [get_hosts_from_file], on the lines of the file. *)
Definition get_hosts_from_file (lines : list string) : res (list (string * string)) :=
  py_assert (1 <=? Z.of_nat (length lines));;
  Ok (omap parse_host lines).

(** [start_ssh]: the shell command its thread runs. *)
Definition start_ssh (prog node port : string) (username : option string) (fname : string) :
    string :=
  let pname := "sshlog/" +:+ fname in
  let redirect := " > " +:+ pname +:+ ".stdout" +:+ " 2>" +:+ pname +:+ ".stderr&" in
  match username with
  | Some u => "ssh -o StrictHostKeyChecking=no " +:+ " -l " +:+ u +:+ " " +:+ node +:+ " -p " +:+
              port +:+ " '" +:+ prog +:+ "'" +:+ redirect
  | None => "ssh -o StrictHostKeyChecking=no " +:+ node +:+ " -p " +:+ port +:+ " '" +:+ prog +:+
            "'" +:+ redirect
  end.

(** The parsed command line, with the contents of the two host files. *)
Record args : Type := Args {
  worker_hostfile : list string;
  server_hostfile : list string;
  scheduler_ip : string;
  scheduler_port : Z;
  interface : string;
  a_env : list string;
  username : option string;
  scheduler_ssh_port : string;
  command : list string
}.

Section submit.
Context (sysenv : gmap string string) (a : args).

Definition common_envs (num_worker num_server : Z) (pass_envs : odict string string) :
    odict string string :=
  od_set "DMLC_PS_ROOT_PORT" (py_str (scheduler_port a))
   (od_set "DMLC_PS_ROOT_URI" (scheduler_ip a)
    (od_set "DMLC_INTERFACE" (interface a)
     (od_set "DMLC_NUM_SERVER" (py_str num_server)
      (od_set "DMLC_NUM_WORKER" (py_str num_worker) pass_envs)))).

Definition remote_prog (pass_envs : odict string string) : string :=
  get_env sysenv pass_envs +:+ py_join " " (command a).

(** The three loops of [submit]; [pass_envs] is one dict, updated in place from
    loop to loop. *)
Fixpoint start_workers (user : option string) (i : nat) (hosts : list (string * string))
    (pass_envs : odict string string) : list string * odict string string :=
  match hosts with
  | [] => ([], pass_envs)
  | (node, port) :: hosts' =>
      let pass_envs := od_set "DMLC_WORKER_ID" (py_str (Z.of_nat i))
                         (od_set "DMLC_ROLE" "worker" pass_envs) in
      let t := start_ssh (remote_prog pass_envs) node port user
                 ("worker" +:+ py_str (Z.of_nat i)) in
      let '(ts, pe) := start_workers user (S i) hosts' pass_envs in (t :: ts, pe)
  end.

Fixpoint start_servers (user : option string) (i : nat) (hosts : list (string * string))
    (pass_envs : odict string string) : list string * odict string string :=
  match hosts with
  | [] => ([], pass_envs)
  | (node, port) :: hosts' =>
      let pass_envs := od_set "DMLC_ROLE" "server" pass_envs in
      let t := start_ssh (remote_prog pass_envs) node port user
                 ("server" +:+ py_str (Z.of_nat i)) in
      let '(ts, pe) := start_servers user (S i) hosts' pass_envs in (t :: ts, pe)
  end.

(** [submit]: the shell commands of the threads it starts, in order. *)
Definition submit : res (list string) :=
  worker_hosts ← get_hosts_from_file (worker_hostfile a);
  server_hosts ← get_hosts_from_file (server_hostfile a);
  let num_worker := Z.of_nat (length worker_hosts) in
  let num_server := Z.of_nat (length server_hosts) in
  py_assert (1 <=? num_worker);;
  py_assert (1 <=? num_server);;
  pass_envs ← preprocess_envs (a_env a);
  let pass_envs := common_envs num_worker num_server pass_envs in
  let user := Some (default "" (username a)) in
  let pass_envs := od_set "DMLC_ROLE" "scheduler" pass_envs in
  let t0 := start_ssh (remote_prog pass_envs) (scheduler_ip a) (scheduler_ssh_port a) user "scheduler" in
  let '(tw, pass_envs) := start_workers user 0 worker_hosts pass_envs in
  let '(ts, _) := start_servers user 0 server_hosts pass_envs in
  Ok (t0 :: tw ++ ts).
End submit.

(** ** Host files *)

Lemma py_find_char_app c s t :
  str_forall (λ c', negb (Ascii.eqb c' c)) s →
  py_find_char c (s +:+ String c t) = Some (String.length s).
Proof.
  induction s as [|d s IH]; intros H; [by simpl; rewrite Ascii.eqb_refl|].
  change (String d s +:+ String c t) with (String d (s +:+ String c t)). simpl in *.
  apply andb_True in H as [Hd Hs]. destruct (Ascii.eqb d c); [done|]. by rewrite IH.
Qed.

Lemma py_find_char_none c s :
  str_forall (λ c', negb (Ascii.eqb c' c)) s → py_find_char c s = None.
Proof.
  induction s as [|d s IH]; simpl; intros H; [done|].
  apply andb_True in H as [Hd Hs]. destruct (Ascii.eqb d c); [done|]. by rewrite IH.
Qed.

Lemma str_take_app s t : str_take (String.length s) (s +:+ t) = s.
Proof. induction s as [|c s IH]; simpl; [by destruct t|]. by f_equal. Qed.

Lemma str_drop_app s c t : str_drop (String.length s + 1) (s +:+ String c t) = t.
Proof. induction s as [|d s IH]; [done|]. exact IH. Qed.

Definition host_name_ok (h : string) : Prop :=
  h ≠ "" ∧ str_forall (λ c, negb (Ascii.eqb c ":")) h ∧ str_forall (λ c, negb (is_space c)) h.

(** A host file written one [host:port] per line is read back as those
    hosts and ports in order; a line without a port gets ssh's port 22; blank
    lines are skipped. *)
Theorem hosts_roundtrip (hosts : list (string * option string)) :
  hosts ≠ [] →
  Forall (λ '(h, p), host_name_ok h ∧ ∀ port, p = Some port → str_forall (λ c, negb (is_space c)) port) hosts →
  get_hosts_from_file
    (flat_map (λ '(h, p), [match p with Some port => h +:+ ":" +:+ port | None => h end; " "]) hosts) =
  Ok (map (λ '(h, p), (h, default "22" p)) hosts).
Proof.
  intros Hne HF. unfold get_hosts_from_file.
  destruct (Z.leb_spec 1 (Z.of_nat (length (flat_map (λ '(h, p),
    [match p with Some port => h +:+ ":" +:+ port | None => h end; " "]) hosts)))) as [_|Hl];
    [|destruct hosts as [|[]]; [done|simpl in Hl; lia]].
  cbn [py_assert mbind res_bind]. f_equal. clear Hne.
  induction HF as [|[h p] hosts [(Hh & Hc & Hs) Hp] HF IH]; [done|].
  set (line := match p with Some port => h +:+ ":" +:+ port | None => h end).
  set (rest := flat_map _ hosts) in *.
  change (match parse_host line with Some y => y :: omap parse_host rest | None => omap parse_host rest end
          = (h, default "22" p) :: map (λ '(h, p), (h, default "22" p)) hosts).
  assert (parse_host line = Some (h, default "22" p)) as ->; [|by f_equal].
  unfold parse_host, line, py_strip. destruct p as [port|].
  - rewrite strip_none, decide_False.
    + change (":" +:+ port) with (String ":" port). rewrite py_find_char_app by done.
      by rewrite str_take_app, str_drop_app.
    + by destruct h.
    + rewrite !str_forall_app, !andb_True. split_and!; [done|done|by apply Hp].
  - rewrite strip_none, decide_False by done. by rewrite py_find_char_none.
Qed.
(** ** [submit] *)

Lemma od_get_set_other {V} (k k' : string) (v : V) d :
  k' ≠ k → od_get k' (od_set k v d) = od_get k' d.
Proof. intros. by apply od_get_set_ne. Qed.

Section submit_proofs.
Context (sysenv : gmap string string) (a : args).

(** The environment dict a process is started with. *)
Definition worker_dict (pe d : odict string string) (i : nat) : Prop :=
  od_get "DMLC_ROLE" d = Some "worker" ∧
  od_get "DMLC_WORKER_ID" d = Some (py_str (Z.of_nat i)) ∧
  ∀ k, k ≠ "DMLC_ROLE" → k ≠ "DMLC_WORKER_ID" → od_get k d = od_get k pe.

Lemma worker_dict_step pe i :
  worker_dict pe (od_set "DMLC_WORKER_ID" (py_str (Z.of_nat i)) (od_set "DMLC_ROLE" "worker" pe)) i.
Proof.
  split_and!.
  - by rewrite od_get_set_other, od_get_set_eq.
  - by rewrite od_get_set_eq.
  - intros. by rewrite !od_get_set_other.
Qed.

Lemma worker_dict_trans pe d d' i j : worker_dict pe d i → worker_dict d d' j → worker_dict pe d' j.
Proof.
  intros (_ & _ & H1) (? & ? & H2). split_and!; [done..|]. intros. by rewrite H2, H1.
Qed.

Lemma start_workers_spec user i hosts pe ts pe' :
  start_workers sysenv a user i hosts pe = (ts, pe') →
  length ts = length hosts ∧
  (∀ j node port, hosts !! j = Some (node, port) → ∃ d,
     ts !! j = Some (start_ssh (remote_prog sysenv a d) node port user
                       ("worker" +:+ py_str (Z.of_nat (i + j)))) ∧ worker_dict pe d (i + j)) ∧
  (hosts ≠ [] → worker_dict pe pe' (i + length hosts - 1)).
Proof.
  revert i pe ts pe'. induction hosts as [|[node port] hosts IH]; simpl; intros i pe ts pe' H.
  { simplify_eq. by split_and!. }
  set (d := od_set _ _ _) in H.
  assert (worker_dict pe d i) as Hd by apply worker_dict_step.
  destruct (start_workers sysenv a user (S i) hosts d) as [ts1 pe1] eqn:E. simplify_eq.
  destruct (IH _ _ _ _ E) as (Hl & Hj & Hlast). split_and!.
  - simpl. by rewrite Hl.
  - intros [|j] node' port' Hn; simpl in *.
    + simplify_eq. exists d. rewrite Nat.add_0_r. done.
    + destruct (Hj _ _ _ Hn) as (d' & Ht & Hd'). exists d'.
      replace (i + S j)%nat with (S i + j)%nat by lia. split; [done|]. by eapply worker_dict_trans.
  - intros _. destruct hosts as [|h hosts].
    + cbn [start_workers] in E. injection E as <- <-. simpl.
      replace (i + 1 - 1)%nat with i by lia. exact Hd.
    + replace (i + S (length (h :: hosts)) - 1)%nat with (S i + length (h :: hosts) - 1)%nat by lia.
      by eapply worker_dict_trans, Hlast.
Qed.

Lemma start_servers_spec user i hosts pe ts pe' :
  start_servers sysenv a user i hosts pe = (ts, pe') →
  length ts = length hosts ∧
  ∀ j node port, hosts !! j = Some (node, port) → ∃ d,
    ts !! j = Some (start_ssh (remote_prog sysenv a d) node port user
                      ("server" +:+ py_str (Z.of_nat (i + j)))) ∧
    od_get "DMLC_ROLE" d = Some "server" ∧ ∀ k, k ≠ "DMLC_ROLE" → od_get k d = od_get k pe.
Proof.
  revert i pe ts pe'. induction hosts as [|[node port] hosts IH]; simpl; intros i pe ts pe' H.
  { by simplify_eq. }
  set (d := od_set _ _ _) in H.
  destruct (start_servers sysenv a user (S i) hosts d) as [ts1 pe1] eqn:E. simplify_eq.
  destruct (IH _ _ _ _ E) as (Hl & Hj). split; [simpl; by rewrite Hl|].
  intros [|j] node' port' Hn; simpl in *.
  - simplify_eq. exists d. rewrite Nat.add_0_r. split_and!; [done|by apply od_get_set_eq|].
    intros. by apply od_get_set_other.
  - destruct (Hj _ _ _ Hn) as (d' & Ht & Hr & Hk). exists d'.
    replace (i + S j)%nat with (S i + j)%nat by lia. split_and!; [done..|].
    intros. rewrite Hk by done. by apply od_get_set_other.
Qed.

Lemma submit_shape ts wh sh pe :
  get_hosts_from_file (worker_hostfile a) = Ok wh →
  get_hosts_from_file (server_hostfile a) = Ok sh →
  preprocess_envs (a_env a) = Ok pe → submit sysenv a = Ok ts →
  let user := Some (default "" (username a)) in
  let pe0 := od_set "DMLC_ROLE" "scheduler"
               (common_envs a (Z.of_nat (length wh)) (Z.of_nat (length sh)) pe) in
  ∃ tw pe1 tss pe2,
    (1 ≤ length wh ∧ 1 ≤ length sh)%nat ∧
    start_workers sysenv a user 0 wh pe0 = (tw, pe1) ∧
    start_servers sysenv a user 0 sh pe1 = (tss, pe2) ∧
    ts = start_ssh (remote_prog sysenv a pe0) (scheduler_ip a) (scheduler_ssh_port a) user "scheduler"
           :: tw ++ tss.
Proof.
  intros Hw Hs Hp. unfold submit. rewrite Hw. cbn. rewrite Hs. cbn.
  destruct (Z.leb_spec 1 (Z.of_nat (length wh))); [|done]. cbn.
  destruct (Z.leb_spec 1 (Z.of_nat (length sh))); [|done]. cbn. rewrite Hp. cbn.
  set (user := Some _). set (pe0 := od_set _ _ _).
  destruct (start_workers sysenv a user 0 wh pe0) as [tw pe1] eqn:E1.
  destruct (start_servers sysenv a user 0 sh pe1) as [tss pe2] eqn:E2.
  intros [= <-]. exists tw, pe1, tss, pe2. split_and!; [lia..|done|done|done].
Qed.

(** [submit] starts the scheduler, then every worker, then every server;
    worker [i] gets role [worker] and id [i], together with the number of
    workers and servers and the scheduler's address. *)
Theorem submit_workers ts wh sh pe :
  get_hosts_from_file (worker_hostfile a) = Ok wh →
  get_hosts_from_file (server_hostfile a) = Ok sh →
  preprocess_envs (a_env a) = Ok pe → submit sysenv a = Ok ts →
  length ts = (1 + length wh + length sh)%nat ∧
  ∀ i node port, wh !! i = Some (node, port) → ∃ d,
    ts !! (1 + i)%nat = Some (start_ssh (remote_prog sysenv a d) node port
      (Some (default "" (username a))) ("worker" +:+ py_str (Z.of_nat i))) ∧
    od_get "DMLC_ROLE" d = Some "worker" ∧
    od_get "DMLC_WORKER_ID" d = Some (py_str (Z.of_nat i)) ∧
    od_get "DMLC_NUM_WORKER" d = Some (py_str (Z.of_nat (length wh))) ∧
    od_get "DMLC_NUM_SERVER" d = Some (py_str (Z.of_nat (length sh))) ∧
    od_get "DMLC_PS_ROOT_URI" d = Some (scheduler_ip a) ∧
    od_get "DMLC_PS_ROOT_PORT" d = Some (py_str (scheduler_port a)).
Proof.
  intros Hw Hs Hp Hsub.
  destruct (submit_shape ts wh sh pe Hw Hs Hp Hsub) as (tw & pe1 & tss & pe2 & _ & E1 & E2 & ->).
  apply start_workers_spec in E1 as (Hl1 & Hj & _). apply start_servers_spec in E2 as [Hl2 _].
  split; [simpl; rewrite length_app; lia|]. intros i node port Hi.
  destruct (Hj _ _ _ Hi) as (d & Ht & Hr & Hid & Hk). exists d.
  split_and!; [|done|done|rewrite Hk by done; unfold common_envs..].
  { simpl. rewrite lookup_app_l; [done|]. apply lookup_lt_Some in Hi. lia. }
  all: repeat (rewrite od_get_set_eq || rewrite od_get_set_other by done); done.
Qed.

(** The one [pass_envs] dict is shared by the three loops: every server is
    started with the [DMLC_WORKER_ID] of the last worker, and, when no user name
    is given, every command line carries [-l] followed by an empty user name, so
    that [ssh] takes the host for the login name. *)
Theorem submit_servers_inherit ts wh sh pe :
  get_hosts_from_file (worker_hostfile a) = Ok wh →
  get_hosts_from_file (server_hostfile a) = Ok sh →
  preprocess_envs (a_env a) = Ok pe → submit sysenv a = Ok ts → username a = None →
  ∀ j node port, sh !! j = Some (node, port) → ∃ d,
    ts !! (1 + length wh + j)%nat = Some (
      "ssh -o StrictHostKeyChecking=no " +:+ " -l " +:+ "" +:+ " " +:+ node +:+ " -p " +:+ port +:+
      " '" +:+ remote_prog sysenv a d +:+ "'" +:+
      " > " +:+ ("sshlog/" +:+ ("server" +:+ py_str (Z.of_nat j))) +:+ ".stdout" +:+ " 2>" +:+
      ("sshlog/" +:+ ("server" +:+ py_str (Z.of_nat j))) +:+ ".stderr&") ∧
    od_get "DMLC_ROLE" d = Some "server" ∧
    od_get "DMLC_WORKER_ID" d = Some (py_str (Z.of_nat (length wh) - 1)).
Proof.
  intros Hw Hs Hp Hsub Hu.
  destruct (submit_shape ts wh sh pe Hw Hs Hp Hsub) as (tw & pe1 & tss & pe2 & Hlen & E1 & E2 & ->).
  apply start_workers_spec in E1 as (Hl1 & _ & Hlast). apply start_servers_spec in E2 as [Hl2 Hj].
  destruct Hlast as (_ & Hid & _); [intros ->; simpl in *; lia|].
  intros j node port Hi. destruct (Hj _ _ _ Hi) as (d & Ht & Hr & Hk). exists d.
  split_and!; [|done|rewrite Hk by done; rewrite Hid; do 2 f_equal; lia].
  replace (1 + length wh + j)%nat with (S (length tw + j)) by lia. simpl.
  rewrite lookup_app_r, Nat.add_comm, Nat.add_sub by lia. rewrite Ht, Hu. done.
Qed.
End submit_proofs.
End Dist.
