(* ===== verification/P4Control.v ===== *)
(** * Switch control plane, [P4/control.py] and [P4/setup_ports.py]

    Tofino port arithmetic and the port and LAG bitmaps; the packet-generator
    and register programming of [TestKSet] and the port, multicast and
    recirculation set-up of [SlimAtpTest], as the sequence of driver calls they
    make. The Thrift and gRPC clients are outside the repository: what they
    answer is a parameter. *)

From S2P Require Import Prelude PyStr.

Module P4.

(** ** Port numbers *)

Definition make_port (pipe local_port : Z) : res Z :=
  py_assert ((0 <=? pipe) && (pipe <? 4));;
  py_assert ((0 <=? local_port) && (local_port <? 72));;
  Ok (Z.lor (Z.shiftl pipe 7) local_port).

Definition port_to_pipe (port : Z) : Z := Z.shiftr port 7.
Definition portToPipe (port : Z) : Z := Z.shiftr port 7.
Definition portToPipeLocalId (port : Z) : Z := Z.land port 0x7F.
Definition portToBitIdx (port : Z) : Z := 72 * portToPipe port + portToPipeLocalId port.

(** [l[i]] as Python indexes: a negative index counts from the end. *)
Definition py_index {A} (l : list A) (i : Z) : option nat :=
  let n := Z.of_nat (length l) in
  if (0 <=? i) && (i <? n) then Some (Z.to_nat i)
  else if (- n <=? i) && (i <? 0) then Some (Z.to_nat (i + n)) else None.

(** [bit_map[i//8] = (bit_map[i//8] | (1 << (i%8))) & 0xFF] *)
Definition set_bit (bit_map : list Z) (index : Z) : res (list Z) :=
  j ← or_raise IndexError (py_index bit_map (index `div` 8));
  Ok (<[j := Z.land (Z.lor (bit_map !!! j) (Z.shiftl 1 (index `mod` 8))) 0xFF]> bit_map).

Fixpoint set_bits (bit_map : list Z) (indices : list Z) : res (list Z) :=
  match indices with
  | [] => Ok bit_map
  | i :: rest => m ← set_bit bit_map i; set_bits m rest
  end.

Section maps.
Context {str : Type} (bytes_to_string : list Z → str).

Definition set_port_map (indices : list Z) : res str :=
  bytes_to_string <$> set_bits (replicate (Z.to_nat ((288 + 7) `div` 8)) 0) (map portToBitIdx indices).

Definition set_lag_map (indices : list Z) : res str :=
  bytes_to_string <$> set_bits (replicate (Z.to_nat ((256 + 7) `div` 8)) 0) indices.
End maps.

(** Bit [b] of a byte map. *)
Definition map_bit (m : list Z) (b : Z) : bool :=
  Z.testbit (m !!! Z.to_nat (b `div` 8)) (b `mod` 8).

(** ** Packets *)

Record ether : Type := Ether { eth_dst : string; eth_src : string; eth_type : Z; padding : nat }.

(** Destination, source and type take 14 bytes; ["\0" * k] is empty for [k <= 0]. *)
Definition pkt_len (p : ether) : Z := 14 + Z.of_nat (padding p).

Definition rd_hash_pkt (MINSIZE pktlen : Z) (dst src : string) (ty : Z) : ether :=
  let pktlen := if pktlen <? MINSIZE then MINSIZE else pktlen in
  Ether dst src ty (Z.to_nat (pktlen - 14)).

(** ** Driver calls *)

Inductive trigger := TIMER_PERIODIC | RECIRC_PATTERN (key msk : Z).

Record app_cfg : Type := AppCfg {
  trigger_type : trigger; batch_count : Z; pkt_count : Z; timer : Z; ibg : Z; ipg : Z;
  src_port : Z; src_port_inc : Z; buffer_offset : Z; cfg_length : Z
}.

Inductive speed := BF_SPEED_100G | BF_SPEED_40G.

Inductive rpc : Type :=
  | ClientInit | ClientCleanup | CompleteOperations
  | PktgenEnable (port : Z) | PktgenDisable (port : Z)
  | PktgenCfgApp (pipe app : Z) (cfg : app_cfg)
  | PktgenWriteBuffer (pipe offset len : Z) (pkt : ether)
  | PktgenRecircMatching (port : Z)
  | PktgenAppEnable (pipe app : Z) | PktgenAppDisable (pipe app : Z)
  | PalPortAdd (port : Z) (sp : speed) | PalPortAnDisable (port : Z) | PalPortEnable (port : Z)
  | EntryAdd (table : string) (key : list (string * Z)) (data : list (string * list Z))
  | EntryDel (table : string) (key : list (string * Z)).

(** [read_registers] and [write_registers]: what the hardware holds is [hw]. *)
Definition registers := string → Z → Z.

Definition read_registers (hw : registers) (table : string) (reg_index : Z) : Z := hw table reg_index.

Definition write_registers (table : string) (reg_index reg_val : Z) : rpc :=
  EntryAdd table [("$REGISTER_INDEX", reg_index)] [(table +:+ ".f1", [reg_val])].

Definition range (n : nat) : list Z := map Z.of_nat (seq 0 n).

Definition set_hash_tables : list rpc :=
  flat_map (λ i, [write_registers "key_0_32_hash_table0" i (i + 1);
                  write_registers "val_hash_table0" i (i + 100)]) (range 2048).

Definition set_collision_buffer : list rpc :=
  [write_registers "wr_ptr_ring0" 0 10; write_registers "wr_ptr_ring0" 1 10] ++
  flat_map (λ i, [write_registers "key_0_32_ring" i (i + 1);
                  write_registers "key_0_32_ring" (512 + i) (i + 1)]) (range 10).

Definition get_collision_buffers (hw : registers) : list Z :=
  [read_registers hw "key_0_32_ring" 0; read_registers hw "val_ring" 0;
   read_registers hw "key_0_32_ring" 512; read_registers hw "val_ring" 0;
   read_registers hw "wr_ptr_ring0" 0; read_registers hw "wr_ptr_ring0" 1].

(** One printed row of [get_hash_tables]. *)
Record hash_row : Type := HashRow { r_index : Z; r_value : Z; r_sport : Z; r_dport : Z; r_sip : Z; r_dip : Z }.

Definition hash_rows (hw : registers) (pre : string) : list hash_row :=
  filter (λ r, 0 < r_value r)
    (map (λ i, HashRow i (read_registers hw (pre +:+ "val_hash_table") i)
                 (read_registers hw (pre +:+ "key_64_80_hash_table") i)
                 (read_registers hw (pre +:+ "key_80_96_hash_table") i)
                 (read_registers hw (pre +:+ "key_0_32_hash_table") i)
                 (read_registers hw (pre +:+ "key_32_64_hash_table") i)) (range 2048)).

Definition get_hash_tables (hw : registers) : list hash_row * list hash_row :=
  (hash_rows hw "pipe0.UpstreamIngress.", hash_rows hw "pipe1.DownstreamIngress.").

Definition get_stack (hw : registers) : list Z :=
  [read_registers hw "pipe0.UpstreamIngress.wr_ptr_stack" 0;
   read_registers hw "pipe0.UpstreamIngress.key_96_128_stack" 0].

Definition get_rerouting_table (hw : registers) : list (Z * Z) :=
  flat_map (λ i, map (λ t, (i, read_registers hw ("pipe0.UpstreamIngress." +:+ t) i))
    ["key_0_32_rerouting_table"; "key_32_64_rerouting_table";
     "key_64_96_rerouting_table"; "key_96_112_rerouting_table"]) (range 8).

(** [enable_pkt_gen]; [hex_to_i32] is the Thrift conversion. *)
Section pktgen.
Context (MINSIZE : Z) (hex_to_i32 : Z → Z).

Definition pktlen : Z := 128.
Definition app_cfg1 : app_cfg :=
  AppCfg TIMER_PERIODIC 0 0 (Z.shiftl 1 14) 0 0 68 0 144 pktlen.
Definition read_hash_pkt_cnt : Z := 1024 `div` 64.
Definition app_cfg2 : app_cfg :=
  AppCfg (RECIRC_PATTERN (hex_to_i32 0x05000000) (hex_to_i32 0xF7FFFFFF)) 0 (read_hash_pkt_cnt - 1)
    (hex_to_i32 0) 0 (Z.shiftl 1 10) 68 0 544 pktlen.

Definition pipe_list : list Z := range 2.

(** [make_port(pipe, 68)] for each pipe, passed to a driver call. *)
Definition for_pktgen_ports (call : Z → rpc) : res (list rpc) :=
  mapM (λ pipe, port ← make_port pipe 68; Ok (call port)) pipe_list.

Definition hash_pkt : ether := rd_hash_pkt MINSIZE pktlen "11:22:33:44:55:66" "aa:bb:cc:dd:ee:ff" 0x1122.
Definition collision_pkt : ether := rd_hash_pkt MINSIZE pktlen "11:22:33:44:55:66" "aa:bb:cc:dd:ee:ff" 0x2233.

Definition enable_pkt_gen : res (list rpc) :=
  ports ← for_pktgen_ports PktgenEnable;
  Ok ([ClientInit] ++ ports ++
    [PktgenCfgApp 0 1 app_cfg1; PktgenCfgApp 0 2 app_cfg2;
     PktgenCfgApp 1 1 app_cfg1; PktgenCfgApp 1 2 app_cfg2;
     PktgenWriteBuffer 0 144 pktlen collision_pkt; PktgenWriteBuffer 0 544 pktlen hash_pkt;
     PktgenWriteBuffer 1 144 pktlen collision_pkt; PktgenWriteBuffer 1 544 pktlen hash_pkt;
     PktgenRecircMatching 68; PktgenRecircMatching 196;
     PktgenAppEnable 0 1; PktgenAppEnable 1 1; PktgenAppEnable 0 2; PktgenAppEnable 1 2;
     CompleteOperations; ClientCleanup]).

Definition disable_pkt_gen : res (list rpc) :=
  ports ← for_pktgen_ports PktgenDisable;
  Ok ([ClientInit; ClientInit;
       PktgenAppDisable 0 1; PktgenAppDisable 0 2; PktgenAppDisable 1 1; PktgenAppDisable 1 2] ++
      ports ++ [ClientCleanup]).
End pktgen.

Definition enable_port (sp : speed) (port : Z) : list rpc :=
  [PalPortAdd port sp; PalPortAnDisable port; PalPortEnable port].

(** [TestKSet.enable_ports] *)
Definition inner_connect_port : list Z := [0; 8; 16; 24; 148; 156; 132; 140].
Definition dori_port : list Z := [48].
Definition enable_ports : list rpc :=
  flat_map (enable_port BF_SPEED_100G) ([20; 28] ++ inner_connect_port) ++
  flat_map (enable_port BF_SPEED_40G) ([52; 128] ++ dori_port).

Definition loss_key : list (string * Z) :=
  [("hdr.info_hdr.path_id", 1); ("hdr.ipv4.src_addr", 0xc0a8010a); ("hdr.ipv4.dst_addr", 0xc0a8010b);
   ("meta.src_port", 1234); ("meta.dst_port", 4321); ("hdr.ipv4.protocol", 0x6)].
Definition inject_loss : list rpc :=
  [EntryAdd "pipe0.UpstreamEgress.inject_loss" loss_key [("UpstreamEgress.drop_packet", [])]].
Definition remove_inject_loss (table : string) (key : list (string * Z)) : list rpc :=
  [EntryDel table key].

(** *** [setup_ports.py] *)

Definition slim_dev_port_list : list Z := [168; 184; 192].
Definition slim_enable_ports : list rpc := flat_map (enable_port BF_SPEED_100G) slim_dev_port_list.

Definition loopback_ports : list rpc :=
  map (λ port, EntryAdd "$PORT" [("$DEV_PORT", port)]
    [("$SPEED:BF_SPEED_100G", []); ("$FEC:BF_FEC_TYP_NONE", []);
     ("$LOOPBACK_MODE:BF_LPBK_MAC_NEAR", []); ("$PORT_ENABLE", [1])]) [168].

Definition multicast_ports : list Z := [168; 184].
Definition set_multicast : list rpc :=
  [EntryAdd "$pre.node" [("$MULTICAST_NODE_ID", 1)]
     [("$MULTICAST_RID", [0]); ("$MULTICAST_LAG_ID", []); ("$DEV_PORT", multicast_ports)];
   EntryAdd "$pre.mgid" [("$MGID", 1)]
     [("$MULTICAST_NODE_ID", [1]); ("$MULTICAST_NODE_L1_XID_VALID", [0]);
      ("$MULTICAST_NODE_L1_XID", [0])]].

Definition sec_recirc_ports : list rpc :=
  map (λ t, EntryAdd "SwitchIngress.appid_seq.recirc_port" [("p4ml.recirc_time", t)]
    [("SwitchIngress.appid_seq.set_recirc_port:recirc_port", [128])]) [1; 2; 3; 4; 5; 6; 7].

(** The main program of [setup_ports.py]: [p4program] is bound only when an
    argument is given. *)
Definition setup_ports_main (argv : list string) : res (string * list rpc) :=
  p4program ← or_raise NameError (argv !! 1%nat);
  Ok (p4program, slim_enable_ports ++ set_multicast ++ sec_recirc_ports).

(** ** Properties of the port arithmetic *)

Definition valid_port (port : Z) : Prop :=
  0 ≤ port < 512 ∧ portToPipeLocalId port < 72.

Lemma port_split port : 0 ≤ port →
  portToPipe port = port `div` 128 ∧ portToPipeLocalId port = port `mod` 128.
Proof.
  intros. unfold portToPipe, portToPipeLocalId. rewrite Z.shiftr_div_pow2 by lia.
  change 0x7F with (Z.ones 7). rewrite Z.land_ones by lia. done.
Qed.

Lemma lor_disjoint pipe local :
  0 ≤ pipe → 0 ≤ local < 128 → Z.lor (Z.shiftl pipe 7) local = pipe * 128 + local.
Proof.
  intros Hp Hl. rewrite <-Z.lxor_lor, <-Z.add_nocarry_lxor, Z.shiftl_mul_pow2; try lia.
  all: apply Z.bits_inj; intros n; rewrite Z.land_spec, Z.bits_0.
  all: destruct (decide (n < 7)).
  1,3: destruct (decide (0 ≤ n)); [rewrite Z.shiftl_spec_low by lia; done|].
  1,2: rewrite (Z.testbit_neg_r _ n) by lia; done.
  all: rewrite (Z.bits_above_log2 local n), andb_false_r; [done|lia|].
  all: destruct (decide (local = 0)); [subst; simpl; lia|].
  all: apply Z.log2_lt_pow2; [lia|]; apply Z.lt_le_trans with (2^7); [lia|];
       apply Z.pow_le_mono_r; lia.
Qed.

Lemma valid_port_bound port : valid_port port → 0 ≤ portToBitIdx port < 288.
Proof.
  intros [Hp Hl]. unfold portToBitIdx. destruct (port_split port) as [-> E]; [lia|].
  rewrite E in *. pose proof (Z.mod_pos_bound port 128).
  pose proof (Z.div_lt_upper_bound port 128 4). pose proof (Z.div_pos port 128). lia.
Qed.

Lemma portToBitIdx_inj p q :
  valid_port p → valid_port q → portToBitIdx p = portToBitIdx q → p = q.
Proof.
  intros [Hp Hl] [Hq Hm]. unfold portToBitIdx.
  destruct (port_split p) as [-> E1]; [lia|]. destruct (port_split q) as [-> E2]; [lia|].
  rewrite E1, E2 in *.
  pose proof (Z.div_mod p 128). pose proof (Z.div_mod q 128).
  pose proof (Z.mod_pos_bound p 128). pose proof (Z.mod_pos_bound q 128). nia.
Qed.

(** [make_port] packs a pipe and a local port into a nine-bit port number
    that [portToPipe] and [portToPipeLocalId] take apart again, and refuses
    every pipe or local port out of range. *)
Theorem make_port_roundtrip pipe local :
  (0 ≤ pipe < 4 ∧ 0 ≤ local < 72 ↔ ∃ port, make_port pipe local = Ok port) ∧
  ∀ port, make_port pipe local = Ok port →
    valid_port port ∧ portToPipe port = pipe ∧ portToPipeLocalId port = local.
Proof.
  assert (∀ port, make_port pipe local = Ok port →
    0 ≤ pipe < 4 ∧ 0 ≤ local < 72 ∧ port = pipe * 128 + local) as Hinv.
  { intros port. unfold make_port, py_assert.
    destruct (Z.leb_spec 0 pipe), (Z.ltb_spec pipe 4); simpl; try done.
    destruct (Z.leb_spec 0 local), (Z.ltb_spec local 72); simpl; try done.
    intros [= <-]. split_and!; try lia. apply lor_disjoint; lia. }
  split.
  - split; [|by intros [port (?&?&_)%Hinv]].
    intros [Hp Hl]. exists (Z.lor (Z.shiftl pipe 7) local). unfold make_port, py_assert.
    destruct (Z.leb_spec 0 pipe), (Z.ltb_spec pipe 4); simpl; try lia.
    by destruct (Z.leb_spec 0 local), (Z.ltb_spec local 72); simpl; try lia.
  - intros port (Hp & Hl & ->)%Hinv. unfold valid_port.
    destruct (port_split (pipe * 128 + local)) as [-> ->]; [lia|].
    rewrite (Z.add_comm (pipe * 128)), Z.mod_add, Z.div_add by lia.
    rewrite Z.mod_small, Z.div_small by lia. split_and!; lia.
Qed.

(** ** Properties of the bitmaps *)

Lemma set_bit_spec m i n :
  length m = n → 0 ≤ i < 8 * Z.of_nat n → Forall (λ b, 0 ≤ b < 256) m →
  ∃ m', set_bit m i = Ok m' ∧ length m' = n ∧ Forall (λ b, 0 ≤ b < 256) m' ∧
    ∀ b, 0 ≤ b < 8 * Z.of_nat n → map_bit m' b = bool_decide (b = i) || map_bit m b.
Proof.
  intros Hl Hi HF. unfold set_bit, py_index. rewrite Hl.
  assert (0 ≤ i `div` 8 < Z.of_nat n) as Hd.
  { split; [apply Z.div_pos; lia|apply Z.div_lt_upper_bound; lia]. }
  rewrite (proj2 (Z.leb_le 0 _)), (proj2 (Z.ltb_lt _ (Z.of_nat n))) by lia. cbn.
  set (j := Z.to_nat (i `div` 8)). pose proof (Z.mod_pos_bound i 8 ltac:(lia)) as Hmod.
  eexists. split; [done|]. split_and!; [by rewrite length_insert|..].
  - apply Forall_insert; [done|]. change 0xFF with (Z.ones 8).
    rewrite Z.land_ones by lia. apply Z.mod_pos_bound. lia.
  - intros b Hb. unfold map_bit. pose proof (Z.mod_pos_bound b 8 ltac:(lia)).
    assert (0 ≤ b `div` 8) by (apply Z.div_pos; lia).
    destruct (decide (b `div` 8 = i `div` 8)) as [E|E].
    + rewrite E. fold j. rewrite list_lookup_total_insert_eq by (subst j; lia).
      change 0xFF with (Z.ones 8).
      rewrite Z.land_spec, Z.lor_spec, Z.testbit_ones_nonneg by lia.
      rewrite Z.shiftl_1_l, Z.pow2_bits_eqb by lia.
      rewrite (proj2 (Z.ltb_lt (b `mod` 8) 8)), andb_true_r by lia.
      rewrite orb_comm. f_equal. apply eq_bool_prop_intro.
      rewrite bool_decide_spec, Is_true_true, Z.eqb_eq.
      pose proof (Z.div_mod b 8). pose proof (Z.div_mod i 8). split; intros; [nia|congruence].
    + rewrite list_lookup_total_insert_ne by (subst j; lia).
      rewrite bool_decide_eq_false_2; [done|]. by intros ->.
Qed.

Lemma set_bits_spec m l n :
  length m = n → Forall (λ i, 0 ≤ i < 8 * Z.of_nat n) l → Forall (λ b, 0 ≤ b < 256) m →
  ∃ m', set_bits m l = Ok m' ∧ length m' = n ∧ Forall (λ b, 0 ≤ b < 256) m' ∧
    ∀ b, 0 ≤ b < 8 * Z.of_nat n → map_bit m' b = bool_decide (b ∈ l) || map_bit m b.
Proof.
  intros Hl HF. revert m Hl. induction HF as [|i l Hi HF IH]; intros m Hl Hm; simpl.
  { by exists m. }
  destruct (set_bit_spec m i n Hl Hi Hm) as (m1 & -> & Hl1 & Hm1 & Hb1). cbn.
  destruct (IH m1 Hl1 Hm1) as (m2 & -> & Hl2 & Hm2 & Hb2). exists m2. split_and!; [done..|].
  intros b Hb. rewrite Hb2, Hb1, orb_assoc by done. f_equal.
  apply eq_bool_prop_intro. rewrite orb_True, !bool_decide_spec, elem_of_cons. tauto.
Qed.

Lemma map_bit_zero n b : 0 ≤ b < 8 * Z.of_nat n → map_bit (replicate n 0) b = false.
Proof.
  intros Hb. unfold map_bit. rewrite lookup_total_replicate_2; [apply Z.bits_0|].
  pose proof (Z.div_pos b 8). pose proof (Z.div_lt_upper_bound b 8 (Z.of_nat n)). lia.
Qed.

(** [set_port_map] of any list of valid ports is a 36-byte map in which the
    bit of a valid port is set exactly when the port is in the list. *)
Theorem set_port_map_spec (ports : list Z) :
  Forall valid_port ports →
  ∃ m, set_port_map id ports = Ok m ∧ length m = 36%nat ∧ Forall (λ b, 0 ≤ b < 256) m ∧
    ∀ p, valid_port p → map_bit m (portToBitIdx p) = bool_decide (p ∈ ports).
Proof.
  intros HF. unfold set_port_map.
  destruct (set_bits_spec (replicate 36 0) (map portToBitIdx ports) 36)
    as (m & E & Hl & Hm & Hb); [done| |by apply Forall_replicate|].
  { apply Forall_fmap. eapply Forall_impl; [exact HF|]. apply valid_port_bound. }
  change (Z.to_nat ((288 + 7) `div` 8)) with 36%nat. rewrite E. exists m.
  split_and!; [done..|]. intros p Hp. rewrite Hb by (by apply valid_port_bound).
  rewrite map_bit_zero, orb_false_r by (by apply valid_port_bound). apply eq_bool_prop_intro. rewrite !bool_decide_spec.
  split; [|intros; by apply list_elem_of_fmap_2].
  intros (q & Hq & Hin)%list_elem_of_fmap.
  apply portToBitIdx_inj in Hq as ->; [done|done|]. by eapply Forall_forall in HF.
Qed.
(** ** Properties of the driver sequences *)

(** In a sequence of calls, an application of the packet generator is enabled
    only after it was configured and after the template packet at its buffer
    offset, of the configured length, was written on the same pipe. *)
Definition prepared (before : list rpc) (pipe app : Z) : Prop :=
  ∃ cfg pkt, PktgenCfgApp pipe app cfg ∈ before ∧
    PktgenWriteBuffer pipe (buffer_offset cfg) (cfg_length cfg) pkt ∈ before ∧
    pkt_len pkt = cfg_length cfg.

Definition well_ordered (t : list rpc) : Prop :=
  ∀ before pipe app after, t = before ++ PktgenAppEnable pipe app :: after → prepared before pipe app.

Lemma prepared_app t t' pipe app : prepared t pipe app → prepared (t ++ t') pipe app.
Proof.
  intros (cfg & pkt & ? & ? & ?). exists cfg, pkt. split_and!; [apply elem_of_app; by left..|done].
Qed.

Lemma well_ordered_app t t' :
  well_ordered t → (∀ pipe app, PktgenAppEnable pipe app ∈ t' → prepared t pipe app) →
  well_ordered (t ++ t').
Proof.
  intros Ht Hc before pipe app after E.
  apply app_eq_inv in E as [(k & -> & E)|(k & -> & E)].
  - destruct k as [|c k]; simpl in E.
    + rewrite app_nil_r in Hc. apply Hc. rewrite <-E. left.
    + injection E as <- E. by eapply Ht.
  - apply prepared_app, Hc. rewrite E. apply elem_of_app. right. left.
Qed.

Lemma well_ordered_no_enable t :
  Forall (λ c, match c with PktgenAppEnable _ _ => False | _ => True end) t → well_ordered t.
Proof.
  intros HF before pipe app after ->. apply Forall_app in HF as [_ HF].
  by apply Forall_cons in HF as [[] _].
Qed.

(** [enable_pkt_gen] succeeds, enables the generator ports of both pipes
    (68 and 196, the ports it turns recirculation matching on for), and enables
    every application only after configuring it and writing a template packet
    of the configured length at its buffer offset, in buffers that do not
    overlap; [disable_pkt_gen] disables exactly the applications and ports that
    were enabled. *)
Theorem pkt_gen_sequence MINSIZE hex :
  MINSIZE ≤ 128 →
  ∃ on off, enable_pkt_gen MINSIZE hex = Ok on ∧ disable_pkt_gen = Ok off ∧ well_ordered on ∧
    (∀ port, PktgenEnable port ∈ on ↔ PktgenDisable port ∈ off) ∧
    (∀ port, PktgenEnable port ∈ on ↔ PktgenRecircMatching port ∈ on) ∧
    (∀ pipe app, PktgenAppEnable pipe app ∈ on ↔ PktgenAppDisable pipe app ∈ off) ∧
    buffer_offset app_cfg1 + cfg_length app_cfg1 ≤ buffer_offset (app_cfg2 hex).
Proof.
  intros Hmin. eexists _, _. split; [vm_compute make_port; reflexivity|]. split; [reflexivity|].
  assert (∀ d s ty, pkt_len (rd_hash_pkt MINSIZE pktlen d s ty) = 128) as Hlen.
  { intros. unfold rd_hash_pkt, pkt_len, pktlen. destruct (Z.ltb_spec 128 MINSIZE); [lia|]. done. }
  split_and!; [|set_solver..|done].
  apply (well_ordered_app
    ([ClientInit; PktgenEnable 68; PktgenEnable 196;
      PktgenCfgApp 0 1 app_cfg1; PktgenCfgApp 0 2 (app_cfg2 hex);
      PktgenCfgApp 1 1 app_cfg1; PktgenCfgApp 1 2 (app_cfg2 hex);
      PktgenWriteBuffer 0 144 pktlen (collision_pkt MINSIZE);
      PktgenWriteBuffer 0 544 pktlen (hash_pkt MINSIZE);
      PktgenWriteBuffer 1 144 pktlen (collision_pkt MINSIZE);
      PktgenWriteBuffer 1 544 pktlen (hash_pkt MINSIZE);
      PktgenRecircMatching 68; PktgenRecircMatching 196])).
  - apply well_ordered_no_enable. by repeat constructor.
  - intros pipe app Hin. unfold prepared.
    assert ((pipe = 0 ∨ pipe = 1) ∧ (app = 1 ∨ app = 2)) as [[->| ->] [->| ->]] by set_solver.
    + exists app_cfg1, (collision_pkt MINSIZE). split_and!; [set_solver..|apply Hlen].
    + exists (app_cfg2 hex), (hash_pkt MINSIZE). split_and!; [set_solver..|apply Hlen].
    + exists app_cfg1, (collision_pkt MINSIZE). split_and!; [set_solver..|apply Hlen].
    + exists (app_cfg2 hex), (hash_pkt MINSIZE). split_and!; [set_solver..|apply Hlen].
Qed.
End P4.
