(* ===== verification/LaunchDemo.v ===== *)
(** * Launcher and switch demos

    A two-node machine with eight CPUs and two GPUs, a cluster of two workers
    and two servers, and a handful of switch ports: concrete inputs on which
    the theorems of [LaunchProofs], [DistLauncher] and [P4Control] apply. *)

From S2P Require Import Prelude PyStr Launch LaunchProofs DistLauncher P4Control.

Module LaunchDemo.

(** ** One machine *)

Definition demo_ls : listdir_t := λ path,
  if String.eqb path "/sys/devices/system/node" then Some ["possible"; "node0"; "node1"]
  else if String.eqb path "/sys/devices/system/node/node0" then
    Some ["cpu1"; "cpu0"; "cpulist"; "cpu2"; "cpu3"]
  else if String.eqb path "/sys/devices/system/node/node1" then
    Some ["cpu4"; "cpu5"; "cpu6"; "cpu7"; "meminfo"]
  else None.

Definition demo_nodes : list (list Z) := [[0; 1; 2; 3]; [4; 5; 6; 7]].

Definition numa_env : env := {["BYTEPS_MULTITHREADED_CPU" := "0"]}.

Definition demo_env : env :=
  {["DMLC_ROLE" := "worker"; "DMLC_NUM_WORKER" := "1"; "DMLC_WORKER_ID" := "0";
    "NVIDIA_VISIBLE_DEVICES" := "0,1"]}.
Definition plain_env : env := <["BYTEPS_NUMA_ON" := "0"]> demo_env.

(** The process of rank 1 fails with status 3. *)
Definition demo_outside : outside :=
  Outside 0 (λ _ e, if decide (e !! "BYTEPS_LOCAL_RANK" = Some "1") then 3 else 0)
    (λ _, false) demo_ls.
Definition no_numa_outside : outside := Outside 0 (λ _ _, 0) (λ _, false) (λ _, None).

Example demo_numa_info : get_numa_info demo_ls (cpu_mt numa_env) = Ok demo_nodes.
Proof. vm_compute. reflexivity. Qed.

Example demo_allocation :
  allocate_cpu numa_env demo_ls 2 = Ok (Some [[[0; 1; 2; 3]]; [[4; 5; 6; 7]]]).
Proof. vm_compute. reflexivity. Qed.

Lemma get_quota_bounds_witness :
  ∃ dq rq, [4; 4] = replicate (Z.to_nat (2 - 1)) dq ++ [rq] ∧ length [4; 4] = Z.to_nat 2 ∧
    (1 ≤ dq → dq * 2 ≤ 8) ∧ (1 ≤ rq → rq ≤ node_size false [0; 1; 2; 3]).
Proof.
  apply (get_quota_bounds numa_env false [0; 1; 2; 3] [[4; 5; 6; 7]] 2 8 [4; 4]);
    [lia|vm_compute; reflexivity].
Defined.

Lemma allocate_cpu_disjoint_witness : NoDup (concat (concat [[[0; 1; 2; 3]]; [[4; 5; 6; 7]]])).
Proof.
  destruct (allocate_cpu_disjoint numa_env demo_ls 2 demo_nodes [[[0; 1; 2; 3]]; [[4; 5; 6; 7]]]) as [_ Hnd].
  - apply demo_numa_info.
  - apply (bool_decide_unpack _). vm_compute. exact I.
  - apply demo_allocation.
  - apply Hnd. by left.
Defined.

(** The same machine with hyper-threading, as is the default: 0 and 1 of the first node and 4 and 5 of the
    second are taken for its cores and 4 is added for the siblings; both processes
    get CPU 4, and the second one CPU 8, which there is not. *)
Example siblings_collide :
  get_numa_info demo_ls (cpu_mt ∅) = Ok [[0; 1]; [4; 5]] ∧
  allocate_cpu ∅ demo_ls 2 = Ok (Some [[[0; 1]; [4; 5]]; [[4]; [8]]]).
Proof. vm_compute. split; reflexivity. Qed.

Lemma allocate_cpu_complete_witness :
  ∃ ret, allocate_cpu numa_env demo_ls 3 = Ok (Some ret) ∧ length ret = Z.to_nat 3 ∧
    Forall (λ al, al ≠ []) ret.
Proof.
  apply (allocate_cpu_complete numa_env demo_ls 3 [0; 1; 2; 3] [[4; 5; 6; 7]]);
    [apply demo_numa_info|vm_compute; first [reflexivity | split; discriminate | discriminate]..].
Defined.

Lemma numactl_args_roundtrip_witness :
  ∃ args, numa_prefix [[0; 1; 2; 3]; [8]] = Ok ("numactl --physcpubind " +:+ args +:+ " ") ∧
    parse_num_range args = Ok [[[0; 1; 2; 3]; [8]]].
Proof.
  apply (numactl_args_roundtrip [[0; 1; 2; 3]; [8]]); [done|].
  repeat constructor; [exists 0, 4|exists 8, 1]; done.
Defined.

Lemma blacklist_inner_rebound_witness :
  2 ∉ concat (alloc_node false (seqZ 0 4) (Z.to_nat 4) 8 [2]) ∧
  ∃ args, numa_prefix (alloc_node false (seqZ 0 4) (Z.to_nat 4) 8 [2]) =
      Ok ("numactl --physcpubind " +:+ args +:+ " ") ∧
    parse_num_range args = Ok [[seqZ 0 4]].
Proof. apply (blacklist_inner_rebound 0 4 2 8); lia. Defined.

Definition many_env : env :=
  {["DMLC_ROLE" := "worker"; "DMLC_NUM_WORKER" := "2"; "DMLC_NUM_SERVER" := "1";
    "DMLC_PS_ROOT_URI" := "10.0.0.1"; "DMLC_PS_ROOT_PORT" := "1234"; "DMLC_WORKER_ID" := "0"]}.

Lemma check_env_spec_witness :
  check_env (init_launcher many_env) =
    (Ok (), Launcher many_env (COMMON_REQUIRED_ENVS ++ ["DMLC_WORKER_ID"]) []).
Proof.
  apply (check_env_spec (init_launcher many_env) "worker" "2" 2);
    [done|left|done|done|lia|].
  apply (bool_decide_unpack _). vm_compute. exact I.
Defined.

Lemma launch_runs_every_rank_witness :
  ∃ s', launch_bps demo_outside ["launch.py"; "python"; "train.py"] (init_launcher plain_env) =
    (Raise (CalledProcessError 3), s') ∧ length (l_effects s') = 2%nat.
Proof.
  destruct (launch_runs_every_rank demo_outside ["launch.py"; "python"; "train.py"]
    (init_launcher plain_env) (init_launcher plain_env) "python train.py" 2)
    as (s' & H1 & H2); [vm_compute; reflexivity..|].
  exists s'. split; [exact H1|]. rewrite H2. reflexivity.
Defined.

Lemma launch_without_numa_fails_witness :
  ∃ s', launch_bps no_numa_outside ["launch.py"; "python"; "train.py"] (init_launcher demo_env) =
    (Raise TypeError, s') ∧ l_effects s' = [].
Proof.
  apply (launch_without_numa_fails no_numa_outside ["launch.py"; "python"; "train.py"]
    (init_launcher demo_env) (init_launcher demo_env)); vm_compute; reflexivity.
Defined.

(** ** A cluster *)

Definition demo_args : Dist.args :=
  Dist.Args ["10.0.0.1"; "10.0.0.2:2222"] ["10.0.0.3"; ""; "10.0.0.4"] "10.0.0.9" 1234 "eth0"
    ["NVIDIA_VISIBLE_DEVICES:0,1"] None "22" ["python"; "train.py"].
Definition demo_workers : list (string * string) := [("10.0.0.1", "22"); ("10.0.0.2", "2222")].
Definition demo_servers : list (string * string) := [("10.0.0.3", "22"); ("10.0.0.4", "22")].
Definition demo_pass_envs : odict string string := [("NVIDIA_VISIBLE_DEVICES", "0,1")].

Definition demo_threads : list string :=
  match Dist.submit ∅ demo_args with Ok ts => ts | Raise _ => [] end.

Lemma hosts_roundtrip_witness :
  Dist.get_hosts_from_file ["10.0.0.1:2222"; " "; "node-b"; " "] =
    Ok [("10.0.0.1", "2222"); ("node-b", "22")].
Proof.
  apply (Dist.hosts_roundtrip [("10.0.0.1", Some "2222"); ("node-b", None)]); [done|].
  apply Forall_cons. split; [by split; [|intros port [= <-]]|].
  apply Forall_cons. split; [by split|]. apply Forall_nil. exact I.
Defined.

Lemma submit_workers_witness :
  length demo_threads = 5%nat ∧
  ∃ d, demo_threads !! 2%nat = Some (Dist.start_ssh (Dist.remote_prog ∅ demo_args d)
         "10.0.0.2" "2222" (Some "") "worker1") ∧
    od_get "DMLC_WORKER_ID" d = Some "1".
Proof.
  destruct (Dist.submit_workers ∅ demo_args demo_threads demo_workers demo_servers demo_pass_envs)
    as [H1 H2]; [vm_compute; reflexivity..|].
  split; [exact H1|].
  destruct (H2 1%nat "10.0.0.2" "2222") as (d & Hd & _ & Hi & _); [reflexivity|].
  exists d. split; [exact Hd|exact Hi].
Defined.

Lemma submit_servers_inherit_witness :
  ∃ d, od_get "DMLC_ROLE" d = Some "server" ∧ od_get "DMLC_WORKER_ID" d = Some "1" ∧
    demo_threads !! 4%nat = Some (Dist.start_ssh (Dist.remote_prog ∅ demo_args d)
      "10.0.0.4" "22" (Some "") "server1").
Proof.
  destruct (Dist.submit_servers_inherit ∅ demo_args demo_threads demo_workers demo_servers
    demo_pass_envs) with (j := 1%nat) (node := "10.0.0.4") (port := "22")
    as (d & Hd & Hr & Hi); [vm_compute; reflexivity..|].
  exists d. split; [exact Hr|]. split; [exact Hi|exact Hd].
Defined.

(** ** The switch *)

Lemma set_port_map_spec_witness :
  ∃ m, P4.set_port_map id [0; 68; 196] = Ok m ∧ length m = 36%nat ∧
    Forall (λ b, 0 ≤ b < 256) m ∧
    ∀ p, P4.valid_port p → P4.map_bit m (P4.portToBitIdx p) = bool_decide (p ∈ [0; 68; 196]).
Proof.
  apply (P4.set_port_map_spec [0; 68; 196]).
  repeat constructor; vm_compute; first [reflexivity | discriminate].
Defined.

Lemma pkt_gen_sequence_witness :
  ∃ on off, P4.enable_pkt_gen 64 id = Ok on ∧ P4.disable_pkt_gen = Ok off ∧
    P4.well_ordered on.
Proof.
  destruct (P4.pkt_gen_sequence 64 id) as (on & off & H1 & H2 & H3 & _); [lia|].
  exists on, off. split; [exact H1|]. split; [exact H2|exact H3].
Defined.
End LaunchDemo.
