(* ===== verification/Tensor.v ===== *)
(** * Scalars and tensors

    The numeric elements of a tensor are a parameter: a type with the
    operations the Python code applies to them. Floating-point arithmetic is
    not assumed to be exact; a theorem that needs an algebraic law of the
    elements asks for [ScalarLaws], or names the law.

    A tensor is its element type, its shape and its elements in row-major
    order. Tensors are objects: [heap] maps locations to their contents, so
    that an in-place operation is seen through every reference. *)

From S2P Require Import Prelude PyStr.

Class Scalar (R : Type) : Type := {
  s_zero : R;
  s_add : R → R → R;
  s_sub : R → R → R;
  s_mul : R → R → R;
  s_div : R → R → R;
  s_neg : R → R;
  s_abs : R → R;
  s_sqrt : R → R;
  s_leb : R → R → bool;
  s_eqb : R → R → bool;
  s_of_Z : Z → R;
  (** conversion to an integer, as [.long()] truncates *)
  s_to_Z : R → Z
}.

(** The laws the theorems below use; exact arithmetic satisfies them. *)
Class ScalarLaws (R : Type) `{Scalar R} : Prop := {
  s_add_0_l x : s_add s_zero x = x;
  s_add_0_r x : s_add x s_zero = x;
  s_add_comm x y : s_add x y = s_add y x;
  s_add_assoc x y z : s_add x (s_add y z) = s_add (s_add x y) z;
  s_sub_diag x : s_sub x x = s_zero;
  s_neg_neg x : s_neg (s_neg x) = x;
  s_leb_total x y : s_leb x y = true ∨ s_leb y x = true;
  s_leb_trans x y z : s_leb x y = true → s_leb y z = true → s_leb x z = true;
  s_leb_antisym x y : s_leb x y = true → s_leb y x = true → x = y;
  s_eqb_eq x y : s_eqb x y = true ↔ x = y
}.

(** Integers: used by the executable witnesses. *)
#[export] Instance Z_scalar : Scalar Z := {|
  s_zero := 0; s_add := Z.add; s_sub := Z.sub; s_mul := Z.mul; s_div := Z.div;
  s_neg := Z.opp; s_abs := Z.abs; s_sqrt := Z.sqrt; s_leb := Z.leb; s_eqb := Z.eqb;
  s_of_Z := id; s_to_Z := id
|}.

#[export] Instance Z_scalar_laws : ScalarLaws Z.
Proof. split; cbn; intros; lia. Qed.

Inductive dtype := uint8 | int32 | int64 | float16 | float32 | float64.
#[export] Instance dtype_eq_dec : EqDecision dtype.
Proof. solve_decision. Defined.

Definition is_floating_point (d : dtype) : bool :=
  match d with float16 | float32 | float64 => true | _ => false end.

Record tensor (R : Type) : Type := Tensor {
  t_dtype : dtype;
  t_shape : list nat;
  t_data : list R;
  t_cuda : bool;
  t_contiguous : bool
}.
Arguments Tensor {R} _ _ _ _ _.
Arguments t_dtype {R} _.
Arguments t_shape {R} _.
Arguments t_data {R} _.
Arguments t_cuda {R} _.
Arguments t_contiguous {R} _.

(** [tensor.numel()] *)
Definition numel (shape : list nat) : nat := foldr Nat.mul 1%nat shape.

Definition tensor_wf {R} (t : tensor R) : Prop := length (t_data t) = numel (t_shape t).

Definition with_data {R} (l : list R) (t : tensor R) : tensor R :=
  Tensor (t_dtype t) (t_shape t) l (t_cuda t) (t_contiguous t).
Definition with_dtype {R} (d : dtype) (t : tensor R) : tensor R :=
  Tensor d (t_shape t) (t_data t) (t_cuda t) (t_contiguous t).
Definition with_shape {R} (sh : list nat) (t : tensor R) : tensor R :=
  Tensor (t_dtype t) sh (t_data t) (t_cuda t) (t_contiguous t).

(** [tensor.type()], e.g. ["torch.cuda.FloatTensor"]. *)
Definition type_name (d : dtype) : string :=
  match d with
  | uint8 => "ByteTensor" | int32 => "IntTensor" | int64 => "LongTensor"
  | float16 => "HalfTensor" | float32 => "FloatTensor" | float64 => "DoubleTensor"
  end.
Definition tensor_type {R} (t : tensor R) : string :=
  if t_cuda t then "torch.cuda." +:+ type_name (t_dtype t) else "torch." +:+ type_name (t_dtype t).

(** ** The heap *)

Notation loc := nat.
Notation heap R := (gmap loc (tensor R)).

(** Elementwise operations on the data of equally long tensors. *)
Definition vadd {R} `{Scalar R} (a b : list R) : list R := zip_with s_add a b.
Definition vzero {R} `{Scalar R} (n : nat) : list R := replicate n s_zero.

(** [sum over workers] *)
Definition vsum {R} `{Scalar R} (n : nat) (ls : list (list R)) : list R := foldr vadd (vzero n) ls.

(** [t.norm(2)] *)
Definition norm2 {R} `{Scalar R} (a : list R) : R :=
  s_sqrt (foldl s_add s_zero (map (λ x, s_mul x x) a)).

Section vec.
Context {R : Type} `{ScalarLaws R}.

Lemma length_vadd (a b : list R) : length a = length b → length (vadd a b) = length a.
Proof. intros E. unfold vadd. rewrite length_zip_with. lia. Qed.

Lemma length_vzero n : length (vzero (R := R) n) = n.
Proof. apply length_replicate. Qed.

Lemma vadd_zero_r (a : list R) : vadd a (vzero (length a)) = a.
Proof.
  unfold vadd, vzero. induction a as [|x a IH]; simpl; [done|]. by rewrite s_add_0_r, IH.
Qed.

Lemma vadd_zero_l (a : list R) : vadd (vzero (length a)) a = a.
Proof.
  unfold vadd, vzero. induction a as [|x a IH]; simpl; [done|]. by rewrite s_add_0_l, IH.
Qed.

Lemma vadd_comm (a b : list R) : vadd a b = vadd b a.
Proof.
  unfold vadd. revert b. induction a as [|x a IH]; intros [|y b]; simpl; [done..|].
  by rewrite s_add_comm, IH.
Qed.

Lemma vadd_assoc (a b c : list R) : vadd a (vadd b c) = vadd (vadd a b) c.
Proof.
  unfold vadd. revert b c. induction a as [|x a IH]; intros [|y b] [|z c]; simpl; [done..|].
  by rewrite s_add_assoc, IH.
Qed.

Lemma length_vsum n (ls : list (list R)) :
  Forall (λ l, length l = n) ls → length (vsum n ls) = n.
Proof.
  induction 1 as [|l ls Hl _ IH]; simpl; [apply length_vzero|].
  rewrite length_vadd; [done|]. by rewrite IH.
Qed.

Lemma vsum_zeros n k : vsum n (replicate k (vzero n)) = vzero n.
Proof.
  induction k as [|k IH]; simpl; [done|]. rewrite IH.
  pose proof (vadd_zero_r (vzero n)) as E. by rewrite length_vzero in E.
Qed.

(** A sum in which every summand but one is zero is that summand. *)
Lemma vsum_single n (l : list R) i j :
  length l = n → vsum n (replicate i (vzero n) ++ l :: replicate j (vzero n)) = l.
Proof.
  intros Hl. induction i as [|i IH]; simpl.
  - rewrite vsum_zeros, <-Hl. apply vadd_zero_r.
  - rewrite IH, <-Hl. apply vadd_zero_l.
Qed.
End vec.
