(* ===== verification/BitIO.v ===== *)
(** * Bit streams, [byteps/common/compressor/utils.h]

    The writer and reader of single bits, packed into words of [w] bits with the
    first bit on top, and the Elias delta code written with them; the rounding to
    the next power of two and the random number generator.

    Theorems: the words hold the bits that were put, the reader returns them, and
    a sequence of numbers that has been encoded is decoded to itself. *)

From S2P Require Import Prelude.

(** ** Native code

    A call ends with a result, aborts the process at a failed [BPS_CHECK], or
    does something C++ leaves undefined: an access outside a buffer, a shift by too
    much, a signed overflow. [OutOfFuel] is a loop cut off by the model. *)
Inductive cres (A : Type) : Type := Done (a : A) | Fatal | Undef | OutOfFuel.
Arguments Done {A} _.
Arguments Fatal {A}.
Arguments Undef {A}.
Arguments OutOfFuel {A}.

#[export] Instance cres_ret : MRet cres := @Done.
#[export] Instance cres_bind : MBind cres := λ A B f m,
  match m with Done a => f a | Fatal => Fatal | Undef => Undef | OutOfFuel => OutOfFuel end.

(** [mem[i]] and [mem[i] = x] *)
Definition load {A} (mem : list A) (i : nat) : cres A :=
  match mem !! i with Some x => Done x | None => Undef end.
Definition store_at {A} (mem : list A) (i : nat) (x : A) : cres (list A) :=
  if decide (i < length mem)%nat then Done (<[i := x]> mem) else Undef.

(** [BPS_CHECK(b)] *)
Definition bps_check (b : bool) : cres () := if b then Done () else Fatal.

Module BitIO.

(** The value of an unsigned integer type of [w] bits. *)
Definition wrap (w : nat) (z : Z) : Z := z mod 2 ^ Z.of_nat w.

(** The conversion of an unsigned integer to [float]: 24 significant bits, ties to
    even. *)
Definition to_float (n : Z) : Z :=
  let e := Z.log2 n - 23 in
  if decide (e ≤ 0) then n else
  let q := n / 2 ^ e in
  let r := n mod 2 ^ e in
  (if decide (2 * r < 2 ^ e ∨ (2 * r = 2 ^ e ∧ Z.even q)) then q else q + 1) * 2 ^ e.

(** ** [BitWriter] *)
Section words.
Context (w : nat).

Record bit_writer : Type := BitWriter {
  _dptr : list Z;
  _accum : Z;
  _used_bits : nat;
  _blocks : nat
}.

Definition Put (x : bool) (s : bit_writer) : cres bit_writer :=
  let accum := wrap w (Z.lor (wrap w (Z.shiftl (_accum s) 1)) (Z.b2z x)) in
  if decide (S (_used_bits s) = w) then
    mem ← store_at (_dptr s) (_blocks s) accum;
    mret (BitWriter mem accum 0 (S (_blocks s)))
  else mret (BitWriter (_dptr s) accum (S (_used_bits s)) (_blocks s)).

Definition Flush (s : bit_writer) : cres bit_writer :=
  if decide (0 < _used_bits s)%nat then
    let padding_size := (w - _used_bits s)%nat in
    let accum := wrap w (Z.shiftl (_accum s) (Z.of_nat padding_size)) in
    mem ← store_at (_dptr s) (_blocks s) accum;
    mret (BitWriter mem accum (_used_bits s) (_blocks s))
  else mret s.

Definition bits (s : bit_writer) : nat := (_blocks s * w + _used_bits s)%nat.

(** [std::ceil((float)bits() / PACKING_SIZE)]; a division by a power of two is
    exact. *)
Definition blocks (s : bit_writer) : nat :=
  Z.to_nat ((to_float (Z.of_nat (bits s)) + Z.of_nat w - 1) / Z.of_nat w).

Fixpoint puts (l : list bool) (s : bit_writer) : cres bit_writer :=
  match l with
  | [] => mret s
  | x :: l' => s' ← Put x s; puts l' s'
  end.

(** ** [BitReader] *)
Record bit_reader : Type := BitReader { r_used : nat; r_blocks : nat; r_accum : Z }.
Definition reader0 : bit_reader := BitReader 0 0 0.

(** [1 << n] of an [int]. *)
Definition one_shl (n : nat) : cres Z :=
  if decide (n < 31)%nat then Done (2 ^ Z.of_nat n)
  else if decide (n = 31%nat) then Done (- 2 ^ 31) else Undef.

Definition Get (mem : list Z) (s : bit_reader) : cres (bool * bit_reader) :=
  s ← (if decide (r_used s = 0%nat) then
         x ← load mem (r_blocks s); mret (BitReader w (S (r_blocks s)) x)
       else mret s);
  let used := pred (r_used s) in
  m ← one_shl used;
  mret (negb (Z.land (r_accum s) m =? 0), BitReader used (r_blocks s) (r_accum s)).

Definition r_bits (s : bit_reader) : nat := (r_blocks s * w - r_used s)%nat.

(** ** Elias delta code

    [flog2 x] is [std::floor(std::log2(x))]. *)
Context (flog2 : Z → Z).

(** [i = n - 1, ..., 0] *)
Definition down (n : nat) : list nat := rev (seq 0 n).
Definition bit_at (x : Z) (i : nat) : bool := negb (Z.land (Z.shiftr x (Z.of_nat i)) 1 =? 0).

Definition EliasDeltaEncode (x : Z) (s : bit_writer) : cres bit_writer :=
  let len := 1 + flog2 x in
  let lenth_of_len := Z.to_nat (flog2 len) in
  s ← puts (replicate lenth_of_len false) s;
  s ← puts (bit_at len <$> down (S lenth_of_len)) s;
  puts (bit_at x <$> down (Z.to_nat (len - 1))) s.

(** [while (!bit_reader.Get()) lenth_of_len++;] *)
Fixpoint skip_zeros (fuel : nat) (mem : list Z) (n : nat) (s : bit_reader) : cres (nat * bit_reader) :=
  match fuel with
  | O => OutOfFuel
  | S fuel' =>
      '(b, s) ← Get mem s;
      if b : bool then mret (n, s) else skip_zeros fuel' mem (S n) s
  end.

(** [n] times [x <<= 1; if (bit_reader.Get()) x |= 1;], where [shl] is the shift of
    the type of [x]. *)
Fixpoint read_bits (shl : Z → cres Z) (mem : list Z) (n : nat) (x : Z) (s : bit_reader) : cres (Z * bit_reader) :=
  match n with
  | O => mret (x, s)
  | S n' =>
      x ← shl x;
      '(b, s) ← Get mem s;
      read_bits shl mem n' (if b : bool then Z.lor x 1 else x) s
  end.

(** [int] overflows, [unsigned long] wraps around. *)
Definition shl_int (x : Z) : cres Z := if decide (2 * x < 2 ^ 31) then Done (2 * x) else Undef.
Definition shl_ulong (x : Z) : cres Z := Done (wrap 64 (Z.shiftl x 1)).

(** A read outside the buffer ends the first loop at the latest. *)
Definition EliasDeltaDecode (mem : list Z) (s : bit_reader) : cres (Z * bit_reader) :=
  '(lenth_of_len, s) ← skip_zeros (S (length mem * w)) mem 0 s;
  '(len, s) ← read_bits shl_int mem lenth_of_len 1 s;
  read_bits shl_ulong mem (Z.to_nat (len - 1)) 1 s.
End words.

(** ** [RoundNextPow2] and [XorShift128PlusBitShifterRNG] *)

Definition smear (v : Z) (k : Z) : Z := Z.lor v (Z.shiftr v k).
Definition RoundNextPow2 (v : Z) : Z :=
  let v := wrap 32 (v - 1) in
  wrap 32 (smear (smear (smear (smear (smear v 1) 2) 4) 8) 16 + 1).

Record rng : Type := Rng { rng_a : Z; rng_b : Z }.
Definition set_seed (seed : Z) : rng := Rng seed seed.

Definition xorshift128p (s : rng) : Z * rng :=
  let t := rng_a s in
  let u := rng_b s in
  let t := Z.lxor t (wrap 64 (Z.shiftl t 23)) in
  let t := Z.lxor t (Z.shiftr t 17) in
  let t := Z.lxor t (Z.lxor u (Z.shiftr u 26)) in
  (wrap 64 (t + u), Rng u t).

Definition Randint (low high : Z) (s : rng) : Z * rng :=
  let '(x, s) := xorshift128p s in (wrap 64 (x mod (high - low) + low), s).

(** ** Words and their bits *)

(** The number a list of bits stands for, the first bit on top. *)
Definition val (l : list bool) : Z := foldl (λ a b, 2 * a + Z.b2z b) 0 l.

Lemma val_snoc l b : val (l ++ [b]) = 2 * val l + Z.b2z b.
Proof. unfold val. by rewrite foldl_app. Qed.

Lemma val_app_zeros l n : val (l ++ replicate n false) = val l * 2 ^ Z.of_nat n.
Proof.
  induction n as [|n IH]; [by rewrite app_nil_r, Z.mul_1_r|].
  rewrite replicate_S_end, app_assoc, val_snoc, IH, Nat2Z.inj_succ, Z.pow_succ_r by lia. simpl. lia.
Qed.

Lemma val_testbit l (i : nat) :
  Z.testbit (val l) (Z.of_nat i) = default false (reverse l !! i).
Proof.
  revert i. induction l as [|b l IH] using rev_ind; intros i; [by rewrite Z.bits_0|].
  rewrite val_snoc, reverse_snoc. destruct i as [|i].
  - rewrite Z.bit0_odd, Z.odd_add, Z.odd_mul. by destruct b.
  - rewrite Nat2Z.inj_succ. simpl. rewrite <-IH. destruct b; simpl Z.b2z.
    + by rewrite Z.testbit_odd_succ by lia.
    + by rewrite Z.add_0_r, Z.testbit_even_succ by lia.
Qed.

Lemma val_bit l i b : l !! i = Some b → Z.testbit (val l) (Z.of_nat (length l - S i)) = b.
Proof.
  intros Hi. pose proof (lookup_lt_Some _ _ _ Hi). rewrite val_testbit, reverse_lookup by lia.
  replace (length l - S (length l - S i))%nat with i by lia. by rewrite Hi.
Qed.

Lemma wrap_bound w z : 0 ≤ wrap w z < 2 ^ Z.of_nat w.
Proof. apply Z.mod_pos_bound. lia. Qed.

Lemma wrap_small w z : 0 ≤ z < 2 ^ Z.of_nat w → wrap w z = z.
Proof. apply Z.mod_small. Qed.

Lemma wrap_testbit w z (i : nat) : (i < w)%nat → Z.testbit (wrap w z) (Z.of_nat i) = Z.testbit z (Z.of_nat i).
Proof. intros Hi. apply Z.mod_pow2_bits_low. lia. Qed.

Lemma lor_b2z a b : Z.lor (2 * a) (Z.b2z b) = 2 * a + Z.b2z b.
Proof.
  symmetry. apply Z.add_nocarry_lor. apply Z.bits_inj'. intros i Hi. rewrite Z.land_spec, Z.bits_0.
  destruct (decide (i = 0)) as [->|]; [by rewrite Z.testbit_even_0|].
  destruct b; [|by rewrite Z.bits_0, andb_false_r]. rewrite andb_comm. simpl.
  rewrite Z.bits_above_log2; [done|lia|simpl; lia].
Qed.

Lemma wrap_put w a b :
  (0 < w)%nat → wrap w (Z.lor (wrap w (Z.shiftl (wrap w a) 1)) (Z.b2z b)) = wrap w (2 * a + Z.b2z b).
Proof.
  intros Hw. assert (2 ^ Z.of_nat w = 2 * 2 ^ (Z.of_nat w - 1)) as Ep.
  { rewrite <-Z.pow_succ_r by lia. f_equal. lia. }
  assert (0 < 2 ^ (Z.of_nat w - 1)) by lia.
  unfold wrap. rewrite Z.shiftl_mul_pow2 by lia. change (2 ^ 1) with 2.
  rewrite Zmult_mod_idemp_l, (Z.mul_comm a 2), Ep, Z.mul_mod_distr_l by lia.
  rewrite lor_b2z, <-Z.mul_mod_distr_l by lia. by rewrite Zplus_mod_idemp_l.
Qed.

(** ** The writer *)
Section writer.
Context (w : nat) (Hw : (0 < w)%nat).

(** The words of [mem] hold the bits [l]. *)
Definition packs (mem : list Z) (l : list bool) : Prop :=
  ∀ i b, l !! i = Some b → ∃ x, mem !! (i / w)%nat = Some x ∧ 0 ≤ x < 2 ^ Z.of_nat w ∧
    Z.testbit x (Z.of_nat (w - S (i mod w))) = b.

(** [l] has been put into a buffer of [cap] words. *)
Record written (cap : nat) (l : list bool) (s : bit_writer) : Prop := {
  wr_length : length (_dptr s) = cap;
  wr_used : (_used_bits s < w)%nat;
  wr_bits : bits w s = length l;
  wr_accum : _accum s = wrap w (val l);
  wr_word b : (b < _blocks s)%nat → _dptr s !! b = Some (wrap w (val (take (S b * w) l)))
}.

Lemma written_start mem : written (length mem) [] (BitWriter mem 0 0 0).
Proof. split; simpl; try done. lia. Qed.

Lemma Put_ok cap l s x :
  written cap l s → (length l < cap * w)%nat → ∃ s', Put w x s = Done s' ∧ written cap (l ++ [x]) s'.
Proof.
  intros [W1 W2 W3 W4 W5] Hl. unfold bits in W3. unfold Put. rewrite W4, wrap_put, <-val_snoc by done.
  assert (∀ b, (b < _blocks s)%nat → take (S b * w) (l ++ [x]) = take (S b * w) l) as Ht.
  { intros b Hb. apply take_app_le. nia. }
  case_decide as Hu.
  - unfold store_at. rewrite decide_True by nia. eexists. split; [reflexivity|]. split; simpl.
    + by rewrite length_insert.
    + done.
    + unfold bits. simpl. rewrite length_app. simpl. lia.
    + done.
    + intros b Hb. destruct (decide (b = _blocks s)) as [->|Hne].
      * rewrite list_lookup_insert_eq by nia. do 3 f_equal. rewrite take_ge; [done|].
        rewrite length_app. simpl. lia.
      * rewrite list_lookup_insert_ne by done. change (w + b * w)%nat with (S b * w)%nat.
        rewrite Ht by lia. apply W5. lia.
  - eexists. split; [reflexivity|]. split; simpl; try done; [lia|unfold bits; simpl; rewrite length_app; simpl; lia|].
    intros b Hb. change (w + b * w)%nat with (S b * w)%nat. rewrite Ht by done. by apply W5.
Qed.

Lemma puts_ok cap l xs s :
  written cap l s → (length l + length xs ≤ cap * w)%nat →
  ∃ s', puts w xs s = Done s' ∧ written cap (l ++ xs) s'.
Proof.
  revert l s. induction xs as [|x xs IH]; intros l s Hs Hl; simpl in *.
  - exists s. by rewrite app_nil_r.
  - destruct (Put_ok cap l s x Hs) as (s1 & E & Hs1); [lia|].
    destruct (IH (l ++ [x]) s1 Hs1) as (s2 & E2 & Hs2); [rewrite length_app; simpl; lia|].
    exists s2. rewrite E. split; [exact E2|]. by rewrite <-app_assoc in Hs2.
Qed.

(** The number of words in use. *)
Definition word_count (n : nat) : nat := ((n + w - 1) / w)%nat.

Lemma Flush_ok cap l s :
  written cap l s → (length l ≤ cap * w)%nat →
  ∃ s', Flush w s = Done s' ∧ packs (_dptr s') l ∧ bits w s' = length l ∧ length (_dptr s') = cap.
Proof.
  intros [W1 W2 W3 W4 W5] Hl. unfold bits in W3.
  assert (∀ i b, l !! i = Some b → (i / w < _blocks s)%nat → ∃ x, _dptr s !! (i / w)%nat = Some x ∧
    0 ≤ x < 2 ^ Z.of_nat w ∧ Z.testbit x (Z.of_nat (w - S (i mod w))) = b) as Hfull.
  { intros i b Hi Hq. eexists. split; [by apply W5|]. split; [apply wrap_bound|].
    pose proof (Nat.mod_upper_bound i w ltac:(lia)). pose proof (Nat.div_mod_eq i w). pose proof (Nat.Div0.mod_le i w).
    rewrite wrap_testbit by lia.
    assert (length (take (S (i / w) * w) l) = S (i / w) * w)%nat as Hlen by (rewrite length_take; nia).
    assert (S (i / w) * w = w + (i - i mod w))%nat as Hq' by (simpl; nia).
    replace (w - S (i mod w))%nat with (length (take (S (i / w) * w) l) - S i)%nat by lia.
    apply val_bit. rewrite lookup_take. rewrite decide_True by nia. done. }
  unfold Flush. case_decide as Hu.
  - unfold store_at. rewrite decide_True by nia. eexists. split; [reflexivity|]. simpl.
    split_and!; [|done|by rewrite length_insert].
    intros i b Hi. pose proof (lookup_lt_Some _ _ _ Hi).
    pose proof (Nat.mod_upper_bound i w ltac:(lia)). pose proof (Nat.div_mod_eq i w). pose proof (Nat.Div0.mod_le i w).
    destruct (decide (i / w < _blocks s)%nat) as [Hq|Hq].
    + rewrite list_lookup_insert_ne by lia. by apply Hfull.
    + assert (i / w = _blocks s)%nat as Eq by nia. rewrite Eq in *. rewrite list_lookup_insert_eq by nia.
      eexists. split; [done|]. split; [apply wrap_bound|]. rewrite wrap_testbit by lia.
      assert (i mod w < _used_bits s)%nat by nia.
      rewrite Z.shiftl_spec by lia.
      replace (Z.of_nat (w - S (i mod w)) - Z.of_nat (w - _used_bits s)) with (Z.of_nat (length l - S i)) by lia.
      rewrite W4, wrap_testbit by nia. by apply val_bit.
  - exists s. split_and!; try done. intros i b Hi. apply Hfull; [done|].
    pose proof (lookup_lt_Some _ _ _ Hi). apply Nat.div_lt_upper_bound; lia.
Qed.

(** Up to 2^24 bits [blocks] is the number of words in use. *)
Lemma blocks_ok s : Z.of_nat (bits w s) ≤ 2 ^ 24 → blocks w s = word_count (bits w s).
Proof.
  intros Hb. unfold blocks, word_count. assert (to_float (Z.of_nat (bits w s)) = Z.of_nat (bits w s)) as ->.
  { destruct (decide (Z.of_nat (bits w s) = 2 ^ 24)) as [->|Hne]; [by vm_compute|].
    unfold to_float. rewrite decide_True; [done|].
    destruct (decide (bits w s = 0%nat)) as [->|]; [by vm_compute|].
    assert (Z.log2 (Z.of_nat (bits w s)) < 24); [|lia]. apply Z.log2_lt_pow2; lia. }
  apply Nat2Z.inj. rewrite Z2Nat.id by (apply Z.div_pos; lia). rewrite Nat2Z.inj_div. f_equal. lia.
Qed.
End writer.

(** ** The reader

    [1 << n] is the shift of an [int]: words of up to 32 bits are read, words of 64
    bits are not. *)
Section reader.
Context (w : nat) (Hw : (0 < w ≤ 32)%nat).

(** [n] bits of [mem] have been read. *)
Record reading (mem : list Z) (n : nat) (s : bit_reader) : Prop := {
  rd_bits : (n + r_used s = r_blocks s * w)%nat;
  rd_used : (r_used s < w)%nat;
  rd_accum : (0 < r_used s)%nat → mem !! (n / w)%nat = Some (r_accum s)
}.

Lemma reading_start mem : reading mem 0 reader0.
Proof. split; simpl; lia. Qed.

Lemma reading_bits mem n s : reading mem n s → r_bits w s = n.
Proof. intros [R1 _ _]. unfold r_bits. lia. Qed.

Lemma one_shl_land x n :
  (n < 32)%nat → 0 ≤ x < 2 ^ 32 → ∃ m, one_shl n = Done m ∧ negb (Z.land x m =? 0) = Z.testbit x (Z.of_nat n).
Proof.
  intros Hn Hx. unfold one_shl.
  assert (∀ m, (∀ i, 0 ≤ i < 32 → Z.testbit m i = bool_decide (i = Z.of_nat n)) →
    negb (Z.land x m =? 0) = Z.testbit x (Z.of_nat n)) as Hland.
  { intros m Hm. assert (∀ i, 32 ≤ i → Z.testbit x i = false) as Hhi.
    { intros i Hi. rewrite <-(Z.mod_small x (2 ^ 32)) by done. apply Z.mod_pow2_bits_high. lia. }
    destruct (Z.testbit x (Z.of_nat n)) eqn:E.
    - apply negb_true_iff, Z.eqb_neq. intros E0. assert (Z.testbit (Z.land x m) (Z.of_nat n) = false) as Hf by
        (by rewrite E0, Z.bits_0). rewrite Z.land_spec, E, Hm, bool_decide_true in Hf by lia. done.
    - apply negb_false_iff, Z.eqb_eq. apply Z.bits_inj'. intros i Hi. rewrite Z.land_spec, Z.bits_0.
      destruct (decide (i < 32)); [|by rewrite Hhi by lia]. rewrite Hm by lia.
      case_bool_decide; [subst; by rewrite E|apply andb_false_r]. }
  case_decide as H1; [|case_decide as H2; [|lia]]; eexists; (split; [reflexivity|]); apply Hland; intros i Hi.
  - rewrite Z.pow2_bits_eqb by lia. case_bool_decide; [apply Z.eqb_eq|apply Z.eqb_neq]; lia.
  - rewrite H2. rewrite Z.bits_opp by lia. replace (Z.pred (2 ^ 31)) with (Z.ones 31) by done.
    case_bool_decide; [by subst|]. rewrite Z.ones_spec_low by lia. done.
Qed.

Lemma Get_ok mem n l b s :
  packs w mem l → reading mem n s → l !! n = Some b →
  ∃ s', Get w mem s = Done (b, s') ∧ reading mem (S n) s'.
Proof.
  intros Hp [R1 R2 R3] Hb. destruct (Hp n b Hb) as (x & Hx & Hr & Hbit).
  pose proof (Nat.mod_upper_bound n w ltac:(lia)). pose proof (Nat.div_mod_eq n w).
  assert (x < 2 ^ 32) by (assert (2 ^ Z.of_nat w ≤ 2 ^ 32) by (apply Z.pow_le_mono_r; lia); lia).
  assert (∀ s1, r_accum s1 = x → r_blocks s1 = S (n / w) → r_used s1 = (w - n mod w)%nat →
    ∃ s', (let used := pred (r_used s1) in m ← one_shl used;
           mret (negb (Z.land (r_accum s1) m =? 0), BitReader used (r_blocks s1) (r_accum s1))) = Done (b, s') ∧
      reading mem (S n) s') as Hend.
  { intros s1 E1 E2 E3. rewrite E1, E2, E3. replace (pred (w - n mod w)) with (w - S (n mod w))%nat by lia.
    destruct (one_shl_land x (w - S (n mod w))) as (m & Em & Eb); [lia|lia|].
    cbv zeta. rewrite Em. cbn [mbind cres_bind]. rewrite Eb, Hbit. eexists. split; [reflexivity|].
    split; simpl; [nia|lia|]. intros Hu. assert (S n / w = n / w)%nat as ->; [|done].
    symmetry. apply (Nat.div_unique (S n) w (n / w) (S (n mod w))); lia. }
  unfold Get. case_decide as Hu.
  - assert (r_blocks s = n / w)%nat as ->. { apply Nat.div_unique_exact; lia. }
    unfold load. rewrite Hx. cbn [mbind cres_bind mret cres_ret]. apply Hend; simpl; try done.
    assert (n mod w = 0)%nat; [|lia]. apply Nat.Div0.mod_divides. exists (r_blocks s). lia.
  - cbn [mbind cres_bind mret cres_ret]. specialize (R3 ltac:(lia)). simplify_eq. apply Hend; try done.
    + assert (n / w = r_blocks s - 1)%nat; [|nia]. symmetry.
      apply (Nat.div_unique n w (r_blocks s - 1) (w - r_used s)); nia.
    + assert (w - r_used s = n mod w)%nat; [|lia].
      apply (Nat.mod_unique n w (r_blocks s - 1) (w - r_used s)); nia.
Qed.
End reader.

(** ** The Elias delta code *)
Section elias.
Context (w : nat) (Hw : (0 < w ≤ 32)%nat) (flog2 : Z → Z).
Context (Hlog : ∀ x, 0 < x < 2 ^ 32 → flog2 x = Z.log2 x).

Definition elias (x : Z) : list bool :=
  let len := 1 + flog2 x in
  let lenth_of_len := Z.to_nat (flog2 len) in
  replicate lenth_of_len false ++ (bit_at len <$> down (S lenth_of_len)) ++
  (bit_at x <$> down (Z.to_nat (len - 1))).

Lemma puts_app l1 l2 s : puts w (l1 ++ l2) s = (s' ← puts w l1 s; puts w l2 s').
Proof.
  revert s. induction l1 as [|x l1 IH]; intros s; [done|]. simpl. destruct (Put w x s); [apply IH|done..].
Qed.

Lemma encode_puts x s : EliasDeltaEncode w flog2 x s = puts w (elias x) s.
Proof.
  unfold EliasDeltaEncode, elias. rewrite !puts_app. destruct (puts w (replicate _ false) s); simpl; [|done..].
  by rewrite puts_app.
Qed.

Lemma down_S n : down (S n) = n :: down n.
Proof. unfold down. by rewrite seq_S, rev_app_distr. Qed.

Lemma length_down n : length (down n) = n.
Proof. unfold down. by rewrite length_rev, length_seq. Qed.

Lemma bit_at_testbit x i : bit_at x i = Z.testbit x (Z.of_nat i).
Proof.
  unfold bit_at. rewrite <-(Z.land_ones _ 1) || change 1 with (Z.ones 1). rewrite Z.land_ones by lia.
  rewrite Z.shiftr_div_pow2 by lia. change (2 ^ 1) with 2.
  pose proof (Z.testbit_spec' x (Z.of_nat i) ltac:(lia)) as Hb.
  destruct (Z.testbit x (Z.of_nat i)); simpl in Hb; by rewrite <-Hb.
Qed.

(** The next bits of [l] after [n] are [xs]. *)
Definition next_bits (l : list bool) (n : nat) (xs : list bool) : Prop :=
  ∀ i b, xs !! i = Some b → l !! (n + i)%nat = Some b.

Lemma next_bits_app l n xs ys :
  next_bits l n (xs ++ ys) → next_bits l n xs ∧ next_bits l (n + length xs) ys.
Proof.
  intros Hn. split; intros i b Hi.
  - apply Hn. by apply lookup_app_l_Some.
  - rewrite <-Nat.add_assoc. apply Hn. by rewrite lookup_app_r, Nat.add_comm, Nat.add_sub by lia.
Qed.

Section decode.
Context (mem : list Z) (l : list bool) (Hp : packs w mem l).

Lemma next_Get n b xs s :
  reading w mem n s → next_bits l n (b :: xs) →
  ∃ s', Get w mem s = Done (b, s') ∧ reading w mem (S n) s' ∧ next_bits l (S n) xs.
Proof.
  intros Hr Hn. destruct (Get_ok w Hw mem n l b s Hp Hr) as (s' & E & Hr').
  { rewrite <-(Nat.add_0_r n). by apply Hn. }
  exists s'. split_and!; [done..|]. apply (next_bits_app l n [b] xs) in Hn as [_ Hn].
  by rewrite Nat.add_comm in Hn.
Qed.

Lemma skip_zeros_ok k fuel m n xs s :
  (k < fuel)%nat → reading w mem n s → next_bits l n (replicate k false ++ true :: xs) →
  ∃ s', skip_zeros w fuel mem m s = Done ((m + k)%nat, s') ∧ reading w mem (S (n + k)) s' ∧
    next_bits l (S (n + k)) xs.
Proof.
  revert fuel m n s. induction k as [|k IH]; intros [|fuel] m n s Hf Hr Hn; try lia; simpl in Hn.
  - destruct (next_Get n _ _ s Hr Hn) as (s' & E & Hr' & Hn'). exists s'. simpl. rewrite E. simpl.
    by rewrite !Nat.add_0_r.
  - destruct (next_Get n _ _ s Hr Hn) as (s1 & E & Hr1 & Hn1).
    destruct (IH fuel (S m) (S n) s1) as (s' & E' & Hr' & Hn'); [lia|done..|].
    exists s'. simpl. rewrite E. simpl. rewrite E'. by rewrite <-!Nat.add_succ_comm.
Qed.

Lemma div_pow_succ z k :
  0 ≤ z → z / 2 ^ Z.of_nat k = 2 * (z / 2 ^ Z.of_nat (S k)) + Z.b2z (Z.testbit z (Z.of_nat k)).
Proof.
  intros Hz. rewrite Z.testbit_spec' by lia. rewrite Nat2Z.inj_succ, Z.pow_succ_r by lia.
  rewrite (Z.mul_comm 2 (2 ^ _)), <-Z.div_div by lia. apply Z.div_mod. lia.
Qed.

Lemma read_bits_ok shl z k n xs s :
  0 ≤ z → (∀ y, 0 ≤ y → 2 * y ≤ z → shl y = Done (2 * y)) →
  reading w mem n s → next_bits l n ((bit_at z <$> down k) ++ xs) →
  ∃ s', read_bits w shl mem k (z / 2 ^ Z.of_nat k) s = Done (z, s') ∧ reading w mem (n + k) s' ∧
    next_bits l (n + k) xs.
Proof.
  intros Hz Hshl. revert n s. induction k as [|k IH]; intros n s Hr Hn.
  - exists s. simpl. by rewrite Z.div_1_r, Nat.add_0_r.
  - rewrite down_S in Hn. simpl in Hn. rewrite bit_at_testbit in Hn.
    destruct (next_Get n _ _ s Hr Hn) as (s1 & E & Hr1 & Hn1).
    destruct (IH (S n) s1 Hr1 Hn1) as (s' & E' & Hr' & Hn').
    exists s'. cbn [read_bits]. pose proof (div_pow_succ z k Hz) as Hd.
    assert (z / 2 ^ Z.of_nat k ≤ z) by (apply Z.div_le_upper_bound; nia).
    assert (0 ≤ z / 2 ^ Z.of_nat (S k)) by (apply Z.div_pos; lia).
    rewrite Hshl; [|done|destruct (Z.testbit z (Z.of_nat k)); simpl in Hd; lia].
    cbn [mbind cres_bind]. rewrite E. cbn [mbind cres_bind].
    assert ((if Z.testbit z (Z.of_nat k) then Z.lor (2 * (z / 2 ^ Z.of_nat (S k))) 1
      else 2 * (z / 2 ^ Z.of_nat (S k))) = z / 2 ^ Z.of_nat k) as ->.
    { rewrite Hd. destruct (Z.testbit z (Z.of_nat k)); simpl; [by apply (lor_b2z _ true)|lia]. }
    rewrite <-Nat.add_succ_comm. done.
Qed.

Lemma log2_bounds x : 0 < x → 2 ^ Z.log2 x ≤ x < 2 * 2 ^ Z.log2 x.
Proof. intros Hx. pose proof (Z.log2_spec x Hx) as Hl. rewrite Z.pow_succ_r in Hl by apply Z.log2_nonneg. lia. Qed.

Lemma div_log2 x : 0 < x → x / 2 ^ Z.log2 x = 1.
Proof.
  intros Hx. pose proof (log2_bounds x Hx). symmetry. apply (Z.div_unique x _ 1 (x - 2 ^ Z.log2 x)); lia.
Qed.

Lemma decode_ok x xs n s :
  0 < x < 2 ^ 32 → reading w mem n s → next_bits l n (elias x ++ xs) →
  ∃ s', EliasDeltaDecode w mem s = Done (x, s') ∧ reading w mem (n + length (elias x)) s' ∧
    next_bits l (n + length (elias x)) xs.
Proof.
  intros Hx Hr Hn. assert (0 ≤ Z.log2 x < 32) as Hlx.
  { split; [apply Z.log2_nonneg|]. apply Z.log2_lt_pow2; lia. }
  set (len := 1 + Z.log2 x). assert (0 ≤ Z.log2 len) by apply Z.log2_nonneg.
  set (k := Z.to_nat (Z.log2 len)). assert (Z.of_nat k = Z.log2 len) as Hk by (unfold k; lia).
  assert (elias x = replicate k false ++ true :: (bit_at len <$> down k) ++
    (bit_at x <$> down (Z.to_nat (len - 1)))) as Ex.
  { unfold elias. rewrite (Hlog x), (Hlog (1 + Z.log2 x)) by lia. fold len k. rewrite down_S. cbn [fmap list_fmap].
    rewrite bit_at_testbit, Hk, Z.bit_log2 by lia. done. }
  rewrite Ex in Hn |- *. rewrite <-app_assoc in Hn. cbn [app] in Hn. rewrite <-app_assoc in Hn.
  set (bx := (bit_at x <$> down (Z.to_nat (len - 1))) ++ xs) in *.
  destruct (skip_zeros_ok k (S (length mem * w)) 0 n ((bit_at len <$> down k) ++ bx) s) as (s1 & E1 & R1 & N1); [|done..|].
  { pose proof (Hn k true) as Ht. rewrite lookup_app_r, length_replicate, Nat.sub_diag in Ht by (by rewrite length_replicate).
    destruct (Hp _ _ (Ht eq_refl)) as (y & Hy%lookup_lt_Some & _). pose proof (Nat.div_mod_eq (n + k) w).
    pose proof (Nat.mod_upper_bound (n + k) w ltac:(lia)). nia. }
  destruct (read_bits_ok shl_int len k (S (n + k)) bx s1) as (s2 & E2 & R2 & N2); [lia| |done..|].
  { intros y Hy Hle. unfold shl_int. rewrite decide_True; [done|lia]. }
  destruct (read_bits_ok shl_ulong x (Z.to_nat (len - 1)) (S (n + k) + k) xs s2) as (s3 & E3 & R3 & N3); [lia| |done..|].
  { intros y Hy Hle. unfold shl_ulong. rewrite Z.shiftl_mul_pow2 by lia. rewrite wrap_small by lia. f_equal. lia. }
  rewrite Hk, div_log2 in E2 by lia.
  replace (Z.of_nat (Z.to_nat (len - 1))) with (Z.log2 x) in E3 by lia. rewrite div_log2 in E3 by lia.
  exists s3. unfold EliasDeltaDecode. rewrite E1. cbn [mbind cres_bind]. rewrite Nat.add_0_l, E2.
  cbn [mbind cres_bind]. rewrite E3. split; [done|].
  rewrite length_app. cbn [length]. rewrite length_app, !length_fmap, !length_down, length_replicate.
  replace (n + (k + S (k + Z.to_nat (len - 1))))%nat with (S (n + k) + k + Z.to_nat (len - 1))%nat by lia. done.
Qed.
End decode.
End elias.

(** ** The next power of two *)

Lemma smear_bits u v m :
  0 < m → (∀ i, 0 ≤ i → Z.testbit u i = true ↔ ∃ j, 0 ≤ j < m ∧ Z.testbit v (i + j) = true) →
  ∀ i, 0 ≤ i → Z.testbit (smear u m) i = true ↔ ∃ j, 0 ≤ j < 2 * m ∧ Z.testbit v (i + j) = true.
Proof.
  intros Hm Hu i Hi. unfold smear. rewrite Z.lor_spec, orb_true_iff, Z.shiftr_spec, !Hu by lia. split.
  - intros [(j & Hj & E)|(j & Hj & E)]; [exists j|exists (m + j)]; (split; [lia|]).
    + done.
    + by rewrite Z.add_assoc.
  - intros (j & Hj & E). destruct (decide (j < m)); [left; exists j; split; [lia|done]|right]. exists (j - m).
    split; [lia|]. by replace (i + m + (j - m)) with (i + j) by lia.
Qed.

Lemma smear_all v :
  0 < v < 2 ^ 32 → smear (smear (smear (smear (smear v 1) 2) 4) 8) 16 = Z.ones (Z.log2 v + 1).
Proof.
  intros Hv. assert (0 ≤ Z.log2 v < 32) as Hl.
  { split; [apply Z.log2_nonneg|]. apply Z.log2_lt_pow2; lia. }
  apply Z.bits_inj'. intros i Hi. apply eq_true_iff_eq.
  assert (∀ k, 0 ≤ k → Z.testbit v k = true ↔ ∃ j, 0 ≤ j < 1 ∧ Z.testbit v (k + j) = true) as H0.
  { intros k Hk. split; [intros E; exists 0; rewrite Z.add_0_r; by split|].
    intros (j & Hj & E). by replace k with (k + j) by lia. }
  pose proof (smear_bits _ _ 1 ltac:(lia) H0) as H1. pose proof (smear_bits _ _ 2 ltac:(lia) H1) as H2.
  pose proof (smear_bits _ _ 4 ltac:(lia) H2) as H3. pose proof (smear_bits _ _ 8 ltac:(lia) H3) as H4.
  rewrite (smear_bits _ _ 16 ltac:(lia) H4 i Hi).
  split.
  - intros (j & Hj & E). destruct (decide (i < Z.log2 v + 1)); [by apply Z.ones_spec_low|].
    rewrite Z.bits_above_log2 in E by lia. done.
  - intros E. destruct (decide (i < Z.log2 v + 1)); [|by rewrite Z.ones_spec_high in E by lia].
    exists (Z.log2 v - i). split; [lia|]. replace (i + (Z.log2 v - i)) with (Z.log2 v) by lia.
    apply Z.bit_log2. lia.
Qed.

(** [RoundNextPow2] is the least power of two that is not smaller than its
    argument, as long as there is one in 32 bits; above 2^31 it is 0. *)
Theorem round_next_pow2 v :
  0 < v < 2 ^ 32 → RoundNextPow2 v = if decide (v ≤ 2 ^ 31) then 2 ^ Z.log2_up v else 0.
Proof.
  intros Hv. unfold RoundNextPow2. rewrite (wrap_small 32 (v - 1)) by lia.
  destruct (decide (v = 1)) as [->|Hne]; [reflexivity|].
  rewrite smear_all by lia. rewrite Z.ones_equiv. replace (Z.pred _ + 1) with (2 ^ (Z.log2 (v - 1) + 1)) by lia.
  assert (Z.log2_up v = Z.log2 (v - 1) + 1) as -> by (rewrite Z.log2_up_eqn by lia; rewrite <-Z.sub_1_r; lia).
  pose proof (Z.log2_nonneg (v - 1)). case_decide as Hle.
  - apply wrap_small. split; [lia|]. apply Z.pow_lt_mono_r; [lia..|].
    assert (Z.log2 (v - 1) < 31) by (apply Z.log2_lt_pow2; lia). lia.
  - assert (Z.log2 (v - 1) = 31) as ->; [|reflexivity].
    apply Z.log2_unique; lia.
Qed.
End BitIO.
