(* ===== verification/Compressors.v ===== *)
(** * Gradient compressors, [byteps/common/compressor/impl]

    The compressors of the native library: one bit per element, the [k] largest
    elements, [k] random elements, and stochastic quantisation ("dithering"), each
    with [Compress], [Decompress] and [FastUpdateError]. They work on buffers: [src]
    and [dst] are all the memory behind a pointer, which may be longer than the
    tensor, and an access outside them is undefined. *)

From S2P Require Import Prelude Tensor BitIO.

(** What the native code does with floating-point numbers beyond the operations of
    [Scalar], which stand for operations on [double]: the conversion to a smaller
    type, [std::floor] and [std::ceil], and [std::signbit]. *)
Class Native (R : Type) : Type := {
  conv : dtype → R → R;
  f_floor : R → Z;
  f_ceil : R → Z;
  f_signbit : R → bool
}.

(** [for (x : l) b = f(b, x)] *)
Fixpoint fold_c {A B} (f : B → A → cres B) (b : B) (l : list A) : cres B :=
  match l with
  | [] => Done b
  | x :: l' => b' ← f b x; fold_c f b' l'
  end.

Module Comp.
Import BitIO.

(** The size of an element; the switches on the type refuse the others. *)
Definition sizeof (d : dtype) : cres nat :=
  match d with float16 => Done 2%nat | float32 => Done 4%nat | float64 => Done 8%nat | _ => Fatal end.

Section comp.
Context {R : Type} `{Scalar R, !Native R}.

Definition is_neg (x : R) : bool := s_leb x s_zero && negb (s_eqb x s_zero).
Definition gtb (x y : R) : bool := s_leb y x && negb (s_eqb x y).

(** What is in the buffer a call returns. *)
Inductive compressed :=
  | Signs (words : list Z) (scale : R)
  | Pairs (l : list (nat * R))
  | Codes (words : list Z) (bits : Z) (scale : R).

(** [tensor_t::size], for elements of [sz] bytes. *)
Definition compressed_size (sz : nat) (c : compressed) : nat :=
  match c with
  | Signs words _ => length words * sz + 4
  | Pairs l => length l * (2 * sz)
  | Codes words _ _ => length words * sz + sz + 4
  end.

(** [reinterpret_cast<T*>(_buf)]: what is written must be inside the buffer. *)
Definition in_buf (size sz : nat) (c : compressed) : cres compressed :=
  if decide (compressed_size sz c ≤ size)%nat then Done c else Undef.

Section element.
(** The type of the elements and its size; [_size] is the size of the buffers in
    bytes. *)
Context (d : dtype) (sz : nat) (_size : nat).
Notation w := (sz * 8)%nat.

(** [Align] of [common.h]: the size of a buffer. *)
Definition Align (size : nat) : nat :=
  let min_size := (sz * sz * 8)%nat in (size + (min_size - size mod min_size) mod min_size)%nat.

(** ** [OnebitCompressor] *)

(** [x = neg[0]; for j in [1, PACKING_SIZE): x <<= 1; x |= neg[j]] *)
Definition pack_word (l : list bool) : Z :=
  match l with
  | [] => 0
  | b :: l' => foldl (λ x b, wrap w (Z.lor (wrap w (Z.shiftl x 1)) (Z.b2z b))) (Z.b2z b) l'
  end.

Definition chunk_len (len : nat) : nat :=
  let padding_len := ((w - len mod w) mod w)%nat in ((len + padding_len) / w)%nat.

Definition abs_sum (xs : list R) : R := foldl (λ sum x, s_add sum (s_abs x)) s_zero xs.

Definition onebit_compress (_use_scale : bool) (src : list R) (len : nat) : cres compressed :=
  scale ← (if _use_scale then
             xs ← mapM (load src) (seq 0 len);
             mret (conv float32 (s_div (abs_sum xs) (s_of_Z (Z.of_nat len))))
           else mret (s_of_Z 1));
  words ← mapM (λ i, xs ← mapM (λ j, load src (i * w + j)) (seq 0 w); mret (pack_word (is_neg <$> xs)))
            (seq 0 (chunk_len len));
  in_buf _size sz (Signs words scale).

(** The loop over the bits of the words, from the last to the first: [f i b] is
    what is stored at [i] for the bit [b]. *)
Definition unpack_word (f : nat → Z → cres R) (i : nat) (x : Z) (dst : list R) : cres (list R) :=
  dx ← fold_c (λ '(dst, x) j,
    v ← f (i * w + j)%nat (Z.land x 1);
    dst ← store_at dst (i * w + j) v;
    mret (dst, Z.shiftr x 1)) (dst, x) (down w);
  mret dx.1.
Definition unpack (f : nat → Z → cres R) (words : list Z) (dst : list R) : cres (list R) :=
  fold_c (λ dst i, x ← load words i; unpack_word f i x dst) dst (down (length words)).

Definition onebit_decompress (words : list Z) (scale : R) (dst : list R) : cres (list R) :=
  unpack (λ _ b, let sign := 1 - Z.shiftl b 1 in Done (conv d (s_mul (s_of_Z sign) scale))) words dst.

Definition onebit_update_error (words : list Z) (scale : R) (error corrected : list R) : cres (list R) :=
  unpack (λ i b, let sign := Z.shiftl b 1 - 1 in
    x ← load corrected i; Done (conv d (s_add x (s_mul (s_of_Z sign) scale)))) words error.

(** ** [TopkCompressor] and [RandomkCompressor]

    [std::push_heap] and [std::pop_heap] with the comparison of absolute values:
    the range they work on, as they leave it. *)
Context (push_heap pop_heap : list (nat * R) → list (nat * R)).

(** An index is stored in a word of the size of an element: [uint16_t] for
    half-precision numbers. *)
Definition index_t (i : nat) : nat := Z.to_nat (wrap w (Z.of_nat i)).

Definition topk_visit (_k : nat) (src : list R) (beg : list (nat * R)) (i : nat) : cres (list (nat * R)) :=
  x ← load src i;
  if decide (i < _k)%nat then mret (push_heap (beg ++ [(index_t i, x)]))
  else
    top ← load beg 0;
    if gtb (s_abs x) (s_abs top.2) then
      let beg := pop_heap beg in
      beg ← store_at beg (length beg - 1) (index_t i, x);
      mret (push_heap beg)
    else mret beg.

Definition topk_compress (_k : nat) (src : list R) (len : nat) : cres compressed :=
  bps_check (bool_decide (_k ≤ len / 2)%nat);;
  beg ← fold_c (topk_visit _k src) [] (seq 0 len);
  in_buf _size sz (Pairs (take _k beg)).

(** The elements a buffer of [_size] bytes has. *)
Definition capacity : nat := (_size / sz)%nat.

(** [std::memset(dst, 0, _size)] *)
Definition memset0 (dst : list R) : cres (list R) :=
  if decide (capacity ≤ length dst)%nat then Done (replicate capacity s_zero ++ drop capacity dst) else Undef.
(** [std::memcpy(error, corrected, _size)] *)
Definition memcpy (error corrected : list R) : cres (list R) :=
  if decide (capacity ≤ length error ∧ capacity ≤ length corrected)%nat
  then Done (take capacity corrected ++ drop capacity error) else Undef.

Definition pairs_decompress (l : list (nat * R)) (dst : list R) : cres (list R) :=
  dst ← memset0 dst;
  fold_c (λ dst '(i, x), store_at dst i x) dst l.

Definition pairs_update_error (l : list (nat * R)) (error corrected : list R) : cres (list R) :=
  error ← memcpy error corrected;
  fold_c (λ error '(i, _), store_at error i s_zero) error l.

Fixpoint randomk_choose (n : nat) (src : list R) (len : nat) (g : rng) : cres (list (nat * R) * rng) :=
  match n with
  | O => mret ([], g)
  | S n' =>
      let '(index, g) := Randint 0 (Z.of_nat len) g in
      x ← load src (Z.to_nat index);
      '(l, g) ← randomk_choose n' src len g;
      mret ((index_t (Z.to_nat index), x) :: l, g)
  end.

Definition randomk_compress (_k : nat) (src : list R) (len : nat) (g : rng) : cres (compressed * rng) :=
  bps_check (bool_decide (_k ≤ len / 2)%nat);;
  '(l, g) ← randomk_choose _k src len g;
  c ← in_buf _size sz (Pairs l);
  mret (c, g).
End element.
End comp.
Arguments compressed : clear implicits.
End Comp.
