(* ===== verification/Exact.v ===== *)
(** * Exact arithmetic

    The laws of a field in which conversions do nothing, for the theorems on what
    the numeric code computes up to rounding, and the rational numbers, which
    satisfy them and in which the witnesses are evaluated. *)

From Stdlib Require Import QArith Qcanon Qround Qcabs Ring_theory Ring.
From S2P Require Import Prelude Tensor BitIO Compressors.
#[global] Open Scope Z_scope.

(** A commutative ring. *)
Class Exact (R : Type) `{Scalar R, !Native R} : Prop := {
  ex_ring : ring_theory s_zero (s_of_Z 1) s_add s_mul s_sub s_neg (@eq R);
  ex_conv d (x : R) : conv d x = x;
  ex_of_Z_add a b : s_of_Z (a + b) = s_add (s_of_Z a) (s_of_Z (R := R) b)
}.

(** An ordered field. *)
Class ExactField (R : Type) `{Scalar R, !Native R} : Prop := {
  exf_exact :: Exact R;
  exf_laws :: ScalarLaws R;
  exf_div (x y : R) : y ≠ s_zero → s_mul (s_div x y) y = x;
  exf_lt a b : a < b → s_leb (s_of_Z a) (s_of_Z (R := R) b) = true ∧ s_eqb (s_of_Z b) (s_of_Z (R := R) a) = false
}.

Section exact.
Context {R : Type} `{Scalar R, !Native R, !ExactField R}.
Add Ring R_ring : (ex_ring (R := R)).

Lemma ex_of_Z_0 : s_of_Z 0 = s_zero (R := R).
Proof.
  pose proof (ex_of_Z_add (R := R) 0 0) as E. simpl in E.
  assert (s_sub (s_of_Z 0) (s_of_Z 0) = s_sub (s_add (s_of_Z 0) (s_of_Z 0)) (s_of_Z (R := R) 0)) as E2 by (by rewrite <-E).
  replace (s_sub (s_of_Z 0) (s_of_Z 0)) with (s_zero (R := R)) in E2 by ring. rewrite E2. ring.
Qed.

Lemma ex_of_Z_neg1 : s_of_Z (-1) = s_neg (s_of_Z (R := R) 1).
Proof.
  pose proof (ex_of_Z_add (R := R) (-1) 1) as E. change (-1 + 1) with 0 in E. rewrite ex_of_Z_0 in E.
  replace (s_of_Z (-1)) with (s_sub (s_add (s_of_Z (-1)) (s_of_Z 1)) (s_of_Z (R := R) 1)) by ring.
  rewrite <-E. ring.
Qed.

Lemma ex_nonzero n : 0 < n → s_of_Z n ≠ s_zero (R := R).
Proof.
  intros Hn E. destruct (exf_lt (R := R) 0 n Hn) as [_ He].
  apply not_true_iff_false in He. apply He, s_eqb_eq. by rewrite E, ex_of_Z_0.
Qed.
End exact.

(** ** The rational numbers *)

Definition qc_leb (x y : Qc) : bool := Qle_bool x y.
Definition qc_floor (x : Qc) : Z := Qfloor x.
Definition qc_of_Z (z : Z) : Qc := Q2Qc (inject_Z z).

#[export] Instance Qc_scalar : Scalar Qc := {|
  s_zero := 0%Qc; s_add := Qcplus; s_sub := Qcminus; s_mul := Qcmult; s_div := Qcdiv; s_neg := Qcopp;
  s_abs x := if qc_leb 0%Qc x then x else Qcopp x;
  s_sqrt x := qc_of_Z (Z.sqrt (qc_floor x));
  s_leb := qc_leb; s_eqb x y := Qeq_bool x y; s_of_Z := qc_of_Z;
  s_to_Z x := if qc_leb 0%Qc x then qc_floor x else (- qc_floor (Qcopp x))%Z
|}.

#[export] Instance Qc_native : Native Qc := {|
  conv _ x := x; f_floor := qc_floor; f_ceil x := (- qc_floor (Qcopp x))%Z;
  f_signbit x := negb (qc_leb 0%Qc x)
|}.

Lemma qc_eqb (x y : Qc) : Qeq_bool x y = true ↔ x = y.
Proof. split; [intros E%Qeq_bool_iff; by apply Qc_is_canon|intros ->; by apply Qeq_bool_iff]. Qed.

#[export] Instance Qc_laws : ScalarLaws Qc.
Proof.
  split; cbn; intros; try ring.
  - unfold qc_leb. rewrite !Qle_bool_iff. destruct (Qlt_le_dec x y) as [Hl|Hl]; [left; by apply Qlt_le_weak|by right].
  - unfold qc_leb in *. rewrite !Qle_bool_iff in *. by eapply Qle_trans.
  - unfold qc_leb in *. rewrite !Qle_bool_iff in *. apply Qc_is_canon. by apply Qle_antisym.
  - apply qc_eqb.
Qed.

Lemma qc_of_Z_add a b : qc_of_Z (a + b) = Qcplus (qc_of_Z a) (qc_of_Z b).
Proof.
  apply Qc_is_canon. unfold qc_of_Z, Qcplus, Q2Qc. cbn [this]. repeat setoid_rewrite Qred_correct. by rewrite inject_Z_plus.
Qed.

#[export] Instance Qc_exact : ExactField Qc.
Proof.
  split; [split|apply _|..]; cbn.
  - replace (qc_of_Z 1) with 1%Qc by reflexivity. apply Qcrt.
  - done.
  - apply qc_of_Z_add.
  - intros x y Hy. by apply Qcdiv_mult_l || (unfold Qcdiv; rewrite <-Qcmult_assoc, (Qcmult_comm _ y), Qcmult_inv_r by done; apply Qcmult_1_r).
  - intros a b Hab. split.
    + unfold qc_leb, qc_of_Z, Q2Qc. apply Qle_bool_iff. cbn [this]. repeat setoid_rewrite Qred_correct.
      rewrite <-Zle_Qle. lia.
    + apply not_true_iff_false. intros E%Qeq_bool_iff. unfold qc_of_Z in E. unfold Q2Qc in E. cbn [this] in E.
      repeat setoid_rewrite Qred_correct in E. rewrite inject_Z_injective in E. lia.
Qed.
