(* ===== verification/TorchOps.v ===== *)
(** * Communication operations of the PyTorch plugin, [byteps/torch/ops.py]

    The module-level state of [ops.py] (the handle map and the norm records),
    the handle table of the C extension it calls ([handle_manager.cc] and
    [DoPushPull]), and the operations: asynchronous, in-place and group
    push-pull, [poll], [synchronize] and the record keeping.

    What the servers answer is a parameter, [reduce]: the reduction of an
    operation may depend on the operation's handle, name and input in any way.
    The [version] and [priority] arguments are handed to the extension as they
    are; they only order the transmissions and are left out.
    A task's input is read when the task is submitted and its output is written
    when the caller has waited for it. *)

From Stdlib Require Import Ascii.
From S2P Require Import Prelude PyStr Tensor.

(** What lies outside the Python module: the reply of the servers to an
    operation (its handle, key, averaging flag, compressor and input), the
    functions the extension exports, and the contents of fresh memory. *)
Class Extension (R : Type) : Type := Ext {
  reduce : Z → string → bool → string → list R → list R;
  c_attrs : string → bool;
  uninit : nat → list R
}.

(** Fresh memory has the size that was asked for, and a reply is as long as the
    input. *)
Class ExtensionLaws (R : Type) `{Extension R} : Prop := {
  length_uninit n : length (uninit n) = n;
  length_reduce h n a c l : length (reduce h n a c l) = length l
}.

Section ops.
Context {R : Type} `{Scalar R, !Extension R}.

(** A submitted task of the C extension. *)
Record task : Type := Task {
  k_input : list R;
  k_output : loc;
  k_average : bool;
  k_name : string;
  k_norm : R;
  k_compressor : string
}.

(** The C extension: [results_] of the handle manager (a task that has not been
    released), the declared names, and the gradient counter of the group
    operation. *)
Record clib : Type := CLib {
  c_initialized : bool;
  c_last_handle : Z;
  c_results : gmap Z task;
  c_declared : list string;
  c_num_grads : Z;
  c_grad_count : Z
}.

(** The module [byteps.torch.ops], with the tensors it refers to. *)
Record ops : Type := Ops {
  o_heap : heap R;
  o_next : loc;
  o_clib : clib;
  _handle_map : gmap Z (loc * loc * option string);
  _name_to_norm : gmap string R;
  _max_norm : R;
  _name_to_next : gmap string string
}.

Definition set_heap h (s : ops) : ops :=
  Ops h (o_next s) (o_clib s) (_handle_map s) (_name_to_norm s) (_max_norm s) (_name_to_next s).
Definition set_clib c (s : ops) : ops :=
  Ops (o_heap s) (o_next s) c (_handle_map s) (_name_to_norm s) (_max_norm s) (_name_to_next s).
Definition set_handle_map m (s : ops) : ops :=
  Ops (o_heap s) (o_next s) (o_clib s) m (_name_to_norm s) (_max_norm s) (_name_to_next s).

(** ** Tensors as objects *)

Definition read_t (l : loc) : M ops (tensor R) :=
  s ← get; lift (or_raise RuntimeError (o_heap s !! l)).

Definition write_t (l : loc) (t : tensor R) : M ops () :=
  modify (λ s, set_heap (<[l:=t]> (o_heap s)) s).

(** A new tensor object. *)
Definition alloc_t (t : tensor R) : M ops loc := λ s,
  (Ok (o_next s),
   Ops (<[o_next s:=t]> (o_heap s)) (S (o_next s)) (o_clib s) (_handle_map s) (_name_to_norm s)
     (_max_norm s) (_name_to_next s)).

(** ** The C extension *)

(** [GetOpName("byteps", name, 0)]: every operation without a name gets the
    same key. *)
Definition GetOpName (name : string) : string :=
  if decide (name = "") then "byteps.noname.0" else "byteps." +:+ name.

Definition byteps_torch_declare_tensor (name : string) : M ops () :=
  modify (λ s, let c := o_clib s in let n := GetOpName name in
    if decide (n ∈ c_declared c) then s
    else set_clib (CLib (c_initialized c) (c_last_handle c) (c_results c) (c_declared c ++ [n])
                     (c_num_grads c) (c_grad_count c)) s).

(** [AllocateHandle] followed by [StartTask]. *)
Definition DoPushPull (tensor output : loc) (average : bool) (name : string) (norm : R)
    (compressor : string) : M ops Z :=
  t ← read_t tensor;
  s ← get;
  let c := o_clib s in
  if c_initialized c then
    let handle := c_last_handle c + 1 in
    modify (set_clib (CLib true handle
      (<[handle := Task (t_data t) output average (GetOpName name) norm compressor]> (c_results c))
      (c_declared c) (c_num_grads c) (c_grad_count c)));;
    mret handle
  else raise RuntimeError.

Definition count_grad : M ops Z := λ s,
  let c := o_clib s in
  let n := c_grad_count c + 1 in
  (Ok n, set_clib (CLib (c_initialized c) (c_last_handle c) (c_results c) (c_declared c)
    (c_num_grads c) (if decide (n = c_num_grads c) then 0 else n)) s).

Definition DoPushPullGroupSync (tensor output : loc) (average : bool) (name : string) (norm : R) :
    M ops (Z * Z) :=
  h ← DoPushPull tensor output average name norm "";
  n ← count_grad;
  mret (h, n).

(** [WaitAndClear]: waits until the task is done, then releases the handle; the
    output has been written by then. *)
Definition byteps_torch_wait_and_clear (handle : Z) : M ops () :=
  s ← get;
  let c := o_clib s in
  match c_results c !! handle with
  | None => raise RuntimeError
  | Some k =>
      t ← read_t (k_output k);
      write_t (k_output k)
        (with_data (reduce handle (k_name k) (k_average k) (k_compressor k) (k_input k)) t);;
      modify (set_clib (CLib (c_initialized c) (c_last_handle c) (delete handle (c_results c))
        (c_declared c) (c_num_grads c) (c_grad_count c)))
  end.

(** ** [ops.py] *)

(** [name.encode() if name is not None else _NULL] *)
Definition encode (name : option string) : string := default "" name.

Fixpoint replace_dots (s : string) : string :=
  match s with
  | "" => ""
  | String c s' => String (if Ascii.eqb c "." then "_"%char else c) (replace_dots s')
  end.

Definition _push_pull_function_factory (t : tensor R) : string :=
  "byteps_torch_push_pull_async_" +:+ replace_dots (tensor_type t).
Definition _push_pull_group_function_factory (t : tensor R) : string :=
  "byteps_torch_push_pull_group_sync_" +:+ replace_dots (tensor_type t).

Definition _check_function (function_factory : tensor R → string) (t : tensor R) : res string :=
  let function := function_factory t in
  if negb (c_attrs function) then Raise ValueError
  else if negb (t_contiguous t) then Raise ValueError
  else Ok function.

Definition _do_push_pull_async (tensor output : loc) (average : bool) (name : option string)
    (norm : R) (compressor_name : string) : M ops Z :=
  byteps_torch_declare_tensor (encode name);;
  t ← read_t tensor;
  lift (_check_function _push_pull_function_factory t);;
  handle ← DoPushPull tensor output average (encode name) norm compressor_name;
  modify (λ s, set_handle_map (<[handle := (tensor, output, name)]> (_handle_map s)) s);;
  mret handle.

Definition _do_push_pull_group_sync (tensor output : loc) (average : bool) (name : option string) :
    M ops (Z * Z) :=
  byteps_torch_declare_tensor (encode name);;
  t ← read_t tensor;
  lift (_check_function _push_pull_group_function_factory t);;
  '(handle, curr_count) ← DoPushPullGroupSync tensor output average (encode name) (norm2 (t_data t));
  modify (λ s, set_handle_map (<[handle := (tensor, output, name)]> (_handle_map s)) s);;
  mret (handle, curr_count).

(** [tensor.new(tensor.shape)] is not initialised; it holds [uninit]. *)
Definition push_pull_async (tensor : loc) (average : bool) (name : option string)
    (compressor_name : string) : M ops Z :=
  t ← read_t tensor;
  output ← alloc_t (with_data (uninit (length (t_data t))) t);
  s ← get;
  _do_push_pull_async tensor output average name (_max_norm s) compressor_name.

Definition push_pull_async_inplace (tensor : loc) (average : bool) (name : option string)
    (compressor_name : string) : M ops Z :=
  s ← get;
  _do_push_pull_async tensor tensor average name (_max_norm s) compressor_name.

Definition push_pull_group_sync_inplace (tensor : loc) (average : bool) (name : option string) :
    M ops (Z * Z) :=
  _do_push_pull_group_sync tensor tensor average name.

(** [synchronize(handle)]: [None] for a handle that is not pending; a handle
    may itself be [None]. *)
Definition synchronize (handle : option Z) : M ops (option loc) :=
  s ← get;
  match handle with
  | None => mret None
  | Some h =>
      match _handle_map s !! h with
      | None => mret None
      | Some (_, output, _) =>
          byteps_torch_wait_and_clear h;;
          modify (λ s, set_handle_map (delete h (_handle_map s)) s);;
          mret (Some output)
      end
  end.

Definition push_pull_inplace (tensor : loc) (average : bool) (name : option string) :
    M ops (option loc) :=
  handle ← push_pull_async_inplace tensor average name "";
  synchronize (Some handle).

(** [BytePSPushPull.forward] *)
Definition BytePSPushPull_forward (tensor : loc) (average : bool) (name : option string) :
    M ops (option loc) :=
  handle ← push_pull_async tensor average name "";
  synchronize (Some handle).

(** [push_pull] with a compression given as its two functions. *)
Definition push_pull {ctx} (compress : loc → M ops (loc * ctx)) (decompress : option loc → ctx → M ops (option loc))
    (tensor : loc) (average : bool) (name : option string) : M ops (option loc) :=
  if decide (name = None) then raise AssertionError else
  '(tensor_compressed, c) ← compress tensor;
  summed_tensor_compressed ← BytePSPushPull_forward tensor_compressed average name;
  decompress summed_tensor_compressed c.

(** [BytePSPushPull.backward]: the same reduction of the incoming gradient. *)
Definition BytePSPushPull_backward (grad_output : loc) (average : bool) (name : option string) :
    M ops (option loc) :=
  push_pull (ctx := ()) (λ t, mret (t, ())) (λ t _, mret t) grad_output average name.

(** [poll]: [done] is what the extension answers for a pending task. *)
Definition poll (done_ : Z → bool) (handle : Z) : M ops bool :=
  s ← get;
  match c_results (o_clib s) !! handle with
  | None => raise RuntimeError
  | Some _ => mret (done_ handle)
  end.

Definition declare (name : string) : M ops Z := byteps_torch_declare_tensor name;; mret 0.

Definition byteps_torch_set_num_grads (num_grads : Z) : M ops Z :=
  modify (λ s, let c := o_clib s in
    set_clib (CLib (c_initialized c) (c_last_handle c) (c_results c) (c_declared c) num_grads 0) s);;
  mret 0.

(** The C side of the norm exchange is a parameter. A missing name is replaced in the
    declaration only. *)
Definition send_norm (c_send : string → R → R) (name : option string) (max_norm : R) : M ops R :=
  byteps_torch_declare_tensor (encode name);;
  match name with
  | None => raise AttributeError
  | Some name => mret (c_send name max_norm)
  end.

Definition write_norm (name : string) (norm : R) : M ops () :=
  modify (λ s, Ops (o_heap s) (o_next s) (o_clib s) (_handle_map s) (<[name:=norm]> (_name_to_norm s))
                 (_max_norm s) (_name_to_next s)).
Definition write_next (name next : string) : M ops () :=
  modify (λ s, Ops (o_heap s) (o_next s) (o_clib s) (_handle_map s) (_name_to_norm s)
                 (_max_norm s) (<[name:=next]> (_name_to_next s))).
Definition clean_records : M ops () :=
  modify (λ s, Ops (o_heap s) (o_next s) (o_clib s) (_handle_map s) ∅ (_max_norm s) ∅).

(** [write_max_norm] assigns a local variable: there is no [global _max_norm]. *)
Definition write_max_norm (norm : R) : M ops () := mret ().
(** ** Invariant

    The handle map and the handle manager's table agree, handles are bounded by
    the last one given out, and every reference is to an allocated tensor. *)
Record ops_inv (s : ops) : Prop := {
  inv_agree h : _handle_map s !! h = None ↔ c_results (o_clib s) !! h = None;
  inv_output h i o n k :
    _handle_map s !! h = Some (i, o, n) → c_results (o_clib s) !! h = Some k → k_output k = o;
  inv_bound h : is_Some (c_results (o_clib s) !! h) → h ≤ c_last_handle (o_clib s);
  inv_alloc h k : c_results (o_clib s) !! h = Some k → is_Some (o_heap s !! k_output k);
  inv_fresh l : is_Some (o_heap s !! l) → (l < o_next s)%nat
}.

(** The effect of a successful asynchronous push-pull. *)
Definition submitted (s : ops) (input output : loc) (average : bool) (name : option string)
    (norm : R) (compressor : string) (t : tensor R) : ops :=
  let c := o_clib s in
  let n := GetOpName (encode name) in
  let h := c_last_handle c + 1 in
  set_handle_map (<[h := (input, output, name)]> (_handle_map s))
    (set_clib (CLib true h (<[h := Task (t_data t) output average n norm compressor]> (c_results c))
       (if decide (n ∈ c_declared c) then c_declared c else c_declared c ++ [n])
       (c_num_grads c) (c_grad_count c)) s).

Definition supported (t : tensor R) : Prop :=
  c_attrs (_push_pull_function_factory t) = true ∧ t_contiguous t = true.

Lemma do_push_pull_async_ok s input output average name norm comp t :
  o_heap s !! input = Some t → supported t → c_initialized (o_clib s) = true →
  _do_push_pull_async input output average name norm comp s =
    (Ok (c_last_handle (o_clib s) + 1), submitted s input output average name norm comp t).
Proof.
  intros Ht [Hf Hc] Hi. destruct s as [hp nx c hm nn mn nt]. simpl in *.
  unfold _do_push_pull_async, byteps_torch_declare_tensor, DoPushPull, _check_function, read_t,
    mbind, M_bind, modify, lift, get, mret, M_ret, submitted. simpl.
  destruct (decide (GetOpName (encode name) ∈ c_declared c)); simpl;
  rewrite Ht; simpl; rewrite Hf, Hc; simpl; by rewrite Hi.
Qed.

Lemma do_push_pull_async_err s input output average name norm comp t :
  o_heap s !! input = Some t → ¬ supported t →
  ∃ s', _do_push_pull_async input output average name norm comp s = (Raise ValueError, s') ∧
    _handle_map s' = _handle_map s ∧ c_results (o_clib s') = c_results (o_clib s).
Proof.
  intros Ht Hn. destruct s as [hp nx c hm nn mn nt]. simpl in *.
  unfold _do_push_pull_async, byteps_torch_declare_tensor, _check_function, read_t,
    mbind, M_bind, modify, lift, get. simpl.
  destruct (decide (GetOpName (encode name) ∈ c_declared c)); simpl; rewrite Ht; simpl;
  (destruct (c_attrs _) eqn:Hf; [destruct (t_contiguous t) eqn:Hc; [by destruct Hn|]|]);
  eexists; (split; [reflexivity|done]).
Qed.

Lemma submitted_inv s input output average name norm comp t :
  ops_inv s → is_Some (o_heap s !! output) →
  ops_inv (submitted s input output average name norm comp t).
Proof.
  intros [Ha Ho Hb Hal Hf] Hout.
  assert (c_results (o_clib s) !! (c_last_handle (o_clib s) + 1) = None) as Hnew.
  { apply eq_None_not_Some. intros Hs%Hb. lia. }
  split; simpl.
  - intros h. rewrite !lookup_insert. case_decide; [done|apply Ha].
  - intros h i o n k. rewrite !lookup_insert. case_decide; [|apply Ho].
    intros. by simplify_eq.
  - intros h. rewrite lookup_insert. case_decide; [lia|]. intros Hs%Hb. lia.
  - intros h k. rewrite lookup_insert. case_decide; [|apply Hal]. intros. by simplify_eq.
  - apply Hf.
Qed.

(** Writing allocated tensors keeps the invariant. *)
Lemma ops_inv_heap s h :
  ops_inv s → (∀ l, is_Some (h !! l) ↔ is_Some (o_heap s !! l)) → ops_inv (set_heap h s).
Proof.
  intros [A1 A2 A3 A4 A5] Hh. split; simpl; try done.
  - intros h' k Hk. apply Hh. by eapply A4.
  - intros l Hl%Hh. by apply A5.
Qed.

Lemma ops_inv_write s l t :
  ops_inv s → is_Some (o_heap s !! l) → ops_inv (set_heap (<[l := t]> (o_heap s)) s).
Proof.
  intros Hi Hl. apply ops_inv_heap; [done|]. intros l'. rewrite lookup_insert_is_Some'.
  split; [by intros [->|]|by right].
Qed.

(** The state after waiting for handle [h] of task [k]. *)
Definition completed (s : ops) (h : Z) (k : task) (t : tensor R) : ops :=
  let c := o_clib s in
  set_handle_map (delete h (_handle_map s))
    (set_clib (CLib (c_initialized c) (c_last_handle c) (delete h (c_results c)) (c_declared c)
       (c_num_grads c) (c_grad_count c))
     (set_heap (<[k_output k :=
        with_data (reduce h (k_name k) (k_average k) (k_compressor k) (k_input k)) t]> (o_heap s)) s)).

Lemma synchronize_ok s h i o n k t :
  _handle_map s !! h = Some (i, o, n) → c_results (o_clib s) !! h = Some k →
  o_heap s !! k_output k = Some t →
  synchronize (Some h) s = (Ok (Some o), completed s h k t).
Proof.
  intros Hm Hk Ht. unfold synchronize, byteps_torch_wait_and_clear, read_t, write_t,
    mbind, M_bind, get, modify, mret, M_ret, lift. simpl. rewrite Hm, Hk. simpl. by rewrite Ht.
Qed.

Lemma completed_inv s h k t :
  ops_inv s → c_results (o_clib s) !! h = Some k → o_heap s !! k_output k = Some t →
  ops_inv (completed s h k t).
Proof.
  intros [Ha Ho Hb Hal Hf] Hk Ht. split; simpl.
  - intros h'. rewrite !lookup_delete. case_decide; [done|apply Ha].
  - intros h' i o n k'. rewrite !lookup_delete. case_decide; [done|apply Ho].
  - intros h'. rewrite lookup_delete. case_decide; [by intros []|apply Hb].
  - intros h' k'. rewrite lookup_delete. case_decide; [done|]. intros Hk'.
    rewrite lookup_insert. case_decide; [done|]. by eapply Hal.
  - intros l. rewrite lookup_insert. case_decide as E; [|apply Hf]. intros _. apply Hf.
    rewrite <-E. by exists t.
Qed.

(** ** Properties *)

(** C3: A handle that is pending is waited for without an error: [synchronize]
    returns the operation's output tensor, which then holds the servers' reply
    with the type and shape it had, the handle is not pending any more, every
    other pending operation and every other tensor is as it was, and a second
    [synchronize] of the same handle returns [None] and does nothing. *)
Theorem synchronize_pending s h i o n :
  ops_inv s → _handle_map s !! h = Some (i, o, n) →
  ∃ k t s', c_results (o_clib s) !! h = Some k ∧ o_heap s !! o = Some t ∧
    synchronize (Some h) s = (Ok (Some o), s') ∧ ops_inv s' ∧
    o_heap s' = <[o := with_data (reduce h (k_name k) (k_average k) (k_compressor k) (k_input k)) t]>
                  (o_heap s) ∧
    _handle_map s' = delete h (_handle_map s) ∧
    synchronize (Some h) s' = (Ok None, s').
Proof.
  intros Hinv Hm. destruct (c_results (o_clib s) !! h) as [k|] eqn:Hk.
  2: { apply (inv_agree _ Hinv) in Hk. congruence. }
  pose proof (inv_output _ Hinv _ _ _ _ _ Hm Hk) as <-.
  destruct (inv_alloc _ Hinv _ _ Hk) as [t Ht].
  exists k, t, (completed s h k t). split_and!; [done|done|by eapply synchronize_ok|by apply completed_inv|done|done|].
  unfold synchronize, mbind, M_bind, get. simpl. by rewrite lookup_delete_eq.
Qed.

(** What code outside the module does to tensors: it makes new ones and writes to
    those there are. *)
Inductive tensor_step : ops → ops → Prop :=
  | step_alloc s t : tensor_step s (alloc_t t s).2
  | step_write s l t : is_Some (o_heap s !! l) → tensor_step s (write_t l t s).2.
(** A compressor does no more than that. *)
Definition only_tensors {A} (m : M ops A) : Prop := ∀ s, rtc tensor_step s (m s).2.

(** What one caller of the module can do, as a step relation: each of its functions,
    with whatever arguments and outcome, and work on tensors in between. *)
Inductive ops_step : ops → ops → Prop :=
  | step_tensor s s' : tensor_step s s' → ops_step s s'
  | step_async s t av n c r s' :
      push_pull_async t av n c s = (r, s') → ops_step s s'
  | step_inplace s t av n c r s' :
      push_pull_async_inplace t av n c s = (r, s') → ops_step s s'
  | step_group s t av n r s' :
      push_pull_group_sync_inplace t av n s = (r, s') → ops_step s s'
  | step_synchronize s h r s' :
      synchronize h s = (r, s') → ops_step s s'
  | step_push_pull_inplace s t av n r s' :
      push_pull_inplace t av n s = (r, s') → ops_step s s'
  | step_push_pull {ctx} (compress : loc → M ops (loc * ctx)) (decompress : option loc → ctx → M ops (option loc)) s t av n r s' :
      (∀ l, only_tensors (compress l)) → (∀ l c, only_tensors (decompress l c)) →
      push_pull compress decompress t av n s = (r, s') → ops_step s s'
  | step_forward s t av n r s' : BytePSPushPull_forward t av n s = (r, s') → ops_step s s'
  | step_backward s t av n r s' : BytePSPushPull_backward t av n s = (r, s') → ops_step s s'
  | step_poll s done_ h r s' : poll done_ h s = (r, s') → ops_step s s'
  | step_declare s n r s' : declare n s = (r, s') → ops_step s s'
  | step_num_grads s n r s' : byteps_torch_set_num_grads n s = (r, s') → ops_step s s'
  | step_send_norm s c_send n x r s' : send_norm c_send n x s = (r, s') → ops_step s s'
  | step_write_norm s n x r s' : write_norm n x s = (r, s') → ops_step s s'
  | step_write_next s n x r s' : write_next n x s = (r, s') → ops_step s s'
  | step_write_max_norm s x r s' : write_max_norm x s = (r, s') → ops_step s s'
  | step_clean s r s' : clean_records s = (r, s') → ops_step s s'.

(** The invariant only looks at the tensors, the handle map and the pending
    tasks. *)
Lemma ops_inv_ext s s' :
  o_heap s' = o_heap s → o_next s' = o_next s → _handle_map s' = _handle_map s →
  c_results (o_clib s') = c_results (o_clib s) →
  c_last_handle (o_clib s') = c_last_handle (o_clib s) → ops_inv s → ops_inv s'.
Proof. intros E1 E2 E3 E4 E5 [Ha Ho Hb Hal Hf]. split; rewrite ?E1, ?E2, ?E3, ?E4, ?E5; done. Qed.

Lemma alloc_inv s t : ops_inv s → ops_inv (alloc_t t s).2 ∧
  o_heap (alloc_t t s).2 !! o_next s = Some t.
Proof.
  intros [Ha Ho Hb Hal Hf]. split; [|apply lookup_insert_eq]. split; simpl; [done|done|done| |].
  - intros h k Hk. apply lookup_insert_is_Some'. right. by eapply Hal.
  - intros l. rewrite lookup_insert_is_Some'. intros [->|Hl%Hf]; lia.
Qed.

(** The state after a submission that went through, whatever it did to the
    declared names and the gradient counter. *)
Lemma submit_inv s s' i o n k :
  ops_inv s → is_Some (o_heap s !! o) → k_output k = o →
  o_heap s' = o_heap s → o_next s' = o_next s →
  _handle_map s' = <[c_last_handle (o_clib s) + 1 := (i, o, n)]> (_handle_map s) →
  c_results (o_clib s') = <[c_last_handle (o_clib s) + 1 := k]> (c_results (o_clib s)) →
  c_last_handle (o_clib s') = c_last_handle (o_clib s) + 1 → ops_inv s'.
Proof.
  intros [Ha Ho Hb Hal Hf] Hout Hk E1 E2 E3 E4 E5. split; rewrite ?E1, ?E2, ?E3, ?E4, ?E5.
  - intros h. rewrite !lookup_insert. case_decide; [done|apply Ha].
  - intros h i' o' n' k'. rewrite !lookup_insert. case_decide; [|apply Ho].
    intros. by simplify_eq.
  - intros h. rewrite lookup_insert. case_decide; [lia|]. intros Hs%Hb. lia.
  - intros h k'. rewrite lookup_insert. case_decide; [|apply Hal]. intros. by simplify_eq.
  - apply Hf.
Qed.

Ltac unfold_ops :=
  unfold _do_push_pull_async, _do_push_pull_group_sync, byteps_torch_declare_tensor,
    DoPushPullGroupSync, DoPushPull, count_grad, _check_function, read_t, mbind, M_bind, modify, lift, get,
    mret, M_ret in *; simpl in *.

Ltac ops_cases :=
  repeat (simpl; match goal with
    | |- context [decide ?P] => destruct (decide P)
    | |- context [or_raise _ (?h !! ?l)] => destruct (h !! l) eqn:?
    | |- context [if negb ?b then _ else _] => destruct b eqn:?
    | |- context [if c_initialized ?c then _ else _] => destruct (c_initialized c) eqn:?
    end).

Lemma do_push_pull_async_inv s i o av n x c :
  ops_inv s → (is_Some (o_heap s !! i) → is_Some (o_heap s !! o)) →
  ops_inv (_do_push_pull_async i o av n x c s).2.
Proof.
  intros Hinv Hout. destruct s as [hp nx cl hm nn mn nt]. unfold_ops.
  ops_cases;
  first [ by eapply ops_inv_ext; [..|exact Hinv] | eapply (submit_inv _ _ i o n); [exact Hinv|by apply Hout; eexists| |reflexivity..]; reflexivity ].
Qed.

Lemma do_push_pull_group_sync_inv s i o av n :
  ops_inv s → (is_Some (o_heap s !! i) → is_Some (o_heap s !! o)) →
  ops_inv (_do_push_pull_group_sync i o av n s).2.
Proof.
  intros Hinv Hout. destruct s as [hp nx cl hm nn mn nt]. unfold_ops.
  ops_cases;
  first [ by eapply ops_inv_ext; [..|exact Hinv] | eapply (submit_inv _ _ i o n); [exact Hinv|by apply Hout; eexists| |reflexivity..]; reflexivity ].
Qed.

Lemma push_pull_async_inv s t av n c : ops_inv s → ops_inv (push_pull_async t av n c s).2.
Proof.
  intros Hinv. unfold push_pull_async, read_t, mbind, M_bind, get, lift. simpl.
  destruct (o_heap s !! t) as [v|]; simpl; [|done].
  destruct (alloc_inv s (with_data (uninit (length (t_data v))) v) Hinv) as [Hi Hl].
  apply do_push_pull_async_inv; [exact Hi|]. intros _. simpl in *. rewrite Hl. by eexists.
Qed.

Lemma synchronize_inv s h : ops_inv s → ops_inv (synchronize h s).2.
Proof.
  intros Hinv. destruct h as [h|]; [|done].
  destruct (_handle_map s !! h) as [[[i o] n]|] eqn:Hm.
  - destruct (c_results (o_clib s) !! h) as [k|] eqn:Hk.
    2: { apply (inv_agree _ Hinv) in Hk. congruence. }
    destruct (inv_alloc _ Hinv _ _ Hk) as [t Ht].
    rewrite (synchronize_ok s h i o n k t) by done. by apply completed_inv.
  - unfold synchronize, mbind, M_bind, get. simpl. by rewrite Hm.
Qed.

(** Two states whose tables agree on the old handles, and in which no newer
    handle is pending, have the same tables. *)
Lemma tables_restored (o o' : ops) :
  ops_inv o → ops_inv o' →
  (∀ h, h ≤ c_last_handle (o_clib o) → _handle_map o' !! h = _handle_map o !! h ∧
     c_results (o_clib o') !! h = c_results (o_clib o) !! h) →
  (∀ h, c_last_handle (o_clib o) < h ≤ c_last_handle (o_clib o') →
     c_results (o_clib o') !! h = None) →
  _handle_map o' = _handle_map o ∧ c_results (o_clib o') = c_results (o_clib o).
Proof.
  intros Hi Hi' Hold Hnew.
  assert (∀ h, c_last_handle (o_clib o) < h →
    c_results (o_clib o') !! h = None ∧ c_results (o_clib o) !! h = None) as Hgt.
  { intros h Hh. split; [destruct (decide (h ≤ c_last_handle (o_clib o'))); [apply Hnew; lia|]|];
      apply eq_None_not_Some; [intros Hs%(inv_bound _ Hi')|intros Hs%(inv_bound _ Hi)]; lia. }
  split; apply map_eq; intros h; (destruct (decide (h ≤ c_last_handle (o_clib o))); [by apply Hold|]);
    destruct (Hgt h) as [E1 E2]; try lia.
  - apply (inv_agree _ Hi') in E1. apply (inv_agree _ Hi) in E2. congruence.
  - congruence.
Qed.

(** *** Programs that keep the invariant *)
Create HintDb keeps.
Definition keeps {A} (m : M ops A) : Prop := ∀ s, ops_inv s → ops_inv (m s).2.

Lemma keeps_step {A} (m : M ops A) s r s' : keeps m → ops_inv s → m s = (r, s') → ops_inv s'.
Proof. intros Hm Hi E. specialize (Hm s Hi). by rewrite E in Hm. Qed.
Lemma keeps_ret {A} (x : A) : keeps (mret x).
Proof. by intros s. Qed.
Lemma keeps_raise {A} e : keeps (raise e : M ops A).
Proof. by intros s. Qed.
Lemma keeps_bind {A B} (m : M ops A) (f : A → M ops B) : keeps m → (∀ x, keeps (f x)) → keeps (m ≫= f).
Proof.
  intros Hm Hf s Hi. specialize (Hm s Hi). unfold mbind, M_bind. destruct (m s) as [[x|e] s1]; [by apply Hf|done].
Qed.
(** A change of what the invariant does not look at. *)
Lemma keeps_modify f :
  (∀ s, o_heap (f s) = o_heap s ∧ o_next (f s) = o_next s ∧ _handle_map (f s) = _handle_map s ∧
     c_results (o_clib (f s)) = c_results (o_clib s) ∧ c_last_handle (o_clib (f s)) = c_last_handle (o_clib s)) →
  keeps (modify f).
Proof. intros Hf s Hi. destruct (Hf s) as (? & ? & ? & ? & ?). by apply (ops_inv_ext s). Qed.

Lemma keeps_declare n : keeps (byteps_torch_declare_tensor n).
Proof. apply keeps_modify. intros s. cbv zeta. by destruct (decide _). Qed.

Lemma tensor_step_inv s s' : tensor_step s s' → ops_inv s → ops_inv s'.
Proof. intros [s0 t|s0 l t Hl] Hi; [apply alloc_inv, Hi|exact (ops_inv_write s0 l t Hi Hl)]. Qed.
Lemma keeps_only_tensors {A} (m : M ops A) : only_tensors m → keeps m.
Proof.
  intros Hm s. specialize (Hm s). induction Hm as [|s1 s2 s3 Hs _ IH]; [done|]. intros Hi. by eapply IH, tensor_step_inv.
Qed.

Lemma keeps_async t av n c : keeps (push_pull_async t av n c).
Proof. intros s Hi. by apply push_pull_async_inv. Qed.
Lemma keeps_inplace t av n c : keeps (push_pull_async_inplace t av n c).
Proof. intros s Hi. by apply do_push_pull_async_inv. Qed.
Lemma keeps_group t av n : keeps (push_pull_group_sync_inplace t av n).
Proof. intros s Hi. by apply do_push_pull_group_sync_inv. Qed.
Lemma keeps_synchronize h : keeps (synchronize h).
Proof. intros s Hi. by apply synchronize_inv. Qed.
Lemma keeps_push_pull_inplace t av n : keeps (push_pull_inplace t av n).
Proof. apply keeps_bind; [apply keeps_inplace|intros h; apply keeps_synchronize]. Qed.
Lemma keeps_forward t av n : keeps (BytePSPushPull_forward t av n).
Proof. apply keeps_bind; [apply keeps_async|intros h; apply keeps_synchronize]. Qed.

Lemma keeps_push_pull {ctx} (compress : loc → M ops (loc * ctx)) decompress t av n :
  (∀ l, only_tensors (compress l)) → (∀ l c, only_tensors (decompress l c)) → keeps (push_pull compress decompress t av n).
Proof.
  intros Hc Hd. unfold push_pull. case_decide; [apply keeps_raise|].
  apply keeps_bind; [by apply keeps_only_tensors|]. intros [l c].
  apply keeps_bind; [apply keeps_forward|]. intros o. by apply keeps_only_tensors.
Qed.
Lemma keeps_backward t av n : keeps (BytePSPushPull_backward t av n).
Proof. apply keeps_push_pull; [intros l s|intros l c s]; apply rtc_refl. Qed.

Lemma keeps_poll done_ h : keeps (poll done_ h).
Proof. intros s Hi. unfold poll, mbind, M_bind, get. by destruct (c_results (o_clib s) !! h). Qed.
Lemma keeps_send_norm c_send n x : keeps (send_norm c_send n x).
Proof. apply keeps_bind; [apply keeps_declare|]. intros _. destruct n; [apply keeps_ret|apply keeps_raise]. Qed.
Lemma keeps_set_num_grads n : keeps (byteps_torch_set_num_grads n).
Proof. apply keeps_bind; [by apply keeps_modify|]. intros _. apply keeps_ret. Qed.
Lemma keeps_declared n : keeps (declare n).
Proof. apply keeps_bind; [apply keeps_declare|]. intros _. apply keeps_ret. Qed.
Lemma keeps_write_norm n x : keeps (write_norm n x).
Proof. by apply keeps_modify. Qed.
Lemma keeps_write_next n x : keeps (write_next n x).
Proof. by apply keeps_modify. Qed.
Lemma keeps_write_max_norm x : keeps (write_max_norm x).
Proof. apply keeps_ret. Qed.
Lemma keeps_clean_records : keeps clean_records.
Proof. by apply keeps_modify. Qed.

#[local] Hint Resolve keeps_async keeps_inplace keeps_group keeps_synchronize keeps_push_pull_inplace
  keeps_push_pull keeps_forward keeps_backward keeps_poll keeps_declared keeps_set_num_grads keeps_send_norm
  keeps_write_norm keeps_write_next keeps_write_max_norm keeps_clean_records : keeps.

(** C23: Every sequence of calls of the functions of [torch/ops.py], errors included and with any
    work on tensors in between, keeps the handle map and the extension's table of
    pending operations in agreement, the handles below the last one given out, and the output of
    every pending operation allocated. The compressor that is given to [push_pull] may only
    make and write tensors. *)
Theorem ops_steps_inv s s' : rtc ops_step s s' → ops_inv s → ops_inv s'.
Proof.
  induction 1 as [|s s1 s2 Hstep _ IH]; [done|]. intros Hinv. apply IH. clear IH. destruct Hstep; [by eapply tensor_step_inv|..];
    match goal with E : ?m _ = (_, _) |- _ => refine (keeps_step m _ _ _ _ Hinv E); auto with keeps end.
Qed.

(** [push_pull_inplace] of a supported tensor of an initialised extension
    returns the tensor itself; its elements are the servers' reply to the
    elements it had, its type and shape are unchanged, no other tensor is
    written, and no operation is left pending that was not before. *)
Theorem push_pull_inplace_spec s input av name t :
  ops_inv s → o_heap s !! input = Some t → supported t → c_initialized (o_clib s) = true →
  ∃ s', push_pull_inplace input av name s = (Ok (Some input), s') ∧
    o_heap s' = <[input := with_data (reduce (c_last_handle (o_clib s) + 1) (GetOpName (encode name))
                                        av "" (t_data t)) t]> (o_heap s) ∧
    _handle_map s' = _handle_map s ∧ c_results (o_clib s') = c_results (o_clib s).
Proof.
  intros Hinv Ht Hsup Hi.
  assert (c_results (o_clib s) !! (c_last_handle (o_clib s) + 1) = None) as Hn.
  { apply eq_None_not_Some. intros Hs%(inv_bound _ Hinv). lia. }
  pose proof Hn as Hn'. apply (inv_agree _ Hinv) in Hn'.
  unfold push_pull_inplace, push_pull_async_inplace. unfold mbind, M_bind, get.
  rewrite (do_push_pull_async_ok _ _ _ _ _ _ _ t) by done.
  erewrite synchronize_ok; [|simpl; apply lookup_insert_eq..|simpl; exact Ht].
  eexists. split; [done|]. simpl. split_and!; [done| |]; by apply delete_insert_id.
Qed.

(** [BytePSPushPull.forward] (the function [push_pull] applies) leaves its
    input and every other existing tensor as they are and returns a new
    tensor of the same type and shape with the servers' reply; nothing is left
    pending. *)
Theorem push_pull_forward_spec s input av name t :
  ops_inv s → o_heap s !! input = Some t → supported t → c_initialized (o_clib s) = true →
  ∃ s', BytePSPushPull_forward input av name s = (Ok (Some (o_next s)), s') ∧
    o_heap s !! o_next s = None ∧
    o_heap s' = <[o_next s := with_data (reduce (c_last_handle (o_clib s) + 1)
                                (GetOpName (encode name)) av "" (t_data t)) t]> (o_heap s) ∧
    _handle_map s' = _handle_map s ∧ c_results (o_clib s') = c_results (o_clib s).
Proof.
  intros Hinv Ht Hsup Hi.
  assert (c_results (o_clib s) !! (c_last_handle (o_clib s) + 1) = None) as Hn.
  { apply eq_None_not_Some. intros Hs%(inv_bound _ Hinv). lia. }
  pose proof Hn as Hn'. apply (inv_agree _ Hinv) in Hn'.
  assert (o_heap s !! o_next s = None) as Hfr.
  { apply eq_None_not_Some. intros Hs%(inv_fresh _ Hinv). lia. }
  unfold BytePSPushPull_forward, push_pull_async, read_t, alloc_t, lift. unfold mbind, M_bind, get.
  rewrite Ht. simpl.
  rewrite (do_push_pull_async_ok _ _ _ _ _ _ _ t);
    [|simpl; rewrite lookup_insert_ne; [done|congruence]|done|done].
  erewrite synchronize_ok; [|simpl; apply lookup_insert_eq..].
  eexists. split; [done|]. simpl. split_and!; [done| | |]; [|by apply delete_insert_id..].
  by rewrite insert_insert_eq.
Qed.
End ops.

Arguments task : clear implicits.
Arguments clib : clear implicits.
Arguments ops : clear implicits.

(** ** Concrete instance

    Two workers with the same data: the sum doubles the elements, the average
    leaves them; the extension exports its functions for the six element types
    on CPU and CUDA. *)
Module OpsDemo.
Definition exported : list string :=
  prefix ← ["byteps_torch_push_pull_async_torch_"; "byteps_torch_push_pull_group_sync_torch_"];
  device ← [""; "cuda_"];
  d ← [uint8; int32; int64; float16; float32; float64];
  [prefix +:+ device +:+ type_name d].
#[export] Instance ext : Extension Z := {|
  reduce _ _ average _ l := if average then l else map (Z.mul 2) l;
  c_attrs f := bool_decide (f ∈ exported);
  uninit n := replicate n 7
|}.
#[export] Instance ext_laws : ExtensionLaws Z.
Proof.
  split; [intros n; apply length_replicate|]. intros h n a c l. simpl. destruct a; [done|].
  apply length_map.
Qed.
Definition lib : clib Z := CLib true 0 ∅ [] 0 0.
Definition t0 : tensor Z := Tensor float32 [2%nat] [1; 2] false true.
Definition t1 : tensor Z := Tensor float64 [2%nat] [1; 2] false true.
Definition start : ops Z := Ops {[0%nat := t0; 1%nat := t1]} 2 lib ∅ ∅ 0 ∅.

Lemma start_inv : ops_inv start.
Proof.
  split; simpl; [done|intros; simplify_map_eq|intros h [? E]; simplify_map_eq
    |intros h k E; simplify_map_eq|].
  intros l. rewrite lookup_insert_is_Some', lookup_singleton_is_Some. lia.
Qed.

Lemma synchronize_pending_witness :
  _handle_map (push_pull_async_inplace 0%nat false (Some "g") "" start).2 !! 1
    = Some (0%nat, 0%nat, Some "g") ∧
  synchronize (Some 1) (synchronize (Some 1) (push_pull_async_inplace 0%nat false (Some "g") "" start).2).2
    = (Ok None, (synchronize (Some 1) (push_pull_async_inplace 0%nat false (Some "g") "" start).2).2).
Proof.
  split; [reflexivity|].
  destruct (synchronize_pending (push_pull_async_inplace 0%nat false (Some "g") "" start).2
              1 0%nat 0%nat (Some "g")) as (k & t & s' & _ & _ & E & _ & _ & _ & E2).
  - apply (do_push_pull_async_inv start 0%nat 0%nat false (Some "g") 0 ""); [apply start_inv|done].
  - reflexivity.
  - by rewrite E.
Defined.

(** An operation is pending, a norm is sent, and another operation comes and goes. *)
Definition several_calls : M (ops Z) (option loc) :=
  h ← push_pull_async 0%nat true None "";
  send_norm (λ _ x, x) (Some "n") 5;;
  push_pull_inplace 1%nat false (Some "g").
Lemma ops_steps_inv_witness :
  ops_inv (several_calls start).2 ∧ is_Some (_handle_map (several_calls start).2 !! 1).
Proof.
  split; [|by eexists]. apply (ops_steps_inv start); [|apply start_inv].
  eapply rtc_l; [eapply (step_async _ 0%nat true None ""), surjective_pairing|].
  eapply rtc_l; [eapply (step_send_norm _ (λ _ x, x) (Some "n") 5), surjective_pairing|].
  eapply rtc_l; [eapply (step_push_pull_inplace _ 1%nat false (Some "g")), surjective_pairing|].
  apply rtc_refl.
Defined.

Lemma push_pull_inplace_spec_witness :
  (push_pull_inplace 0%nat false (Some "g") start).1 = Ok (Some 0%nat).
Proof.
  destruct (push_pull_inplace_spec start 0%nat false (Some "g") t0) as (s' & E & _);
    [apply start_inv|reflexivity|by split|reflexivity|]. by rewrite E.
Defined.

Lemma push_pull_forward_spec_witness :
  (BytePSPushPull_forward 0%nat false (Some "g") start).1 = Ok (Some 2%nat).
Proof.
  destruct (push_pull_forward_spec start 0%nat false (Some "g") t0) as (s' & E & _);
    [apply start_inv|reflexivity|by split|reflexivity|]. by rewrite E.
Defined.
End OpsDemo.
