(* ===== verification/TorchCompression.v ===== *)
(** * Gradient compression, [byteps/torch/compression.py]

    The compressors of the package: none, top-k with and without error
    feedback, the dummy compressor and the 16-bit one. The two INCA compressors
    are not part of the repository. A compressor object has a table of residual
    tensors keyed by name ([errors] of the top-k one, [temps] of the dummy one).

    Timing with CUDA events is left out; its keys in the context dictionary are
    kept, since reading an absent key is an error. A view returned by a method
    is a new tensor with the elements it has at that point. *)

From S2P Require Import Prelude PyStr Tensor TorchOps.

(** What the compressors use of the tensor library. [argsort_desc] is the index
    part of [sort(descending=True)]; [cast] is the conversion of an element to
    an element type; [k_of d] is [int(self.kp * d)]. *)
Class TorchLib (R : Type) `{Scalar R} : Type := {
  argsort_desc : list R → list nat;
  cast : dtype → R → R
}.

(** Documented behaviour of [sort]: a permutation of the positions that puts
    the values in descending order. *)
Class TorchLibLaws (R : Type) `{TorchLib R} : Prop := {
  argsort_perm (l : list R) : argsort_desc l ≡ₚ seq 0 (length l);
  argsort_desc_sorted (l : list R) i j a b x y :
    (i < j)%nat → argsort_desc l !! i = Some a → argsort_desc l !! j = Some b →
    l !! a = Some x → l !! b = Some y → s_leb y x = true
}.

(** [res[a:b] = v] for a one-dimensional tensor; a single element is broadcast. *)
Definition slice_set {R} (a b : nat) (v l : list R) : res (list R) :=
  let a' := Nat.min a (length l) in
  let m := (Nat.min b (length l) - a')%nat in
  if decide (length v = m) then Ok (take a' l ++ v ++ drop (a' + m) l)
  else match v with
       | [x] => Ok (take a' l ++ replicate m x ++ drop (a' + m) l)
       | _ => Raise RuntimeError
       end.

(** [l[idx]] and [l[idx] = 0] with a tensor of indices. *)
Definition gather {R} (l : list R) (idx : list nat) : list R := omap (λ i, l !! i) idx.
Definition fill_at {R} (x : R) (idx : list nat) (l : list R) : list R :=
  foldl (λ l i, <[i := x]> l) l idx.

(** [res.index_copy_(0, idx, src)] *)
Fixpoint index_copy {R} (l : list R) (idx : list Z) (src : list R) : res (list R) :=
  match idx, src with
  | [], [] => Ok l
  | i :: idx', x :: src' =>
      if decide (0 ≤ i < Z.of_nat (length l)) then index_copy (<[Z.to_nat i := x]> l) idx' src'
      else Raise IndexError
  | _, _ => Raise IndexError
  end.

(** [a + b] on one-dimensional tensors, a single element is broadcast. *)
Definition t_add {R} `{Scalar R} (a b : list R) : res (list R) :=
  if decide (length a = length b) then Ok (vadd a b)
  else match a, b with
       | [x], _ => Ok (map (s_add x) b)
       | _, [y] => Ok (map (λ x, s_add x y) a)
       | _, _ => Raise RuntimeError
       end.

(** [a -= b] *)
Definition t_isub {R} `{Scalar R} (a b : list R) : res (list R) :=
  if decide (length a = length b) then Ok (zip_with s_sub a b)
  else match b with
       | [y] => Ok (map (λ x, s_sub x y) a)
       | _ => Raise RuntimeError
       end.

(** [t.view(-1)] *)
Definition view_flat {R} (t : tensor R) : res (list R) :=
  if t_contiguous t then Ok (t_data t) else Raise RuntimeError.

(** The context of a compressed tensor: [None], a dictionary (size, and a name
    under the key ["name"] or no such key), or an element type. *)
Inductive ctx :=
  | CtxNone
  | CtxDict (size : list nat) (name : option (option string)) (decompressed : bool)
  | CtxDtype (d : dtype).

Section compression.
Context {R : Type} `{Scalar R, !Extension R, !TorchLib R}.

(** A compressor's residual tensors. *)
#[local] Notation residuals := (gmap (option string) (list R)).

(** The operations work on the tensors and on the compressor's table. *)
Definition world : Type := ops R * residuals.
Definition on_ops {A} : M (ops R) A → M world A := zoom fst (λ o w, (o, w.2)).
Definition residual (name : option string) : M world (option (list R)) :=
  gets (λ w, w.2 !! name).
Definition set_residual (name : option string) (v : list R) : M world () :=
  modify (λ w, (w.1, <[name := v]> w.2)).

(** ** [NoneCompressor] *)
Definition none_compress (tensor : loc) (name : option string) : M world (loc * ctx) :=
  mret (tensor, CtxNone).
Definition none_decompress (tensor : loc) (c : ctx) : M world (loc * ctx) := mret (tensor, c).

(** ** [TopKCompressor] *)
Record topk : Type := TopK {
  k_of : nat → nat;
  ef : bool;
  topk_d : nat;
  topk_use_bps_server : bool
}.

(** [compress]. The elements keep their value: the conversion to [float32], the type of [res],
    of a tensor of another type is not modelled. *)
Definition topk_compress (self : topk) (tl : loc) (name : option string) : M world (loc * ctx) :=
  t ← on_ops (read_t tl);
  let orig_size := t_shape t in
  tensor ← lift (view_flat t);
  let d := length tensor in
  let compressed_num := k_of self d in
  data ← (if decide (Z.of_nat d < 0) then mret tensor
    else
      let res0 := vzero d in
      if ef self then
        old ← residual name;
        err ← lift (match old with None => Ok tensor | Some e => t_add tensor e end);
        set_residual name err;;
        let idx := argsort_desc (map s_abs err) in
        res1 ← lift (slice_set 0 compressed_num
                      (map (s_of_Z ∘ Z.of_nat) (take compressed_num idx)) res0);
        res2 ← lift (slice_set compressed_num (2 * compressed_num)
                      (gather err (take compressed_num idx)) res1);
        set_residual name (fill_at s_zero (take compressed_num idx) err);;
        mret res2
      else
        let idx := argsort_desc (map s_abs tensor) in
        res1 ← lift (slice_set 0 compressed_num
                      (map (s_of_Z ∘ Z.of_nat) (take compressed_num idx)) res0);
        lift (slice_set compressed_num (2 * compressed_num)
                (gather tensor (take compressed_num idx)) res1));
  out ← on_ops (alloc_t (Tensor float32 [d] data (t_cuda t) true));
  mret (out, CtxDict orig_size (Some name) false).

Definition topk_decompress (self : topk) (tl : loc) (c : ctx) : M world (loc * ctx) :=
  match c with
  | CtxDict size name _ =>
      t ← on_ops (read_t tl);
      let tensor := t_data t in
      let d := numel size in
      let compressed_num := k_of self d in
      data ← (if decide (Z.of_nat d < 0) then mret tensor
        else lift (index_copy (vzero d)
               (map (λ x, Z.min (s_to_Z x) (Z.of_nat d - 1)) (take compressed_num tensor))
               (drop compressed_num (take (2 * compressed_num) tensor))));
      out ← on_ops (alloc_t (Tensor float32 size data (t_cuda t) true));
      mret (out, CtxDict size name true)
  | _ => raise TypeError
  end.

(** ** [DummyCompressor]

    [modify_idx] is the coordinate whose sign is flipped ([None], an absent
    entry of the parameters, is an index too: it stands for the whole tensor).
    The rotations return their argument. *)
Definition dummy_diagonal (tensor : list R) : list R := tensor.
Definition dummy_hadamard (tensor : list R) : list R := tensor.
Definition dummy_rotation (tensor : list R) : list R := dummy_hadamard (dummy_diagonal tensor).
Definition dummy_inverse_rotation (tensor : list R) : list R :=
  dummy_diagonal (dummy_hadamard tensor).
Definition dummy_sq_func (tensor : list R) : list R := tensor.

(** [tensor[idx] = -tensor[idx]], with Python's negative indices. *)
Definition negate_at (idx : option Z) (l : list R) : res (list R) :=
  match idx with
  | None => Ok (map s_neg l)
  | Some idx =>
      let n := Z.of_nat (length l) in
      if decide (- n ≤ idx < n) then
        let i := Z.to_nat (if decide (idx < 0) then idx + n else idx) in
        Ok (alter s_neg i l)
      else Raise IndexError
  end.

(** The flip is done through a view: it is seen in the caller's tensor. *)
Definition dummy_compress (idx : option Z) (tl : loc) (name : option string) : M world (loc * ctx) :=
  t ← on_ops (read_t tl);
  let orig_size := t_shape t in
  tensor ← lift (view_flat t);
  flipped ← lift (negate_at idx tensor);
  on_ops (write_t tl (with_data flipped t));;
  let tensor := dummy_sq_func (dummy_rotation flipped) in
  out ← on_ops (alloc_t (Tensor (t_dtype t) [length tensor] tensor (t_cuda t) true));
  old ← residual name;
  tmp ← lift (match old with None => Ok tensor | Some e => t_add tensor e end);
  set_residual name tmp;;
  tmp ← lift (t_isub tmp (dummy_inverse_rotation tensor));
  set_residual name tmp;;
  mret (out, CtxDict orig_size None false).

Definition dummy_decompress (idx : option Z) (tl : loc) (c : ctx) : M world (loc * ctx) :=
  t ← on_ops (read_t tl);
  tensor ← lift (view_flat t);
  flipped ← lift (negate_at idx tensor);
  on_ops (write_t tl (with_data flipped t));;
  match c with
  | CtxDict size name _ =>
      if decide (numel size = length flipped) then
        out ← on_ops (alloc_t (Tensor (t_dtype t) size (dummy_inverse_rotation flipped) (t_cuda t) true));
        mret (out, CtxDict size name true)
      else raise RuntimeError
  | _ => raise TypeError
  end.

(** ** [FP16Compressor] *)

(** [tensor.type(d)]: the tensor itself if it has that type already. *)
Definition tensor_to (d : dtype) (tl : loc) : M world loc :=
  t ← on_ops (read_t tl);
  if decide (t_dtype t = d) then mret tl
  else on_ops (alloc_t (with_dtype d (with_data (map (cast d) (t_data t)) t))).

Definition fp16_compress (tl : loc) (name : option string) : M world (loc * ctx) :=
  t ← on_ops (read_t tl);
  tensor_compressed ← (if is_floating_point (t_dtype t) then tensor_to float16 tl else mret tl);
  mret (tensor_compressed, CtxDtype (t_dtype t)).

Definition fp16_decompress (tl : loc) (c : ctx) : M world (loc * ctx) :=
  match c with
  | CtxDtype d =>
      out ← (if is_floating_point d then tensor_to d tl else mret tl);
      mret (out, c)
  | _ => raise AttributeError
  end.

(** ** What top-k sends

    The reference: the elements at the chosen positions, zero elsewhere. *)
Definition keep (idx : list nat) (l : list R) : list R :=
  imap (λ i x, if decide (i ∈ idx) then x else s_zero) l.
Definition discard (idx : list nat) (l : list R) : list R :=
  imap (λ i x, if decide (i ∈ idx) then s_zero else x) l.

(** The positions of the [k] largest absolute values. *)
Definition top_positions (k : nat) (l : list R) : list nat :=
  take k (argsort_desc (map s_abs l)).

Lemma length_fill_at (x : R) idx l : length (fill_at x idx l) = length l.
Proof.
  revert l. induction idx as [|i idx IH]; intros l; simpl; [done|].
  unfold fill_at in *. simpl. by rewrite IH, length_insert.
Qed.

Lemma fill_at_discard idx (l : list R) : fill_at s_zero idx l = discard idx l.
Proof.
  apply list_eq. intros j. unfold discard. rewrite list_lookup_imap. revert l.
  induction idx as [|i idx IH]; intros l.
  { by destruct (l !! j) eqn:E; simpl. }
  unfold fill_at in *. simpl. rewrite IH. clear IH.
  destruct (decide (i = j)) as [->|Hij].
  - destruct (l !! j) as [y|] eqn:Ej.
    + rewrite list_lookup_insert_eq by (by eapply lookup_lt_Some). simpl.
      rewrite (decide_True (P := j ∈ j :: idx)) by set_solver. by case_decide.
    + by rewrite list_insert_ge, Ej by (by apply lookup_ge_None).
  - rewrite list_lookup_insert_ne by done. destruct (l !! j); simpl; [|done].
    f_equal. apply decide_ext. set_solver.
Qed.

Lemma slice_set_ok a b (v l : list R) :
  (a ≤ b)%nat → (b ≤ length l)%nat → length v = (b - a)%nat →
  slice_set a b v l = Ok (take a l ++ v ++ drop b l).
Proof.
  intros Hab Hb Hv. unfold slice_set. rewrite (Nat.min_l a), (Nat.min_l b) by lia.
  rewrite decide_True by done. do 3 f_equal. f_equal. lia.
Qed.

Lemma length_gather (l : list R) idx :
  Forall (λ i, (i < length l)%nat) idx → length (gather l idx) = length idx.
Proof.
  induction 1 as [|i idx Hi _ IH]; [done|]. unfold gather in *. simpl.
  destruct (lookup_lt_is_Some_2 l i Hi) as [x Hx]. rewrite Hx. simpl. f_equal. apply IH.
Qed.

(** Writing the gathered elements into [base] at the positions they came from. *)
Lemma index_copy_gather (l base : list R) idx :
  Forall (λ i, (i < length l)%nat) idx → length base = length l →
  index_copy base (map Z.of_nat idx) (gather l idx)
  = Ok (imap (λ i x, if decide (i ∈ idx) then default x (l !! i) else x) base).
Proof.
  intros Hi. revert base. induction Hi as [|i idx Hi _ IH]; intros base Hb; simpl.
  { f_equal. apply list_eq. intros j. rewrite list_lookup_imap. by destruct (base !! j). }
  unfold gather in *. simpl. destruct (lookup_lt_is_Some_2 l i Hi) as [x Hx]. rewrite Hx. simpl.
  rewrite decide_True by lia. rewrite Nat2Z.id, IH by (by rewrite length_insert). f_equal.
  apply list_eq. intros j. rewrite !list_lookup_imap. destruct (decide (i = j)) as [->|Hij].
  - rewrite list_lookup_insert_eq by lia.
    destruct (lookup_lt_is_Some_2 base j) as [y Hy]; [lia|]. rewrite Hy. simpl.
    rewrite Hx, (decide_True (P := j ∈ j :: idx)) by set_solver. by case_decide.
  - rewrite list_lookup_insert_ne by done. destruct (base !! j); simpl; [|done].
    f_equal. apply decide_ext. set_solver.
Qed.

Lemma keep_scatter (l : list R) idx :
  imap (λ i x, if decide (i ∈ idx) then default x (l !! i) else x) (vzero (length l)) = keep idx l.
Proof.
  apply list_eq. intros j. unfold keep, vzero. rewrite !list_lookup_imap.
  destruct (decide (j < length l)%nat) as [Hj|Hj].
  - rewrite lookup_replicate_2 by done. destruct (lookup_lt_is_Some_2 l j Hj) as [x Hx].
    by rewrite Hx.
  - rewrite !lookup_ge_None_2; [done|..]; rewrite ?length_replicate; lia.
Qed.

Lemma keep_discard `{!ScalarLaws R} idx (l : list R) : vadd (keep idx l) (discard idx l) = l.
Proof.
  apply list_eq. intros j. unfold vadd, keep, discard. rewrite lookup_zip_with, !list_lookup_imap.
  destruct (l !! j); simpl; [|done]. case_decide; [by rewrite s_add_0_r|by rewrite s_add_0_l].
Qed.

Lemma length_keep idx (l : list R) : length (keep idx l) = length l.
Proof. apply length_imap. Qed.

Section laws.
Context `{!TorchLibLaws R}.

Lemma top_positions_lt k (l : list R) : Forall (λ i, (i < length l)%nat) (top_positions k l).
Proof.
  apply Forall_take. rewrite (argsort_perm (map s_abs l)), length_map.
  apply Forall_forall. intros i Hi%elem_of_seq. lia.
Qed.

Lemma top_positions_NoDup k (l : list R) : NoDup (top_positions k l).
Proof.
  unfold top_positions. eapply sublist_NoDup; [|apply sublist_take].
  rewrite (argsort_perm (map s_abs l)). apply NoDup_seq.
Qed.

Lemma length_top_positions k (l : list R) : length (top_positions k l) = Nat.min k (length l).
Proof.
  unfold top_positions. rewrite length_take, (argsort_perm (map s_abs l)), length_seq, length_map.
  done.
Qed.

(** What a packed tensor holds: the positions, the elements there, padding. *)
Definition packed (k : nat) (l : list R) : list R :=
  map (s_of_Z ∘ Z.of_nat) (top_positions k l) ++ gather l (top_positions k l)
    ++ vzero (length l - 2 * k).

Lemma slice_set_packed k (l : list R) :
  (2 * k ≤ length l)%nat →
  ∃ r1, slice_set 0 k (map (s_of_Z ∘ Z.of_nat) (top_positions k l)) (vzero (length l)) = Ok r1 ∧
    slice_set k (2 * k) (gather l (top_positions k l)) r1 = Ok (packed k l).
Proof.
  intros Hk. pose proof (length_top_positions k l) as Ht. rewrite Nat.min_l in Ht by lia.
  exists (map (s_of_Z ∘ Z.of_nat) (top_positions k l) ++ vzero (length l - k)). split.
  - rewrite slice_set_ok; [|lia|rewrite length_vzero; lia|rewrite length_map; lia].
    unfold vzero. by rewrite drop_replicate.
  - rewrite slice_set_ok; [|lia|unfold vzero; rewrite length_app, length_map, length_replicate; lia|].
    2: { rewrite length_gather by apply top_positions_lt. lia. }
    unfold packed. f_equal. f_equal; [rewrite take_app_length'; [done|by rewrite length_map]|].
    f_equal. unfold vzero. rewrite drop_app_ge by (rewrite length_map; lia).
    rewrite length_map, drop_replicate, Ht. f_equal. lia.
Qed.

(** The tensor a call of [compress] selects from: the gradient, plus what
    earlier calls of the same name left behind. *)
Definition accumulated (self : topk) (name : option string) (rs : residuals) (l : list R) :
    res (list R) :=
  if ef self then match rs !! name with None => Ok l | Some e => t_add l e end else Ok l.

Lemma topk_compress_ok self tl name w t e :
  o_heap w.1 !! tl = Some t → t_contiguous t = true →
  accumulated self name w.2 (t_data t) = Ok e → length e = length (t_data t) →
  (2 * k_of self (length e) ≤ length e)%nat →
  topk_compress self tl name w =
    (Ok (o_next w.1, CtxDict (t_shape t) (Some name) false),
     ((alloc_t (Tensor float32 [length e] (packed (k_of self (length e)) e) (t_cuda t) true) w.1).2,
      if ef self then <[name := discard (top_positions (k_of self (length e)) e) e]> w.2 else w.2)).
Proof.
  intros Ht Hc Hacc Hlen Hk. destruct (slice_set_packed _ _ Hk) as (r1 & E1 & E2).
  unfold topk_compress, on_ops, zoom, residual, set_residual, read_t, gets, view_flat, mbind, M_bind,
    lift, get, modify, mret, M_ret. destruct w as [o rs]. simpl in *. rewrite Ht. simpl. rewrite Hc.
  rewrite <-Hlen. rewrite decide_False by lia. unfold accumulated in Hacc.
  destruct (ef self); simpl.
  - rewrite Hacc. fold (top_positions (k_of self (length e)) e).
    rewrite E1. simpl. rewrite E2. simpl. rewrite fill_at_discard. do 2 f_equal. apply insert_insert_eq.
  - simplify_eq. fold (top_positions (k_of self (length (t_data t))) (t_data t)). by rewrite E1, E2.
Qed.

(** What [decompress] makes of a reply: its elements at the positions it names, one
    after the other; a position past the end is the last one. *)
Definition place (l : list R) (idx : list nat) (vals : list R) : list R :=
  foldl (λ l ix, <[ix.1 := ix.2]> l) l (zip idx vals).
Definition reply_positions (d : nat) (reply : list R) : list nat :=
  map (λ x, Z.to_nat (Z.min (s_to_Z x) (Z.of_nat d - 1))) reply.

Lemma length_place l idx (vals : list R) : length (place l idx vals) = length l.
Proof.
  unfold place. revert l. generalize (zip idx vals). intros z. induction z as [|[i x] z IH]; intros l; [done|].
  cbn. by rewrite IH, length_insert.
Qed.

Lemma index_copy_place (base : list R) idx vals :
  Forall (λ i, 0 ≤ i < Z.of_nat (length base)) idx → length vals = length idx →
  index_copy base idx vals = Ok (place base (Z.to_nat <$> idx) vals).
Proof.
  intros Hi. revert base vals Hi. induction idx as [|i idx IH]; intros base [|x vals] Hi Hl; try done.
  apply Forall_cons in Hi as [Hi Hidx]. cbn [index_copy]. rewrite decide_True by done. apply IH; [|simpl in Hl; lia].
  by rewrite length_insert.
Qed.

(** The elements of [l] at their own positions. *)
Lemma place_gather (l : list R) idx :
  Forall (λ i, (i < length l)%nat) idx → place (vzero (length l)) idx (gather l idx) = keep idx l.
Proof.
  intros Hi. assert (index_copy (vzero (length l)) (map Z.of_nat idx) (gather l idx) = Ok (keep idx l)) as E.
  { rewrite index_copy_gather by (done || by rewrite length_vzero). by rewrite keep_scatter. }
  rewrite index_copy_place in E.
  - injection E as <-. f_equal. rewrite <-list_fmap_compose. rewrite <-(list_fmap_id idx) at 1.
    apply list_fmap_ext. intros j i _. cbn. by rewrite Nat2Z.id.
  - apply Forall_map. eapply Forall_impl; [exact Hi|]. intros i Hlt. cbn in *. rewrite length_vzero. lia.
  - rewrite length_map. by apply length_gather.
Qed.

Lemma topk_decompress_reply self tl size name b w dt sh cu co (data : list R) :
  let d := numel size in let k := k_of self d in
  (0 < d)%nat → (2 * k ≤ length data)%nat → Forall (λ x, 0 ≤ s_to_Z x) (take k data) →
  o_heap w.1 !! tl = Some (Tensor dt sh data cu co) →
  topk_decompress self tl (CtxDict size name b) w =
    (Ok (o_next w.1, CtxDict size name true),
     ((alloc_t (Tensor float32 size (place (vzero d) (reply_positions d (take k data)) (drop k (take (2 * k) data)))
                 cu true) w.1).2, w.2)).
Proof.
  intros d k Hd Hk Hpos Ht. unfold topk_decompress, on_ops, zoom, read_t, mbind, M_bind, lift, get, mret, M_ret.
  destruct w as [o rs]. simpl in *. rewrite Ht. simpl. fold d k.
  rewrite decide_False by lia. rewrite index_copy_place.
  - unfold reply_positions. change (Z.to_nat <$> ?l) with (map Z.to_nat l). by rewrite map_map.
  - apply Forall_map. eapply Forall_impl; [exact Hpos|]. intros x Hx. cbn in *. rewrite length_vzero. lia.
  - rewrite length_map, length_drop, !length_take. lia.
Qed.

(** The positions and elements a worker sends are put back where they were. *)
Lemma place_packed k (l : list R) :
  (k ≤ length l)%nat → (∀ i, (i < length l)%nat → s_to_Z (s_of_Z (R := R) (Z.of_nat i)) = Z.of_nat i) →
  let idx := top_positions k l in
  let pos := map (s_of_Z ∘ Z.of_nat) idx in
  Forall (λ x : R, 0 ≤ s_to_Z x) pos ∧ place (vzero (length l)) (reply_positions (length l) pos) (gather l idx) = keep idx l.
Proof.
  intros Hk Hex idx pos. pose proof (top_positions_lt k l) as Hlt. split.
  - apply Forall_map. eapply Forall_impl; [exact Hlt|]. intros i Hi. cbn. rewrite Hex by done. lia.
  - rewrite <-place_gather by done. f_equal. unfold pos, reply_positions. rewrite map_map. fold idx in Hlt.
    rewrite <-(map_id idx) at 2. apply map_ext_in. intros i Hi%list_elem_of_In. rewrite Forall_forall in Hlt. specialize (Hlt i Hi).
    cbn. rewrite Hex by done. lia.
Qed.

Lemma topk_decompress_packed self tl size name b w dt sh cu co (l data : list R) :
  numel size = length l → (2 * k_of self (length l) ≤ length l)%nat →
  take (2 * k_of self (length l)) data
    = take (2 * k_of self (length l)) (packed (k_of self (length l)) l) →
  o_heap w.1 !! tl = Some (Tensor dt sh data cu co) →
  (∀ i, (i < length l)%nat → s_to_Z (s_of_Z (R := R) (Z.of_nat i)) = Z.of_nat i) →
  topk_decompress self tl (CtxDict size name b) w =
    (Ok (o_next w.1, CtxDict size name true),
     ((alloc_t (Tensor float32 size (keep (top_positions (k_of self (length l)) l) l) cu true) w.1).2,
      w.2)).
Proof.
  intros Hn Hk Hdata Ht Hex. set (k := k_of self (length l)) in *.
  pose proof (length_top_positions k l) as Hl. rewrite Nat.min_l in Hl by lia.
  pose proof (top_positions_lt k l) as Hlt.
  assert (length (gather l (top_positions k l)) = k) as Hg by (by rewrite length_gather).
  unfold topk_decompress, on_ops, zoom, read_t, mbind, M_bind, lift, get, mret, M_ret.
  destruct w as [o rs]. simpl in *. rewrite Ht. simpl. rewrite Hn. fold k.
  rewrite decide_False by lia.
  assert (take k data = map (s_of_Z ∘ Z.of_nat) (top_positions k l)) as E1.
  { transitivity (take k (take (k + (k + 0)) data)); [rewrite take_take; f_equal; lia|].
    rewrite Hdata, take_take, Nat.min_l by lia.
    unfold packed. by rewrite take_app_length' by (by rewrite length_map). }
  assert (drop k (take (k + (k + 0)) data) = gather l (top_positions k l)) as E2.
  { rewrite Hdata. unfold packed. rewrite app_assoc, take_app_length' by (rewrite length_app, length_map; lia).
    by rewrite drop_app_length' by (by rewrite length_map). }
  rewrite E1, E2, map_map.
  rewrite (map_ext_in _ Z.of_nat).
  2: { intros i Hi. rewrite <-list_elem_of_In in Hi. rewrite Forall_forall in Hlt.
       specialize (Hlt i Hi). simpl. rewrite Hex by done. lia. }
  rewrite index_copy_gather by (done || by rewrite length_vzero). by rewrite keep_scatter.
Qed.

(** One round of top-k with a reply that equals what was sent. *)
Definition topk_round (self : topk) (name : option string) (tl : loc) : M world loc :=
  '(o, c) ← topk_compress self tl name;
  '(o', _) ← topk_decompress self o c;
  mret o'.

(** Positions are exactly representable as elements. *)
Definition exact_positions (d : nat) : Prop :=
  ∀ i, (i < d)%nat → s_to_Z (s_of_Z (R := R) (Z.of_nat i)) = Z.of_nat i.

Lemma topk_round_ok self tl name w t e :
  o_heap w.1 !! tl = Some t → tensor_wf t → t_contiguous t = true →
  accumulated self name w.2 (t_data t) = Ok e → length e = length (t_data t) →
  (2 * k_of self (length e) ≤ length e)%nat → exact_positions (length e) →
  let idx := top_positions (k_of self (length e)) e in
  ∃ w', topk_round self name tl w = (Ok (S (o_next w.1)), w') ∧
    o_next w'.1 = S (S (o_next w.1)) ∧
    (∀ l, (l < o_next w.1)%nat → o_heap w'.1 !! l = o_heap w.1 !! l) ∧
    o_heap w'.1 !! S (o_next w.1) = Some (Tensor float32 (t_shape t) (keep idx e) (t_cuda t) true) ∧
    w'.2 = (if ef self then <[name := discard idx e]> w.2 else w.2).
Proof.
  intros Ht Hwf Hc Hacc Hlen Hk Hex idx. unfold topk_round, mbind, M_bind, mret, M_ret.
  erewrite topk_compress_ok by done.
  erewrite (topk_decompress_packed self _ _ _ _ _ float32 [length e] (t_cuda t) true e);
    [|by rewrite Hlen|done|reflexivity|apply lookup_insert_eq|done].
  eexists. split; [done|]. simpl. split_and!; [done| |by rewrite lookup_insert_eq|done].
  intros l Hl. rewrite !lookup_insert_ne by lia. done.
Qed.

(** The selected positions are [min k d] different ones, and no element that
    is left out is larger in absolute value than one that is sent. *)
Theorem topk_selects_largest k (l : list R) :
  NoDup (top_positions k l) ∧ length (top_positions k l) = Nat.min k (length l) ∧
  ∀ i j x y, i ∈ top_positions k l → j ∉ top_positions k l → l !! i = Some x → l !! j = Some y →
    s_leb (s_abs y) (s_abs x) = true.
Proof.
  split_and!; [apply top_positions_NoDup|apply length_top_positions|]. intros i j x y Hi Hj Hx Hy.
  assert (j ∈ argsort_desc (map s_abs l)) as Hj'.
  { rewrite (argsort_perm (map s_abs l)), length_map. apply elem_of_seq.
    apply lookup_lt_Some in Hy. lia. }
  apply list_elem_of_lookup in Hj' as [b Hb].
  apply list_elem_of_lookup in Hi as [a Ha].
  assert (k ≤ b)%nat as Hkb.
  { destruct (decide (k ≤ b)%nat); [done|]. destruct Hj. apply list_elem_of_lookup. exists b.
    unfold top_positions. rewrite lookup_take_lt; [done|lia]. }
  unfold top_positions in Ha. apply lookup_take_Some in Ha as [Ha Hak].
  eapply (argsort_desc_sorted (map s_abs l) a b); [lia|done|done|..];
    rewrite list_lookup_fmap, ?Hx, ?Hy; done.
Qed.

(** A fraction above one half does not fit the message: with at least two
    positions to send and fewer than twice as many elements, [compress] raises
    an error. *)
Theorem topk_too_many self tl name w t e :
  o_heap w.1 !! tl = Some t → t_contiguous t = true →
  accumulated self name w.2 (t_data t) = Ok e → length e = length (t_data t) →
  (2 ≤ Nat.min (k_of self (length e)) (length e))%nat →
  (length e < 2 * k_of self (length e))%nat →
  (topk_compress self tl name w).1 = Raise RuntimeError.
Proof.
  intros Ht Hc Hacc Hlen H2 Hk. set (k := k_of self (length e)) in *.
  assert (∃ r1, slice_set 0 k (map (s_of_Z ∘ Z.of_nat) (top_positions k e)) (vzero (length e)) = Ok r1 ∧
    slice_set k (2 * k) (gather e (top_positions k e)) r1 = Raise RuntimeError) as (r1 & E1 & E2).
  { pose proof (length_top_positions k e) as Hl. unfold slice_set at 1. rewrite length_vzero.
    simpl Nat.min. rewrite decide_True by (rewrite length_map; lia). eexists. split; [done|].
    unfold slice_set. rewrite !length_app, length_map, length_drop, length_vzero, Hl. simpl length.
    assert (length (gather e (top_positions k e)) = Nat.min k (length e)) as Hg.
    { rewrite length_gather by apply top_positions_lt. lia. }
    rewrite decide_False by lia. destruct (gather e (top_positions k e)) as [|x [|y g]]; simpl in *; [done|lia|done]. }
  unfold topk_compress, on_ops, zoom, residual, set_residual, read_t, gets, view_flat, mbind, M_bind,
    lift, get, modify, mret, M_ret. destruct w as [o rs]. simpl in *. rewrite Ht. simpl. rewrite Hc.
  rewrite <-Hlen. rewrite decide_False by lia. unfold accumulated in Hacc. fold k.
  destruct (ef self); simpl.
  - rewrite Hacc. fold (top_positions k e). rewrite E1. simpl. by rewrite E2.
  - simplify_eq. fold (top_positions k (t_data t)). rewrite E1. simpl. by rewrite E2.
Qed.

(** C18: A contiguous tensor of [d] elements of type [float32] and [k = int(kp * d)]. With [2 * k <= d]
    and positions that a 32-bit float represents exactly (up to [2^24] elements), the tensor
    that went through [TopKCompressor.compress] and [decompress] has its
    original shape, keeps the elements (with the residual added) at the [k] selected positions and is zero
    elsewhere; the input tensor is unchanged, and with error feedback exactly the
    elements that were not sent stay in [errors[name]]. With [2 * k > d], and at least two
    positions to send, [compress] raises [RuntimeError]. *)
Theorem topk_roundtrip self tl name w t e :
  o_heap w.1 !! tl = Some t → (tl < o_next w.1)%nat → tensor_wf t → t_contiguous t = true →
  accumulated self name w.2 (t_data t) = Ok e → length e = length (t_data t) →
  let d := length e in
  let k := k_of self d in
  let idx := top_positions k e in
  ((2 * k ≤ d)%nat → exact_positions d →
   ∃ out c w1 out' c' w2,
     topk_compress self tl name w = (Ok (out, c), w1) ∧
     topk_decompress self out c w1 = (Ok (out', c'), w2) ∧
     o_heap w2.1 !! out' = Some (Tensor float32 (t_shape t) (keep idx e) (t_cuda t) true) ∧
     o_heap w2.1 !! tl = Some t ∧
     w2.2 = (if ef self then <[name := discard idx e]> w.2 else w.2)) ∧
  ((d < 2 * k)%nat → (2 ≤ Nat.min k d)%nat → (topk_compress self tl name w).1 = Raise RuntimeError).
Proof.
  intros Ht Hlt Hwf Hc Hacc Hlen d k idx. split; [|intros H1 H2; by eapply topk_too_many].
  intros Hk Hex. destruct (topk_round_ok self tl name w t e) as (w' & E & _ & Hfr & Hout & Hres); try done.
  unfold topk_round, mbind, M_bind, mret, M_ret in E.
  destruct (topk_compress self tl name w) as [[[out c]|] w1] eqn:E1; [|done].
  destruct (topk_decompress self out c w1) as [[[out' c']|] w2] eqn:E2; [|done].
  injection E as -> ->. exists out, c, w1, (S (o_next w.1)), c', w'.
  split_and!; [done|done|done|by rewrite Hfr|done].
Qed.

Fixpoint topk_rounds (self : topk) (name : option string) (tls : list loc) : M world (list loc) :=
  match tls with
  | [] => mret []
  | tl :: tls' => o ← topk_round self name tl; os ← topk_rounds self name tls'; mret (o :: os)
  end.

(** [v] is the data of the tensor at [l]. *)
Definition holds_data (w : world) (l : loc) (v : list R) : Prop :=
  ∃ t, o_heap w.1 !! l = Some t ∧ t_data t = v.

(** A gradient [compress] accepts: allocated, contiguous, of [d] elements. *)
Definition gradient_ok (d : nat) (w : world) (l : loc) (v : list R) : Prop :=
  ∃ t, o_heap w.1 !! l = Some t ∧ t_data t = v ∧ (l < o_next w.1)%nat ∧ tensor_wf t ∧
    t_contiguous t = true ∧ length v = d.

Lemma accumulated_default `{!ScalarLaws R} self name (w : world) (g : list R) :
  ef self = true → length (default (vzero (length g)) (w.2 !! name)) = length g →
  accumulated self name w.2 g = Ok (vadd g (default (vzero (length g)) (w.2 !! name))).
Proof.
  intros Hef Hr. unfold accumulated. rewrite Hef. destruct (w.2 !! name) as [r|]; simpl in *.
  - unfold t_add. by rewrite decide_True.
  - by rewrite vadd_zero_r.
Qed.

(** Error feedback loses nothing: over any sequence of rounds for one name,
    everything that was delivered plus what is still in [errors[name]] is the
    sum of all gradients plus what was in [errors[name]] at the start. *)
Theorem topk_error_feedback `{!ScalarLaws R} self name d tls gs w :
  ef self = true → (2 * k_of self d ≤ d)%nat → exact_positions d →
  Forall2 (gradient_ok d w) tls gs → length (default (vzero d) (w.2 !! name)) = d →
  ∃ outs w' vs, topk_rounds self name tls w = (Ok outs, w') ∧ Forall2 (holds_data w') outs vs ∧
    Forall (λ v, length v = d) vs ∧
    vadd (vsum d vs) (default (vzero d) (w'.2 !! name))
    = vadd (vsum d gs) (default (vzero d) (w.2 !! name)) ∧
    (∀ l, (l < o_next w.1)%nat → o_heap w'.1 !! l = o_heap w.1 !! l).
Proof.
  intros Hef Hk Hex Hg. revert w Hg. revert gs.
  induction tls as [|tl tls IH]; intros gs w Hg Hr.
  { apply Forall2_nil_inv_l in Hg as ->. exists [], w, []. by split_and!. }
  apply Forall2_cons_inv_l in Hg as (g & gs' & (t & Ht & Hd & Hlt & Hwf & Hc & Hlen) & Hg & ->).
  set (r := default (vzero d) (w.2 !! name)) in *.
  assert (length (vadd g r) = d) as He by (rewrite length_vadd; lia).
  destruct (topk_round_ok self tl name w t (vadd g r)) as (w1 & E & Hnx & Hfr & Hout & Hres);
    [done|done|done| |rewrite He; congruence|by rewrite He|by rewrite He|].
  { rewrite Hd. rewrite accumulated_default by (done || by rewrite Hlen). by rewrite Hlen. }
  rewrite He, Hef in *. set (idx := top_positions (k_of self d) (vadd g r)) in *.
  assert (default (vzero d) (w1.2 !! name) = discard idx (vadd g r)) as Hr1.
  { rewrite Hres, lookup_insert_eq. done. }
  destruct (IH gs' w1) as (outs & w' & vs & E' & Hvs & Hlv & Hsum & Hfr').
  { eapply Forall2_impl; [exact Hg|]. intros l v (t' & ? & ? & ? & ? & ? & ?). exists t'.
    rewrite Hfr by done. split_and!; try done. rewrite Hnx. lia. }
  { rewrite Hr1. unfold discard. by rewrite length_imap. }
  exists (S (o_next w.1) :: outs), w', (keep idx (vadd g r) :: vs). split_and!.
  - simpl. unfold mbind, M_bind. rewrite E. simpl. by rewrite E'.
  - constructor; [|done]. eexists. rewrite Hfr' by (rewrite Hnx; lia). split; [exact Hout|done].
  - constructor; [|done]. by rewrite length_keep.
  - simpl. rewrite <-vadd_assoc, Hsum, Hr1. rewrite (vadd_comm (vsum d gs')), vadd_assoc, keep_discard.
    rewrite <-!vadd_assoc. f_equal. apply vadd_comm.
  - intros l Hl. rewrite Hfr' by (rewrite Hnx; lia). by apply Hfr.
Qed.
End laws.

Lemma negate_at_involutive `{!ScalarLaws R} idx (l l' : list R) :
  negate_at idx l = Ok l' → length l' = length l ∧ negate_at idx l' = Ok l.
Proof.
  destruct idx as [idx|]; simpl.
  - case_decide as Hr; intros; simplify_eq. rewrite length_alter. split; [done|].
    rewrite decide_True by done. f_equal. apply list_eq. intros j.
    destruct (decide (j = Z.to_nat (if decide (idx < 0) then idx + Z.of_nat (length l) else idx)))
      as [->|Hj].
    + rewrite !list_lookup_alter_eq. destruct (l !! _); simpl; [|done]. by rewrite s_neg_neg.
    + by rewrite !list_lookup_alter_ne by congruence.
  - intros; simplify_eq. rewrite length_map. split; [done|]. f_equal. rewrite map_map.
    rewrite (map_ext _ id); [apply map_id|]. intros x. apply s_neg_neg.
Qed.

Lemma zip_with_sub_diag `{!ScalarLaws R} (l : list R) : zip_with s_sub l l = vzero (length l).
Proof. unfold vzero. induction l as [|x l IH]; simpl; [done|]. by rewrite s_sub_diag, IH. Qed.

(** The dummy compressor is the identity on what it carries: [decompress] of
    [compress] has the elements and shape of the gradient. [compress] flips the
    chosen coordinate in the caller's own tensor, and what it keeps under the
    name for the first time is zero. *)
Theorem dummy_roundtrip `{!ScalarLaws R} idx tl name w t flipped :
  o_heap w.1 !! tl = Some t → (tl < o_next w.1)%nat → tensor_wf t → t_contiguous t = true →
  negate_at idx (t_data t) = Ok flipped → w.2 !! name = None →
  ∃ out c w1 out' c' w2,
    dummy_compress idx tl name w = (Ok (out, c), w1) ∧
    dummy_decompress idx out c w1 = (Ok (out', c'), w2) ∧
    o_heap w2.1 !! out' = Some (Tensor (t_dtype t) (t_shape t) (t_data t) (t_cuda t) true) ∧
    o_heap w2.1 !! tl = Some (with_data flipped t) ∧
    w2.2 !! name = Some (vzero (length (t_data t))).
Proof.
  intros Ht Hlt Hwf Hc Hneg Hn. destruct (negate_at_involutive _ _ _ Hneg) as [Hlen Hneg'].
  destruct w as [o rs]. simpl in *.
  assert (zip_with s_sub flipped flipped = vzero (length (t_data t))) as Hz.
  { rewrite <-Hlen. apply zip_with_sub_diag. }
  do 6 eexists. split.
  { unfold dummy_compress, on_ops, zoom, residual, set_residual, read_t, write_t, gets, view_flat,
      mbind, M_bind, lift, get, modify, mret, M_ret. simpl. rewrite Ht. simpl. rewrite Hc, Hneg. simpl.
    rewrite Hn. unfold t_isub. rewrite decide_True by done. reflexivity. }
  split.
  { unfold dummy_decompress, on_ops, zoom, read_t, write_t, view_flat, mbind, M_bind, lift, get, modify,
      mret, M_ret. simpl. rewrite lookup_insert_eq. simpl. unfold dummy_sq_func, dummy_rotation,
      dummy_hadamard, dummy_diagonal. rewrite Hneg'. simpl. rewrite decide_True by done. reflexivity. }
  simpl. split_and!; [by rewrite lookup_insert_eq| |].
  - rewrite !lookup_insert_ne by lia. by rewrite lookup_insert_eq.
  - rewrite lookup_insert_eq. f_equal. exact Hz.
Qed.

(** 16-bit compression restores the element type and the shape, and the
    elements too when they are representable in 16 bits; a tensor that is not
    floating point is passed through as it is. *)
Theorem fp16_roundtrip tl name w t :
  o_heap w.1 !! tl = Some t → (tl < o_next w.1)%nat →
  Forall (λ x, cast float16 x = x ∧ cast (t_dtype t) x = x) (t_data t) →
  ∃ out w1 out' w2,
    fp16_compress tl name w = (Ok (out, CtxDtype (t_dtype t)), w1) ∧
    (is_floating_point (t_dtype t) = true →
       t_dtype <$> o_heap w1.1 !! out = Some float16) ∧
    (is_floating_point (t_dtype t) = false → out = tl ∧ w1 = w) ∧
    fp16_decompress out (CtxDtype (t_dtype t)) w1 = (Ok (out', CtxDtype (t_dtype t)), w2) ∧
    o_heap w2.1 !! out' = Some t.
Proof.
  intros Ht Hlt Hrep. destruct w as [o rs]. simpl in *.
  assert (map (cast float16) (t_data t) = t_data t) as E1.
  { rewrite <-(map_id (t_data t)) at 2. apply map_ext_in. intros x Hx%list_elem_of_In.
    rewrite Forall_forall in Hrep. by apply Hrep. }
  assert (map (cast (t_dtype t)) (t_data t) = t_data t) as E2.
  { rewrite <-(map_id (t_data t)) at 2. apply map_ext_in. intros x Hx%list_elem_of_In.
    rewrite Forall_forall in Hrep. by apply Hrep. }
  unfold fp16_compress, fp16_decompress, tensor_to, on_ops, zoom, read_t, mbind, M_bind, lift, get,
    mret, M_ret. simpl. rewrite Ht. simpl.
  destruct (is_floating_point (t_dtype t)) eqn:Hf; simpl.
  2: { by do 4 eexists; split_and!. }
  rewrite Ht. simpl. destruct (decide (t_dtype t = float16)) as [E|E]; simpl.
  - exists tl, (o, rs), tl, (o, rs). simpl. rewrite Ht. simpl. rewrite decide_True by done.
    split_and!; [done|by rewrite E|done..].
  - do 4 eexists; split_and!; [reflexivity|intros _; simpl; by rewrite lookup_insert_eq|done| |].
    + simpl. rewrite lookup_insert_eq. simpl. rewrite decide_False by congruence. reflexivity.
    + simpl. rewrite lookup_insert_eq. unfold with_dtype, with_data. simpl. rewrite E1, E2.
      by destruct t.
Qed.
End compression.

(** ** Concrete instance *)
Module CompressionDemo.
Import OpsDemo.

Definition desc (l : list Z) (i j : nat) : Prop := default 0 (l !! j) ≤ default 0 (l !! i).
#[export] Instance desc_dec l i j : Decision (desc l i j).
Proof. unfold desc. apply _. Defined.

#[export] Instance desc_trans l : Transitive (desc l).
Proof. intros i j k. unfold desc. lia. Qed.
#[export] Instance desc_total l : Total (desc l).
Proof. intros i j. unfold desc. lia. Qed.

#[export] Instance lib : TorchLib Z := {|
  argsort_desc l := merge_sort (desc l) (seq 0 (length l));
  cast d x := match d with float16 => Z.max (-2048) (Z.min 2048 x) | _ => x end
|}.

Lemma StronglySorted_lookup_lt {A} (P : A → A → Prop) l i j x y :
  StronglySorted P l → (i < j)%nat → l !! i = Some x → l !! j = Some y → P x y.
Proof.
  intros Hs. revert i j. induction Hs as [|a l _ IH Ha]; intros i j Hij Hi Hj; [done|].
  destruct j as [|j]; [lia|]. destruct i as [|i]; simpl in *; simplify_eq.
  - rewrite Forall_forall in Ha. apply Ha. by eapply list_elem_of_lookup_2.
  - eapply (IH i j); [lia|done|done].
Qed.

#[export] Instance laws : TorchLibLaws Z.
Proof.
  split; [intros l; apply merge_sort_Permutation|]. intros l i j a b x y Hij Ha Hb Hx Hy.
  assert (desc l a b) as Hd.
  { eapply StronglySorted_lookup_lt; [|exact Hij|exact Ha|exact Hb].
    apply (StronglySorted_merge_sort (desc l)). }
  unfold desc in Hd. rewrite Hx, Hy in Hd. apply Z.leb_le. exact Hd.
Qed.

Definition g0 : tensor Z := Tensor float32 [2; 2]%nat [3; -7; 1; 5] true true.
Definition g1 : tensor Z := Tensor float32 [4]%nat [1; 1; -9; 0] true true.
Definition w0 : world (R := Z) := (Ops {[0%nat := g0; 1%nat := g1]} 2 OpsDemo.lib ∅ ∅ 0 ∅, ∅).
Definition half : topk := TopK (λ d, d / 2)%nat true 4 true.
Definition most : topk := TopK (λ d, d - 1)%nat true 4 true.

Lemma topk_roundtrip_witness :
  (∃ out w, topk_compress half 0%nat (Some "g") w0 = (Ok (out, CtxDict [2; 2]%nat (Some (Some "g")) false), w)) ∧
  (topk_compress most 0%nat (Some "g") w0).1 = Raise RuntimeError.
Proof.
  split.
  - destruct (topk_roundtrip half 0%nat (Some "g") w0 g0 [3; -7; 1; 5]) as [H1 _];
      [reflexivity|simpl; lia|reflexivity..|]. destruct H1 as (out & c & w1 & out' & c' & w2 & E & _); [simpl; lia|done|].
    pose proof E as E'. vm_compute in E'. inversion E'; subst. eauto.
  - apply (topk_roundtrip most 0%nat (Some "g") w0 g0 [3; -7; 1; 5]); [reflexivity|simpl; lia|reflexivity..|simpl; lia|simpl; lia].
Defined.

Lemma topk_selects_largest_witness : s_leb (Z.abs 1) (Z.abs (-7)) = true.
Proof.
  destruct (topk_selects_largest 2 [3; -7; 1; 5]) as (_ & _ & Hlargest).
  apply (Hlargest 1%nat 2%nat (-7) 1);
    [by vm_compute; repeat constructor| |reflexivity|reflexivity].
  by apply (bool_decide_unpack (2%nat ∉ top_positions 2 [3; -7; 1; 5])); vm_compute.
Defined.

Lemma topk_too_many_witness : (topk_compress most 0%nat (Some "g") w0).1 = Raise RuntimeError.
Proof.
  apply (topk_too_many most 0%nat (Some "g") w0 g0 [3; -7; 1; 5]); simpl; try reflexivity; lia.
Defined.

Lemma topk_error_feedback_witness : ∃ outs w' vs,
  topk_rounds half (Some "g") [0%nat; 1%nat] w0 = (Ok outs, w') ∧
  vadd (vsum 4 vs) (default (vzero 4) (w'.2 !! Some "g")) = [4; -6; -8; 5].
Proof.
  destruct (topk_error_feedback half (Some "g") 4 [0%nat; 1%nat] [[3; -7; 1; 5]; [1; 1; -9; 0]] w0)
    as (outs & w' & vs & E & _ & _ & Hs & _);
    [reflexivity|simpl; lia|done| |reflexivity|exists outs, w', vs; split; [exact E|exact Hs]].
  repeat constructor; [exists g0|exists g1]; split_and!; try reflexivity; simpl; lia.
Defined.

Lemma dummy_roundtrip_witness : ∃ out c w, dummy_compress (Some (-1)) 0%nat (Some "g") w0 = (Ok (out, c), w).
Proof.
  destruct (dummy_roundtrip (Some (-1)) 0%nat (Some "g") w0 g0 [3; -7; 1; -5])
    as (out & c & w1 & out' & c' & w2 & E & _);
    [reflexivity|simpl; lia|reflexivity|reflexivity|reflexivity|reflexivity|by exists out, c, w1].
Defined.

Lemma fp16_roundtrip_witness : ∃ out w,
  fp16_compress 0%nat None w0 = (Ok (out, CtxDtype float32), w).
Proof.
  destruct (fp16_roundtrip 0%nat None w0 g0) as (out & w1 & out' & w2 & E & _);
    [reflexivity|simpl; lia|by repeat constructor|by exists out, w1].
Defined.
End CompressionDemo.
