(* ===== verification/DistOptim.v ===== *)
(** * The distributed optimizer, [byteps/torch/__init__.py]

    [_DistributedOptimizer]: its construction, the gradient hooks, the three
    forms of [synchronize] (INCA, top-k, and one operation per tensor), and
    [step] in synchronous and asynchronous mode.

    A parameter is an object identity; [p.grad] and [p.data] are references to
    tensors. Parameters and the tables keyed by them are compared by identity,
    as [__hash__] of a tensor does. The overhead counters (sums of measured
    times) are left out, but not the dictionary accesses that feed them. *)

From S2P Require Import Prelude PyStr Tensor TorchOps TorchCompression.

Notation param := nat.

(** An entry of [named_parameters]; the second component of a pair should be a
    tensor, but may be another object. *)
Inductive np_value := NPTensor (p : param) | NPObject (k : nat).
Inductive np_item := NPTuple (name : string) (v : np_value) | NPOther.

#[export] Instance np_value_eq_dec : EqDecision np_value.
Proof. solve_decision. Defined.

Definition is_tensor (v : np_value) : bool :=
  match v with NPTensor _ => true | NPObject _ => false end.

(** [find_duplicates]: the set is a list without repetitions here. *)
Fixpoint find_dups_go (seen dups : list string) (lst : list string) : list string :=
  match lst with
  | [] => dups
  | el :: lst' =>
      find_dups_go (if decide (el ∈ seen) then seen else el :: seen)
        (if decide (el ∈ seen) then if decide (el ∈ dups) then dups else el :: dups else dups) lst'
  end.
Definition find_duplicates (lst : list string) : list string := find_dups_go [] [] lst.

(** [sorted] on strings, and on pairs with different first components. *)
Definition sorted_str : list string → list string := merge_sort String.le.
Definition pair_le {A} (x y : string * A) : Prop := String.le x.1 y.1.
#[export] Instance pair_le_dec {A} : RelDecision (@pair_le A).
Proof. intros x y. unfold pair_le. apply _. Defined.
Definition sorted_pairs {A} : list (string * A) → list (string * A) := merge_sort pair_le.

(** The record [_compression_info]. *)
Record info (R : Type) : Type := Info { max_coor : R; min_coor : R; max_norm : R }.
Arguments Info {R} _ _ _.
Arguments max_coor {R} _.
Arguments min_coor {R} _.
Arguments max_norm {R} _.

(** What the optimizer uses and the repository does not contain: the INCA
    compressor on flat tensors (it may pad), the norm exchange of the C
    extension, and the order in which a set of parameters is enumerated. *)
Class Backend (R : Type) : Type := {
  inca_compress : list R → info R → list R;
  inca_decompress : list R → nat → list R;
  c_send_norm : string → R → R;
  set_order : gset param → list param
}.
Class BackendLaws (R : Type) `{Backend R} : Prop := {
  set_order_perm X : set_order X ≡ₚ elements X
}.

(** The compression object handed to the optimizer. *)
Inductive compression :=
  | NewINCA (d : nat) (use_bps_server : bool)
  | OldINCA (d : nat) (use_bps_server : bool)
  | CTopK (self : topk)
  | CDummy (modify_idx : option Z)
  | CFP16
  | CNone.

Definition is_inca (c : compression) : bool :=
  match c with NewINCA _ _ | OldINCA _ _ => true | _ => false end.

(** The attributes [__init__] fixes. *)
Record config : Type := Config {
  _compression : compression;
  _compressor_name : string;
  _use_bps_server : bool;
  _enable_async : bool;
  _is_tensor_instance : bool;
  _parameter_names : odict np_value string;
  _requires_update : gset param
}.

Section optim.
Context {R : Type} `{Scalar R, !Extension R, !TorchLib R, !Backend R}.
#[local] Notation residuals := (gmap (option string) (list R)).

(** The attributes that change, with the tensors. *)
Record optim : Type := Optim {
  d_world : world (R := R);
  d_grad : gmap param loc;
  d_data : gmap param loc;
  _handles : odict param (option Z * ctx);
  _push_pull_delay : odict np_value Z;
  backward_passes_per_step : Z;
  _last_insert_tensor : option string;
  _name_to_next : gmap string (option string);
  _compression_info : option (info R);
  _should_sync : bool;
  topk_tensor : option loc;
  inca_tensor : option loc;
  max_info_tensor : option loc
}.

Definition set_world w (s : optim) : optim :=
  Optim w (d_grad s) (d_data s) (_handles s) (_push_pull_delay s) (backward_passes_per_step s)
    (_last_insert_tensor s) (_name_to_next s) (_compression_info s) (_should_sync s)
    (topk_tensor s) (inca_tensor s) (max_info_tensor s).
Definition set_grads g (s : optim) : optim :=
  Optim (d_world s) g (d_data s) (_handles s) (_push_pull_delay s) (backward_passes_per_step s)
    (_last_insert_tensor s) (_name_to_next s) (_compression_info s) (_should_sync s)
    (topk_tensor s) (inca_tensor s) (max_info_tensor s).
Definition set_handles hs (s : optim) : optim :=
  Optim (d_world s) (d_grad s) (d_data s) hs (_push_pull_delay s) (backward_passes_per_step s)
    (_last_insert_tensor s) (_name_to_next s) (_compression_info s) (_should_sync s)
    (topk_tensor s) (inca_tensor s) (max_info_tensor s).
Definition set_delay d b (s : optim) : optim :=
  Optim (d_world s) (d_grad s) (d_data s) (_handles s) d b
    (_last_insert_tensor s) (_name_to_next s) (_compression_info s) (_should_sync s)
    (topk_tensor s) (inca_tensor s) (max_info_tensor s).
Definition set_next l n (s : optim) : optim :=
  Optim (d_world s) (d_grad s) (d_data s) (_handles s) (_push_pull_delay s)
    (backward_passes_per_step s) l n (_compression_info s) (_should_sync s)
    (topk_tensor s) (inca_tensor s) (max_info_tensor s).
Definition set_info i (s : optim) : optim :=
  Optim (d_world s) (d_grad s) (d_data s) (_handles s) (_push_pull_delay s)
    (backward_passes_per_step s) (_last_insert_tensor s) (_name_to_next s) (Some i)
    (_should_sync s) (topk_tensor s) (inca_tensor s) (max_info_tensor s).
Definition set_should_sync b (s : optim) : optim :=
  Optim (d_world s) (d_grad s) (d_data s) (_handles s) (_push_pull_delay s)
    (backward_passes_per_step s) (_last_insert_tensor s) (_name_to_next s) (_compression_info s) b
    (topk_tensor s) (inca_tensor s) (max_info_tensor s).
Definition set_inca_tensor t (s : optim) : optim :=
  Optim (d_world s) (d_grad s) (d_data s) (_handles s) (_push_pull_delay s)
    (backward_passes_per_step s) (_last_insert_tensor s) (_name_to_next s) (_compression_info s)
    (_should_sync s) (topk_tensor s) t (max_info_tensor s).

Definition set_topk_tensor t (s : optim) : optim :=
  Optim (d_world s) (d_grad s) (d_data s) (_handles s) (_push_pull_delay s)
    (backward_passes_per_step s) (_last_insert_tensor s) (_name_to_next s) (_compression_info s)
    (_should_sync s) t (inca_tensor s) (max_info_tensor s).

(** Lifting: tensor operations, and the compressor's operations. *)
Definition in_world {A} : M (world (R := R)) A → M optim A := zoom d_world set_world.
Definition in_ops {A} (m : M (ops R) A) : M optim A := in_world (on_ops m).

(** [p.grad], a reference. *)
Definition grad_of (p : param) : M optim loc :=
  s ← get; lift (or_raise AttributeError (d_grad s !! p)).
Definition data_of (p : param) : M optim loc :=
  s ← get; lift (or_raise AttributeError (d_data s !! p)).
(** [p.grad = t] *)
Definition set_grad (p : param) (l : loc) : M optim () :=
  modify (λ s, set_grads (<[p:=l]> (d_grad s)) s).

(** [a.set_(b)]: [a] becomes a tensor with the contents of [b]. *)
Definition tensor_set (a b : loc) : M optim () :=
  ta ← in_ops (read_t a);
  tb ← in_ops (read_t b);
  if decide (t_dtype ta = t_dtype tb) then in_ops (write_t a tb) else raise RuntimeError.

(** [self._parameter_names.get(p)] *)
Definition name_of (cf : config) (p : param) : option string :=
  od_get (NPTensor p) (_parameter_names cf).

(** ["Gradient." + name]: a [TypeError] for [None]. *)
Definition prefixed (prefix : string) (name : option string) : res string :=
  match name with Some n => Ok (prefix +:+ n) | None => Raise TypeError end.

(** Dispatch of [self._compression.compress] and [decompress]. An INCA object
    works on flat tensors and its context is a complete dictionary. *)
Definition compress (c : compression) (tl : loc) (name : option string) (i : option (info R)) :
    M world (loc * ctx) :=
  match c with
  | CNone => none_compress tl name
  | CTopK self => topk_compress self tl name
  | CDummy idx => dummy_compress idx tl name
  | CFP16 => fp16_compress tl name
  | NewINCA _ _ | OldINCA _ _ =>
      t ← on_ops (read_t tl);
      i ← lift (or_raise TypeError i);
      let out := inca_compress (t_data t) i in
      o ← on_ops (alloc_t (Tensor float32 [length out] out (t_cuda t) true));
      mret (o, CtxDict (t_shape t) None false)
  end.

Definition decompress (c : compression) (tl : loc) (cx : ctx) : M world (loc * ctx) :=
  match c with
  | CNone => none_decompress tl cx
  | CTopK self => topk_decompress self tl cx
  | CDummy idx => dummy_decompress idx tl cx
  | CFP16 => fp16_decompress tl cx
  | NewINCA _ _ | OldINCA _ _ =>
      match cx with
      | CtxDict size name _ =>
          t ← on_ops (read_t tl);
          let out := inca_decompress (t_data t) (numel size) in
          o ← on_ops (alloc_t (Tensor float32 [length out] out (t_cuda t) true));
          mret (o, CtxDict size name true)
      | _ => raise TypeError
      end
  end.

(** [if ctx: ... ctx['compress_overhead'] ... ctx['decompress_overhead']] *)
Definition read_overheads (cx : ctx) : res () :=
  match cx with
  | CtxNone => Ok ()
  | CtxDict _ _ decompressed => if decompressed then Ok () else Raise KeyError
  | CtxDtype _ => Raise TypeError
  end.

(** [max(l)] and [min(l)] *)
Definition max_list (l : list R) : option R :=
  match l with [] => None | x :: l' => Some (foldl (λ m y, if s_leb y m then m else y) x l') end.
Definition min_list (l : list R) : option R :=
  match l with [] => None | x :: l' => Some (foldl (λ m y, if s_leb m y then m else y) x l') end.

(** ** Construction *)

Definition select_compressor (c : compression) : string * bool :=
  match c with
  | NewINCA _ b => ("inca", b)
  | OldINCA _ b => ("oldinca", b)
  | CTopK self => ("topk", topk_use_bps_server self)
  | _ => ("none", true)
  end.

Definition enable_async (e : env) : res bool :=
  a ← getenv_int e "BYTEPS_ENABLE_ASYNC" 0;
  if decide (a ≠ 0) then
    n ← (match e !! "DMLC_NUM_WORKER" with Some v => py_int v | None => Raise TypeError end);
    py_assert (bool_decide (1 < n));; Ok true
  else Ok false.

Definition np_pair (x : np_item) : option (string * np_value) :=
  match x with NPTuple n v => Some (n, v) | NPOther => None end.

(** [{v: k for k, v in pairs}] *)
Definition names_dict (pairs : list (string * np_value)) : odict np_value string :=
  foldl (λ d '(k, v), od_set v k d) [] pairs.

(** [{v: 'push_pull.noname.%s' % i for group in groups for i, v in enumerate(group)}] *)
Definition noname_dict (groups : list (list param)) : odict np_value string :=
  foldl (λ d '(i, v), od_set (NPTensor v) ("push_pull.noname." +:+ py_str (Z.of_nat i)) d) []
    (groups ≫= λ g, imap (λ i v, (i, v)) g).

(** The checks on [named_parameters] and the table of names. *)
Definition check_named (named : option (list np_item)) (groups : list (list param)) :
    res (bool * odict np_value string * list (string * np_value)) :=
  let items := default [] named in
  if existsb (λ x, negb (bool_decide (is_Some (np_pair x)))) items then Raise ValueError else
  let pairs := omap np_pair items in
  match find_duplicates pairs.*1 with
  | _ :: _ => Raise ValueError
  | [] =>
      match pairs with
      | [] => Ok (false, noname_dict groups, [])
      | (_, v0) :: _ =>
          if is_tensor v0 then
            if existsb (λ '(_, v), negb (is_tensor v)) pairs then Raise ValueError
            else Ok (true, names_dict (sorted_pairs pairs), pairs)
          else Ok (false, names_dict (sorted_pairs pairs), pairs)
      end
  end.

(** [_register_hooks]: a zero gradient for every parameter that requires one. *)
Definition register_param (requires_grad : param → bool) (p : param) : M optim () :=
  if requires_grad p then
    d ← data_of p;
    t ← in_ops (read_t d);
    l ← in_ops (alloc_t (with_data (vzero (length (t_data t))) t));
    set_grad p l
  else mret ().
Definition _register_hooks (requires_grad : param → bool) (groups : list (list param)) : M optim () :=
  for_each (for_each (register_param requires_grad)) groups.

Definition declare_all (names : list string) : M optim () :=
  for_each (λ n, in_ops (declare ("Gradient." +:+ n));; mret ()) names;;
  for_each (λ n, in_ops (declare ("Parameter." +:+ n));; mret ()) names.

(** The buffers of the INCA and top-k compressors, on the GPU. *)
Definition alloc_buffers (c : compression) : M optim () :=
  match c with
  | NewINCA d _ | OldINCA d _ =>
      l ← in_ops (alloc_t (Tensor uint8 [d] (vzero d) true true));
      modify (set_inca_tensor (Some l))
  | CTopK self =>
      let n := (2 * k_of self (topk_d self))%nat in
      l ← in_ops (alloc_t (Tensor float32 [n] (vzero n) true true));
      modify (set_topk_tensor (Some l))
  | _ => mret ()
  end.

(** [__init__], from a state that holds the tensors and [p.data]. *)
Definition dist_init (e : env) (groups : list (list param)) (requires_grad : param → bool)
    (named : option (list np_item)) (c : compression) (bpps : Z) : M optim config :=
  let '(cname, bps) := select_compressor c in
  async ← lift (enable_async e);
  '(inst, names, pairs) ← lift (check_named named groups);
  modify (set_delay (foldl (λ d '(_, v), od_set v bpps d) [] (sorted_pairs pairs)) bpps);;
  modify (set_handles []);;
  modify (set_should_sync true);;
  _register_hooks requires_grad groups;;
  modify (set_next None ∅);;
  alloc_buffers c;;
  declare_all (sorted_str names.*2);;
  mret (Config c cname bps async inst names
          (list_to_set (filter (λ p, requires_grad p = true) (concat groups)))).

(** ** Hooks *)

Definition set_backward_passes_per_step (passes : Z) : M optim () :=
  modify (λ s, set_delay (map (λ '(k, _), (k, passes)) (_push_pull_delay s)) passes s).

(** The record of which tensor follows which. *)
Definition note_next (tensor_name : option string) : M optim () :=
  modify (λ s,
    set_next tensor_name
      (match _last_insert_tensor s with
       | Some last => if decide (last = "") then _name_to_next s
                      else <[last := tensor_name]> (_name_to_next s)
       | None => _name_to_next s
       end) s).

(** [hook]: [grad_requires_grad] is [p.grad.requires_grad]. *)
Definition hook (cf : config) (grad_requires_grad : bool) (p : param) : M optim () :=
  s ← get;
  (match od_get p (_handles s) with
   | Some (Some _, _) =>
       match od_get (NPTensor p) (_push_pull_delay s) with
       | None => raise KeyError
       | Some d => if decide (d ≤ 0) then raise AssertionError else mret ()
       end
   | _ => mret ()
   end);;
  grad_of p;;
  m_assert (negb grad_requires_grad);;
  (match od_get (NPTensor p) (_push_pull_delay s) with
   | None => raise KeyError
   | Some d =>
       m_assert (bool_decide (0 < d));;
       modify (λ s, set_delay (od_set (NPTensor p) (d - 1) (_push_pull_delay s))
                      (backward_passes_per_step s) s)
   end);;
  modify (λ s, set_handles (od_set p (None, CtxNone) (_handles s)) s);;
  note_next (name_of cf p).

(** ** Push-pull of gradients *)

Definition batch_push_pull_info (batch_grads : list R) : M optim R :=
  mx ← lift (or_raise RuntimeError (max_list batch_grads));
  mn ← lift (or_raise RuntimeError (min_list batch_grads));
  modify (set_info (Info mx mn (norm2 batch_grads)));;
  mret (norm2 batch_grads).

(** The elements of [p.grad] for all [p]. *)
Fixpoint grad_data (ps : list param) : M optim (list (list R)) :=
  match ps with
  | [] => mret []
  | p :: ps' =>
      l ← grad_of p;
      t ← in_ops (read_t l);
      rest ← grad_data ps';
      mret (t_data t :: rest)
  end.

(** [max([])] is a [ValueError]; [torch.max] of an empty tensor is an error of
    the library. *)
Definition _push_pull_info (param_handles : list param) : M optim R :=
  gs ← grad_data param_handles;
  mxs ← lift (mapM (λ g, or_raise RuntimeError (max_list g)) gs);
  mx ← lift (or_raise ValueError (max_list mxs));
  mns ← lift (mapM (λ g, or_raise RuntimeError (min_list g)) gs);
  mn ← lift (or_raise ValueError (min_list mns));
  nrm ← lift (or_raise ValueError (max_list (map norm2 gs)));
  modify (set_info (Info mx mn nrm));;
  mret nrm.

(** [byteps_push_pull] *)
Definition byteps_push_pull (tl : loc) (average : bool) (name compressor_name : string) : M optim Z :=
  in_ops (push_pull_async_inplace tl average (Some name) compressor_name).

(** [_push_pull_max_norm]: this class has no [max_info_tensor]. *)
Definition _push_pull_max_norm (num_workers worker_id : nat) (max_norm : R) : M optim Z :=
  s ← get;
  l ← lift (or_raise AttributeError (max_info_tensor s));
  t ← in_ops (read_t l);
  if decide (num_workers ≤ length (t_data t) ∧ worker_id < length (t_data t))%nat then
    in_ops (write_t l (with_data
      (<[worker_id := max_norm]> (vzero num_workers ++ drop num_workers (t_data t))) t));;
    byteps_push_pull l false "Max_info" ""
  else raise IndexError.

(** [tensor.to(torch.uint8)] *)
Definition to_dtype (d : dtype) (tl : loc) : M optim loc := in_world (tensor_to d tl).

(** Not called by [synchronize] any more. *)
Definition _afterbatch_together_push_pull_grad_async (cf : config) (tl : loc) : M optim Z :=
  l ← to_dtype uint8 tl;
  modify (set_inca_tensor (Some l));;
  byteps_push_pull l true "Gradient.INCA_batched" (_compressor_name cf).

Definition _afterbatch_push_pull_grad_async (cf : config) (p : param) : M optim (option Z) :=
  let name := name_of cf p in
  if _enable_async cf then mret None
  else
    g ← grad_of p;
    tensor ← to_dtype uint8 g;
    full ← lift (prefixed "Gradient." name);
    h ← byteps_push_pull tensor true full (_compressor_name cf);
    mret (Some h).

(** [self.topk_tensor[:] = tensor[:len(self.topk_tensor)]], then push-pull. *)
Definition _topk_push_pull_grad_async (cf : config) (tl : loc) : M optim Z :=
  s ← get;
  b ← lift (or_raise AttributeError (topk_tensor s));
  tb ← in_ops (read_t b);
  t ← in_ops (read_t tl);
  let n := length (t_data tb) in
  data ← lift (slice_set 0 n (take n (t_data t)) (t_data tb));
  in_ops (write_t b (with_data data tb));;
  byteps_push_pull b false "Topk_batched" (_compressor_name cf).

Definition _push_pull_grad_async (cf : config) (p : param) : M optim (option Z * ctx) :=
  let name := name_of cf p in
  if _enable_async cf then mret (None, CtxNone)
  else
    tensor ← grad_of p;
    s ← get;
    '(tensor_compressed, cx) ← in_world (compress (_compression cf) tensor name (_compression_info s));
    full ← lift (prefixed "Gradient." name);
    h ← byteps_push_pull tensor_compressed true full (_compressor_name cf);
    mret (Some h, cx).

(** ** [synchronize] *)

(** [synchronize(handle)] of [ops.py], and the elements of its result. *)
Definition ops_synchronize (h : option Z) : M optim (option loc) := in_ops (synchronize h).
Definition output_data (o : option loc) : M optim (list R) :=
  l ← lift (or_raise AttributeError o);
  t ← in_ops (read_t l);
  mret (t_data t).

Definition reset_delay (p : param) : M optim () :=
  modify (λ s, set_delay (od_set (NPTensor p) (backward_passes_per_step s) (_push_pull_delay s))
                 (backward_passes_per_step s) s).

(** The parameters whose gradient was not computed get an entry too. *)
Definition add_missing (cf : config) (p : param) : M optim () :=
  note_next (name_of cf p);;
  modify (λ s, set_handles (od_set p (None, CtxNone) (_handles s)) s).

(** [temp = batch[offset:offset+slice_size].resize_(p.grad.shape); p.grad =
    temp.clone()]: past the end of the batch the storage is enlarged, and what
    it holds there is not initialised. *)
Definition resized (n : nat) (l : list R) : list R := take n l ++ uninit (n - length l).
Definition assign_slice (batch : tensor R) (offset : nat) (p : param) : M optim nat :=
  g ← grad_of p;
  tg ← in_ops (read_t g);
  let slice_size := length (t_data tg) in
  let grad_slice := take slice_size (drop offset (t_data batch)) in
  l ← in_ops (alloc_t (Tensor (t_dtype batch) (t_shape tg) (resized slice_size grad_slice)
                         (t_cuda batch) true));
  set_grad p l;;
  mret (offset + slice_size)%nat.

(** The loop that gives every parameter its slice; [after] is the rest of the
    loop's body. It returns the final offset. *)
Fixpoint assign_slices (batch : tensor R) (after : param → M optim ()) (offset : nat)
    (ps : list param) : M optim nat :=
  match ps with
  | [] => mret offset
  | p :: ps' =>
      offset' ← assign_slice batch offset p;
      after p;;
      assign_slices batch after offset' ps'
  end.

(** [torch.cat([p.grad.view(-1) for p in ...])] *)
Definition cat_grads (ps : list param) : M optim (tensor R) :=
  match ps with
  | [] => raise RuntimeError
  | p0 :: _ =>
      gs ← grad_data ps;
      g ← grad_of p0;
      t ← in_ops (read_t g);
      let data := concat gs in
      mret (Tensor (t_dtype t) [length data] data (t_cuda t) true)
  end.

(** The norm exchange of the INCA branch. *)
Definition exchange_norm (cf : config) (num_workers worker_id : nat) (grads : list R) : M optim () :=
  nrm ← batch_push_pull_info grads;
  s ← get;
  i ← lift (or_raise KeyError (_compression_info s));
  if negb (_use_bps_server cf) then
    global_max_norm ← in_ops (send_norm c_send_norm (Some "Info.batched_max_norm") (max_norm i));
    if s_eqb global_max_norm s_zero then mret ()
    else modify (set_info (Info (max_coor i) (min_coor i) global_max_norm))
  else
    h ← _push_pull_max_norm num_workers worker_id (max_norm i);
    o ← ops_synchronize (Some h);
    d ← output_data o;
    m ← lift (or_raise RuntimeError (max_list d));
    modify (set_info (Info (max_coor i) (min_coor i) (if s_eqb m s_zero then max_norm i else m))).

(** The replies of all layers, in the order of [self._handles]. *)
Fixpoint collect_outputs (ps : list param) : M optim (list (list R)) :=
  match ps with
  | [] => mret []
  | p :: ps' =>
      s ← get;
      let h := default None (fst <$> od_get p (_handles s)) in
      o ← ops_synchronize h;
      reset_delay p;;
      d ← output_data o;
      rest ← collect_outputs ps';
      mret (d :: rest)
  end.

(** The entry [self._handles["max_info_handle"]] this branch makes at its end is
    cleared by the next statement. *)
Definition synchronize_inca (cf : config) (num_workers worker_id : nat) : M optim () :=
  s ← get;
  let ps := od_keys (_handles s) in
  grads ← cat_grads ps;
  exchange_norm cf num_workers worker_id (t_data grads);;
  gl ← in_ops (alloc_t grads);
  s ← get;
  '(bc, cx) ← in_world (compress (_compression cf) gl (Some "batch_grads") (_compression_info s));
  batch ← in_ops (read_t bc);
  offset ← assign_slices batch
    (λ p, h ← _afterbatch_push_pull_grad_async cf p;
          modify (λ s, set_handles (od_set p (h, cx) (_handles s)) s)) 0%nat ps;
  outs ← collect_outputs ps;
  let aggregated := concat outs ++ drop offset (t_data batch) in
  if _enable_async cf then mret ()
  else
    al ← in_ops (alloc_t (Tensor float32 [length aggregated] aggregated (t_cuda batch) true));
    '(bd, cx) ← in_world (decompress (_compression cf) al cx);
    lift (read_overheads cx);;
    dec ← in_ops (read_t bd);
    assign_slices dec (λ _, mret ()) 0%nat ps;;
    mret ().

(** The batch is compressed and exchanged; the reply and the context. *)
Definition topk_send (cf : config) (ps : list param) : M optim (loc * ctx) :=
  grads ← cat_grads ps;
  batch_push_pull_info (t_data grads);;
  gl ← in_ops (alloc_t grads);
  s ← get;
  '(bc, cx) ← in_world (compress (_compression cf) gl (Some "batch_grads") (_compression_info s));
  topk_handle ← _topk_push_pull_grad_async cf bc;
  o ← ops_synchronize (Some topk_handle);
  o ← lift (or_raise AttributeError o);
  mret (o, cx).

(** The reply is decompressed and handed out in slices. *)
Definition topk_receive (cf : config) (ps : list param) (o : loc) (cx : ctx) : M optim () :=
  '(bd, cx) ← in_world (decompress (_compression cf) o cx);
  lift (read_overheads cx);;
  dec ← in_ops (read_t bd);
  assign_slices dec reset_delay 0%nat ps;;
  mret ().

Definition synchronize_topk (cf : config) : M optim () :=
  s ← get;
  let ps := od_keys (_handles s) in
  '(o, cx) ← topk_send cf ps;
  if _enable_async cf then mret () else topk_receive cf ps o cx.

(** One tensor at a time: all operations are started, then all are waited for. *)
Definition start_one (cf : config) (p : param) : M optim () :=
  hc ← _push_pull_grad_async cf p;
  modify (λ s, set_handles (od_set p hc (_handles s)) s).

Definition finish_one (cf : config) (p : param) : M optim () :=
  s ← get;
  let '(h, cx) := default (None, CtxNone) (od_get p (_handles s)) in
  o ← ops_synchronize h;
  reset_delay p;;
  if _enable_async cf then mret ()
  else
    g ← grad_of p;
    o ← lift (or_raise TypeError o);
    '(d, cx') ← in_world (decompress (_compression cf) o cx);
    tensor_set g d;;
    lift (read_overheads cx').

Definition synchronize_each (cf : config) : M optim () :=
  s ← get;
  let ps := od_keys (_handles s) in
  _push_pull_info ps;;
  for_each (start_one cf) ps;;
  for_each (finish_one cf) ps.

Definition dist_synchronize (cf : config) (num_workers worker_id : nat) : M optim () :=
  s ← get;
  let missing_p := _requires_update cf ∖ list_to_set (od_keys (_handles s)) in
  for_each (add_missing cf) (set_order missing_p);;
  (if is_inca (_compression cf) then synchronize_inca cf num_workers worker_id
   else match _compression cf with
        | CTopK _ => synchronize_topk cf
        | _ => synchronize_each cf
        end);;
  modify (set_handles []).

(** ** [step] *)

(** [with optimizer.skip_synchronize(): body] *)
Definition skip_synchronize {A} (cf : config) (body : M optim A) : M optim A :=
  if _enable_async cf then raise AssertionError
  else λ s, let '(r, s') := body (set_should_sync false s) in (r, set_should_sync true s').

(** [_, ctx = self._compression.compress(p, name); ctx['name']] *)
Definition ctx_name (cx : ctx) : res (option string) :=
  match cx with
  | CtxNone => Raise TypeError
  | CtxDict _ (Some n) _ => Ok n
  | CtxDict _ None _ => Raise KeyError
  | CtxDtype _ => Raise TypeError
  end.

Fixpoint save_weights (ps : list param) : M optim (gmap param (list R)) :=
  match ps with
  | [] => mret ∅
  | p :: ps' =>
      d ← data_of p;
      t ← in_ops (read_t d);
      m ← save_weights ps';
      mret (<[p := t_data t]> m)
  end.

Definition async_push (cf : config) (old : gmap param (list R)) (p : param) : M optim () :=
  s ← get;
  let h := default None (fst <$> od_get p (_handles s)) in
  d ← data_of p;
  t ← in_ops (read_t d);
  w ← lift (or_raise TypeError (old !! p));
  diff ← lift (t_isub (t_data t) w);
  in_ops (write_t d (with_data diff t));;
  match h with
  | Some _ => mret ()
  | None =>
      let name := name_of cf p in
      full ← lift (prefixed "AsyncParam." name);
      handle ← byteps_push_pull d false full "";
      '(_, cx) ← in_world (compress (_compression cf) d name None);
      modify (λ s, set_handles (od_set p (Some handle, cx) (_handles s)) s);;
      tensor_name ← lift (ctx_name cx);
      lift (prefixed "insert handle for " tensor_name);;
      note_next tensor_name
  end.

(** [super_step] is the [step] of the wrapped optimizer. *)
Definition dist_step {L} (cf : config) (num_workers worker_id : nat) (super_step : M optim L) :
    M optim L :=
  if _enable_async cf then
    s ← get;
    old_weight_map ← save_weights (od_keys (_handles s));
    loss ← super_step;
    s ← get;
    for_each (async_push cf old_weight_map) (od_keys (_handles s));;
    dist_synchronize cf num_workers worker_id;;
    mret loss
  else
    s ← get;
    (if _should_sync s then dist_synchronize cf num_workers worker_id else mret ());;
    super_step.
End optim.
