(* ===== verification/DistOptimProofs.v ===== *)
(** * Properties of the distributed optimizer *)

From S2P Require Import Prelude PyStr Tensor TorchOps TorchCompression DistOptim.

Section proofs.
Context {R : Type} `{Scalar R, !Extension R, !TorchLib R, !Backend R}.
Implicit Types (s : optim (R := R)) (cf : config) (p : param).

Notation o_ s := (d_world s).1 (only parsing).
Notation heap_ s := (o_heap (d_world s).1) (only parsing).
Notation pending s := (TorchOps._handle_map (d_world s).1) (only parsing).
Notation tasks s := (c_results (o_clib (d_world s).1)) (only parsing).
Notation last_handle s := (c_last_handle (o_clib (d_world s).1)) (only parsing).

Lemma in_ops_eq {A} (m : M (ops R) A) s r o :
  m (o_ s) = (r, o) → in_ops m s = (r, set_world (o, (d_world s).2) s).
Proof. unfold in_ops, in_world, on_ops, zoom. intros E. by rewrite E. Qed.

Lemma set_world_id s : set_world ((d_world s).1, (d_world s).2) s = s.
Proof. by destruct s as [[]]. Qed.

Lemma in_ops_read s l t : heap_ s !! l = Some t → in_ops (read_t l) s = (Ok t, s).
Proof.
  intros E. erewrite in_ops_eq; [by rewrite set_world_id|].
  unfold read_t, mbind, M_bind, get, lift. by rewrite E.
Qed.

Lemma grad_of_ok s p g : d_grad s !! p = Some g → grad_of p s = (Ok g, s).
Proof. intros E. unfold grad_of, mbind, M_bind, get, lift. by rewrite E. Qed.

Lemma data_of_ok s p l : d_data s !! p = Some l → data_of p s = (Ok l, s).
Proof. intros E. unfold data_of, mbind, M_bind, get, lift. by rewrite E. Qed.

(** ** Duplicate names *)

Lemma find_dups_go_nil seen dups lst :
  find_dups_go seen dups lst = [] → dups = [] ∧ NoDup lst ∧ (∀ x, x ∈ lst → x ∉ seen).
Proof.
  revert seen dups. induction lst as [|el lst IH]; intros seen dups; simpl.
  { intros ->. split_and!; [done|constructor|set_solver]. }
  intros E. apply IH in E as (E & Hnd & Hs). case_decide as Hin.
  - case_decide; [set_solver|done].
  - split_and!; [done| |].
    + constructor; [|done]. intros Hel. apply (Hs el); [done|left].
    + intros x [->|Hx]%elem_of_cons; [done|]. intros Hx'. apply (Hs x Hx). by right.
Qed.

Lemma find_dups_go_NoDup seen dups lst :
  NoDup lst → (∀ x, x ∈ lst → x ∉ seen) → find_dups_go seen dups lst = dups.
Proof.
  revert seen dups. induction lst as [|el lst IH]; intros seen dups Hnd Hs; simpl; [done|].
  apply NoDup_cons in Hnd as [Hel Hnd]. rewrite !decide_False by (apply Hs; left).
  apply IH; [done|]. intros x Hx [->|Hx']%elem_of_cons; [done|]. apply (Hs x); [by right|done].
Qed.

Lemma find_duplicates_nil lst : find_duplicates lst = [] ↔ NoDup lst.
Proof.
  split; [by intros (_ & Hnd & _)%find_dups_go_nil|].
  intros Hnd. apply find_dups_go_NoDup; [done|set_solver].
Qed.

(** ** Declaration order *)

Lemma sorted_str_perm l1 l2 : l1 ≡ₚ l2 → sorted_str l1 = sorted_str l2.
Proof.
  intros E. unfold sorted_str. apply (StronglySorted_unique String.le).
  - apply (StronglySorted_merge_sort String.le).
  - apply (StronglySorted_merge_sort String.le).
  - by rewrite !merge_sort_Permutation.
Qed.

Lemma od_set_fresh_fold {K V A} `{EqDecision K} (f : A → K * V) (l : list A) (d : odict K V) :
  NoDup (od_keys d ++ (f <$> l).*1) → foldl (λ d x, od_set (f x).1 (f x).2 d) d l = d ++ (f <$> l).
Proof.
  revert d. induction l as [|x l IH]; intros d Hnd; simpl; [by rewrite app_nil_r|].
  assert (od_set (f x).1 (f x).2 d = d ++ [f x]) as E.
  { rewrite od_set_new; [by destruct (f x)|].
    apply NoDup_app in Hnd as (_ & Hdis & _). intros Hin. apply (Hdis _ Hin). left. }
  rewrite E, IH; [by rewrite <-app_assoc|].
  unfold od_keys in *. rewrite fmap_app, <-app_assoc. exact Hnd.
Qed.

Lemma names_dict_eq (pairs : list (string * np_value)) :
  NoDup pairs.*2 → names_dict pairs = (λ '(k, v), (v, k)) <$> pairs.
Proof.
  intros Hnd. set (f := λ x : string * np_value, (x.2, x.1)).
  transitivity (foldl (λ d x, od_set (f x).1 (f x).2 d) [] pairs).
  - unfold names_dict. clear. generalize (@nil (np_value * string)).
    induction pairs as [|[k v] pairs IH]; intros d; simpl; [done|apply IH].
  - rewrite (od_set_fresh_fold f pairs []).
    + simpl. apply list_fmap_ext. by intros _ [] _.
    + simpl. by rewrite <-list_fmap_compose.
Qed.

(** What [declare] does to the list of declared names. *)
Definition declared_add (d : list string) (n : string) : list string :=
  if decide (GetOpName n ∈ d) then d else d ++ [GetOpName n].

Lemma declare_each_ok pre names s :
  ∃ s', for_each (λ n, in_ops (declare (pre +:+ n));; mret ()) names s = (Ok (), s') ∧
    c_declared (o_clib (o_ s')) = foldl declared_add (c_declared (o_clib (o_ s))) (map (String.append pre) names) ∧
    o_heap (o_ s') = o_heap (o_ s) ∧ d_grad s' = d_grad s ∧ _handles s' = _handles s ∧
    _push_pull_delay s' = _push_pull_delay s.
Proof.
  revert s. induction names as [|n names IH]; intros s; simpl; [by exists s|].
  assert (∃ s1, (in_ops (declare (pre +:+ n));; mret ()) s = (Ok (), s1) ∧
    c_declared (o_clib (o_ s1)) = declared_add (c_declared (o_clib (o_ s))) (pre +:+ n) ∧
    o_heap (o_ s1) = o_heap (o_ s) ∧ d_grad s1 = d_grad s ∧ _handles s1 = _handles s ∧
    _push_pull_delay s1 = _push_pull_delay s) as (s1 & E & Hd & Hh & Hg & Hs & Hp).
  { unfold mbind, M_bind, mret, M_ret. erewrite in_ops_eq; [|reflexivity]. eexists. split; [done|].
    simpl. unfold declared_add. by destruct (decide _). }
  destruct (IH s1) as (s2 & E2 & Hd2 & Hh2 & Hg2 & Hs2 & Hp2). exists s2.
  unfold mbind at 1, M_bind at 1. rewrite E. split; [done|]. by rewrite Hd2, Hh2, Hg2, Hs2, Hp2, Hd.
Qed.

(** The parameters' own tensors are allocated, and fresh locations are free. *)
Record params_ok s (ps : list param) : Prop := {
  po_data p : p ∈ ps → ∃ l t, d_data s !! p = Some l ∧ heap_ s !! l = Some t;
  po_fresh l : is_Some (heap_ s !! l) → (l < o_next (o_ s))%nat
}.

(** [p] has a gradient of zeros with the type and shape of its data in [s0]. *)
Definition zero_grad s0 s p : Prop :=
  ∃ l t g, d_data s0 !! p = Some l ∧ heap_ s0 !! l = Some t ∧ d_grad s !! p = Some g ∧
    heap_ s !! g = Some (with_data (vzero (length (t_data t))) t).

Record registered rg s0 (ps : list param) s : Prop := {
  rg_clib : o_clib (o_ s) = o_clib (o_ s0);
  rg_data : d_data s = d_data s0;
  rg_delay : _push_pull_delay s = _push_pull_delay s0;
  rg_handles : _handles s = _handles s0;
  rg_fresh l : is_Some (heap_ s !! l) → (l < o_next (o_ s))%nat;
  rg_old l t : heap_ s0 !! l = Some t → heap_ s !! l = Some t;
  rg_zero p : p ∈ ps → rg p = true → zero_grad s0 s p
}.

Lemma register_hooks_ok rg groups s0 :
  params_ok s0 (concat groups) →
  ∃ s, _register_hooks rg groups s0 = (Ok (), s) ∧ registered rg s0 (concat groups) s.
Proof.
  intros [Hd Hf]. unfold _register_hooks. rewrite for_each_concat.
  apply (for_each_inv _ (λ done, registered rg s0 done)); [by split; set_solver|].
  intros dn p rest s Hl Hs. unfold register_param. destruct (rg p) eqn:Hrg.
  2: { exists s. split; [done|]. destruct Hs as [H1 H2 H3 H4 H5 H6 H7]. split; try done.
       intros q Hq Hrq. apply H7; [|done].
       apply elem_of_app in Hq as [Hq|Hq%list_elem_of_singleton]; [done|congruence]. }
  destruct Hs as [H1 H2 H3 H4 H5 H6 H7].
  destruct (Hd p) as (l & t & Hp & Ht); [rewrite Hl; set_solver|].
  erewrite bind_Ok by (apply data_of_ok; by rewrite H2).
  erewrite bind_Ok by (apply in_ops_read; by apply H6).
  erewrite bind_Ok by (apply in_ops_eq; reflexivity).
  eexists. split; [reflexivity|].
  assert (∀ l t, heap_ s !! l = Some t → l ≠ o_next (o_ s)) as Hne.
  { intros l' t' E ->. assert (o_next (o_ s) < o_next (o_ s))%nat; [|lia]. apply H5. by rewrite E. }
  split; simpl; try done.
  - intros l'. rewrite lookup_insert_is_Some'. intros [->|Hl'%H5]; lia.
  - intros l' t' E. rewrite lookup_insert_ne; [by apply H6|]. apply not_eq_sym. eapply Hne. by apply H6.
  - intros q Hq Hrq. unfold zero_grad. simpl. destruct (decide (q = p)) as [->|Hqp].
    + exists l, t, (o_next (o_ s)). by rewrite !lookup_insert_eq.
    + apply elem_of_app in Hq as [Hq|Hq%list_elem_of_singleton]; [|done].
      destruct (H7 q Hq Hrq) as (l' & t' & g & Hl' & Ht' & Hg & Hz). exists l', t', g.
      rewrite !lookup_insert_ne; [done|apply not_eq_sym; by eapply Hne|done].
Qed.
Lemma alloc_buffers_ok c s :
  (∀ l, is_Some (heap_ s !! l) → (l < o_next (o_ s))%nat) →
  ∃ s', alloc_buffers c s = (Ok (), s') ∧ heap_ s ⊆ heap_ s' ∧ o_clib (o_ s') = o_clib (o_ s) ∧
    d_grad s' = d_grad s ∧ _handles s' = _handles s ∧ _push_pull_delay s' = _push_pull_delay s.
Proof.
  intros Hf. assert (heap_ s !! o_next (o_ s) = None) as Hn.
  { apply eq_None_not_Some. intros Hs%Hf. lia. }
  destruct c; simpl; try (by exists s).
  all: erewrite bind_Ok by (apply in_ops_eq; reflexivity); eexists; (split; [reflexivity|]);
    simpl; split_and!; try done; by apply insert_subseteq.
Qed.

(** A list of named tensors as [model.named_parameters()] gives it. *)
Definition named_tensors (nps : list (string * param)) : list np_item :=
  (λ '(n, p), NPTuple n (NPTensor p)) <$> nps.
Definition tensor_pairs (nps : list (string * param)) : list (string * np_value) :=
  (λ '(n, p), (n, NPTensor p)) <$> nps.

Lemma tensor_pairs_fst nps : (tensor_pairs nps).*1 = nps.*1.
Proof. unfold tensor_pairs. rewrite <-list_fmap_compose. apply list_fmap_ext. by intros _ [] _. Qed.

Lemma tensor_pairs_snd nps : (tensor_pairs nps).*2 = NPTensor <$> nps.*2.
Proof.
  unfold tensor_pairs. rewrite <-!list_fmap_compose. apply list_fmap_ext. by intros _ [] _.
Qed.

Lemma check_named_ok nps groups :
  nps ≠ [] → NoDup nps.*1 →
  check_named (Some (named_tensors nps)) groups
  = Ok (true, names_dict (sorted_pairs (tensor_pairs nps)), tensor_pairs nps).
Proof.
  intros Hne Hnd. unfold check_named. simpl.
  assert (existsb (λ x, negb (bool_decide (is_Some (np_pair x)))) (named_tensors nps) = false) as ->.
  { unfold named_tensors. clear. induction nps as [|[n p] nps IH]; simpl; done. }
  assert (omap np_pair (named_tensors nps) = tensor_pairs nps) as ->.
  { unfold named_tensors, tensor_pairs. clear. induction nps as [|[n p] nps IH]; simpl; [done|].
    by f_equal. }
  rewrite tensor_pairs_fst. rewrite (proj2 (find_duplicates_nil _) Hnd).
  assert (existsb (λ '(_, v), negb (is_tensor v)) (tensor_pairs nps) = false) as E.
  { unfold tensor_pairs. clear. induction nps as [|[n p] nps IH]; simpl; done. }
  rewrite E. by destruct nps as [|[]].
Qed.

Lemma sorted_pairs_perm {A} (l : list (string * A)) : sorted_pairs l ≡ₚ l.
Proof. apply merge_sort_Permutation. Qed.

Lemma tensor_pairs_NoDup nps :
  NoDup nps.*2 → NoDup (sorted_pairs (tensor_pairs nps)).*2.
Proof.
  intros Hnd. rewrite (sorted_pairs_perm (tensor_pairs nps)), tensor_pairs_snd.
  apply NoDup_fmap_2; [|done]. by intros x y [=].
Qed.

Lemma declare_all_ok names s :
  ∃ s', declare_all names s = (Ok (), s') ∧
    c_declared (o_clib (o_ s')) = foldl declared_add (c_declared (o_clib (o_ s)))
      (map (String.append "Gradient.") names ++ map (String.append "Parameter.") names) ∧
    o_heap (o_ s') = o_heap (o_ s) ∧ d_grad s' = d_grad s ∧ _handles s' = _handles s ∧
    _push_pull_delay s' = _push_pull_delay s.
Proof.
  destruct (declare_each_ok "Gradient." names s) as (s1 & E1 & Hd1 & Hh1 & Hg1 & Hs1 & Hp1).
  destruct (declare_each_ok "Parameter." names s1) as (s2 & E2 & Hd2 & Hh2 & Hg2 & Hs2 & Hp2).
  exists s2. unfold declare_all. erewrite bind_Ok by exact E1. split; [done|].
  by rewrite foldl_app, Hd2, Hh2, Hg2, Hs2, Hp2, Hd1.
Qed.

Lemma keys_swap (l : list (string * np_value)) : ((λ '(k, v), (v, k)) <$> l).*1 = l.*2.
Proof. rewrite <-list_fmap_compose. apply list_fmap_ext. by intros _ [] _. Qed.
Lemma vals_swap (l : list (string * np_value)) : ((λ '(k, v), (v, k)) <$> l).*2 = l.*1.
Proof. rewrite <-list_fmap_compose. apply list_fmap_ext. by intros _ [] _. Qed.
Lemma keys_const {B} (b : B) (l : list (string * np_value)) : ((λ '(_, v), (v, b)) <$> l).*1 = l.*2.
Proof. rewrite <-list_fmap_compose. apply list_fmap_ext. by intros _ [] _. Qed.

Lemma delay_dict_eq (b : Z) (l : list (string * np_value)) :
  NoDup l.*2 → foldl (λ d '(_, v), od_set v b d) [] l = (λ '(_, v), (v, b)) <$> l.
Proof.
  intros Hnd. set (f := λ x : string * np_value, (x.2, b)).
  transitivity (foldl (λ d x, od_set (f x).1 (f x).2 d) [] l).
  - clear. generalize (@nil (np_value * Z)).
    induction l as [|[k v] l IH]; intros d; simpl; [done|apply IH].
  - rewrite (od_set_fresh_fold f l []).
    + simpl. apply list_fmap_ext. by intros _ [] _.
    + simpl. by rewrite <-list_fmap_compose.
Qed.

(** The part of [__init__] after the checks. *)
Lemma dist_init_core e groups rg named c bpps s inst names pairs :
  e !! "BYTEPS_ENABLE_ASYNC" = None → check_named named groups = Ok (inst, names, pairs) →
  params_ok s (concat groups) →
  ∃ s', dist_init e groups rg named c bpps s =
      (Ok (Config c (select_compressor c).1 (select_compressor c).2 false inst names
             (list_to_set (filter (λ p, rg p = true) (concat groups)))), s') ∧
    _push_pull_delay s' = foldl (λ d '(_, v), od_set v bpps d) [] (sorted_pairs pairs) ∧
    (∀ p, p ∈ concat groups → rg p = true → zero_grad s s' p) ∧
    _handles s' = [] ∧
    c_declared (o_clib (o_ s')) = foldl declared_add (c_declared (o_clib (o_ s)))
        (map (String.append "Gradient.") (sorted_str names.*2) ++
         map (String.append "Parameter.") (sorted_str names.*2)).
Proof.
  intros He Hck Hok. unfold dist_init. destruct (select_compressor c) as [cname bps].
  erewrite bind_Ok by (unfold lift, enable_async, getenv_int; rewrite He; reflexivity).
  erewrite bind_Ok by (unfold lift; rewrite Hck; reflexivity).
  cbv beta iota.   do 3 (erewrite bind_Ok by reflexivity).
  match goal with |- context [(_register_hooks _ _ ;; _) ?s1] =>
    destruct (register_hooks_ok rg groups s1) as (s2 & E2 & Hreg) end.
  { destruct Hok as [Hd Hf]. by split. }
  erewrite bind_Ok by exact E2. erewrite bind_Ok by reflexivity.
  match goal with |- context [(alloc_buffers _ ;; _) ?s3] =>
    destruct (alloc_buffers_ok c s3) as (s4 & E4 & Hsub & Hc4 & Hg4 & Hh4 & Hd4) end.
  { apply Hreg. }
  erewrite bind_Ok by exact E4. simpl in Hsub, Hc4, Hg4, Hh4, Hd4.
  destruct (declare_all_ok (sorted_str names.*2) s4) as (s5 & E5 & Hd5 & Hh5 & Hg5 & Hs5 & Hp5).
  erewrite bind_Ok by exact E5. eexists. split; [reflexivity|].
  destruct Hreg as [R1 R2 R3 R4 _ R6 R7]. simpl in *. split_and!.
  - by rewrite Hp5, Hd4, R3.
  - intros p Hp Hrg. destruct (R7 p Hp Hrg) as (l & t & g & Hl & Ht & Hg & Hz). exists l, t, g.
    rewrite Hg5, Hg4, Hh5. split_and!; [done..|]. by eapply lookup_weaken.
  - by rewrite Hs5, Hh4, R4.
  - by rewrite Hd5, Hc4, R1.
Qed.

(** Construction with named tensors (no name and no tensor twice) succeeds in
    synchronous mode. Each parameter is found under its name, its pass counter
    is [backward_passes_per_step], every parameter that requires a gradient has
    one of zeros with the parameter's type and shape, and the operations are
    declared in an order that depends only on the set of names: two workers
    that list the same names in different orders assign the same keys. *)
Theorem dist_init_spec e groups rg nps c bpps s :
  e !! "BYTEPS_ENABLE_ASYNC" = None → nps ≠ [] → NoDup nps.*1 → NoDup nps.*2 →
  params_ok s (concat groups) →
  ∃ cf s', dist_init e groups rg (Some (named_tensors nps)) c bpps s = (Ok cf, s') ∧
    (∀ n p, (n, p) ∈ nps → name_of cf p = Some n ∧
                           od_get (NPTensor p) (_push_pull_delay s') = Some bpps) ∧
    (∀ p, p ∈ concat groups → rg p = true → p ∈ _requires_update cf ∧ zero_grad s s' p) ∧
    _handles s' = [] ∧ _enable_async cf = false ∧
    (∀ names, names ≡ₚ nps.*1 →
      c_declared (o_clib (o_ s')) = foldl declared_add (c_declared (o_clib (o_ s)))
        (map (String.append "Gradient.") (sorted_str names) ++
         map (String.append "Parameter.") (sorted_str names))).
Proof.
  intros He Hne Hn1 Hn2 Hok. pose proof (tensor_pairs_NoDup nps Hn2) as Hnd.
  destruct (dist_init_core e groups rg _ c bpps s _ _ _ He (check_named_ok nps groups Hne Hn1) Hok)
    as (s' & E & Hdl & Hz & Hh & Hdecl).
  set (sp := sorted_pairs (tensor_pairs nps)) in *. rewrite names_dict_eq in * by done.
  do 2 eexists. split; [exact E|]. simpl. split_and!.
  - intros n p Hin. assert ((n, NPTensor p) ∈ sp) as Hsp.
    { unfold sp. rewrite (sorted_pairs_perm (tensor_pairs nps)). apply list_elem_of_fmap.
      by exists (n, p). }
    unfold name_of. simpl. split.
    + apply od_get_elem_NoDup; [unfold od_keys; by rewrite keys_swap|].
      apply list_elem_of_fmap. by exists (n, NPTensor p).
    + rewrite Hdl, delay_dict_eq by done.
      apply od_get_elem_NoDup; [unfold od_keys; by rewrite keys_const|].
      apply list_elem_of_fmap. by exists (n, NPTensor p).
  - intros p Hp Hrg. split; [|by apply Hz]. apply elem_of_list_to_set, list_elem_of_filter. done.
  - done.
  - done.
  - intros names Hnames. rewrite Hdecl.
    assert (((λ '(k, v), (v, k)) <$> sp).*2 ≡ₚ names) as Hperm.
    { rewrite vals_swap, Hnames. unfold sp.
      by rewrite (sorted_pairs_perm (tensor_pairs nps)), tensor_pairs_fst. }
    by rewrite (sorted_str_perm _ _ Hperm).
Qed.

(** A list of pairs in which a name occurs twice is refused with a
    [ValueError], before any hook is registered or anything is declared. *)
Theorem dist_init_duplicates e groups rg (pairs : list (string * np_value)) c bpps s :
  e !! "BYTEPS_ENABLE_ASYNC" = None → ¬ NoDup pairs.*1 →
  dist_init e groups rg (Some ((λ '(n, v), NPTuple n v) <$> pairs)) c bpps s = (Raise ValueError, s).
Proof.
  intros He Hd. unfold dist_init. destruct (select_compressor c) as [cname bps].
  erewrite bind_Ok by (unfold lift, enable_async, getenv_int; rewrite He; reflexivity).
  apply bind_Raise. unfold lift, check_named. simpl. f_equal.
  assert (existsb (λ x, negb (bool_decide (is_Some (np_pair x))))
            ((λ '(n, v), NPTuple n v) <$> pairs) = false) as ->.
  { clear. induction pairs as [|[n p] pairs IH]; simpl; done. }
  assert (omap np_pair ((λ '(n, v), NPTuple n v) <$> pairs) = pairs) as ->.
  { clear. induction pairs as [|[n p] nps IH]; simpl; [done|]. by f_equal. }
  destruct (find_duplicates pairs.*1) eqn:E; [|done]. by apply find_duplicates_nil in E.
Qed.

(** ** Hooks *)

(** The state between two calls of [step]: no operation of a hook is pending. *)
Definition idle s p : Prop := ∀ h c, od_get p (_handles s) = Some (h, c) → h = None.

Lemma hook_ok cf p s g d :
  idle s p → d_grad s !! p = Some g → od_get (NPTensor p) (_push_pull_delay s) = Some d → 0 < d →
  ∃ s', hook cf false p s = (Ok (), s') ∧ d_world s' = d_world s ∧ d_grad s' = d_grad s ∧
    od_get p (_handles s') = Some (None, CtxNone) ∧
    od_get (NPTensor p) (_push_pull_delay s') = Some (d - 1) ∧
    (∀ q, q ≠ p → od_get q (_handles s') = od_get q (_handles s) ∧
       od_get (NPTensor q) (_push_pull_delay s') = od_get (NPTensor q) (_push_pull_delay s)).
Proof.
  intros Hi Hg Hd Hpos. unfold hook. erewrite bind_Ok by reflexivity.
  erewrite bind_Ok by (destruct (od_get p (_handles s)) as [[h c]|] eqn:E;
    [rewrite (Hi h c E); reflexivity|reflexivity]).
  erewrite bind_Ok by (by apply grad_of_ok). erewrite bind_Ok by reflexivity.
  rewrite Hd. erewrite bind_Ok.
  2: { erewrite bind_Ok; [reflexivity|]. unfold m_assert, lift. by rewrite bool_decide_true. }
  erewrite bind_Ok by reflexivity. eexists. split; [reflexivity|]. simpl.
  split_and!; [done|done|apply od_get_set_eq|apply od_get_set_eq|].
  intros q Hq. by rewrite !od_get_set_ne by congruence.
Qed.

Lemma hook_exhausted cf p s g d :
  idle s p → d_grad s !! p = Some g → od_get (NPTensor p) (_push_pull_delay s) = Some d → d ≤ 0 →
  hook cf false p s = (Raise AssertionError, s).
Proof.
  intros Hi Hg Hd Hpos. unfold hook. erewrite bind_Ok by reflexivity.
  erewrite bind_Ok by (destruct (od_get p (_handles s)) as [[h c]|] eqn:E;
    [rewrite (Hi h c E); reflexivity|reflexivity]).
  erewrite bind_Ok by (by apply grad_of_ok). erewrite bind_Ok by reflexivity.
  rewrite Hd. apply bind_Raise, bind_Raise. unfold m_assert, lift. by rewrite bool_decide_false by lia.
Qed.

(** [n] backward passes. *)
Definition hooks cf p (n : nat) : M (optim (R := R)) () := for_each (hook cf false) (replicate n p).

(** A parameter's gradient may be computed exactly as many times as its
    counter says before the next [step]: that many passes succeed and count down
    to zero, leaving the tensors and every other parameter's counter as they
    are, and one more raises an [AssertionError]. *)
Theorem hook_passes cf p s g (d : nat) :
  idle s p → d_grad s !! p = Some g → od_get (NPTensor p) (_push_pull_delay s) = Some (Z.of_nat d) →
  ∀ n, (n ≤ d)%nat → ∃ s', hooks cf p n s = (Ok (), s') ∧ d_world s' = d_world s ∧
    od_get (NPTensor p) (_push_pull_delay s') = Some (Z.of_nat (d - n)) ∧
    (∀ q, q ≠ p → od_get (NPTensor q) (_push_pull_delay s') = od_get (NPTensor q) (_push_pull_delay s)) ∧
    (n = d → hook cf false p s' = (Raise AssertionError, s')).
Proof.
  intros Hi Hg Hd n. revert s d Hi Hg Hd.
  induction n as [|n IH]; intros s d Hi Hg Hd Hn; unfold hooks; simpl.
  { exists s. split_and!; [done|done|by rewrite Nat.sub_0_r|done|]. intros <-.
    by eapply hook_exhausted. }
  destruct (hook_ok cf p s g (Z.of_nat d)) as (s1 & E & Hw & Hgr & Hh & Hdl & Hoth);
    [done|done|done|lia|].
  destruct (IH s1 (d - 1)%nat) as (s2 & E2 & Hw2 & Hd2 & Hoth2 & Hex).
  { intros h c E'. rewrite Hh in E'. by simplify_eq. }
  { by rewrite Hgr. }
  { rewrite Hdl. f_equal. lia. }
  { lia. }
  exists s2. erewrite bind_Ok by exact E. split_and!; [exact E2|by rewrite Hw2| | |].
  - rewrite Hd2. do 2 f_equal. lia.
  - intros q Hq. rewrite Hoth2 by done. by apply Hoth.
  - intros Hnd. apply Hex. lia.
Qed.

(** Without [named_parameters] (its default) construction succeeds but the
    table of counters is empty: the first gradient computed for any parameter
    that requires one fails with a [KeyError]. *)
Theorem hook_without_names e groups rg c bpps s :
  e !! "BYTEPS_ENABLE_ASYNC" = None → params_ok s (concat groups) →
  ∃ cf s', dist_init e groups rg None c bpps s = (Ok cf, s') ∧
    ∀ p, p ∈ concat groups → rg p = true → hook cf false p s' = (Raise KeyError, s').
Proof.
  intros He Hok.
  destruct (dist_init_core e groups rg None c bpps s _ _ _ He eq_refl Hok)
    as (s' & E & Hdl & Hz & Hh & _).
  do 2 eexists. split; [exact E|]. intros p Hp Hrg.
  destruct (Hz p Hp Hrg) as (_ & _ & g & _ & _ & Hg & _).
  unfold hook. erewrite bind_Ok by reflexivity. rewrite Hh. erewrite bind_Ok by reflexivity.
  erewrite bind_Ok by (by apply grad_of_ok). erewrite bind_Ok by reflexivity.
  rewrite Hdl. by apply bind_Raise.
Qed.
End proofs.
