(* ===== verification/DistSync.v ===== *)
(** * [synchronize] of the distributed optimizer without compression

    One operation per tensor: all are started, then all are waited for. *)

From S2P Require Import Prelude PyStr Tensor TorchOps TorchCompression DistOptim DistOptimProofs.

Section sync.
Context {R : Type} `{Scalar R, !Extension R, !TorchLib R, !Backend R}.
Implicit Types (s : optim (R := R)) (p : param).

Notation o_ s := (d_world s).1 (only parsing).
Notation heap_ s := (o_heap (d_world s).1) (only parsing).
Notation pending s := (TorchOps._handle_map (d_world s).1) (only parsing).
Notation tasks s := (c_results (o_clib (d_world s).1)) (only parsing).
Notation last_handle s := (c_last_handle (o_clib (d_world s).1)) (only parsing).

(** The parameters of one call: [G p] is the location of the gradient of [p],
    [T p] the tensor there, [N p] its name. *)
Context (cf : config) (G : param → loc) (T : param → tensor R) (N : param → string).
Context (Hnone : _compression cf = CNone) (Hsync : _enable_async cf = false).

Record each_ready s (ps : list param) : Prop := {
  er_inv : ops_inv (o_ s);
  er_init : c_initialized (o_clib (o_ s)) = true;
  er_nodup : NoDup ps;
  er_ne : ps ≠ [];
  er_grad p : p ∈ ps → d_grad s !! p = Some (G p);
  er_heap p : p ∈ ps → heap_ s !! G p = Some (T p);
  er_sup p : p ∈ ps → supported (T p);
  er_data p : p ∈ ps → t_data (T p) ≠ [];
  er_name p : p ∈ ps → name_of cf p = Some (N p);
  er_inj p q : p ∈ ps → q ∈ ps → G p = G q → p = q
}.

Definition grad_name p : string := "Gradient." +:+ N p.
Definition grad_task (norm : R) p : task R :=
  Task (t_data (T p)) (G p) true (GetOpName (grad_name p)) norm (_compressor_name cf).

(** What the exchange does not touch. *)
Definition rest_of s : gmap param loc * bool := (d_data s, _should_sync s).

(** ** [_push_pull_info] *)

Lemma grad_data_ok ps s :
  (∀ p, p ∈ ps → d_grad s !! p = Some (G p) ∧ heap_ s !! G p = Some (T p)) →
  grad_data ps s = (Ok (map (t_data ∘ T) ps), s).
Proof.
  induction ps as [|p ps IH]; intros Hp; simpl; [done|].
  destruct (Hp p) as [Hg Ht]; [left|].
  erewrite bind_Ok by (by apply grad_of_ok). erewrite bind_Ok by (by apply in_ops_read).
  erewrite bind_Ok; [reflexivity|]. apply IH. intros q Hq. apply Hp. by right.
Qed.

Lemma mapM_or_raise {A B} (e : exn) (f : A → option B) (l : list A) :
  Forall (λ x, is_Some (f x)) l → ∃ l', mapM (M := res) (λ x, or_raise e (f x)) l = Ok l' ∧ length l' = length l.
Proof.
  induction 1 as [|x l [y Hy] _ (l' & E & Hl)]; [by exists []|].
  exists (y :: l'). simpl. rewrite Hy. simpl. rewrite E. simpl. by rewrite Hl.
Qed.

Lemma max_list_is_Some (l : list R) : l ≠ [] → is_Some (max_list l).
Proof. destruct l; [done|]. by eexists. Qed.
Lemma min_list_is_Some (l : list R) : l ≠ [] → is_Some (min_list l).
Proof. destruct l; [done|]. by eexists. Qed.

Lemma push_pull_info_ok ps s :
  each_ready s ps → ∃ x i, _push_pull_info ps s = (Ok x, set_info i s).
Proof.
  intros Hr. unfold _push_pull_info. erewrite bind_Ok.
  2: { apply grad_data_ok. intros p Hp. split; [by apply Hr|by apply Hr]. }
  set (gs := map (t_data ∘ T) ps).
  assert (Forall (λ g, g ≠ []) gs) as Hgs.
  { apply Forall_map, Forall_forall. intros p Hp. by apply (er_data _ _ Hr). }
  assert (gs ≠ []) as Hne.
  { intros E. apply (er_ne _ _ Hr). by apply map_eq_nil in E. }
  destruct (mapM_or_raise RuntimeError max_list gs) as (mxs & E1 & L1).
  { eapply Forall_impl; [exact Hgs|]. apply max_list_is_Some. }
  destruct (mapM_or_raise RuntimeError min_list gs) as (mns & E2 & L2).
  { eapply Forall_impl; [exact Hgs|]. apply min_list_is_Some. }
  assert (length gs ≠ 0%nat) as Hlen by (by destruct gs).
  destruct (max_list_is_Some mxs) as [mx Emx]; [by intros ->|].
  destruct (min_list_is_Some mns) as [mn Emn]; [by intros ->|].
  destruct (max_list_is_Some (map norm2 gs)) as [nr Enr]; [by destruct gs|].
  unfold lift. erewrite bind_Ok by (rewrite E1; reflexivity).
  erewrite bind_Ok by (rewrite Emx; reflexivity). erewrite bind_Ok by (rewrite E2; reflexivity).
  erewrite bind_Ok by (rewrite Emn; reflexivity). erewrite bind_Ok by (rewrite Enr; reflexivity).
  do 2 eexists. reflexivity.
Qed.

(** ** Starting the operations *)

Record started s0 (dn : list param) s : Prop := {
  st_inv : ops_inv (o_ s);
  st_init : c_initialized (o_clib (o_ s)) = true;
  st_heap : heap_ s = heap_ s0;
  st_last : last_handle s = last_handle s0 + Z.of_nat (length dn);
  st_norm : _max_norm (o_ s) = _max_norm (o_ s0);
  st_grad : d_grad s = d_grad s0;
  st_bpps : backward_passes_per_step s = backward_passes_per_step s0;
  st_frame : rest_of s = rest_of s0;
  st_keys : od_keys (_handles s) = od_keys (_handles s0);
  st_new i p : dn !! i = Some p →
    let h := last_handle s0 + 1 + Z.of_nat i in
    od_get p (_handles s) = Some (Some h, CtxNone) ∧
    pending s !! h = Some (G p, G p, Some (grad_name p)) ∧
    tasks s !! h = Some (grad_task (_max_norm (o_ s0)) p);
  st_old h : h ≤ last_handle s0 → pending s !! h = pending s0 !! h ∧ tasks s !! h = tasks s0 !! h
}.

Lemma push_pull_grad_async_ok s p :
  d_grad s !! p = Some (G p) → heap_ s !! G p = Some (T p) → supported (T p) →
  c_initialized (o_clib (o_ s)) = true → name_of cf p = Some (N p) →
  _push_pull_grad_async cf p s =
    (Ok (Some (last_handle s + 1), CtxNone),
     set_world (submitted (o_ s) (G p) (G p) true (Some (grad_name p)) (_max_norm (o_ s))
                  (_compressor_name cf) (T p), (d_world s).2) s).
Proof.
  intros Hg Ht Hs Hi Hn. unfold _push_pull_grad_async. rewrite Hsync, Hn, Hnone.
  erewrite bind_Ok by (by apply grad_of_ok). erewrite bind_Ok by reflexivity.
  assert (set_world (d_world s) s = s) as Hid by (by destruct s).
  erewrite (bind_Ok (in_world _) _ s (G p, CtxNone) s)
    by (unfold in_world, zoom; simpl; unfold none_compress, mret, M_ret; by rewrite Hid).
  cbv beta iota. erewrite bind_Ok by reflexivity.
  erewrite bind_Ok; [reflexivity|]. unfold byteps_push_pull. apply in_ops_eq.
  unfold push_pull_async_inplace, mbind, M_bind, get.
  by rewrite (do_push_pull_async_ok _ _ _ _ _ _ _ (T p)).
Qed.

Lemma start_all_ok s ps :
  each_ready s ps → od_keys (_handles s) = ps →
  ∃ s', for_each (start_one cf) ps s = (Ok (), s') ∧ started s ps s'.
Proof.
  intros Hr Hk. apply (for_each_inv _ (started s)).
  { split; try done; [apply Hr|apply Hr|simpl; lia]. }
  intros dn p rest s1 Hps [S1 S2 S3 S4 S5 S6 S7 Sf S8 S9 S10].
  assert (p ∈ ps) as Hp by (rewrite Hps; set_solver).
  assert (p ∉ dn) as Hpd.
  { pose proof (er_nodup _ _ Hr) as Hnd. rewrite Hps in Hnd.
    apply NoDup_app in Hnd as (_ & Hdis & _). intros Hin. apply (Hdis p Hin). left. }
  unfold start_one. erewrite bind_Ok.
  2: { apply push_pull_grad_async_ok; [rewrite S6; by apply Hr|rewrite S3; by apply Hr|by apply Hr|done|by apply Hr]. }
  eexists. split; [reflexivity|]. split; simpl.
  - apply submitted_inv; [done|]. rewrite S3, (er_heap _ _ Hr) by done. by eexists.
  - done.
  - done.
  - rewrite length_app. simpl. lia.
  - done.
  - done.
  - done.
  - done.
  - rewrite od_keys_set_in; [done|]. by rewrite S8, Hk.
  - intros i q. rewrite lookup_app_Some. intros [Hi|[Hi Hq]].
    + destruct (S9 i q Hi) as (A1 & A2 & A3). apply lookup_lt_Some in Hi as Hlt.
      rewrite od_get_set_ne by (intros ->; apply Hpd; by eapply list_elem_of_lookup_2).
      rewrite !lookup_insert_ne by lia. done.
    + apply list_lookup_singleton_Some in Hq as [Hi0 <-].
      assert (last_handle s + 1 + Z.of_nat i = last_handle s1 + 1) as -> by lia.
      rewrite od_get_set_eq, !lookup_insert_eq. unfold grad_task. simpl. by rewrite S5.
  - intros h Hh. rewrite !lookup_insert_ne by lia. by apply S10.
Qed.
(** ** Waiting for them *)

(** The reply to the [i]-th gradient. *)
Definition reduced_grad (h0 : Z) (i : nat) p : tensor R :=
  with_data (reduce (h0 + 1 + Z.of_nat i) (GetOpName (grad_name p)) true (_compressor_name cf)
               (t_data (T p))) (T p).

Record finished h0 s1 (dn : list param) s : Prop := {
  fi_inv : ops_inv (o_ s);
  fi_grad : d_grad s = d_grad s1;
  fi_bpps : backward_passes_per_step s = backward_passes_per_step s1;
  fi_frame : rest_of s = rest_of s1;
  fi_init : c_initialized (o_clib (o_ s)) = c_initialized (o_clib (o_ s1));
  fi_handles : _handles s = _handles s1;
  fi_last : last_handle s = last_handle s1;
  fi_done i p : dn !! i = Some p → heap_ s !! G p = Some (reduced_grad h0 i p) ∧
    od_get (NPTensor p) (_push_pull_delay s) = Some (backward_passes_per_step s1);
  fi_rest l : (∀ p, p ∈ dn → l ≠ G p) → heap_ s !! l = heap_ s1 !! l;
  fi_gone h : h0 < h ≤ h0 + Z.of_nat (length dn) → pending s !! h = None ∧ tasks s !! h = None;
  fi_kept h : ¬ (h0 < h ≤ h0 + Z.of_nat (length dn)) →
    pending s !! h = pending s1 !! h ∧ tasks s !! h = tasks s1 !! h
}.

Lemma tensor_set_self s l t :
  heap_ s !! l = Some t →
  tensor_set l l s = (Ok (), set_world (set_heap (<[l := t]> (heap_ s)) (o_ s), (d_world s).2) s).
Proof.
  intros E. unfold tensor_set. do 2 (erewrite bind_Ok by (by apply in_ops_read)).
  rewrite decide_True by done. by apply in_ops_eq.
Qed.

Lemma finish_one_ok s p h norm :
  od_get p (_handles s) = Some (Some h, CtxNone) → d_grad s !! p = Some (G p) →
  pending s !! h = Some (G p, G p, Some (grad_name p)) → tasks s !! h = Some (grad_task norm p) →
  heap_ s !! G p = Some (T p) →
  ∃ s', finish_one cf p s = (Ok (), s') ∧ o_ s' = completed (o_ s) h (grad_task norm p) (T p) ∧
    d_grad s' = d_grad s ∧ backward_passes_per_step s' = backward_passes_per_step s ∧
    rest_of s' = rest_of s ∧ _handles s' = _handles s ∧
    _push_pull_delay s' = od_set (NPTensor p) (backward_passes_per_step s) (_push_pull_delay s).
Proof.
  intros Hh Hg Hp Ht Hl. unfold finish_one. erewrite bind_Ok by reflexivity. rewrite Hh. simpl.
  erewrite bind_Ok by (apply in_ops_eq; exact (synchronize_ok _ _ _ _ _ _ (T p) Hp Ht Hl)).
  erewrite bind_Ok by reflexivity. rewrite Hsync, Hnone.
  erewrite bind_Ok by (by apply grad_of_ok). erewrite bind_Ok by reflexivity.
  erewrite bind_Ok by reflexivity. cbv beta iota.
  erewrite bind_Ok by (apply tensor_set_self; simpl; by rewrite lookup_insert_eq).
  eexists. split; [reflexivity|]. simpl. split_and!; try done.
  unfold completed, set_heap, set_clib, set_handle_map. simpl. by rewrite insert_insert_eq.
Qed.

Lemma finish_all_ok s s1 ps :
  each_ready s ps → started s ps s1 → 
  ∃ s', for_each (finish_one cf) ps s1 = (Ok (), s') ∧ finished (last_handle s) s1 ps s'.
Proof.
  intros Hr Hst. apply (for_each_inv _ (finished (last_handle s) s1)).
  { split; try done; [apply Hst|]. simpl. lia. }
  intros dn p rest s2 Hps [F1 F2 F3 Ff Fi F4 F5 F6 F7 F8 F9].
  assert (p ∈ ps) as Hp by (rewrite Hps; set_solver).
  assert (p ∉ dn) as Hpd.
  { pose proof (er_nodup _ _ Hr) as Hnd. rewrite Hps in Hnd.
    apply NoDup_app in Hnd as (_ & Hdis & _). intros Hin. apply (Hdis p Hin). left. }
  assert (∀ q, q ∈ dn → G p ≠ G q) as Hne.
  { intros q Hq E. apply Hpd. rewrite (er_inj _ _ Hr p q); [done|done|rewrite Hps; set_solver|done]. }
  assert (ps !! length dn = Some p) as Hlk by (rewrite Hps; by apply list_lookup_middle).
  destruct (st_new _ _ _ Hst _ _ Hlk) as (A1 & A2 & A3).
  set (h := last_handle s + 1 + Z.of_nat (length dn)) in *.
  destruct (F9 h) as [B1 B2]; [lia|].
  assert (heap_ s2 !! G p = Some (T p)) as Ht.
  { rewrite F7 by done. rewrite (st_heap _ _ _ Hst). by apply Hr. }
  destruct (finish_one_ok s2 p h (_max_norm (o_ s))) as (s3 & E & W & D1 & D2 & Df & D3 & D4);
    [by rewrite F4|rewrite F2, (st_grad _ _ _ Hst); by apply Hr|by rewrite B1|by rewrite B2|done|].
  exists s3. split; [done|].
  assert (ops_inv (o_ s3)) as Hinv.
  { rewrite W. apply completed_inv; [done|by rewrite B2|done]. }
  split; [done|by rewrite D1|by rewrite D2|by rewrite Df|by rewrite W|by rewrite D3|by rewrite W| | | |];
    rewrite W, ?D4, ?D2, ?F3; simpl.
  - intros i q. rewrite lookup_app_Some. intros [Hi|[Hi Hq]].
    + destruct (F6 i q Hi) as [C1 C2]. apply list_elem_of_lookup_2 in Hi as Hin.
      rewrite lookup_insert_ne by (by apply Hne).
      rewrite od_get_set_ne by (intros [=]; by subst). done.
    + apply list_lookup_singleton_Some in Hq as [Hi0 <-].
      rewrite lookup_insert_eq, od_get_set_eq. split; [|done]. unfold reduced_grad, h.
      do 3 f_equal. lia.
  - intros l Hl. rewrite lookup_insert_ne by (apply not_eq_sym; apply Hl; set_solver).
    apply F7. intros q Hq. apply Hl. set_solver.
  - rewrite length_app. simpl. intros h' Hh'. rewrite !lookup_delete.
    case_decide; [done|]. apply F8. lia.
  - rewrite length_app. simpl. intros h' Hh'. rewrite !lookup_delete_ne by lia. apply F9. lia.
Qed.

Lemma synchronize_each_ok s ps :
  each_ready s ps → od_keys (_handles s) = ps →
  ∃ s', synchronize_each cf s = (Ok (), s') ∧
    (∀ i p, ps !! i = Some p →
       heap_ s' !! G p = Some (reduced_grad (last_handle s) i p) ∧
       od_get (NPTensor p) (_push_pull_delay s') = Some (backward_passes_per_step s)) ∧
    (∀ l, (∀ p, p ∈ ps → l ≠ G p) → heap_ s' !! l = heap_ s !! l) ∧
    d_grad s' = d_grad s ∧ pending s' = pending s ∧ tasks s' = tasks s ∧ ops_inv (o_ s') ∧
    rest_of s' = rest_of s ∧ backward_passes_per_step s' = backward_passes_per_step s ∧
    c_initialized (o_clib (o_ s')) = true ∧ last_handle s' = last_handle s + Z.of_nat (length ps).
Proof.
  intros Hr Hk. destruct (push_pull_info_ok ps s Hr) as (x & i & E0).
  unfold synchronize_each. erewrite bind_Ok by reflexivity. rewrite Hk.
  erewrite bind_Ok by exact E0.
  assert (each_ready (set_info i s) ps) as Hr0 by (destruct Hr; by split).
  destruct (start_all_ok (set_info i s) ps Hr0 Hk) as (s1 & E1 & Hst).
  destruct (finish_all_ok (set_info i s) s1 ps Hr0 Hst) as (s2 & E2 & Hf).
  erewrite bind_Ok by exact E1. exists s2. split; [done|].
  destruct Hst as [_ S2 S3 S4 S5 S6 S7 Sf S8 S9 S10]. destruct Hf as [F1 F2 F3 Ff Fi F4 F5 F6 F7 F8 F9].
  simpl in *.
  destruct (tables_restored (o_ s) (o_ s2)) as [T1 T2]; [apply Hr|done| | |].
  - intros h Hh. destruct (F9 h) as [-> ->]; [lia|]. by apply S10.
  - intros h Hh. apply F8. lia.
  - split_and!; [by rewrite <-S7| |by rewrite F2|done|done|done|by rewrite Ff, Sf|by rewrite F3|by rewrite Fi|].
    + intros l Hl. by rewrite F7, S3.
    + by rewrite F5, S4.
Qed.

(** ** The parameters without a gradient hook call *)

Lemma add_missing_ok ms s :
  NoDup (od_keys (_handles s) ++ ms) →
  ∃ s', for_each (add_missing cf) ms s = (Ok (), s') ∧ d_world s' = d_world s ∧
    d_grad s' = d_grad s ∧ backward_passes_per_step s' = backward_passes_per_step s ∧
    rest_of s' = rest_of s ∧ od_keys (_handles s') = od_keys (_handles s) ++ ms.
Proof.
  revert s. induction ms as [|p ms IH]; intros s Hnd; simpl.
  { exists s. by rewrite app_nil_r. }
  erewrite bind_Ok by (unfold add_missing; erewrite bind_Ok by reflexivity; reflexivity).
  match goal with |- context [for_each _ _ ?s1] => destruct (IH s1) as (s' & E & W & D & B & F & K) end.
  all: simpl in *.
  all: assert (p ∉ od_keys (_handles s)) as Hp
    by (apply NoDup_app in Hnd as (_ & Hdis & _); intros Hin; apply (Hdis p Hin); left).
  { rewrite od_keys_set_new by done. by rewrite <-app_assoc. }
  exists s'. split_and!; [done..|]. rewrite K, od_keys_set_new by done. by rewrite <-app_assoc.
Qed.

(** The order in which [synchronize] handles the parameters: those whose hooks
    ran, in the order they first ran, then the others. *)
Definition sync_order s : list param :=
  od_keys (_handles s) ++ set_order (_requires_update cf ∖ list_to_set (od_keys (_handles s))).

Lemma dist_synchronize_ok `{!BackendLaws R} nw wid s :
  each_ready s (sync_order s) →
  ∃ s', dist_synchronize cf nw wid s = (Ok (), s') ∧
    (∀ i p, sync_order s !! i = Some p →
       heap_ s' !! G p = Some (reduced_grad (last_handle s) i p) ∧
       od_get (NPTensor p) (_push_pull_delay s') = Some (backward_passes_per_step s)) ∧
    (∀ l, (∀ p, p ∈ sync_order s → l ≠ G p) → heap_ s' !! l = heap_ s !! l) ∧
    d_grad s' = d_grad s ∧ _handles s' = [] ∧
    pending s' = pending s ∧ tasks s' = tasks s ∧ ops_inv (o_ s') ∧
    rest_of s' = rest_of s ∧ backward_passes_per_step s' = backward_passes_per_step s ∧
    c_initialized (o_clib (o_ s')) = true ∧
    last_handle s' = last_handle s + Z.of_nat (length (sync_order s)).
Proof.
  intros Hr. unfold dist_synchronize. erewrite bind_Ok by reflexivity.
  destruct (add_missing_ok (set_order (_requires_update cf ∖ list_to_set (od_keys (_handles s)))) s)
    as (s1 & E1 & W & D & B & F & K); [apply Hr|].
  erewrite bind_Ok by exact E1. rewrite Hnone. simpl is_inca. cbv iota.
  destruct (synchronize_each_ok s1 (sync_order s)) as
    (s2 & E2 & Hdone & Hrest & Hg & Hp & Ht & Hi & Hf & Hb & Hin & Hl).
  { destruct Hr as [A1 A2 A3 A4 A5 A6 A7 A8 A9 A10]. by split; rewrite ?W, ?D. }
  { exact K. }
  erewrite bind_Ok by exact E2. eexists. split; [reflexivity|]. simpl.
  rewrite W, B, D in *. split_and!; try done. by rewrite <-F, <-Hf.
Qed.

(** C9: Without compression [synchronize] succeeds: every parameter that has a
    handle or requires an update is handled exactly once, its gradient tensor
    then holds the servers' average of what it held, with its type and shape,
    and its pass counter is reset; no other tensor is written, the handle table
    is empty, and no operation is left pending. *)
Theorem synchronize_reduces `{!BackendLaws R} nw wid s :
  each_ready s (sync_order s) →
  ∃ s', dist_synchronize cf nw wid s = (Ok (), s') ∧
    (∀ p, p ∈ _requires_update cf → p ∈ sync_order s) ∧
    (∀ i p, sync_order s !! i = Some p →
       heap_ s' !! G p = Some (reduced_grad (last_handle s) i p) ∧
       od_get (NPTensor p) (_push_pull_delay s') = Some (backward_passes_per_step s)) ∧
    (∀ l, (∀ p, p ∈ sync_order s → l ≠ G p) → heap_ s' !! l = heap_ s !! l) ∧
    d_grad s' = d_grad s ∧ _handles s' = [] ∧
    pending s' = pending s ∧ tasks s' = tasks s ∧ ops_inv (o_ s').
Proof.
  intros Hr. destruct (dist_synchronize_ok nw wid s Hr) as (s' & E & H1 & H2 & H3 & H4 & H5 & H6 & H7 & _).
  exists s'. split_and!; try done.
  intros p Hp'. unfold sync_order. rewrite elem_of_app, (set_order_perm (R := R)), elem_of_elements.
  rewrite elem_of_difference, elem_of_list_to_set. destruct (decide (p ∈ od_keys (_handles s))); auto.
Qed.
End sync.
