(* ===== verification/DistTopK.v ===== *)
(** * Batched gradients: slices, and [synchronize] with top-k compression

    With INCA or top-k the gradients are concatenated into one tensor, and every
    parameter gets back a slice of the result. *)

From S2P Require Import Prelude PyStr Tensor TorchOps TorchCompression DistOptim DistOptimProofs DistSync.

Section slices.
Context {R : Type} `{Scalar R, !Extension R, !TorchLib R, !Backend R, !ExtensionLaws R}.
Implicit Types (s : optim (R := R)) (p : param).

Notation o_ s := (d_world s).1 (only parsing).
Notation heap_ s := (o_heap (d_world s).1) (only parsing).

(** The gradient of [p] is the tensor [t]. *)
Definition has_grad s p (t : tensor R) : Prop :=
  ∃ g, d_grad s !! p = Some g ∧ heap_ s !! g = Some t.

Definition fresh_ok s : Prop := ∀ l, is_Some (heap_ s !! l) → (l < o_next (o_ s))%nat.

Lemma grad_data_spec ps ts s :
  Forall2 (has_grad s) ps ts → grad_data ps s = (Ok (t_data <$> ts), s).
Proof.
  induction 1 as [|p t ps ts (g & Hg & Ht) _ IH]; simpl; [done|].
  erewrite bind_Ok by (by apply grad_of_ok). erewrite bind_Ok by (by apply in_ops_read).
  by erewrite bind_Ok by exact IH.
Qed.

Lemma cat_grads_spec p ps ts s :
  Forall2 (has_grad s) (p :: ps) ts →
  ∃ dt cu, cat_grads (p :: ps) s =
    (Ok (Tensor dt [length (concat (t_data <$> ts))] (concat (t_data <$> ts)) cu true), s).
Proof.
  intros Hg. unfold cat_grads. erewrite bind_Ok by (by apply grad_data_spec).
  inversion Hg as [|? t ? ts' (g & Hp & Ht) _]; subst.
  erewrite bind_Ok by (by apply grad_of_ok). erewrite bind_Ok by (by apply in_ops_read).
  by eexists _, _.
Qed.

(** The tensors the slices make. *)
Fixpoint sliced (batch : tensor R) (off : nat) (ts : list (tensor R)) : list (tensor R) :=
  match ts with
  | [] => []
  | t :: ts' =>
      let n := length (t_data t) in
      Tensor (t_dtype batch) (t_shape t) (take n (drop off (t_data batch))) (t_cuda batch) true
        :: sliced batch (off + n) ts'
  end.

Definition total (ts : list (tensor R)) : nat := length (concat (t_data <$> ts)).

Lemma total_cons t ts : total (t :: ts) = (length (t_data t) + total ts)%nat.
Proof. unfold total. simpl. by rewrite length_app. Qed.

Lemma concat_sliced batch off ts :
  concat (t_data <$> sliced batch off ts) = take (total ts) (drop off (t_data batch)).
Proof.
  revert off. induction ts as [|t ts IH]; intros off; simpl; [done|].
  unfold total in *. simpl. rewrite IH, length_app, <-drop_drop. apply take_take_drop.
Qed.

Lemma shapes_sliced batch off ts : t_shape <$> sliced batch off ts = t_shape <$> ts.
Proof. revert off. induction ts as [|t ts IH]; intros off; simpl; [done|]. by rewrite IH. Qed.

(** Slices of a concatenation are what was concatenated. *)
Lemma sliced_data_gen batch pre ts :
  t_data batch = pre ++ concat (t_data <$> ts) →
  t_data <$> sliced batch (length pre) ts = t_data <$> ts.
Proof.
  revert pre. induction ts as [|t ts IH]; intros pre Hb; simpl; [done|].
  f_equal.
  - rewrite Hb, drop_app_length. simpl. apply take_app_length.
  - rewrite <-length_app. apply IH. rewrite Hb, <-app_assoc. done.
Qed.
Lemma sliced_data batch ts :
  t_data batch = concat (t_data <$> ts) → t_data <$> sliced batch 0 ts = t_data <$> ts.
Proof. apply (sliced_data_gen batch []). Qed.

Lemma assign_slice_ok batch off p s t :
  has_grad s p t → fresh_ok s → (off + length (t_data t) ≤ length (t_data batch))%nat →
  ∃ s', assign_slice batch off p s = (Ok (off + length (t_data t))%nat, s') ∧
    has_grad s' p (Tensor (t_dtype batch) (t_shape t)
      (take (length (t_data t)) (drop off (t_data batch))) (t_cuda batch) true) ∧
    (∀ q u, q ≠ p → has_grad s q u → has_grad s' q u) ∧ fresh_ok s' ∧
    (d_world s').2 = (d_world s).2 ∧ _handles s' = _handles s ∧
    heap_ s ⊆ heap_ s' ∧
    TorchOps._handle_map (o_ s') = TorchOps._handle_map (o_ s) ∧ o_clib (o_ s') = o_clib (o_ s).
Proof.
  intros (g & Hg & Ht) Hf Hlen. unfold assign_slice.
  erewrite bind_Ok by (by apply grad_of_ok). erewrite bind_Ok by (by apply in_ops_read).
  erewrite bind_Ok by (apply in_ops_eq; reflexivity). erewrite bind_Ok by reflexivity.
  eexists. split; [reflexivity|]. unfold has_grad, resized. simpl.
  assert (∀ l u, heap_ s !! l = Some u → l ≠ o_next (o_ s)) as Hne.
  { intros l u E ->. assert (o_next (o_ s) < o_next (o_ s))%nat; [|lia]. apply Hf. by rewrite E. }
  rewrite take_take, Nat.min_id, length_take, length_drop.
  replace (length (t_data t) - length (t_data t) `min` (length (t_data batch) - off))%nat
    with 0%nat by lia.
  assert (uninit 0 = []) as -> by (apply nil_length_inv, length_uninit).
  rewrite app_nil_r. split_and!; try done.
  - exists (o_next (o_ s)). by rewrite !lookup_insert_eq.
  - intros q u Hq (g' & Hg' & Hu). exists g'.
    rewrite !lookup_insert_ne; [done|apply not_eq_sym; by eapply Hne|done].
  - intros l. simpl. rewrite lookup_insert_is_Some'. intros [->|Hl%Hf]; lia.
  - apply insert_subseteq. apply eq_None_not_Some. intros Hs%Hf. lia.
Qed.

(** A loop body that does not touch the tensors. *)
Definition quiet (after : param → M (optim (R := R)) ()) : Prop :=
  ∀ p s, ∃ s', after p s = (Ok (), s') ∧ d_world s' = d_world s ∧ d_grad s' = d_grad s ∧
    _handles s' = _handles s.

Lemma assign_slices_ok batch after off ps ts s :
  quiet after → NoDup ps → Forall2 (has_grad s) ps ts → fresh_ok s →
  (off + total ts ≤ length (t_data batch))%nat →
  ∃ s', assign_slices batch after off ps s = (Ok (off + total ts)%nat, s') ∧
    Forall2 (has_grad s') ps (sliced batch off ts) ∧
    (∀ q u, q ∉ ps → has_grad s q u → has_grad s' q u) ∧ fresh_ok s' ∧
    (d_world s').2 = (d_world s).2 ∧ _handles s' = _handles s ∧ heap_ s ⊆ heap_ s' ∧
    TorchOps._handle_map (o_ s') = TorchOps._handle_map (o_ s) ∧ o_clib (o_ s') = o_clib (o_ s).
Proof.
  intros Hq Hnd Hg. revert off s Hg. revert ts.
  induction ps as [|p ps IH]; intros ts off s Hg Hf Hlen.
  { apply Forall2_nil_inv_l in Hg as ->. exists s. simpl.
    split_and!; try done. unfold total. simpl. by rewrite Nat.add_0_r. }
  apply Forall2_cons_inv_l in Hg as (t & ts' & Ht & Hg & ->).
  apply NoDup_cons in Hnd as [Hp Hnd]. rewrite total_cons in *. simpl.
  destruct (assign_slice_ok batch off p s t) as (s1 & E1 & H1 & Ho1 & Hf1 & W1 & K1 & I1 & P1 & C1);
    [done|done|lia|].
  destruct (Hq p s1) as (s2 & E2 & W2 & D2 & K2).
  assert (∀ q u, has_grad s1 q u → has_grad s2 q u) as Hmono.
  { intros q u. unfold has_grad. by rewrite W2, D2. }
  destruct (IH Hnd ts' (off + length (t_data t))%nat s2)
    as (s3 & E3 & H3 & Ho3 & Hf3 & W3 & K3 & I3 & P3 & C3).
  { eapply Forall2_impl_in; [exact Hg|]. intros q u Hin Hu. apply Hmono, Ho1; [|done].
    intros ->. done. }
  { unfold fresh_ok. by rewrite W2. }
  { lia. }
  exists s3. erewrite bind_Ok by exact E1. erewrite bind_Ok by exact E2. rewrite E3.
  rewrite W2 in *. split_and!; try done.
  - do 2 f_equal. lia.
  - constructor; [|done]. apply Ho3; [done|]. by apply Hmono.
  - intros q u Hq' Hu. apply Ho3; [set_solver|]. apply Hmono, Ho1; [set_solver|done].
  - by rewrite W3.
  - by rewrite K3, K2.
  - by etrans.
  - by rewrite P3.
  - by rewrite C3.
Qed.
(** Batching loses nothing: concatenating the gradients of any list of
    parameters and giving every parameter its slice of the batch restores every
    gradient's elements and shape, and leaves every other parameter's gradient
    alone. *)
Theorem batch_slices_roundtrip p ps ts s :
  NoDup (p :: ps) → Forall2 (has_grad s) (p :: ps) ts → fresh_ok s →
  ∃ batch s' ts', cat_grads (p :: ps) s = (Ok batch, s) ∧
    assign_slices batch (λ _, mret ()) 0 (p :: ps) s = (Ok (length (t_data batch)), s') ∧
    Forall2 (has_grad s') (p :: ps) ts' ∧
    t_data <$> ts' = t_data <$> ts ∧ t_shape <$> ts' = t_shape <$> ts ∧
    (∀ q u, q ∉ p :: ps → has_grad s q u → has_grad s' q u).
Proof.
  intros Hnd Hg Hf. destruct (cat_grads_spec p ps ts s Hg) as (dt & cu & E).
  set (batch := Tensor dt _ _ cu true) in *.
  destruct (assign_slices_ok batch (λ _, mret ()) 0 (p :: ps) ts s) as (s' & E' & Hg' & Ho & _);
    [intros q s1; by exists s1|done|done|done|unfold total, batch; simpl; lia|].
  exists batch, s', (sliced batch 0 ts). split_and!; try done.
  - by apply sliced_data.
  - apply shapes_sliced.
Qed.
(** ** [synchronize] with top-k *)

Context `{!TorchLibLaws R}.
Context (cf : config) (self : topk).
Context (Hcomp : _compression cf = CTopK self) (Hsync : _enable_async cf = false).

(** The optimizer is ready to exchange a batch of the gradients [ts] of [ps]:
    [b] is the exchange buffer and [e] the batch with the residual added. *)
Record batch_ready s (ps : list param) (ts : list (tensor R)) (b : loc) (tb : tensor R) (e : list R) :
    Prop := {
  br_inv : ops_inv (o_ s);
  br_init : c_initialized (o_clib (o_ s)) = true;
  br_nodup : NoDup ps;
  br_ne : concat (t_data <$> ts) ≠ [];
  br_grads : Forall2 (has_grad s) ps ts;
  br_buffer : topk_tensor s = Some b;
  br_tb : heap_ s !! b = Some tb;
  br_sup : supported tb;
  br_other p : p ∈ ps → d_grad s !! p ≠ Some b;
  br_len : length (t_data tb) = (2 * k_of self (length e))%nat;
  br_acc : accumulated self (Some "batch_grads") (d_world s).2 (concat (t_data <$> ts)) = Ok e;
  br_elen : length e = total ts;
  br_half : (2 * k_of self (length e) ≤ length e)%nat;
  br_exact : exact_positions (R := R) (length e)
}.

Lemma batch_info_ok (l : list R) s :
  l ≠ [] → ∃ x i, batch_push_pull_info l s = (Ok x, set_info i s).
Proof.
  intros Hl. destruct l as [|x l]; [done|]. unfold batch_push_pull_info.
  do 2 (erewrite bind_Ok by reflexivity). by do 2 eexists.
Qed.

Lemma length_packed k (l : list R) :
  (2 * k ≤ length l)%nat → length (packed k l) = length l.
Proof.
  intros Hk. unfold packed, vzero.
  rewrite !length_app, length_map, length_replicate, length_gather by apply top_positions_lt.
  rewrite length_top_positions. lia.
Qed.

(** The exchange of the compressed batch [bc]. *)
Lemma topk_exchange s b tb bc tc :
  ops_inv (o_ s) → c_initialized (o_clib (o_ s)) = true → topk_tensor s = Some b →
  heap_ s !! b = Some tb → supported tb → heap_ s !! bc = Some tc →
  (length (t_data tb) ≤ length (t_data tc))%nat →
  let n := length (t_data tb) in
  let h := c_last_handle (o_clib (o_ s)) + 1 in
  ∃ s1 s2, _topk_push_pull_grad_async cf bc s = (Ok h, s1) ∧
    ops_synchronize (Some h) s1 = (Ok (Some b), s2) ∧
    heap_ s2 = <[b := with_data (reduce h (GetOpName "Topk_batched") false (_compressor_name cf)
                                   (take n (t_data tc))) tb]> (heap_ s) ∧
    o_next (o_ s2) = o_next (o_ s) ∧ (d_world s2).2 = (d_world s).2 ∧ d_grad s2 = d_grad s ∧
    TorchOps._handle_map (o_ s2) = TorchOps._handle_map (o_ s) ∧
    c_results (o_clib (o_ s2)) = c_results (o_clib (o_ s)).
Proof.
  intros Hinv Hi Hb Htb Hsup Htc Hlen n h.
  assert (c_results (o_clib (o_ s)) !! h = None) as Hn.
  { apply eq_None_not_Some. intros Hs%(inv_bound _ Hinv). lia. }
  pose proof Hn as Hn'. apply (inv_agree _ Hinv) in Hn'.
  unfold _topk_push_pull_grad_async. erewrite bind_Ok by reflexivity.
  erewrite bind_Ok by (unfold lift; rewrite Hb; reflexivity).
  do 2 (erewrite bind_Ok by (by apply in_ops_read)).
  erewrite bind_Ok by (unfold lift; rewrite slice_set_ok by (rewrite ?length_take; lia); reflexivity).
  erewrite bind_Ok by (apply in_ops_eq; reflexivity).
  unfold byteps_push_pull. erewrite in_ops_eq.
  2: { unfold push_pull_async_inplace. erewrite bind_Ok by reflexivity.
       apply (do_push_pull_async_ok _ b b _ _ _ _ (with_data (take 0 (t_data tb) ++ take n (t_data tc)
         ++ drop n (t_data tb)) tb)); [simpl; by rewrite lookup_insert_eq|exact Hsup|exact Hi]. }
  eexists _, _. split; [reflexivity|]. split.
  { unfold ops_synchronize, h. apply in_ops_eq. eapply synchronize_ok; [apply lookup_insert_eq..|simpl; apply lookup_insert_eq]. }
  simpl. split_and!; try done.
  - rewrite insert_insert_eq. unfold with_data. simpl. unfold n. rewrite drop_all, app_nil_r. done.
  - by apply delete_insert_id.
  - by apply delete_insert_id.
Qed.

Lemma in_world_eq {A} (m : M (world (R := R)) A) s r w :
  m (d_world s) = (r, w) → in_world m s = (r, set_world w s).
Proof. unfold in_world, zoom. intros E. by rewrite E. Qed.

Lemma quiet_reset_delay : quiet reset_delay.
Proof. intros p s. by eexists. Qed.

(** What a worker sends of the batch [e]: the positions, as numbers, and the elements there. *)
Definition sent_message (e : list R) : list R :=
  let idx := top_positions (k_of self (length e)) e in map (s_of_Z ∘ Z.of_nat) idx ++ gather e idx.

Lemma take_packed (e : list R) : (2 * k_of self (length e) ≤ length e)%nat →
  take (2 * k_of self (length e)) (packed (k_of self (length e)) e) = sent_message e.
Proof.
  intros Hk. unfold packed, sent_message. set (k := k_of self (length e)) in *. rewrite app_assoc.
  apply take_app_length'. rewrite length_app, length_map, length_gather by apply top_positions_lt.
  rewrite length_top_positions. lia.
Qed.

(** What [topk_send] leaves when the servers answer [reply]: it is in the buffer, the
    residual is updated, and nothing else that existed has changed. *)
Record sent s (b : loc) (tb : tensor R) (e reply : list R) s5 : Prop := {
  sn_buffer : heap_ s5 !! b = Some (with_data reply tb);
  sn_heap l t : l ≠ b → heap_ s !! l = Some t → heap_ s5 !! l = Some t;
  sn_fresh : fresh_ok s5;
  sn_grad : d_grad s5 = d_grad s;
  sn_residual : (d_world s5).2 =
    (if ef self then <[Some "batch_grads" := discard (top_positions (k_of self (length e)) e) e]>
                       (d_world s).2
     else (d_world s).2);
  sn_handles : TorchOps._handle_map (o_ s5) = TorchOps._handle_map (o_ s);
  sn_results : c_results (o_clib (o_ s5)) = c_results (o_clib (o_ s))
}.

Lemma fresh_None s l : ops_inv (o_ s) → (o_next (o_ s) ≤ l)%nat → heap_ s !! l = None.
Proof. intros Hi Hl. apply eq_None_not_Some. intros Hs%(inv_fresh _ Hi). lia. Qed.

Lemma topk_send_ok s p0 ps0 ts b tb e reply :
  batch_ready s (p0 :: ps0) ts b tb e →
  (∀ h, reduce h (GetOpName "Topk_batched") false (_compressor_name cf) (sent_message e) = reply) →
  ∃ s5, topk_send cf (p0 :: ps0) s
      = (Ok (b, CtxDict [total ts] (Some (Some "batch_grads")) false), s5) ∧ sent s b tb e reply s5.
Proof.
  intros [B1 B2 B3 B4 B5 B6 B7 B8 B9 B10 B11 B12 B13 B14] Hreply. unfold topk_send.
  destruct (cat_grads_spec p0 ps0 ts s B5) as (dt & cu & Ecat).
  erewrite bind_Ok by exact Ecat. cbn [t_data].
  destruct (batch_info_ok _ s B4) as (x & i & Ei). erewrite bind_Ok by exact Ei.
  set (grads := Tensor dt _ _ cu true) in *. set (d := length e) in *.
  erewrite bind_Ok by (apply in_ops_eq; reflexivity). erewrite bind_Ok by reflexivity.
  destruct (alloc_inv (o_ s) grads B1) as [Hinv1 Hl1].
  rewrite Hcomp. cbn [compress]. erewrite bind_Ok.
  2: { apply in_world_eq. by eapply topk_compress_ok; [exact Hl1|done|exact B11|exact B12|exact B13]. }
  match goal with |- context [set_world ?w (set_world ?v ?u)] =>
    set (s3 := set_world w (set_world v u)) in * end.
  pose proof (fresh_None s (o_next (o_ s)) B1 ltac:(lia)) as Hf0.
  pose proof (fresh_None s (S (o_next (o_ s))) B1 ltac:(lia)) as Hf1.
  assert (heap_ s ⊆ heap_ s3) as Hsub.
  { simpl. etrans; [apply insert_subseteq; exact Hf0|]. apply insert_subseteq.
    rewrite lookup_insert_ne; [done|simpl; lia]. }
  destruct (topk_exchange s3 b tb (S (o_next (o_ s)))
      (Tensor float32 [d] (packed (k_of self d) e) (t_cuda grads) true))
    as (s4 & s5 & E4 & E5 & Hh5 & Hn5 & Hr5 & Hg5 & Hp5 & Ht5).
  { apply (alloc_inv _ (Tensor float32 [d] (packed (k_of self d) e) (t_cuda grads) true)), Hinv1. }
  { exact B2. }
  { exact B6. }
  { by eapply lookup_weaken. }
  { exact B8. }
  { simpl. by rewrite lookup_insert_eq. }
  { simpl. rewrite length_packed by done. rewrite B10. exact B13. }
  cbv beta iota. simpl o_next in E4. erewrite bind_Ok by exact E4. erewrite bind_Ok by exact E5.
  erewrite bind_Ok by reflexivity. cbn [t_data] in Hh5. rewrite B10 in Hh5. unfold d in Hh5. rewrite take_packed, Hreply in Hh5 by done.
  exists s5. split; [done|]. split; try done.
  - by rewrite Hh5, lookup_insert_eq.
  - intros l t Hl Ht. rewrite Hh5, lookup_insert_ne by done. by eapply lookup_weaken.
  - intros l. rewrite Hh5, Hn5. simpl. pose proof (inv_fresh _ B1) as Hfr.
    rewrite !lookup_insert_is_Some'. intros [<-|[<-|[<-|Hl%Hfr]]]; [|lia..].
    assert (b < o_next (o_ s))%nat; [|lia]. apply Hfr. by rewrite B7.
Qed.

(** The batch that [decompress] makes of a reply. *)
Definition unpacked (dim : nat) (reply : list R) : list R :=
  let k := k_of self dim in place (vzero dim) (reply_positions dim (take k reply)) (drop k reply).

Lemma unpacked_message (e : list R) :
  (2 * k_of self (length e) ≤ length e)%nat → exact_positions (R := R) (length e) →
  Forall (λ x, 0 ≤ s_to_Z x) (take (k_of self (length e)) (sent_message e)) ∧
  unpacked (length e) (sent_message e) = keep (top_positions (k_of self (length e)) e) e.
Proof.
  intros Hk Hex. destruct (place_packed (k_of self (length e)) e ltac:(lia) Hex) as [Hpos Hpl].
  unfold unpacked, sent_message. rewrite take_app_length', drop_app_length'; [done|..];
    rewrite length_map, length_top_positions; lia.
Qed.

Lemma topk_receive_ok s ps ts b tb e reply name s5 :
  batch_ready s ps ts b tb e → sent s b tb e reply s5 → length reply = (2 * k_of self (length e))%nat →
  Forall (λ x, 0 ≤ s_to_Z x) (take (k_of self (length e)) reply) →
  ∃ s' ts', topk_receive cf ps b (CtxDict [total ts] name false) s5 = (Ok (), s') ∧
    Forall2 (has_grad s') ps ts' ∧ concat (t_data <$> ts') = unpacked (length e) reply ∧
    t_shape <$> ts' = t_shape <$> ts ∧ (d_world s').2 = (d_world s5).2 ∧
    TorchOps._handle_map (o_ s') = TorchOps._handle_map (o_ s5) ∧
    c_results (o_clib (o_ s')) = c_results (o_clib (o_ s5)).
Proof.
  intros [B1 B2 B3 B4 B5 B6 B7 B8 B9 B10 B11 B12 B13 B14] [S1 S2 S3 S4 S5 S6 S7] Hlr Hpos.
  assert (numel [total ts] = length e) as Hnum by (simpl; lia).
  assert (0 < length e)%nat as He by (rewrite B12; unfold total; destruct (concat _); [done|simpl; lia]).
  unfold topk_receive. rewrite Hcomp. cbn [decompress]. erewrite bind_Ok.
  2: { apply in_world_eq. eapply (topk_decompress_reply self b _ _ _ _ _ _ _ _ reply); [by rewrite Hnum|rewrite Hnum; lia|by rewrite Hnum|exact S1]. }
  rewrite Hnum, (take_ge reply (2 * k_of self (length e))) by lia. change (place _ _ _) with (unpacked (length e) reply).
  cbv beta iota. erewrite bind_Ok by reflexivity.
  erewrite bind_Ok by (apply in_ops_read; simpl; by rewrite lookup_insert_eq).
  match goal with |- context [(assign_slices ?bt _ _ _ ≫= _) ?st] =>
    destruct (assign_slices_ok bt reset_delay 0 ps ts st)
      as (s7 & E7 & Hg7 & _ & _ & Hw7 & _ & _ & Hp7 & Hc7) end; [apply quiet_reset_delay|done|..].
  { eapply Forall2_impl_in; [exact B5|]. intros q u Hq (g & Hgq & Hu). exists g. simpl.
    rewrite S4. split; [exact Hgq|].
    assert (heap_ s5 !! g = Some u) as Hgu by (apply S2; [intros ->; by apply (B9 q)|done]).
    rewrite lookup_insert_ne; [exact Hgu|]. intros <-.
    assert (o_next (o_ s5) < o_next (o_ s5))%nat; [apply S3; by rewrite Hgu|lia]. }
  { intros l. simpl. rewrite lookup_insert_is_Some'. intros [->|Hl%S3]; lia. }
  { simpl. unfold unpacked. rewrite length_place, length_vzero. lia. }
  erewrite bind_Ok by exact E7. eexists _, _. split; [reflexivity|]. split_and!.
  - exact Hg7.
  - rewrite concat_sliced. simpl. rewrite drop_0. apply take_ge. unfold unpacked. rewrite length_place, length_vzero. lia.
  - apply shapes_sliced.
  - by rewrite Hw7.
  - by rewrite Hp7.
  - by rewrite Hc7.
Qed.

(** C25: [synchronize] with top-k compression, synchronous: [d] elements in the batch, [k = int(kp * d)]
    with [2 * k <= d], and positions that are exact in a 32-bit float. Whatever the servers answer to the
    message (the [k] positions, as numbers, then the elements there), as long as no position in the reply is
    negative: every parameter gets a gradient of its shape, and the gradients together, in
    the order of the handles, are zero but for the last [k] numbers of the reply at the positions
    its first [k] numbers name (past the end: the last); what this worker has not sent is the new residual
    of the batch, and no operation is left pending. If the reply is the message itself, as
    with a single worker, the gradients are the batch (the residual of earlier calls added) at
    its selected positions. Servers that sum the messages of several workers sum the
    positions too. *)
Theorem synchronize_topk_keeps s ts b tb e reply :
  batch_ready s (od_keys (_handles s)) ts b tb e →
  (∀ h, reduce h (GetOpName "Topk_batched") false (_compressor_name cf) (sent_message e) = reply) →
  Forall (λ x, 0 ≤ s_to_Z x) (take (k_of self (length e)) reply) ∨ reply = sent_message e →
  let idx := top_positions (k_of self (length e)) e in
  ∃ s' ts', synchronize_topk cf s = (Ok (), s') ∧
    Forall2 (has_grad s') (od_keys (_handles s)) ts' ∧
    concat (t_data <$> ts') = unpacked (length e) reply ∧ t_shape <$> ts' = t_shape <$> ts ∧
    (reply = sent_message e → concat (t_data <$> ts') = keep idx e) ∧
    (d_world s').2 = (if ef self then <[Some "batch_grads" := discard idx e]> (d_world s).2
                      else (d_world s).2) ∧
    TorchOps._handle_map (o_ s') = TorchOps._handle_map (o_ s) ∧
    c_results (o_clib (o_ s')) = c_results (o_clib (o_ s)).
Proof.
  intros Hb Hreply Hpos idx. destruct (unpacked_message e (br_half _ _ _ _ _ _ Hb) (br_exact _ _ _ _ _ _ Hb)) as [Hmp Hmu].
  assert (length reply = (2 * k_of self (length e))%nat) as Hlr.
  { rewrite <-(Hreply 0), length_reduce, <-take_packed by apply Hb. rewrite length_take, length_packed by apply Hb.
    pose proof (br_half _ _ _ _ _ _ Hb). lia. }
  assert (Forall (λ x, 0 ≤ s_to_Z x) (take (k_of self (length e)) reply)) as Hp by (destruct Hpos as [?| ->]; done).
  unfold synchronize_topk. erewrite bind_Ok by reflexivity. cbv zeta.
  destruct (od_keys (_handles s)) as [|p0 ps0].
  { destruct Hb. exfalso. apply br_ne0. by apply Forall2_nil_inv_l in br_grads0 as ->. }
  destruct (topk_send_ok s p0 ps0 ts b tb e reply Hb Hreply) as (s5 & E5 & H5).
  erewrite bind_Ok by exact E5. rewrite Hsync.
  destruct (topk_receive_ok s (p0 :: ps0) ts b tb e reply (Some (Some "batch_grads")) s5 Hb H5 Hlr Hp)
    as (s' & ts' & E & Hg & Hd & Hsh & Hw & Hh & Hr).
  destruct H5. exists s', ts'. split_and!; [exact E|done..|by intros ->; rewrite Hd|by rewrite Hw|by rewrite Hh|by rewrite Hr].
Qed.
End slices.
