(* ===== verification/DistDemo.v ===== *)
(** * Concrete runs of the distributed optimizer

    The hypotheses of the optimizer's theorems at concrete states, and two
    configurations in which a call of [synchronize] or [step] raises. *)

From S2P Require Import Prelude PyStr Tensor TorchOps TorchCompression.
From S2P Require Import DistOptim DistOptimProofs DistSync DistTopK.
Import OpsDemo CompressionDemo.

#[export] Instance backend : Backend Z := {|
  inca_compress l _ := l;
  inca_decompress l n := take n l;
  c_send_norm _ x := x;
  set_order := elements
|}.
#[export] Instance backend_laws : BackendLaws Z.
Proof. by split. Qed.

(** Two parameters with their data, before construction. *)
Definition d0 : tensor Z := Tensor float32 [2%nat] [10; 20] false true.
Definition d1 : tensor Z := Tensor float32 [2%nat] [30; 40] false true.
Definition heap0 : heap Z := {[0%nat := d0; 1%nat := d1]}.
Definition ops0 : ops Z := Ops heap0 2 OpsDemo.lib ∅ ∅ 0 ∅.
Definition blank : optim :=
  Optim (ops0, ∅) ∅ {[0%nat := 0%nat; 1%nat := 1%nat]} [] [] 0 None ∅ None true None None None.
Definition names : list (string * param) := [("w", 0%nat); ("b", 1%nat)].

(** The optimizer after one backward pass that reached only parameter 0; the
    gradients are at locations 2 and 3, and a top-k buffer at 4. *)
Definition gr0 : tensor Z := Tensor float32 [2%nat] [3; -7] false true.
Definition gr1 : tensor Z := Tensor float32 [2%nat] [1; 5] false true.
Definition buf : tensor Z := Tensor float32 [4%nat] [0; 0; 0; 0] true true.
Definition heap1 : heap Z := {[0%nat := d0; 1%nat := d1; 2%nat := gr0; 3%nat := gr1; 4%nat := buf]}.
Definition ops1 : ops Z := Ops heap1 5 OpsDemo.lib ∅ ∅ 0 ∅.
Definition state1 (hs : odict param (option Z * ctx)) : optim :=
  Optim (ops1, ∅) {[0%nat := 2%nat; 1%nat := 3%nat]} {[0%nat := 0%nat; 1%nat := 1%nat]} hs
    [(NPTensor 0, 0); (NPTensor 1, 1)] 1 (Some "w") ∅ None true (Some 4%nat) None None.
Definition after_hook : optim := state1 [(0%nat, (None, CtxNone))].
Definition both_hooks : optim := state1 [(0%nat, (None, CtxNone)); (1%nat, (None, CtxNone))].
Definition conf (c : compression) (async : bool) : config :=
  Config c (select_compressor c).1 true async true [(NPTensor 0, "w"); (NPTensor 1, "b")]
    {[0%nat; 1%nat]}.

Lemma ops1_inv : ops_inv ops1.
Proof.
  split; simpl; [done|intros; simplify_map_eq|intros h [? E]; simplify_map_eq
    |intros h k E; simplify_map_eq|].
  intros l. unfold heap1. rewrite !lookup_insert_is_Some', lookup_singleton_is_Some. lia.
Qed.

Lemma blank_params_ok : params_ok blank [0%nat; 1%nat].
Proof.
  split.
  - intros p Hp. set_unfold in Hp. destruct Hp as [->|[->|[]]]; by do 2 eexists.
  - intros l. simpl. unfold heap0. rewrite lookup_insert_is_Some', lookup_singleton_is_Some. lia.
Qed.

Lemma dist_init_spec_witness : ∃ cf s,
  dist_init ∅ [[0%nat; 1%nat]] (λ _, true) (Some (named_tensors names)) CNone 1 blank = (Ok cf, s) ∧
  name_of cf 1%nat = Some "b".
Proof.
  destruct (dist_init_spec ∅ [[0%nat; 1%nat]] (λ _, true) names CNone 1 blank)
    as (cf & s & E & Hn & _); [reflexivity|done|..|exact blank_params_ok|].
  1,2: by apply (bool_decide_unpack _); vm_compute.
  exists cf, s. split; [exact E|]. apply (Hn "b" 1%nat). right; left.
Defined.

Lemma dist_init_duplicates_witness :
  dist_init ∅ [[0%nat; 1%nat]] (λ _, true)
    (Some ((λ '(n, v), NPTuple n v) <$> [("w", NPTensor 0); ("w", NPTensor 1)])) CNone 1 blank
  = (Raise ValueError, blank).
Proof.
  apply dist_init_duplicates; [reflexivity|]. by apply (bool_decide_unpack _); vm_compute.
Defined.

Lemma hook_passes_witness : ∃ s, hooks (conf CNone false) 1%nat 1 after_hook = (Ok (), s) ∧
  hook (conf CNone false) false 1%nat s = (Raise AssertionError, s).
Proof.
  destruct (hook_passes (conf CNone false) 1%nat after_hook 3%nat 1) with (n := 1%nat)
    as (s & E & _ & _ & _ & Hex); [by intros h c|reflexivity|reflexivity|lia|].
  exists s. split; [exact E|by apply Hex].
Defined.

Lemma hook_without_names_witness : ∃ cf s,
  dist_init ∅ [[0%nat; 1%nat]] (λ _, true) None CNone 1 blank = (Ok cf, s) ∧
  hook cf false 0%nat s = (Raise KeyError, s).
Proof.
  destruct (hook_without_names ∅ [[0%nat; 1%nat]] (λ _, true) CNone 1 blank)
    as (cf & s & E & Hk); [reflexivity|exact blank_params_ok|].
  exists cf, s. split; [exact E|]. apply Hk; [left|done].
Defined.

Lemma each_ready_demo : each_ready (conf CNone false) (λ p, p + 2)%nat (λ p, if decide (p = 0%nat) then gr0 else gr1)
  (λ p, if decide (p = 0%nat) then "w" else "b") after_hook [0%nat; 1%nat].
Proof.
  split.
  - exact ops1_inv.
  - reflexivity.
  - by apply (bool_decide_unpack _); vm_compute.
  - discriminate.
  - intros p [->|[->|[]%not_elem_of_nil]%elem_of_cons]%elem_of_cons; reflexivity.
  - intros p [->|[->|[]%not_elem_of_nil]%elem_of_cons]%elem_of_cons; reflexivity.
  - intros p [->|[->|[]%not_elem_of_nil]%elem_of_cons]%elem_of_cons; split; vm_compute; reflexivity.
  - intros p [->|[->|[]%not_elem_of_nil]%elem_of_cons]%elem_of_cons; discriminate.
  - intros p [->|[->|[]%not_elem_of_nil]%elem_of_cons]%elem_of_cons; reflexivity.
  - intros p q _ _ E. lia.
Qed.

Lemma synchronize_reduces_witness : ∃ s,
  dist_synchronize (conf CNone false) 1 0 after_hook = (Ok (), s) ∧ _handles s = [].
Proof.
  destruct (synchronize_reduces (conf CNone false) (λ p, p + 2)%nat
    (λ p, if decide (p = 0%nat) then gr0 else gr1) (λ p, if decide (p = 0%nat) then "w" else "b")
    eq_refl eq_refl 1 0 after_hook) as (s & E & _ & _ & _ & _ & Hh & _); [|exact (ex_intro _ s (conj E Hh))].
  replace (sync_order (conf CNone false) after_hook) with [0%nat; 1%nat] by (by vm_compute).
  exact each_ready_demo.
Defined.

Lemma grads1 : Forall2 (has_grad both_hooks) [0%nat; 1%nat] [gr0; gr1].
Proof. repeat constructor; by eexists. Qed.

Lemma batch_slices_roundtrip_witness : ∃ batch,
  cat_grads [0%nat; 1%nat] both_hooks = (Ok batch, both_hooks).
Proof.
  destruct (batch_slices_roundtrip 0%nat [1%nat] [gr0; gr1] both_hooks) as (batch & s' & ts' & E & _);
    [by apply (bool_decide_unpack _); vm_compute|exact grads1|exact (inv_fresh _ ops1_inv)|exact (ex_intro _ batch E)].
Defined.

(** A single worker's reply echoes what was sent. *)
Definition echo_ext : Extension Z :=
  {| reduce _ _ _ _ l := l; c_attrs := @c_attrs Z OpsDemo.ext; uninit := @uninit Z OpsDemo.ext |}.
Lemma echo_laws : @ExtensionLaws Z echo_ext.
Proof. split; [intros n; apply length_replicate|done]. Qed.

Lemma both_hooks_ready {E : Extension Z} : supported buf →
  @batch_ready Z _ E half both_hooks [0%nat; 1%nat] [gr0; gr1] 4%nat buf [3; -7; 1; 5].
Proof.
  intros Hsup.
  split; try done; try (simpl; lia).
  - exact ops1_inv.
  - by apply (bool_decide_unpack _); vm_compute.
  - exact grads1.
  - intros p Hp. change (p ∈ [0%nat; 1%nat]) in Hp. revert Hp.
    intros [->|[->|[]%not_elem_of_nil]%elem_of_cons]%elem_of_cons; discriminate.
Qed.

(** With two workers that send the same message, positions 1 and 3 and the elements -7 and 5,
    the servers' sum has the positions 2 and 6: the sum of the elements, -14 and 10,
    lands at 2 and, past the end, at 3, where it belongs at 1 and 3. *)
Lemma synchronize_topk_keeps_witness :
  (∃ s ts', @synchronize_topk Z _ echo_ext _ _ (conf (CTopK half) false) both_hooks = (Ok (), s) ∧
    concat (t_data <$> ts') = [0; -7; 0; 5]) ∧
  ∃ s ts', @synchronize_topk Z _ OpsDemo.ext _ _ (conf (CTopK half) false) both_hooks = (Ok (), s) ∧
    Forall2 (has_grad s) [0%nat; 1%nat] ts' ∧ concat (t_data <$> ts') = [0; 0; -14; 10].
Proof.
  split.
  - destruct (@synchronize_topk_keeps Z _ echo_ext _ _ echo_laws _ (conf (CTopK half) false) half
      eq_refl eq_refl both_hooks [gr0; gr1] 4%nat buf [3; -7; 1; 5] (sent_message half [3; -7; 1; 5])) as (s & ts' & E & _ & _ & _ & Hk & _).
    + apply both_hooks_ready; done.
    + done.
    + by right.
    + exists s, ts'. split; [exact E|]. rewrite Hk by done. reflexivity.
  - destruct (@synchronize_topk_keeps Z _ OpsDemo.ext _ _ OpsDemo.ext_laws _ (conf (CTopK half) false) half
      eq_refl eq_refl both_hooks [gr0; gr1] 4%nat buf [3; -7; 1; 5] [2; 6; -14; 10]) as (s & ts' & E & Hg & Hu & _).
    + apply both_hooks_ready; done.
    + intros h. by vm_compute.
    + left. by repeat constructor.
    + exists s, ts'. split; [exact E|]. split; [exact Hg|]. rewrite Hu. by vm_compute.
Defined.

(** 16-bit compression: the context is an element type, which is true and cannot
    be indexed. *)
Example fp16_synchronize_raises :
  (dist_synchronize (conf CFP16 false) 1 0 both_hooks).1 = Raise TypeError.
Proof. vm_compute. reflexivity. Qed.

(** Asynchronous mode without compression: the context is [None]. *)
Example async_step_raises :
  (dist_step (conf CNone true) 2 0 (mret 0) both_hooks).1 = Raise TypeError.
Proof. vm_compute. reflexivity. Qed.
