(* ===== verification/IncaInit.v ===== *)
(** * The earlier optimizer, [byteps/torch/inca_init.py]

    A variant of [_DistributedOptimizer] in which the norm is always exchanged
    through a push-pull of one slot per worker, and top-k compression goes
    through the layer-by-layer path of INCA. No compressor name is handed to the
    extension: [_compressor_name] is the empty string in its configuration. What
    is the same as in [__init__.py] is shared with it. *)

From S2P Require Import Prelude PyStr Tensor TorchOps TorchCompression DistOptim DistOptimProofs.

Module Inca.
Section inca.
Context {R : Type} `{Scalar R, !Extension R, !TorchLib R, !Backend R}.
Implicit Types (s : optim (R := R)) (p : param).

Definition set_max_info_tensor t s : optim :=
  Optim (d_world s) (d_grad s) (d_data s) (_handles s) (_push_pull_delay s)
    (backward_passes_per_step s) (_last_insert_tensor s) (_name_to_next s) (_compression_info s)
    (_should_sync s) (topk_tensor s) (inca_tensor s) t.

(** [__init__] *)
Definition dist_init (e : env) (groups : list (list param)) (requires_grad : param → bool)
    (named : option (list np_item)) (c : compression) (bpps : Z) (num_workers : nat) :
    M optim config :=
  async ← lift (enable_async e);
  '(inst, names, pairs) ← lift (check_named named groups);
  modify (set_delay (foldl (λ d '(_, v), od_set v bpps d) [] (sorted_pairs pairs)) bpps);;
  modify (set_handles []);;
  modify (set_should_sync true);;
  _register_hooks requires_grad groups;;
  modify (set_next None ∅);;
  l ← in_ops (alloc_t (Tensor float32 [num_workers] (vzero num_workers) true true));
  modify (set_max_info_tensor (Some l));;
  declare_all (sorted_str names.*2);;
  mret (Config c "" true async inst names
          (list_to_set (filter (λ p, requires_grad p = true) (concat groups)))).

(** [_push_pull_max_norm]: slot [worker_id] of the vector gets the norm, the
    others zero. *)
Definition _push_pull_max_norm (num_workers worker_id : nat) (max_norm : R) : M optim Z :=
  s ← get;
  l ← lift (or_raise AttributeError (max_info_tensor s));
  t ← in_ops (read_t l);
  if decide (num_workers ≤ length (t_data t) ∧ worker_id < length (t_data t))%nat then
    in_ops (write_t l (with_data
      (<[worker_id := max_norm]> (vzero num_workers ++ drop num_workers (t_data t))) t));;
    byteps_push_pull l false "Gradient.max_info" ""
  else raise IndexError.

(** The exchange at the start of the batched branch of [synchronize]. *)
Definition exchange_norm (num_workers worker_id : nat) (grads : list R) : M optim () :=
  batch_push_pull_info grads;;
  s ← get;
  i ← lift (or_raise KeyError (_compression_info s));
  h ← _push_pull_max_norm num_workers worker_id (max_norm i);
  o ← ops_synchronize (Some h);
  d ← output_data o;
  m ← lift (or_raise RuntimeError (max_list d));
  modify (set_info (Info (max_coor i) (min_coor i) (if s_eqb m s_zero then max_norm i else m))).

(** The batched branch, for INCA and for top-k. *)
Definition synchronize_batched (cf : config) (num_workers worker_id : nat) : M optim () :=
  s ← get;
  let ps := od_keys (_handles s) in
  grads ← cat_grads ps;
  exchange_norm num_workers worker_id (t_data grads);;
  gl ← in_ops (alloc_t grads);
  s ← get;
  '(bc, cx) ← in_world (compress (_compression cf) gl (Some "batch_grads") (_compression_info s));
  batch ← in_ops (read_t bc);
  offset ← assign_slices batch
    (λ p, h ← _afterbatch_push_pull_grad_async cf p;
          modify (λ s, set_handles (od_set p (h, cx) (_handles s)) s)) 0%nat ps;
  outs ← collect_outputs ps;
  let aggregated := concat outs ++ drop offset (t_data batch) in
  if _enable_async cf then mret ()
  else
    al ← in_ops (alloc_t (Tensor float32 [length aggregated] aggregated (t_cuda batch) true));
    '(bd, cx) ← in_world (decompress (_compression cf) al cx);
    lift (read_overheads cx);;
    dec ← in_ops (read_t bd);
    assign_slices dec (λ _, mret ()) 0%nat ps;;
    mret ().

Definition dist_synchronize (cf : config) (num_workers worker_id : nat) : M optim () :=
  s ← get;
  let missing_p := _requires_update cf ∖ list_to_set (od_keys (_handles s)) in
  for_each (add_missing cf) (set_order missing_p);;
  (match _compression cf with
   | NewINCA _ _ | OldINCA _ _ | CTopK _ => synchronize_batched cf num_workers worker_id
   | _ => synchronize_each cf
   end);;
  modify (set_handles []).

Definition dist_step {L} (cf : config) (num_workers worker_id : nat) (super_step : M optim L) :
    M optim L :=
  if _enable_async cf then
    s ← get;
    old_weight_map ← save_weights (od_keys (_handles s));
    loss ← super_step;
    s ← get;
    for_each (async_push cf old_weight_map) (od_keys (_handles s));;
    dist_synchronize cf num_workers worker_id;;
    mret loss
  else
    s ← get;
    (if _should_sync s then dist_synchronize cf num_workers worker_id else mret ());;
    super_step.

(** ** The norm exchange *)

(** What worker [j] contributes when its norm is [norms j]. *)
Definition one_hot (W : nat) (norms : nat → R) (j : nat) : list R := <[j := norms j]> (vzero W).

Lemma vsum_snoc `{!ScalarLaws R} n (ls : list (list R)) x :
  length x = n → vsum n (ls ++ [x]) = vadd (vsum n ls) x.
Proof.
  intros Hx. induction ls as [|l ls IH]; simpl.
  - rewrite <-Hx. by rewrite vadd_zero_r, vadd_zero_l.
  - by rewrite IH, vadd_assoc.
Qed.

Lemma vsum_one_hot `{!ScalarLaws R} W norms k :
  (k ≤ W)%nat →
  vsum W (one_hot W norms <$> seq 0 k) = (norms <$> seq 0 k) ++ vzero (W - k).
Proof.
  induction k as [|k IH]; intros Hk.
  { simpl. by rewrite Nat.sub_0_r. }
  rewrite seq_S, !fmap_app. simpl.
  rewrite vsum_snoc by (unfold one_hot; by rewrite length_insert, length_vzero).
  rewrite IH by lia. apply list_eq. intros i. unfold vadd, one_hot. rewrite lookup_zip_with.
  destruct (decide (i < k)%nat) as [Hi|Hi].
  { rewrite !lookup_app_l by (rewrite ?length_app, length_fmap, length_seq; lia).
    rewrite list_lookup_fmap, lookup_seq_lt by done. simpl.
    rewrite list_lookup_insert_ne by lia. unfold vzero. rewrite lookup_replicate_2 by lia. simpl.
    by rewrite s_add_0_r. }
  rewrite (lookup_app_r _ (vzero (W - k))) by (rewrite length_fmap, length_seq; lia).
  rewrite length_fmap, length_seq. unfold vzero. destruct (decide (i = k)) as [->|Hne].
  - rewrite Nat.sub_diag. rewrite lookup_replicate_2 by lia. simpl.
    rewrite list_lookup_insert_eq by (rewrite length_replicate; lia). simpl. rewrite s_add_0_l.
    rewrite lookup_app_l by (rewrite length_app, length_fmap, length_seq; simpl; lia).
    rewrite lookup_app_r by (rewrite length_fmap, length_seq; lia).
    by rewrite length_fmap, length_seq, Nat.sub_diag.
  - rewrite (lookup_app_r _ (replicate (W - S k) s_zero))
      by (rewrite length_app, length_fmap, length_seq; simpl; lia).
    rewrite length_app, length_fmap, length_seq. simpl.
    destruct (decide (i < W)%nat).
    + rewrite !lookup_replicate_2 by lia. simpl. rewrite list_lookup_insert_ne by lia.
      rewrite lookup_replicate_2 by lia. simpl. by rewrite s_add_0_l.
    + rewrite !lookup_ge_None_2; [done|..]; rewrite ?length_insert, ?length_replicate; lia.
Qed.

Lemma max_list_spec `{!ScalarLaws R} (l : list R) m :
  max_list l = Some m → m ∈ l ∧ ∀ x, x ∈ l → s_leb x m = true.
Proof.
  destruct l as [|x l]; simpl; [done|]. intros [= <-]. revert x.
  induction l as [|y l IH]; intros x; simpl.
  { split; [left|]. intros z ->%list_elem_of_singleton. destruct (s_leb_total x x); done. }
  destruct (IH (if s_leb y x then x else y)) as [Hin Hall].
  set (m := foldl _ _ l) in *. split.
  - destruct (s_leb y x); set_solver.
  - intros z [->|[->|Hz]%elem_of_cons]%elem_of_cons.
    + destruct (s_leb y x) eqn:E; [apply Hall; left|].
      destruct (s_leb_total x y) as [Hxy|Hxy]; [|congruence].
      eapply s_leb_trans; [exact Hxy|]. apply Hall. left.
    + destruct (s_leb y x) eqn:E; [|apply Hall; left].
      eapply s_leb_trans; [exact E|]. apply Hall. left.
    + apply Hall. by right.
Qed.

(** C37: The norm exchange makes all workers use the same value: after it, the
    recorded norm of every worker is a norm of one of the workers and at least as
    large as every worker's (when that maximum is not zero), and nothing is left
    pending. *)
Theorem max_norm_agreement `{!ScalarLaws R} W me (norms : nat → R) s (l : loc) t (grads : list R) :
  ops_inv (d_world s).1 → c_initialized (o_clib (d_world s).1) = true →
  max_info_tensor s = Some l → o_heap (d_world s).1 !! l = Some t → supported t →
  length (t_data t) = W → (me < W)%nat → grads ≠ [] → norms me = norm2 grads →
  reduce (c_last_handle (o_clib (d_world s).1) + 1) (GetOpName "Gradient.max_info") false ""
    (one_hot W norms me) = vsum W (one_hot W norms <$> seq 0 W) →
  (∃ j, (j < W)%nat ∧ s_eqb (norms j) s_zero = false ∧ s_leb s_zero (norms j) = true) →
  ∃ s' i, exchange_norm W me grads s = (Ok (), s') ∧ _compression_info s' = Some i ∧
    (∃ j, (j < W)%nat ∧ max_norm i = norms j) ∧
    (∀ j, (j < W)%nat → s_leb (norms j) (max_norm i) = true) ∧
    TorchOps._handle_map (d_world s').1 = TorchOps._handle_map (d_world s).1.
Proof.
  intros Hinv Hi Hl Ht Hsup HW Hme Hg Hn Hred (j0 & Hj0 & Hnz & Hpos).
  assert (c_results (o_clib (d_world s).1) !! (c_last_handle (o_clib (d_world s).1) + 1) = None) as Hnew.
  { apply eq_None_not_Some. intros Hs%(inv_bound _ Hinv). lia. }
  apply (inv_agree _ Hinv) in Hnew as Hnew'.
  rewrite vsum_one_hot, Nat.sub_diag, app_nil_r in Hred by lia.
  destruct (max_list (norms <$> seq 0 W)) as [m|] eqn:Hm; [|destruct W; [lia|done]].
  destruct (max_list_spec _ _ Hm) as [Hin Hall].
  apply list_elem_of_fmap in Hin as (jm & -> & [_ Hjm]%elem_of_seq).
  assert (∀ j, (j < W)%nat → s_leb (norms j) (norms jm) = true) as Hmax.
  { intros j Hj. apply Hall. apply list_elem_of_fmap. exists j. split; [done|]. apply elem_of_seq. lia. }
  assert (s_eqb (norms jm) s_zero = false) as Hz.
  { apply not_true_iff_false. intros E%s_eqb_eq. specialize (Hmax j0 Hj0). rewrite E in Hmax.
    apply not_true_iff_false in Hnz. apply Hnz, s_eqb_eq. by apply s_leb_antisym. }
  unfold exchange_norm. destruct grads as [|g0 gs]; [done|].
  unfold batch_push_pull_info.
  erewrite bind_Ok by (do 2 (erewrite bind_Ok by reflexivity); reflexivity).
  erewrite bind_Ok by reflexivity. erewrite bind_Ok by reflexivity. rewrite <-Hn. cbn [max_norm max_coor min_coor].
  unfold _push_pull_max_norm. erewrite bind_Ok.
  2: { erewrite bind_Ok by reflexivity. erewrite bind_Ok by (unfold lift; simpl; rewrite Hl; reflexivity).
       erewrite bind_Ok by (by apply in_ops_read). rewrite decide_True by lia.
       erewrite bind_Ok by (apply in_ops_eq; reflexivity).
       unfold byteps_push_pull. apply in_ops_eq. unfold push_pull_async_inplace.
       erewrite bind_Ok by reflexivity. rewrite drop_ge, app_nil_r by lia.
       apply (do_push_pull_async_ok _ _ _ _ _ _ _ (with_data (one_hot W norms me) t));
         [simpl; apply lookup_insert_eq|exact Hsup|exact Hi]. }
  erewrite bind_Ok.
  2: { unfold ops_synchronize. apply in_ops_eq.
       eapply synchronize_ok; [apply lookup_insert_eq..|simpl; apply lookup_insert_eq]. }
  erewrite bind_Ok.
  2: { unfold output_data. erewrite bind_Ok by reflexivity.
       erewrite bind_Ok by (apply in_ops_read; simpl; apply lookup_insert_eq). reflexivity. }
  cbn [t_data with_data k_name k_average k_compressor k_input o_clib d_world set_info set_world].
  erewrite bind_Ok.
  2: { unfold lift. simpl. simpl in Hred. rewrite Hred, Hm. reflexivity. }
  rewrite Hz. do 2 eexists. split; [reflexivity|]. simpl. split_and!; [done| | |].
  - exists jm. split; [lia|done].
  - exact Hmax.
  - by apply delete_insert_id.
Qed.

(** In [__init__.py], which never creates [max_info_tensor], the same exchange
    raises an [AttributeError] whenever INCA is used with the BytePS servers. *)
Theorem norm_buffer_missing (cf : config) W me (grads : list R) s :
  max_info_tensor s = None → _use_bps_server cf = true → grads ≠ [] →
  (DistOptim.exchange_norm cf W me grads s).1 = Raise AttributeError.
Proof.
  intros Hn Hu Hg. destruct grads as [|g0 gs]; [done|].
  unfold DistOptim.exchange_norm, batch_push_pull_info.
  erewrite bind_Ok by (do 2 (erewrite bind_Ok by reflexivity); reflexivity).
  erewrite bind_Ok by reflexivity. erewrite bind_Ok by reflexivity. rewrite Hu. simpl negb. cbv iota.
  unfold DistOptim._push_pull_max_norm.
  match goal with |- (?m ?st).1 = _ => cut (m st = (Raise AttributeError, st)); [by intros ->|] end.
  apply bind_Raise. erewrite bind_Ok by reflexivity. apply bind_Raise. unfold lift. simpl. by rewrite Hn.
Qed.
End inca.

(** ** Concrete instance

    Worker 0 of two, with gradients of norm 5; worker 1 has norm 9. *)
Module Demo.
Import OpsDemo CompressionDemo.
#[export] Instance backend : Backend Z := {|
  inca_compress l _ := l; inca_decompress l n := take n l; c_send_norm _ x := x; set_order := elements
|}.
Definition ext : Extension Z := {|
  reduce _ _ _ _ l := zip_with Z.add l [0; 9];
  c_attrs := @c_attrs Z OpsDemo.ext; uninit := @uninit Z OpsDemo.ext
|}.
Definition vec : tensor Z := Tensor float32 [2%nat] [0; 0] true true.
Definition ops1 : ops Z := Ops {[0%nat := vec]} 1 OpsDemo.lib ∅ ∅ 0 ∅.
Definition st (l : option loc) : optim := Optim (ops1, ∅) ∅ ∅ [] [] 1 None ∅ None true None None l.

Lemma inca_ops_inv : ops_inv ops1.
Proof.
  split; simpl; [done|intros; simplify_map_eq|intros h [? E]; simplify_map_eq
    |intros h k E; simplify_map_eq|].
  intros l. rewrite lookup_singleton_is_Some. lia.
Qed.

Lemma max_norm_agreement_witness : ∃ s i,
  @exchange_norm Z _ ext 2 0 [3; 4] (st (Some 0%nat)) = (Ok (), s) ∧
  _compression_info s = Some i ∧ (∀ j, (j < 2)%nat → Z.leb (nth j [5; 9] 0) (max_norm i) = true).
Proof.
  destruct (@max_norm_agreement Z _ ext _ 2 0 (λ j, nth j [5; 9] 0) (st (Some 0%nat)) 0%nat vec [3; 4])
    as (s & i & E & Hi & _ & Hm & _).
  - exact inca_ops_inv.
  - reflexivity.
  - reflexivity.
  - reflexivity.
  - split; vm_compute; reflexivity.
  - reflexivity.
  - lia.
  - discriminate.
  - reflexivity.
  - reflexivity.
  - exists 1%nat. split; [lia|split; reflexivity].
  - exists s, i. split; [exact E|]. split; [exact Hi|exact Hm].
Defined.

Lemma norm_buffer_missing_witness :
  (DistOptim.exchange_norm (Config (NewINCA 4 true) "inca" true false true [] ∅) 2 0 [3; 4] (st None)).1
  = Raise AttributeError.
Proof. apply norm_buffer_missing; [reflexivity|reflexivity|discriminate]. Defined.
End Demo.
End Inca.
