(* ===== verification/Broadcast.v ===== *)
(** * Broadcasts, [byteps/torch/__init__.py]

    [broadcast_parameters], [broadcast_object] and [broadcast_optimizer_state].
    A broadcast is a push-pull without averaging in which every worker but the
    root contributes zeros. *)

From Stdlib Require Import Ascii.
From S2P Require Import Prelude PyStr Tensor TorchOps DistOptim.

(** The argument of [broadcast_parameters]: a dictionary, a list whose entries
    are pairs of a name (or [None]) and a tensor or just tensors, or something
    else. *)
Inductive bc_item := BCPair (name : option string) (p : loc) | BCTensor (p : loc).
Inductive bc_params :=
  | BCDict (items : list (string * loc))
  | BCList (items : list bc_item)
  | BCOther.

Section broadcast.
Context {R : Type} `{Scalar R, !Extension R}.

Definition bc_normal (params : bc_params) : res (list (option string * loc)) :=
  match params with
  | BCDict items => Ok ((λ '(n, p), (Some n, p)) <$> sorted_pairs items)
  | BCList items => Ok ((λ i, match i with BCPair n p => (n, p) | BCTensor p => (None, p) end) <$> items)
  | BCOther => Raise ValueError
  end.

(** [p.fill_(0)] *)
Definition fill_zero (p : loc) : M (ops R) () :=
  t ← read_t p; write_t p (with_data (vzero (length (t_data t))) t).

(** The name of the operation: an empty name counts as none. *)
Definition bc_name (prefix : string) (name : option string) : option string :=
  match name with
  | Some n => if decide (n = "") then None else Some (prefix +:+ n)
  | None => None
  end.

Definition broadcast_one (rank root_rank : Z) (prefix : string) (np : option string * loc) :
    M (ops R) () :=
  let '(name, p) := np in
  (if decide (rank ≠ root_rank) then fill_zero p else mret ());;
  handle ← push_pull_async_inplace p false (bc_name prefix name) "";
  synchronize (Some handle);;
  mret ().

Definition broadcast_parameters (rank root_rank : Z) (prefix : string) (params : bc_params) :
    M (ops R) () :=
  ps ← lift (bc_normal params);
  for_each (broadcast_one rank root_rank prefix) ps.

(** ** [broadcast_object]

    [dump] and [load] are cloudpickle's, on the bytes as tensor elements;
    [type_name_of] is [type(obj).__name__]. *)
Section object.
Context {O : Type} (dump : O → list R) (load : list R → option O) (type_name_of : O → string).

Definition broadcast_object (rank root_rank : Z) (obj : O) (name : option string) : M (ops R) O :=
  let name := default (type_name_of obj) name in
  t ← (if decide (rank = root_rank) then
         t ← alloc_t (Tensor uint8 [length (dump obj)] (dump obj) false true);
         sz ← alloc_t (Tensor int32 [1%nat] [s_of_Z (Z.of_nat (length (dump obj)))] false true);
         broadcast_parameters rank root_rank "Size." (BCList [BCPair (Some (name +:+ ".sz")) sz]);;
         mret t
       else
         sz ← alloc_t (Tensor int32 [1%nat] [s_zero] false true);
         broadcast_parameters rank root_rank "Size." (BCList [BCPair (Some (name +:+ ".sz")) sz]);;
         szt ← read_t sz;
         n ← lift (or_raise IndexError (head (t_data szt)));
         let n := Z.to_nat (s_to_Z n) in
         alloc_t (Tensor uint8 [n] (uninit n) false true));
  broadcast_parameters rank root_rank "Parameter." (BCList [BCPair (Some (name +:+ ".t")) t]);;
  if decide (rank ≠ root_rank) then
    tt ← read_t t;
    lift (or_raise RuntimeError (load (t_data tt)))
  else mret obj.
End object.

(** ** [broadcast_optimizer_state]

    A state dictionary: the options and parameter ids of every group, and the
    named entries of every parameter that has a state. [V] is the type of the
    values that are not tensors. *)
Section optimizer_state.
Context {V : Type}.

Inductive entry := ETensor (p : loc) | EScalar (v : V).
Record state_dict : Type := StateDict {
  sd_state : odict nat (odict string entry);
  sd_groups : list (odict string V * list nat)
}.

(** Where a received scalar goes: the callbacks. *)
Inductive target := TOption (index : nat) (key : string) | TState (pid : nat) (name : string).

Definition assign (sd : state_dict) (tg : target) (v : V) : state_dict :=
  match tg with
  | TOption i k =>
      StateDict (sd_state sd) (alter (λ '(opts, pids), (od_set k v opts, pids)) i (sd_groups sd))
  | TState pid name =>
      StateDict (match od_get pid (sd_state sd) with
                 | Some es => od_set pid (od_set name (EScalar v) es) (sd_state sd)
                 | None => sd_state sd
                 end) (sd_groups sd)
  end.

(** The tensors, scalars and callbacks collected so far, and [occurrences]. *)
Record gathered : Type := Gathered {
  g_params : list (string * loc);
  g_scalars : odict string V;
  g_callbacks : odict string target;
  g_occ : gmap string Z
}.

(** ['%s.%d' % (name, i)] *)
Definition indexed (name : string) (i : Z) : string := name +:+ "." +:+ py_str i.

(** [torch.Tensor([option_value])] is built and not used; it fails for a value
    that is not numeric. *)
Definition gather_option (numeric : V → bool) (index : nat) (g : gathered) (kv : string * V) :
    res gathered :=
  let '(k, v) := kv in
  if decide (k = "params") then Ok g
  else if numeric v then
    let key := indexed k (Z.of_nat index) in
    Ok (Gathered (g_params g) (od_set key v (g_scalars g))
          (od_set key (TOption index k) (g_callbacks g)) (g_occ g))
  else Raise TypeError.

Definition gather_entry (pid : nat) (g : gathered) (ne : string * entry) : gathered :=
  let '(name, e) := ne in
  let n := default 0 (g_occ g !! name) + 1 in
  let occ := <[name := n]> (g_occ g) in
  let key := indexed name n in
  match e with
  | ETensor p => Gathered (g_params g ++ [(key, p)]) (g_scalars g) (g_callbacks g) occ
  | EScalar v => Gathered (g_params g) (od_set key v (g_scalars g))
                   (od_set key (TState pid name) (g_callbacks g)) occ
  end.

Definition gather_pid (sd : state_dict) (g : gathered) (pid : nat) : gathered :=
  match od_get pid (sd_state sd) with
  | None => g
  | Some es => foldl (gather_entry pid) g es
  end.

(** [foldl] in the error monad. *)
Fixpoint foldl_res {A B} (f : B → A → res B) (b : B) (l : list A) : res B :=
  match l with [] => Ok b | x :: l' => b' ← f b x; foldl_res f b' l' end.

Definition gather_group (numeric : V → bool) (sd : state_dict) (g : gathered)
    (ig : nat * (odict string V * list nat)) : res gathered :=
  let '(index, (opts, pids)) := ig in
  g ← foldl_res (gather_option numeric index) g opts;
  Ok (foldl (gather_pid sd) g pids).

Definition gather_all (numeric : V → bool) (sd : state_dict) : res gathered :=
  foldl_res (gather_group numeric sd) (Gathered [] [] [] ∅)
    (imap (λ i g, (i, g)) (sd_groups sd)).

(** The callbacks are applied to the received scalars. *)
Definition apply_callbacks (cbs : odict string target) (sd : state_dict) (scalars : odict string V) :
    res state_dict :=
  foldl_res (λ sd '(key, v),
    tg ← or_raise KeyError (od_get key cbs); Ok (assign sd tg v)) sd scalars.

(** [init_state] is the initialisation of an optimizer without state: zero
    gradients and one step of the wrapped optimizer. *)
Definition broadcast_optimizer_state (dump : odict string V → list R)
    (load : list R → option (odict string V)) (numeric : V → bool) (is_lbfgs : bool)
    (rank root_rank : Z) (prefix : string) (init_state : M (ops R) state_dict) (sd : state_dict) :
    M (ops R) state_dict :=
  if is_lbfgs then raise ValueError else
  sd ← (match sd_state sd with [] => init_state | _ => mret sd end);
  match sd_state sd with
  | [] => mret sd
  | _ =>
      g ← lift (gather_all numeric sd);
      broadcast_parameters rank root_rank prefix
        (BCList ((λ '(k, p), BCPair (Some k) p) <$> g_params g));;
      scalars ← broadcast_object dump load (λ _, "dict") rank root_rank (g_scalars g) None;
      lift (apply_callbacks (g_callbacks g) sd scalars)
  end.
End optimizer_state.

(** ** What a broadcast does on one worker *)

Lemma fill_zero_ok (p : loc) (s : ops R) t :
  o_heap s !! p = Some t →
  fill_zero p s = (Ok (), set_heap (<[p := with_data (vzero (length (t_data t))) t]> (o_heap s)) s).
Proof.
  intros E. unfold fill_zero. erewrite bind_Ok; [reflexivity|].
  unfold read_t, mbind, M_bind, get, lift. by rewrite E.
Qed.

(** What worker [rank] contributes. *)
Definition contribution (rank root_rank : Z) (l : list R) : list R :=
  if decide (rank = root_rank) then l else vzero (length l).

Lemma set_heap_inv (s : ops R) p t t' :
  ops_inv s → o_heap s !! p = Some t → ops_inv (set_heap (<[p := t']> (o_heap s)) s).
Proof.
  intros [Ha Ho Hb Hal Hf] Hp. split; simpl; [done|done|done| |].
  - intros h k Hk. apply lookup_insert_is_Some'. right. by eapply Hal.
  - intros l. rewrite lookup_insert_is_Some'. intros [<-|Hl]; apply Hf; [by rewrite Hp|done].
Qed.

Lemma broadcast_one_ok rank root prefix name p (s : ops R) t :
  ops_inv s → o_heap s !! p = Some t → supported t → c_initialized (o_clib s) = true →
  ∃ s', broadcast_one rank root prefix (name, p) s = (Ok (), s') ∧
    o_heap s' = <[p := with_data (reduce (c_last_handle (o_clib s) + 1)
        (GetOpName (encode (bc_name prefix name))) false "" (contribution rank root (t_data t))) t]>
        (o_heap s) ∧
    c_last_handle (o_clib s') = c_last_handle (o_clib s) + 1 ∧
    TorchOps._handle_map s' = TorchOps._handle_map s ∧ c_results (o_clib s') = c_results (o_clib s) ∧
    c_initialized (o_clib s') = true ∧ o_next s' = o_next s ∧ ops_inv s'.
Proof.
  intros Hinv Hp Hsup Hi. unfold broadcast_one, contribution.
  assert (∃ s0 t0, (if decide (rank ≠ root) then fill_zero p else mret ()) s = (Ok (), s0) ∧
    o_heap s0 = <[p := t0]> (o_heap s) ∧ t0 = with_data (contribution rank root (t_data t)) t ∧
    o_next s0 = o_next s ∧ o_clib s0 = o_clib s ∧
    TorchOps._handle_map s0 = TorchOps._handle_map s ∧ ops_inv s0) as (s0 & t0 & E0 & Hh & Ht0 & Hn & Hc & Hm & Hinv0).
  { unfold contribution. destruct (decide (rank = root)) as [Hr|Hr].
    - rewrite decide_False by tauto. exists s, t.
      split_and!; [done|by rewrite insert_id|by destruct t|done..].
    - rewrite decide_True by done. do 2 eexists. rewrite (fill_zero_ok p s t Hp).
      split_and!; try done. by eapply set_heap_inv. }
  erewrite bind_Ok by exact E0.
  assert (c_results (o_clib s0) !! (c_last_handle (o_clib s0) + 1) = None) as Hnw.
  { apply eq_None_not_Some. intros Hs%(inv_bound _ Hinv0). lia. }
  pose proof Hnw as Hnw'. apply (inv_agree _ Hinv0) in Hnw'.
  assert (o_heap s0 !! p = Some t0) as Hp0 by (by rewrite Hh, lookup_insert_eq).
  assert (supported t0) as Hsup0 by (by rewrite Ht0).
  erewrite bind_Ok.
  2: { unfold push_pull_async_inplace. erewrite bind_Ok by reflexivity.
       apply (do_push_pull_async_ok _ _ _ _ _ _ _ t0); [done|done|by rewrite Hc]. }
  erewrite bind_Ok.
  2: { eapply (synchronize_ok _ _ _ _ _ _ t0); [apply lookup_insert_eq..|exact Hp0]. }
  eexists. split; [reflexivity|]. simpl. rewrite Hc, Hm, Hh in *. split_and!.
  - rewrite insert_insert_eq, Ht0. unfold contribution. reflexivity.
  - done.
  - by apply delete_insert_id.
  - by apply delete_insert_id.
  - done.
  - done.
  - apply completed_inv; simpl; [|rewrite Hc; apply lookup_insert_eq|by rewrite Hh, lookup_insert_eq].
    apply submitted_inv; [done|]. rewrite Hh, lookup_insert_eq. by eexists.
Qed.

(** ** All workers together

    [V j] is worker [j]'s value of one parameter; the reply to an operation
    without averaging is the sum of the [W] workers' contributions. *)
Definition contributions (W root : nat) (V : nat → list R) : list (list R) :=
  (λ j, contribution (Z.of_nat j) (Z.of_nat root) (V j)) <$> seq 0 W.

Lemma contributions_zero root V n from k :
  (∀ j, (from ≤ j < from + k)%nat → j ≠ root ∧ length (V j) = n) →
  (λ j, contribution (Z.of_nat j) (Z.of_nat root) (V j)) <$> seq from k = replicate k (vzero n).
Proof.
  revert from. induction k as [|k IH]; intros from Hj; simpl; [done|].
  destruct (Hj from) as [Hne Hl]; [lia|]. unfold contribution at 1.
  rewrite decide_False by lia. rewrite Hl. f_equal. apply IH. intros j Hjk. apply Hj. lia.
Qed.

Lemma contributions_sum `{!ScalarLaws R} W root V n :
  (root < W)%nat → (∀ j, (j < W)%nat → length (V j) = n) → vsum n (contributions W root V) = V root.
Proof.
  intros Hr Hl. unfold contributions.
  replace W with (root + S (W - root - 1))%nat by lia. rewrite seq_app, fmap_app. simpl.
  rewrite (contributions_zero root V n 0 root), (contributions_zero root V n (S root)).
  - unfold contribution. rewrite decide_True by lia. apply vsum_single. by apply Hl.
  - intros j Hj. split; [lia|]. apply Hl. lia.
  - intros j Hj. split; [lia|]. apply Hl. lia.
Qed.

(** Worker [me] broadcasts the parameters [ps]; [V i j] is worker [j]'s value of
    the [i]-th. *)
Record bc_ready (W root me : nat) (prefix : string) (ps : list (option string * loc))
    (V : nat → nat → list R) (s : ops R) : Prop := {
  bc_inv : ops_inv s;
  bc_init : c_initialized (o_clib s) = true;
  bc_root : (root < W)%nat;
  bc_nodup : NoDup ps.*2;
  bc_here i np : ps !! i = Some np →
    ∃ t, o_heap s !! np.2 = Some t ∧ supported t ∧ t_data t = V i me;
  bc_same i np j : ps !! i = Some np → (j < W)%nat → length (V i j) = length (V i root);
  bc_reply i np : ps !! i = Some np →
    reduce (c_last_handle (o_clib s) + 1 + Z.of_nat i) (GetOpName (encode (bc_name prefix np.1)))
      false "" (contribution (Z.of_nat me) (Z.of_nat root) (V i me))
    = vsum (length (V i root)) (contributions W root (V i))
}.

Record broadcasted (root : nat) (ps : list (option string * loc)) (V : nat → nat → list R)
    (s s' : ops R) : Prop := {
  bd_inv : ops_inv s';
  bd_init : c_initialized (o_clib s') = true;
  bd_last : c_last_handle (o_clib s') = c_last_handle (o_clib s) + Z.of_nat (length ps);
  bd_next : o_next s' = o_next s;
  bd_value i np t : ps !! i = Some np → o_heap s !! np.2 = Some t →
    o_heap s' !! np.2 = Some (with_data (V i root) t);
  bd_rest l : l ∉ ps.*2 → o_heap s' !! l = o_heap s !! l;
  bd_pending : TorchOps._handle_map s' = TorchOps._handle_map s;
  bd_tasks : c_results (o_clib s') = c_results (o_clib s)
}.

Lemma broadcast_loop `{!ScalarLaws R} W root me prefix ps V s :
  bc_ready W root me prefix ps V s →
  ∃ s', for_each (broadcast_one (Z.of_nat me) (Z.of_nat root) prefix) ps s = (Ok (), s') ∧
    broadcasted root ps V s s'.
Proof.
  intros [B1 B2 B3 B4 B5 B6 B7].
  apply (for_each_inv _ (λ dn, broadcasted root dn V s)).
  { split; try done. simpl. lia. }
  intros dn [name p] rest s1 Hps [D1 D2 D3 D4 D5 D6 D7 D8].
  assert (ps !! length dn = Some (name, p)) as Hlk by (rewrite Hps; by apply list_lookup_middle).
  assert (p ∉ dn.*2) as Hpd.
  { rewrite Hps, fmap_app in B4. apply NoDup_app in B4 as (_ & Hdis & _). intros Hin.
    apply (Hdis p Hin). left. }
  destruct (B5 _ _ Hlk) as (t & Ht & Hsup & HV). simpl in Ht.
  destruct (broadcast_one_ok (Z.of_nat me) (Z.of_nat root) prefix name p s1 t)
    as (s2 & E & Hh & Hl & Hm & Hr & Hi & Hn & Hinv); [done|by rewrite D6|done|done|].
  exists s2. split; [exact E|].
  assert (reduce (c_last_handle (o_clib s1) + 1) (GetOpName (encode (bc_name prefix name))) false ""
    (contribution (Z.of_nat me) (Z.of_nat root) (t_data t)) = V (length dn) root) as Hred.
  { rewrite HV, D3. pose proof (B7 _ _ Hlk) as Hb. simpl in Hb.
    replace (c_last_handle (o_clib s) + Z.of_nat (length dn) + 1)
      with (c_last_handle (o_clib s) + 1 + Z.of_nat (length dn)) by lia.
    rewrite Hb. apply contributions_sum; [done|]. intros j Hj. by apply (B6 _ _ _ Hlk). }
  rewrite Hred in Hh. split; try done; try congruence.
  - rewrite length_app, Hl, D3. simpl. lia.
  - intros i np t'. rewrite lookup_app_Some. intros [Hi'|[Hi' Hq]] Ht'.
    + assert (np.2 ≠ p) as Hne.
      { intros E'. apply Hpd. rewrite <-E'. apply list_elem_of_fmap. exists np. split; [done|].
        by eapply list_elem_of_lookup_2. }
      rewrite Hh, lookup_insert_ne by congruence. by apply D5.
    + apply list_lookup_singleton_Some in Hq as [Hi0 <-]. simpl in *.
      rewrite Hh, lookup_insert_eq. simplify_eq. do 3 f_equal. lia.
  - intros l Hl'. rewrite fmap_app in Hl'. rewrite Hh, lookup_insert_ne by set_solver.
    apply D6. set_solver.
Qed.

(** C24: [broadcast_parameters] of a dictionary or a list of different tensors
    gives every worker the root's value of every parameter, with the type and
    shape the worker's tensor had; no other tensor is written and nothing is
    left pending. *)
Theorem broadcast_parameters_spec `{!ScalarLaws R} W root me prefix params ps V s :
  bc_normal params = Ok ps → bc_ready W root me prefix ps V s →
  ∃ s', broadcast_parameters (Z.of_nat me) (Z.of_nat root) prefix params s = (Ok (), s') ∧
    (∀ i name p t, ps !! i = Some (name, p) → o_heap s !! p = Some t →
       o_heap s' !! p = Some (with_data (V i root) t)) ∧
    (∀ l, l ∉ ps.*2 → o_heap s' !! l = o_heap s !! l) ∧
    TorchOps._handle_map s' = TorchOps._handle_map s ∧ c_results (o_clib s') = c_results (o_clib s).
Proof.
  intros Hn Hr. unfold broadcast_parameters. erewrite bind_Ok by (unfold lift; by rewrite Hn).
  destruct (broadcast_loop W root me prefix ps V s Hr) as (s' & E & [D1 D2 D3 D4 D5 D6 D7 D8]).
  exists s'. split_and!; try done. intros i name p t Hi Ht. by apply (D5 i (name, p) t).
Qed.

(** A fresh tensor [t] is broadcast under [name]. *)
Lemma broadcast_fresh `{!ScalarLaws R} W root me prefix name t V (s : ops R) :
  ops_inv s → c_initialized (o_clib s) = true → (root < W)%nat → supported t → t_data t = V me →
  (∀ j, (j < W)%nat → length (V j) = length (V root)) →
  reduce (c_last_handle (o_clib s) + 1) (GetOpName (encode (bc_name prefix (Some name)))) false ""
    (contribution (Z.of_nat me) (Z.of_nat root) (V me))
    = vsum (length (V root)) (contributions W root V) →
  ∃ s', broadcast_parameters (Z.of_nat me) (Z.of_nat root) prefix
          (BCList [BCPair (Some name) (o_next s)]) (alloc_t t s).2 = (Ok (), s') ∧
    o_heap s' !! o_next s = Some (with_data (V root) t) ∧ ops_inv s' ∧
    c_initialized (o_clib s') = true ∧ c_last_handle (o_clib s') = c_last_handle (o_clib s) + 1 ∧
    o_next s' = S (o_next s) ∧
    TorchOps._handle_map s' = TorchOps._handle_map s ∧ c_results (o_clib s') = c_results (o_clib s) ∧
    (∀ l, (l < o_next s)%nat → o_heap s' !! l = o_heap s !! l).
Proof.
  intros Hinv Hi Hr Hsup HV Hlen Hred. destruct (alloc_inv s t Hinv) as [Hinv1 Hl1].
  unfold broadcast_parameters. erewrite bind_Ok by reflexivity. simpl fmap.
  destruct (broadcast_loop W root me prefix [(Some name, o_next s)] (λ _, V) (alloc_t t s).2)
    as (s' & E & [D1 D2 D3 D4 D5 D6 D7 D8]).
  { split; try done.
    - apply NoDup_singleton.
    - intros i np [_ <-]%list_lookup_singleton_Some. by exists t.
    - intros i np j _. apply Hlen.
    - intros i np [-> <-]%list_lookup_singleton_Some. simpl. rewrite Z.add_0_r. exact Hred. }
  exists s'. split_and!; try done.
  - by apply (D5 0%nat (Some name, o_next s) t).
  - intros l Hl. rewrite D6; [|simpl; set_unfold; lia]. simpl. by rewrite lookup_insert_ne by lia.
Qed.

Section object_spec.
Context {O : Type} (dump : O → list R) (load : list R → option O) (type_name_of : O → string).
Context `{!ScalarLaws R, !ExtensionLaws R}.
Context (load_dump : ∀ o, load (dump o) = Some o).

(** The size and the bytes worker [j] starts from, when the root sends [obj]. *)
Definition sizes (root : nat) (obj : O) (j : nat) : list R :=
  if decide (j = root) then [s_of_Z (Z.of_nat (length (dump obj)))] else [s_zero].
Definition bytes (root : nat) (obj : O) (j : nat) : list R :=
  if decide (j = root) then dump obj else uninit (length (dump obj)).

(** [broadcast_object] returns the root's object on every other worker, by
    the exchange of its size and then of its bytes, provided that the size is
    represented exactly and the worker uses the same operation name. *)
Theorem broadcast_object_spec W root me obj mine name (s : ops R) :
  ops_inv s → c_initialized (o_clib s) = true → (root < W)%nat → (me < W)%nat → me ≠ root →
  c_attrs (Extension := _) "byteps_torch_push_pull_async_torch_IntTensor" = true →
  c_attrs (Extension := _) "byteps_torch_push_pull_async_torch_ByteTensor" = true →
  s_to_Z (s_of_Z (R := R) (Z.of_nat (length (dump obj)))) = Z.of_nat (length (dump obj)) →
  let key := default (type_name_of mine) name in
  reduce (c_last_handle (o_clib s) + 1) (GetOpName ("Size." +:+ key +:+ ".sz")) false "" [s_zero]
    = vsum 1 (contributions W root (sizes root obj)) →
  reduce (c_last_handle (o_clib s) + 2) (GetOpName ("Parameter." +:+ key +:+ ".t")) false ""
      (vzero (length (dump obj)))
    = vsum (length (dump obj)) (contributions W root (bytes root obj)) →
  ∃ s', broadcast_object dump load type_name_of (Z.of_nat me) (Z.of_nat root) mine name s
          = (Ok obj, s') ∧
    TorchOps._handle_map s' = TorchOps._handle_map s ∧ c_results (o_clib s') = c_results (o_clib s) ∧
    (∀ l, (l < o_next s)%nat → o_heap s' !! l = o_heap s !! l).
Proof.
  intros Hinv Hi Hr Hme Hne Hint Hbyte Hexact key Hsz Hby.
  assert (sizes root obj me = [s_zero]) as Hs0 by (unfold sizes; by rewrite decide_False).
  assert (sizes root obj root = [s_of_Z (Z.of_nat (length (dump obj)))]) as Hs1
    by (unfold sizes; by rewrite decide_True).
  assert (bytes root obj me = uninit (length (dump obj))) as Hb0 by (unfold bytes; by rewrite decide_False).
  assert (bytes root obj root = dump obj) as Hb1 by (unfold bytes; by rewrite decide_True).
  assert (bc_name "Size." (Some (key +:+ ".sz")) = Some ("Size." +:+ key +:+ ".sz")) as Hbs.
  { unfold bc_name. rewrite decide_False; [done|]. by destruct key. }
  assert (bc_name "Parameter." (Some (key +:+ ".t")) = Some ("Parameter." +:+ key +:+ ".t")) as Hbt.
  { unfold bc_name. rewrite decide_False; [done|]. by destruct key. }
  unfold broadcast_object. fold key. rewrite decide_False by lia.
  destruct (broadcast_fresh W root me "Size." (key +:+ ".sz")
      (Tensor int32 [1%nat] [s_zero] false true) (sizes root obj) s)
    as (s1 & E1 & Hv1 & Hi1 & Hc1 & Hl1 & Hn1 & Hm1 & Hr1 & Hf1).
  { done. } { done. } { done. } { split; [exact Hint|done]. } { by rewrite Hs0. }
  { intros j _. rewrite Hs1. unfold sizes. by case_decide. }
  { rewrite Hbs, Hs0, Hs1. simpl encode. unfold contribution.
    rewrite decide_False by lia. exact Hsz. }
  destruct (broadcast_fresh W root me "Parameter." (key +:+ ".t")
      (Tensor uint8 [length (dump obj)] (uninit (length (dump obj))) false true) (bytes root obj) s1)
    as (s2 & E2 & Hv2 & Hi2 & Hc2 & Hl2 & Hn2 & Hm2 & Hr2 & Hf2).
  { done. } { done. } { done. } { split; [exact Hbyte|done]. } { by rewrite Hb0. }
  { intros j _. rewrite Hb1. unfold bytes. case_decide; [done|apply length_uninit]. }
  { rewrite Hbt, Hb0, Hb1, Hl1. simpl encode. unfold contribution.
    rewrite decide_False by lia. rewrite length_uninit.
    replace (c_last_handle (o_clib s) + 1 + 1) with (c_last_handle (o_clib s) + 2) by lia. exact Hby. }
  rewrite Hs1 in Hv1. rewrite Hb1 in Hv2.
  exists s2. split; [|split_and!; [by rewrite Hm2|by rewrite Hr2|]].
  - erewrite bind_Ok.
    2: { erewrite bind_Ok by reflexivity. erewrite bind_Ok by exact E1.
         erewrite bind_Ok by (unfold read_t, mbind, M_bind, get, lift; by rewrite Hv1).
         erewrite bind_Ok by reflexivity. simpl. rewrite Hexact, Nat2Z.id. reflexivity. }
    erewrite bind_Ok by exact E2. rewrite decide_True by lia.
    erewrite bind_Ok by (unfold read_t, mbind, M_bind, get, lift; by rewrite Hv2).
    unfold lift. simpl. by rewrite load_dump.
  - intros l Hl. rewrite Hf2 by (rewrite Hn1; lia). by apply Hf1.
Qed.
End object_spec.
End broadcast.

(** ** Keys of optimizer state entries *)

Definition not_dot (c : Ascii.ascii) : bool := negb (Ascii.eqb c "."%char).

Lemma last_dot_inj (a b x y : string) :
  str_forall not_dot x → str_forall not_dot y →
  a +:+ "." +:+ x = b +:+ "." +:+ y → a = b ∧ x = y.
Proof.
  intros Hx Hy. revert b. induction a as [|c a IH]; intros [|c' b] E; simpl in E.
  - split; [done|]. by injection E.
  - injection E as <- E. change (x = b +:+ "." +:+ y) in E. subst x. rewrite !str_forall_app in Hx. simpl in Hx. by rewrite andb_false_r in Hx.
  - injection E as -> E. change (a +:+ "." +:+ x = y) in E. subst y. rewrite !str_forall_app in Hy. simpl in Hy. by rewrite andb_false_r in Hy.
  - injection E as -> E. apply IH in E as [-> ->]. done.
Qed.

Lemma digit_not_dot c : is_digit c → not_dot c.
Proof.
  unfold not_dot. destruct (Ascii.eqb_spec c "."%char) as [->|]; [|done]. by vm_compute.
Qed.

Lemma indexed_inj a b m n : 0 ≤ m → 0 ≤ n → indexed a m = indexed b n → a = b ∧ m = n.
Proof.
  intros Hm Hn E. apply last_dot_inj in E as [-> E].
  - split; [done|]. by apply (inj pretty) in E.
  - apply pretty_nonneg_forall; [apply digit_not_dot|done].
  - apply pretty_nonneg_forall; [apply digit_not_dot|done].
Qed.

Section keys.
Context {V : Type}.
Implicit Types (g : gathered (V := V)).

(** Every key was made from a name and a number that has been used. *)
Record keys_ok g : Prop := {
  ko_nodup : NoDup (g_params g).*1;
  ko_used k : k ∈ (g_params g).*1 → ∃ name n, k = indexed name n ∧ 1 ≤ n ≤ default 0 (g_occ g !! name);
  ko_pos name : 0 ≤ default 0 (g_occ g !! name)
}.

Lemma gather_entry_ok pid g ne : keys_ok g → keys_ok (gather_entry pid g ne).
Proof.
  intros [K1 K2 K3]. destruct ne as [name e]. unfold gather_entry.
  set (n := default 0 (g_occ g !! name) + 1).
  assert (∀ name', default 0 (g_occ g !! name') ≤ default 0 (<[name := n]> (g_occ g) !! name')) as Hmono.
  { intros name'. rewrite lookup_insert. case_decide as E; [subst; simpl; unfold n; lia|lia]. }
  assert (∀ name', 0 ≤ default 0 (<[name := n]> (g_occ g) !! name')) as Hpos.
  { intros name'. pose proof (Hmono name'). pose proof (K3 name'). lia. }
  destruct e as [p|v]; split; simpl; try done.
  - rewrite fmap_app. apply NoDup_app. split_and!; [done| |apply NoDup_singleton].
    intros k Hk ->%list_elem_of_singleton. destruct (K2 _ Hk) as (name' & m & E & Hm).
    simpl in E. pose proof (K3 name). apply indexed_inj in E as [<- E]; unfold n in *; lia.
  - intros k. rewrite fmap_app, elem_of_app. intros [Hk| ->%list_elem_of_singleton].
    + destruct (K2 _ Hk) as (name' & m & E & Hm). exists name', m. split; [done|].
      pose proof (Hmono name'). lia.
    + exists name, n. split; [done|]. rewrite lookup_insert_eq. simpl. pose proof (K3 name).
      unfold n. lia.
  - intros k Hk. destruct (K2 _ Hk) as (name' & m & E & Hm). exists name', m. split; [done|].
    pose proof (Hmono name'). lia.
Qed.

Lemma foldl_ok {A B} (P : B → Prop) (f : B → A → B) b l :
  (∀ b x, P b → P (f b x)) → P b → P (foldl f b l).
Proof. intros Hf. revert b. induction l as [|x l IH]; intros b Hb; simpl; [done|]. auto. Qed.

Lemma foldl_res_ok {A B} (P : B → Prop) (f : B → A → res B) b b' l :
  (∀ b x b', P b → f b x = Ok b' → P b') → P b → foldl_res f b l = Ok b' → P b'.
Proof.
  intros Hf. revert b. induction l as [|x l IH]; intros b Hb; simpl; [by intros [= <-]|].
  destruct (f b x) eqn:E; simpl; [|done]. apply IH. by eapply Hf.
Qed.

(** The tensors of an optimizer's state are broadcast under different names,
    whatever the names of the entries are: the number appended to a repeated
    name cannot produce another entry's key. *)
Theorem optimizer_state_keys numeric (sd : state_dict (V := V)) g :
  gather_all numeric sd = Ok g → NoDup (g_params g).*1.
Proof.
  intros E. cut (keys_ok g); [by intros []|]. revert E. apply foldl_res_ok.
  - intros g0 [index [opts pids]] g1 Hg. unfold gather_group.
    destruct (foldl_res (gather_option numeric index) g0 opts) as [g2|] eqn:E; simpl; [|done].
    intros [= <-]. apply foldl_ok.
    + intros g3 pid Hg3. unfold gather_pid. destruct (od_get pid (sd_state sd)); [|done].
      apply foldl_ok; [intros; by apply gather_entry_ok|done].
    + revert E. apply foldl_res_ok; [|done]. intros g3 [k v] g4 [K1 K2 K3]. unfold gather_option.
      case_decide; [by intros [= <-]|]. destruct (numeric v); [|done]. by intros [= <-].
  - split; simpl; [constructor|set_solver|done].
Qed.
End keys.

(** ** Concrete instance

    Worker 1 of two; worker 0, the root, holds [5; 6] and sends the object
    [8; 9]. *)
Module BroadcastDemo.
Definition other (key : string) : list Z :=
  if String.eqb key "byteps.Parameter.b" then [5; 6]
  else if String.eqb key "byteps.Size.list.sz" then [2]
  else if String.eqb key "byteps.Parameter.list.t" then [8; 9] else [].
#[export] Instance ext : Extension Z := {|
  reduce _ key _ _ l := take (length l) (vadd l (other key) ++ l);
  c_attrs := @c_attrs Z OpsDemo.ext;
  uninit n := replicate n 7
|}.
#[export] Instance ext_laws : ExtensionLaws Z.
Proof.
  split; [intros n; apply length_replicate|]. intros h n a c l. simpl.
  rewrite length_take, length_app. lia.
Qed.

Definition vals (i j : nat) : list Z := if decide (j = 0%nat) then [5; 6] else [1; 2].

Lemma bc_ready_demo : bc_ready 2 0 1 "Parameter." [(Some "b", 0%nat)] vals OpsDemo.start.
Proof.
  split; try done; try lia.
  - destruct OpsDemo.start_inv as [A1 A2 A3 A4 A5]. by split.
  - apply NoDup_singleton.
  - intros i np [_ <-]%list_lookup_singleton_Some. exists OpsDemo.t0. by split_and!.
  - intros i np j _ Hj. unfold vals. by case_decide.
  - intros i np [-> <-]%list_lookup_singleton_Some. reflexivity.
Qed.

Lemma broadcast_parameters_spec_witness : ∃ s,
  broadcast_parameters 1 0 "Parameter." (BCDict [("b", 0%nat)]) OpsDemo.start = (Ok (), s) ∧
  o_heap s !! 0%nat = Some (with_data [5; 6] OpsDemo.t0).
Proof.
  destruct (broadcast_parameters_spec 2 0 1 "Parameter." (BCDict [("b", 0%nat)]) [(Some "b", 0%nat)]
    vals OpsDemo.start eq_refl bc_ready_demo) as (s & E & Hv & _).
  exists s. split; [exact E|]. exact (Hv 0%nat (Some "b") 0%nat OpsDemo.t0 eq_refl eq_refl).
Defined.

Lemma broadcast_object_spec_witness : ∃ s,
  broadcast_object id Some (λ _, "list") 1 0 [3] None OpsDemo.start = (Ok [8; 9], s).
Proof.
  destruct (broadcast_object_spec (O := list Z) id Some (λ _, "list") (λ o, eq_refl) 2 0 1 [8; 9] [3] None
    OpsDemo.start) as (s & E & _); try done; try lia.
  - destruct OpsDemo.start_inv as [A1 A2 A3 A4 A5]. by split.
  - by exists s.
Defined.

Definition sd : state_dict (V := Z) :=
  StateDict [(0%nat, [("step", EScalar 3); ("buf", ETensor 0%nat)]); (1%nat, [("buf", ETensor 1%nat)])]
    [([("lr", 1)], [0%nat; 1%nat])].

Lemma optimizer_state_keys_witness : ∃ g, gather_all (λ _, true) sd = Ok g ∧
  (g_params g).*1 = ["buf.1"; "buf.2"] ∧ NoDup (g_params g).*1.
Proof.
  eexists. split; [reflexivity|]. split; [reflexivity|].
  by apply (optimizer_state_keys (λ _, true) sd).
Defined.
End BroadcastDemo.
