(* ===== verification/CrossBarrier.v ===== *)
(** * Crossing the barrier, [byteps/torch/cross_barrier.py]

    [_CrossBarrier] lets a training step return before the gradients have been
    exchanged. Two threads work on shared state: the main thread (backward hooks,
    [step], forward hooks) and the poller ([_poll]). They share the event queue
    and one lock per parameter: the main thread takes a parameter's lock before
    it starts its push-pull, and the poller releases it after it has updated the
    parameter; a forward hook waits for the lock.

    The model is a transition system with one action per atomic piece of either
    thread; whether an operation has completed when it is polled is not
    determined. The updates the poller applies are in [CrossBarrierOpt]. *)

From S2P Require Import Prelude PyStr Tensor DistOptim.

(** ** The two threads *)

(** An entry of [self._event_queue]; [None] is the sentinel [(None, None, None)]. *)
Notation event := (option (param * Z)).

(** Where the main thread is: user code; the loop of [_synchronize]; between
    [acquire] and [put] in [_push_pull_grad_async]; waiting for an empty queue at
    the final step; before putting the sentinel; joining the poller. *)
Inductive main_pc := MRun | MSync | MLocked (p : param) | MWait | MPut | MJoin.

(** Where the poller is: before [get]; holding an event; after the update of a
    parameter, before the release of its lock; finished. *)
Inductive poll_pc := PIdle | PHold (e : event) | PUpdated (p : param) | PExited.

Record cb : Type := CB {
  cb_main : main_pc;
  cb_poll : poll_pc;
  _event_queue : list event;
  _locks : gset param;
  cb_handles : odict param (option Z);
  _step : Z;
  cb_next_handle : Z;
  (** history: parameters in the order of their push-pulls, updates, forwards *)
  cb_pushed : list param;
  cb_updated : list param;
  cb_forwarded : list param
}.

(** The constants: the parameters that require an update, the last step. *)
Record cb_const : Type := CBConst { cb_requires : list param; _final_step : Z }.

Inductive action :=
  | AHook (p : param)          (* backward hook *)
  | AStep                      (* step() *)
  | AAcquire (p : param)       (* _push_pull_grad_async: self._locks[p].acquire() *)
  | APush                      (* ... byteps_push_pull, event_queue.put, self._handles[p] = ... *)
  | AEndSync                   (* end of _synchronize *)
  | ASeeEmpty                  (* while not self._event_queue.empty() ends *)
  | ASentinel                  (* self._event_queue.put((None, None, None)) *)
  | AJoin                      (* self._poller.join() *)
  | AForward (p : param)       (* pre_forward_hook *)
  | AGet                       (* poller: self._event_queue.get() *)
  | APoll (finished : bool)    (* poller: poll(handle), and what follows *)
  | ARelease.                  (* poller: self._locks[p].release() *)

Definition needs_push (s : cb) (p : param) : Prop :=
  od_get p (cb_handles s) = None ∨ od_get p (cb_handles s) = Some None.
#[export] Instance needs_push_dec s p : Decision (needs_push s p).
Proof. unfold needs_push. apply _. Defined.

Definition exec_main (c : cb_const) (a : action) (s : cb) : option cb :=
  let '(CB m po q ls hs st nh pu up fw) := s in
  match a, m with
  | AHook p, MRun => Some (CB m po q ls (od_set p None hs) st nh pu up fw)
  | AStep, MRun =>
      if decide (0 < st) then Some (CB MSync po q ls hs st nh pu up fw)
      else Some (CB MRun po q ls hs (st + 1) nh pu up fw)
  | AAcquire p, MSync =>
      if decide (p ∈ cb_requires c ++ od_keys hs ∧ needs_push s p ∧ p ∉ ls)
      then Some (CB (MLocked p) po q ({[p]} ∪ ls) hs st nh pu up fw) else None
  | APush, MLocked p =>
      Some (CB MSync po (q ++ [Some (p, nh)]) ls (od_set p (Some nh) hs) st (nh + 1) (p :: pu) up fw)
  | AEndSync, MSync =>
      if decide (Forall (λ p, ¬ needs_push s p) (cb_requires c ++ od_keys hs)) then
        if decide (st = _final_step c) then Some (CB MWait po q ls hs st nh pu up fw)
        else Some (CB MRun po q ls hs (st + 1) nh pu up fw)
      else None
  | ASeeEmpty, MWait =>
      if decide (q = []) then Some (CB MPut po q ls hs st nh pu up fw) else None
  | ASentinel, MPut => Some (CB MJoin po (q ++ [None]) ls hs st nh pu up fw)
  | AJoin, MJoin =>
      match po with PExited => Some (CB MRun po q ls hs (st + 1) nh pu up fw) | _ => None end
  | AForward p, MRun =>
      if decide (p ∉ ls) then Some (CB MRun po q ls (od_del p hs) st nh pu up (p :: fw)) else None
  | _, _ => None
  end.

Definition exec_poll (a : action) (s : cb) : option cb :=
  let '(CB m po q ls hs st nh pu up fw) := s in
  match a, po with
  | AGet, PIdle =>
      match q with [] => None | e :: q' => Some (CB m (PHold e) q' ls hs st nh pu up fw) end
  | APoll _, PHold None => Some (CB m PExited q ls hs st nh pu up fw)
  | APoll true, PHold (Some (p, _)) => Some (CB m (PUpdated p) q ls hs st nh pu (p :: up) fw)
  | APoll false, PHold e => Some (CB m PIdle (q ++ [e]) ls hs st nh pu up fw)
  | ARelease, PUpdated p => Some (CB m PIdle q (ls ∖ {[p]}) hs st nh pu up fw)
  | _, _ => None
  end.

Definition exec (c : cb_const) (a : action) (s : cb) : option cb :=
  match a with
  | AGet | APoll _ | ARelease => exec_poll a s
  | _ => exec_main c a s
  end.

Inductive cb_step (c : cb_const) : cb → cb → Prop :=
  | CBStep a s s' : exec c a s = Some s' → cb_step c s s'.

Fixpoint exec_all (c : cb_const) (l : list action) (s : cb) : option cb :=
  match l with [] => Some s | a :: l' => s' ← exec c a s; exec_all c l' s' end.

Lemma exec_all_steps c l s s' : exec_all c l s = Some s' → rtc (cb_step c) s s'.
Proof.
  revert s. induction l as [|a l IH]; intros s; simpl; [intros [= ->]; apply rtc_refl|].
  destruct (exec c a s) as [s1|] eqn:E; simpl; [|done]. intros E'.
  eapply rtc_l; [econstructor; exact E|by apply IH].
Qed.

(** The state [__init__] leaves: no lock is held and the poller waits. *)
Definition cb_init : cb := CB MRun PIdle [] ∅ [] 0 0 [] [] [].

(** The parameters whose exchange and update are in flight. *)
Definition main_flight (m : main_pc) : list param := match m with MLocked p => [p] | _ => [] end.
Definition poll_flight (po : poll_pc) : list param :=
  match po with PHold (Some (p, _)) => [p] | PUpdated p => [p] | _ => [] end.
Definition in_flight (s : cb) : list param :=
  main_flight (cb_main s) ++ omap (fmap fst) (_event_queue s) ++ poll_flight (cb_poll s).

(** How many updates are still due: those in flight whose update has not been
    applied and whose push-pull has been started. *)
Definition due (s : cb) : list param :=
  omap (fmap fst) (_event_queue s) ++
  match cb_poll s with PHold (Some (p, _)) => [p] | _ => [] end.

Record cb_inv (s : cb) : Prop := {
  ci_nodup : NoDup (in_flight s);
  ci_locks p : p ∈ _locks s ↔ p ∈ in_flight s;
  ci_balance : cb_pushed s ≡ₚ due s ++ cb_updated s
}.

Lemma cb_init_inv : cb_inv cb_init.
Proof. split; [constructor|simpl; set_solver|done]. Qed.

(** ** Invariant *)

Lemma omap_app_event (q : list event) e :
  omap (fmap fst) (q ++ [e]) = omap (fmap (M := option) fst) q ++ option_list (fst <$> e).
Proof. rewrite omap_app. by destruct e. Qed.

Ltac cb_unfold := unfold in_flight, due in *; simpl in *.

Lemma exec_main_inv c a s s' : exec_main c a s = Some s' → cb_inv s → cb_inv s'.
Proof.
  intros E [I1 I2 I3]. destruct s as [m po q ls hs st nh pu up fw]. cb_unfold.
  destruct a, m; simpl in E; try done; repeat case_decide; try done; simplify_eq; try (by split).
  - split; cb_unfold; [|intros p'; rewrite elem_of_union, elem_of_singleton, I2; set_solver|done].
    constructor; [|done]. rewrite <-I2. tauto.
  - split; cb_unfold.
    + rewrite omap_app_event. simpl. rewrite <-app_assoc. simpl. by rewrite <-Permutation_middle.
    + intros p'. rewrite I2, omap_app_event. set_solver.
    + rewrite omap_app_event, I3. simpl. solve_Permutation.
  - split; cb_unfold; rewrite ?omap_app_event; simpl; rewrite ?app_nil_r; done.
  - destruct po; try done. simplify_eq. by split.
Qed.

Lemma exec_poll_inv a s s' : exec_poll a s = Some s' → cb_inv s → cb_inv s'.
Proof.
  intros E [I1 I2 I3]. destruct s as [m po q ls hs st nh pu up fw]. cb_unfold.
  destruct po as [|[[p1 h1]|]|p1|]; destruct a as [| | | | | | | | | |[]|]; simpl in E; try done.
  - destruct q as [|[[p2 h2]|] q]; simplify_eq; split; cb_unfold; rewrite ?app_nil_r in *.
    + eapply NoDup_of_submseteq; [exact I1|]. apply Permutation_submseteq.
      change (list_omap event param (fmap fst) q) with (omap (M := list) (fmap (M := option) fst) q).
      solve_Permutation.
    + intros p. rewrite I2. set_solver.
    + rewrite I3. solve_Permutation.
    + done.
    + done.
    + done.
  - simplify_eq. split; cb_unfold; [done|done|]. rewrite I3, app_nil_r. solve_Permutation.
  - simplify_eq. split; cb_unfold; rewrite omap_app_event; simpl; rewrite ?app_nil_r; done.
  - simplify_eq. by split.
  - simplify_eq. by split.
  - simplify_eq. rewrite !app_nil_r in *. split; cb_unfold; rewrite ?app_nil_r; [| |done].
    + rewrite app_assoc in I1. by apply NoDup_app in I1 as [? _].
    + intros p. rewrite elem_of_difference, I2, elem_of_singleton.
      rewrite app_assoc in I1. apply NoDup_app in I1 as (_ & Hdis & _).
      rewrite app_assoc, elem_of_app, list_elem_of_singleton. split; [tauto|].
      intros Hp. split; [by left|]. intros ->. apply (Hdis _ Hp). left.
Qed.

Lemma steps_inv c s s' : rtc (cb_step c) s s' → cb_inv s → cb_inv s'.
Proof.
  induction 1 as [|x y z [a ? ? E] _ IH]; [done|]. intros Hi. apply IH.
  destruct a; first [exact (exec_main_inv c _ _ _ E Hi)|exact (exec_poll_inv _ _ _ E Hi)].
Qed.

Lemma reachable_inv c s : rtc (cb_step c) cb_init s → cb_inv s.
Proof. intros Hs. eapply steps_inv; [exact Hs|apply cb_init_inv]. Qed.

(** C4: Whatever the two threads do and however they are interleaved, a
    parameter's lock is held exactly while its exchange or update is in flight,
    no parameter is in flight twice, and every push-pull is followed by at most
    one update: the updates applied and the updates still due are together the
    push-pulls started. *)
Theorem cross_barrier_inv c s :
  rtc (cb_step c) cb_init s →
  NoDup (in_flight s) ∧ (∀ p, p ∈ _locks s ↔ p ∈ in_flight s) ∧
  cb_pushed s ≡ₚ due s ++ cb_updated s.
Proof. intros [I1 I2 I3]%reachable_inv. done. Qed.

(** C26: A forward hook of a parameter proceeds only when every push-pull started
    for the parameter has been followed by its update: forward propagation never
    sees a parameter whose update is outstanding. *)
Theorem forward_after_update c s s' p :
  rtc (cb_step c) cb_init s → exec c (AForward p) s = Some s' →
  count_occ Nat.eq_dec (cb_pushed s) p = count_occ Nat.eq_dec (cb_updated s) p.
Proof.
  intros Hs E. pose proof (reachable_inv c s Hs) as [I1 I2 I3].
  destruct s as [m po q ls hs st nh pu up fw]. simpl in *. destruct m; try done.
  case_decide as Hp; [|done]. rewrite I2 in Hp. cb_unfold.
  rewrite (Permutation_count_occ Nat.eq_dec _ _) in I3. rewrite I3, count_occ_app.
  rewrite (proj1 (count_occ_not_In Nat.eq_dec _ p)); [done|].
  rewrite <-list_elem_of_In. intros Hin. apply Hp.
  destruct po as [|[[]|]| |]; set_solver.
Qed.

(** ** The poller makes progress

    Handling one event whose exchange has completed: [get], the update, and the
    release of the lock. *)
Definition drain (n : nat) : list action := concat (replicate n [AGet; APoll true; ARelease]).

(** If the exchanges in the queue have completed, the poller empties the
    queue: each event is handled once, in order, its parameter is updated and
    its lock is released, and the main thread's state is untouched. *)
Theorem poller_drains c s :
  cb_poll s = PIdle → Forall (λ e, is_Some e) (_event_queue s) →
  ∃ s', exec_all c (drain (length (_event_queue s))) s = Some s' ∧
    _event_queue s' = [] ∧ cb_poll s' = PIdle ∧ cb_main s' = cb_main s ∧
    _locks s' = _locks s ∖ list_to_set (omap (fmap fst) (_event_queue s)) ∧
    cb_updated s' = reverse (omap (fmap fst) (_event_queue s)) ++ cb_updated s.
Proof.
  destruct s as [m po q ls hs st nh pu up fw]. simpl. intros -> Hq. revert ls up.
  induction Hq as [|e q [[p h] ->] _ IH]; intros ls up; simpl.
  { eexists. split_and!; try done. simpl. set_solver. }
  unfold drain in *. destruct (IH (ls ∖ {[p]}) (p :: up)) as (s' & E & Hq & Hp & Hm & Hl & Hu).
  exists s'. simpl in *. rewrite E. split_and!; try done.
  - rewrite Hl. set_solver.
  - rewrite Hu, reverse_cons, <-app_assoc. done.
Qed.

(** ** The final step

    One parameter, [num_steps = 1]. The main thread finds the queue empty while
    the poller holds the only event; the poller sees an unfinished exchange and
    puts the event back behind the sentinel. *)
Definition final_race : list action :=
  [AStep; AHook 0%nat; AStep; AAcquire 0%nat; APush; AEndSync;
   AGet; ASeeEmpty; ASentinel; APoll false; AGet; APoll true; AJoin].

(** At the final step the main thread can find the queue empty while the
    poller still holds an event; the poller then leaves at the sentinel and the
    run ends with an exchange that is never completed: its parameter has not
    been updated and its lock stays held. The log message and the comment at
    that point say that all tensors are waited for. *)
Theorem final_step_incomplete :
  ∃ s, rtc (cb_step (CBConst [0%nat] 1)) cb_init s ∧
    cb_main s = MRun ∧ _step s = 2 ∧ cb_poll s = PExited ∧
    cb_pushed s = [0%nat] ∧ cb_updated s = [] ∧ 0%nat ∈ _locks s.
Proof.
  destruct (exec_all (CBConst [0%nat] 1) final_race cb_init) as [s|] eqn:E; [|by vm_compute in E].
  exists s. split; [by eapply exec_all_steps|]. vm_compute in E. injection E as <-.
  by split_and!.
Qed.

(** ** Concrete runs *)
Module CrossBarrierDemo.
Definition const : cb_const := CBConst [0%nat; 1%nat] 5.
Definition two_pushed : list action :=
  [AStep; AHook 0%nat; AHook 1%nat; AStep; AAcquire 0%nat; APush; AAcquire 1%nat; APush; AEndSync].
Definition s2 : cb := default cb_init (exec_all const two_pushed cb_init).
Lemma s2_reachable : rtc (cb_step const) cb_init s2.
Proof. apply (exec_all_steps const two_pushed). vm_compute. reflexivity. Qed.
Definition s3 : cb := default cb_init (exec_all const [AGet; APoll true; ARelease] s2).
Lemma s3_reachable : rtc (cb_step const) cb_init s3.
Proof.
  etrans; [apply s2_reachable|]. apply (exec_all_steps const [AGet; APoll true; ARelease]).
  vm_compute. reflexivity.
Qed.

Lemma cross_barrier_inv_witness : in_flight s2 = [0%nat; 1%nat] ∧ cb_pushed s2 ≡ₚ due s2 ++ cb_updated s2.
Proof. split; [reflexivity|]. apply (cross_barrier_inv const s2 s2_reachable). Defined.

Lemma forward_after_update_witness :
  count_occ Nat.eq_dec (cb_pushed s3) 0%nat = count_occ Nat.eq_dec (cb_updated s3) 0%nat.
Proof.
  eapply (forward_after_update const s3 _ 0%nat s3_reachable). reflexivity.
Defined.

Lemma poller_drains_witness : ∃ s, exec_all const (drain 2) s2 = Some s ∧ cb_updated s = [1%nat; 0%nat].
Proof.
  destruct (poller_drains const s2) as (s & E & _ & _ & _ & _ & Hu);
    [reflexivity|repeat constructor; by eexists|]. exists s. split; [exact E|exact Hu].
Defined.
End CrossBarrierDemo.
