(* ===== verification/CrossBarrierOpt.v ===== *)
(** * Parameter updates of [byteps/torch/cross_barrier.py]

    The per-parameter updates the poller applies ([_sgd], [_adam], [_rmsprop],
    derived from the optimizers of the tensor library), the clearing of one
    gradient, and the traversal that finds the modules to hook. *)

From Stdlib Require Import Ring_theory Ring.
From S2P Require Import Prelude PyStr Tensor Exact DistOptim CrossBarrier.

(** ** Finding the leaf modules *)

Inductive module := Module_ (own : list param) (children : list module).

Definition children_of (m : module) : list module := let '(Module_ _ cs) := m in cs.

Fixpoint msize (m : module) : nat :=
  let '(Module_ _ cs) := m in S (foldr (λ c n, msize c + n)%nat 0%nat cs).
Definition fsize (ms : list module) : nat := foldr (λ c n, msize c + n)%nat 0%nat ms.

(** The modules without children below (or at) a module. *)
Fixpoint leaves (m : module) : list module :=
  let '(Module_ _ cs) := m in
  match cs with [] => [m] | _ => foldr (λ c l, leaves c ++ l) [] cs end.
Definition leaves_all (ms : list module) : list module := foldr (λ c l, leaves c ++ l) [] ms.

(** The loop over the stack [q] (its top first): [submodules] grows at its end.
    [put] of the children one after the other leaves the last on top. *)
Fixpoint find_submodules (fuel : nat) (q submodules : list module) : option (list module) :=
  match fuel with
  | O => None
  | S fuel' =>
      match q with
      | [] => Some submodules
      | m :: q' =>
          match children_of m with
          | [] => find_submodules fuel' q' (submodules ++ [m])
          | cs => find_submodules fuel' (reverse cs ++ q') submodules
          end
      end
  end.

(** The modules that get forward hooks, in the order of registration. *)
Definition hooked_modules (model : module) : option (list module) :=
  reverse <$> find_submodules (S (fsize (children_of model))) (reverse (children_of model)) [].

Lemma fsize_app a b : fsize (a ++ b) = (fsize a + fsize b)%nat.
Proof. unfold fsize. induction a as [|x a IH]; simpl; [done|]. rewrite IH. lia. Qed.

Lemma fsize_perm a b : a ≡ₚ b → fsize a = fsize b.
Proof. unfold fsize. induction 1; simpl; lia. Qed.

Lemma leaves_all_app a b : leaves_all (a ++ b) = leaves_all a ++ leaves_all b.
Proof.
  unfold leaves_all. induction a as [|x a IH]; simpl; [done|]. by rewrite IH, app_assoc.
Qed.

Lemma leaves_all_perm a b : a ≡ₚ b → leaves_all a ≡ₚ leaves_all b.
Proof.
  unfold leaves_all. induction 1 as [|x l l' _ IH|x y l|l l' l'' _ IH1 _ IH2]; simpl.
  - done.
  - by rewrite IH.
  - solve_Permutation.
  - by rewrite IH1.
Qed.

Lemma find_submodules_ok fuel q subs :
  (fsize q < fuel)%nat →
  ∃ r, find_submodules fuel q subs = Some r ∧ r ≡ₚ subs ++ leaves_all q.
Proof.
  revert q subs. induction fuel as [|fuel IH]; intros q subs Hf; [lia|].
  destruct q as [|[own cs] q]; simpl.
  { exists subs. by rewrite app_nil_r. }
  unfold fsize in Hf. simpl in Hf. fold (fsize cs) in Hf. fold (fsize q) in Hf.
  destruct cs as [|c cs].
  - destruct (IH q (subs ++ [Module_ own []])) as (r & E & Hr); [simpl in Hf; lia|].
    exists r. split; [done|]. rewrite Hr. unfold leaves_all. simpl. by rewrite <-app_assoc.
  - destruct (IH (reverse (c :: cs) ++ q) subs) as (r & E & Hr).
    { rewrite fsize_app, (fsize_perm _ (c :: cs)) by apply reverse_Permutation. lia. }
    exists r. split; [done|]. rewrite Hr, leaves_all_app.
    rewrite (leaves_all_perm _ (c :: cs)) by apply reverse_Permutation.
    unfold leaves_all. simpl. by rewrite <-app_assoc.
Qed.

(** The search for submodules ends, and hooks are registered on every module
    below the model that has no children, each as often as it occurs in the
    tree, and on no other. *)
Theorem hooked_modules_leaves own cs :
  ∃ r, hooked_modules (Module_ own cs) = Some r ∧ r ≡ₚ leaves_all cs.
Proof.
  unfold hooked_modules. cbn [children_of].
  destruct (find_submodules_ok (S (fsize cs)) (reverse cs) []) as (r & E & Hr).
  { rewrite (fsize_perm _ cs) by apply reverse_Permutation. lia. }
  exists (reverse r). rewrite E. split; [done|]. rewrite reverse_Permutation, Hr. simpl.
  apply leaves_all_perm, reverse_Permutation.
Qed.

(** ** Updates *)

(** Python's [**] on numbers, which raises [OverflowError] where the result is too
    large and [ZeroDivisionError] for a negative power of zero, and the larger of
    two elements as [torch.max] gives it. *)
Class OptMath (R : Type) : Type := { s_powi : R → Z → res R; s_max : R → R → R }.

Section updates.
Context {R : Type} `{Scalar R, !OptMath R}.
Implicit Types (v w x d g : list R).

#[local] Notation one := (s_of_Z 1).

(** [x.add_(a, y)], [x.mul_(a)], [x.addcmul_(a, y, z)], [x.addcdiv_(a, y, z)] *)
Definition v_axpy (a : R) x v : list R := zip_with (λ xi vi, s_add xi (s_mul a vi)) x v.
Definition v_scale (a : R) x : list R := map (λ xi, s_mul xi a) x.
Definition v_addcmul (a : R) x v w : list R :=
  zip_with (λ xi '(vi, wi), s_add xi (s_mul a (s_mul vi wi))) x (zip v w).
Definition v_addcdiv (a : R) x v w : list R :=
  zip_with (λ xi '(vi, wi), s_add xi (s_mul a (s_div vi wi))) x (zip v w).
Definition v_adddiv x v w : list R := zip_with (λ xi '(vi, wi), s_add xi (s_div vi wi)) x (zip v w).
(** [x.sqrt().add_(eps)] *)
Definition v_sqrt_eps (eps : R) x : list R := map (λ xi, s_add (s_sqrt xi) eps) x.
Definition v_max x v : list R := zip_with s_max x v.
Definition nonzero (a : R) : bool := negb (s_eqb a s_zero).
(** [math.sqrt] and [/] of numbers *)
Definition math_sqrt (a : R) : res R :=
  if s_leb a s_zero && nonzero a then Raise ValueError else Ok (s_sqrt a).
Definition num_div (a b : R) : res R := if nonzero b then Ok (s_div a b) else Raise ZeroDivisionError.

(** *** [_sgd] *)
Record sgd_group : Type := SGD {
  sgd_lr : R; sgd_weight_decay : R; sgd_momentum : R; sgd_dampening : R; sgd_nesterov : bool
}.

(** One update: the data, the gradient and the momentum buffer after it. Weight
    decay is added to the gradient in place. *)
Definition sgd_update (G : sgd_group) (data grad : list R) (buf : option (list R)) :
    list R * list R * option (list R) :=
  let d_p := if nonzero (sgd_weight_decay G) then v_axpy (sgd_weight_decay G) grad data else grad in
  if nonzero (sgd_momentum G) then
    let buf' := match buf with
      | None => vadd (v_scale (sgd_momentum G) (vzero (length data))) d_p
      | Some b => v_axpy (s_sub one (sgd_dampening G)) (v_scale (sgd_momentum G) b) d_p
      end in
    let step := if sgd_nesterov G then v_axpy (sgd_momentum G) d_p buf' else buf' in
    (v_axpy (s_neg (sgd_lr G)) data step, d_p, Some buf')
  else (v_axpy (s_neg (sgd_lr G)) data d_p, d_p, buf).

(** *** [_adam] *)
Record adam_group : Type := Adam {
  adam_lr : R; adam_beta1 : R; adam_beta2 : R; adam_eps : R; adam_weight_decay : R; adam_amsgrad : bool
}.
Record adam_state : Type := AdamState {
  adam_step : Z; exp_avg : list R; exp_avg_sq : list R; max_exp_avg_sq : option (list R)
}.

Definition adam_init (G : adam_group) (n : nat) : adam_state :=
  AdamState 0 (vzero n) (vzero n) (if adam_amsgrad G then Some (vzero n) else None).

(** [lr * math.sqrt(bias_correction2) / bias_correction1] of step [t] *)
Definition adam_step_size (G : adam_group) (t : Z) : res R :=
  p1 ← s_powi (adam_beta1 G) t;
  p2 ← s_powi (adam_beta2 G) t;
  root ← math_sqrt (s_sub one p2);
  num_div (s_mul (adam_lr G) root) (s_sub one p1).

(** One update of the data, the gradient and the state of a parameter, all changed
    in place, so that they keep what was done before an exception. A state made
    without [amsgrad] has no maximum: reading it is a [KeyError]. *)
Definition adam_update (G : adam_group) (is_sparse : bool) :
    M (list R * list R * option adam_state) () := λ '(data, grad, st),
  if is_sparse then (Raise RuntimeError, (data, grad, st)) else
  let st := default (adam_init G (length data)) st in
  match (if adam_amsgrad G then Some <$> max_exp_avg_sq st else Some None) with
  | None => (Raise KeyError, (data, grad, Some st))
  | Some mx =>
      let t := adam_step st + 1 in
      let g := if nonzero (adam_weight_decay G) then v_axpy (adam_weight_decay G) grad data else grad in
      let m := v_axpy (s_sub one (adam_beta1 G)) (v_scale (adam_beta1 G) (exp_avg st)) g in
      let v := v_addcmul (s_sub one (adam_beta2 G)) (v_scale (adam_beta2 G) (exp_avg_sq st)) g g in
      let '(mx', denom) := match mx with
        | Some x => (Some (v_max x v), v_sqrt_eps (adam_eps G) (v_max x v))
        | None => (max_exp_avg_sq st, v_sqrt_eps (adam_eps G) v)
        end in
      match adam_step_size G t with
      | Raise e => (Raise e, (data, g, Some (AdamState t m v mx')))
      | Ok step_size => (Ok (), (v_addcdiv (s_neg step_size) data m denom, g, Some (AdamState t m v mx')))
      end
  end.

(** *** [_rmsprop] *)
Record rms_group : Type := RMS {
  rms_lr : R; rms_alpha : R; rms_eps : R; rms_weight_decay : R; rms_momentum : R; rms_centered : bool
}.
Record rms_state : Type := RMSState {
  rms_step : Z; square_avg : list R; rms_buffer : option (list R); grad_avg : option (list R)
}.

Definition positive (a : R) : bool := negb (s_leb a s_zero).

Definition rms_init (G : rms_group) (n : nat) : rms_state :=
  RMSState 0 (vzero n) (if positive (rms_momentum G) then Some (vzero n) else None)
    (if rms_centered G then Some (vzero n) else None).

(** Weight decay makes a new tensor here: the gradient is not changed. *)
Definition rms_update (G : rms_group) (is_sparse : bool) :
    M (list R * list R * option rms_state) () := λ '(data, grad, st),
  if is_sparse then (Raise RuntimeError, (data, grad, st)) else
  let st := default (rms_init G (length data)) st in
  let t := rms_step st + 1 in
  let g := if nonzero (rms_weight_decay G) then v_axpy (rms_weight_decay G) grad data else grad in
  let sq := v_addcmul (s_sub one (rms_alpha G)) (v_scale (rms_alpha G) (square_avg st)) g g in
  match (if rms_centered G then
      (λ a, let a' := v_axpy (s_sub one (rms_alpha G)) (v_scale (rms_alpha G) a) g in
            (Some a', v_sqrt_eps (rms_eps G) (v_addcmul (s_neg one) sq a' a'))) <$> grad_avg st
    else Some (grad_avg st, v_sqrt_eps (rms_eps G) sq)) with
  | None => (Raise KeyError, (data, grad, Some (RMSState t sq (rms_buffer st) (grad_avg st))))
  | Some (ga, avg) =>
      if positive (rms_momentum G) then
        match rms_buffer st with
        | None => (Raise KeyError, (data, grad, Some (RMSState t sq None ga)))
        | Some b =>
            let b' := v_adddiv (v_scale (rms_momentum G) b) g avg in
            (Ok (), (v_axpy (s_neg (rms_lr G)) data b', grad, Some (RMSState t sq (Some b') ga)))
        end
      else (Ok (), (v_addcdiv (s_neg (rms_lr G)) data g avg, grad, Some (RMSState t sq (rms_buffer st) ga)))
  end.

(** *** The search over the groups

    [for group ...: for gp in group['params']: if name or shape differ: continue;
    ...; break]: the update is applied once for every group that has a parameter
    of the same name and shape, if there is a gradient. *)
Definition group_matches (name_of : param → option string) (shape_of : param → list nat)
    (p : param) (ps : list param) : bool :=
  existsb (λ gp, bool_decide (name_of p = name_of gp) && bool_decide (shape_of gp = shape_of p)) ps.

Fixpoint update_groups {G S : Type} (upd : G → M S ())
    (name_of : param → option string) (shape_of : param → list nat) (has_grad : bool)
    (p : param) (groups : list (G * list param)) : M S () :=
  match groups with
  | [] => mret ()
  | (g, ps) :: rest =>
      (if group_matches name_of shape_of p ps && has_grad then upd g else mret ());;
      update_groups upd name_of shape_of has_grad p rest
  end.

Definition _sgd := update_groups
  (λ G : sgd_group, modify (λ '(data, grad, buf), sgd_update G data grad buf)).
Definition _adam (is_sparse : bool) := update_groups (λ G, adam_update G is_sparse).
Definition _rmsprop (is_sparse : bool) := update_groups (λ G, rms_update G is_sparse).

(** [_zero_one_grad] *)
Definition _zero_one_grad (grad : option (list R)) : option (list R) :=
  (λ g, vzero (length g)) <$> grad.

(** ** Properties of the updates *)

(** The shape of an update is the parameter's. *)
Lemma length_v_axpy a x v : length x = length v → length (v_axpy a x v) = length x.
Proof. intros E. unfold v_axpy. rewrite length_zip_with. lia. Qed.
Lemma length_v_scale a x : length (v_scale a x) = length x.
Proof. apply length_map. Qed.
Lemma length_v_addcmul a x v w :
  length x = length v → length x = length w → length (v_addcmul a x v w) = length x.
Proof. intros E1 E2. unfold v_addcmul. rewrite length_zip_with, length_zip_with. lia. Qed.
Lemma length_v_addcdiv a x v w :
  length x = length v → length x = length w → length (v_addcdiv a x v w) = length x.
Proof. intros E1 E2. unfold v_addcdiv. rewrite length_zip_with, length_zip_with. lia. Qed.
Lemma length_v_adddiv x v w :
  length x = length v → length x = length w → length (v_adddiv x v w) = length x.
Proof. intros E1 E2. unfold v_adddiv. rewrite length_zip_with, length_zip_with. lia. Qed.
Lemma length_v_sqrt_eps e x : length (v_sqrt_eps e x) = length x.
Proof. apply length_map. Qed.
Lemma length_v_max x v : length x = length v → length (v_max x v) = length x.
Proof. intros E. unfold v_max. rewrite length_zip_with. lia. Qed.

(** The optimizer's tensors for a parameter of [n] elements. *)
Definition opt_len (n : nat) (o : option (list R)) : Prop := match o with Some l => length l = n | None => True end.
Definition adam_ok (G : adam_group) (n : nat) (st : option adam_state) : Prop :=
  match st with
  | None => True
  | Some s => length (exp_avg s) = n ∧ length (exp_avg_sq s) = n ∧ opt_len n (max_exp_avg_sq s) ∧
              (adam_amsgrad G = true → is_Some (max_exp_avg_sq s)) ∧ 0 ≤ adam_step s
  end.
Definition rms_ok (G : rms_group) (n : nat) (st : option rms_state) : Prop :=
  match st with
  | None => True
  | Some s => length (square_avg s) = n ∧ opt_len n (rms_buffer s) ∧ opt_len n (grad_avg s) ∧
              (positive (rms_momentum G) = true → is_Some (rms_buffer s)) ∧
              (rms_centered G = true → is_Some (grad_avg s)) ∧ 0 ≤ rms_step s
  end.

Ltac vlen := repeat (first [rewrite length_v_scale | rewrite length_v_sqrt_eps | rewrite length_vzero
  | rewrite length_v_axpy | rewrite length_v_addcmul | rewrite length_v_addcdiv
  | rewrite length_v_adddiv | rewrite length_v_max]); try first [congruence|lia].

Lemma sgd_update_len (G : sgd_group) data grad buf :
  length grad = length data → opt_len (length data) buf →
  let '(data', _, buf') := sgd_update G data grad buf in
  length data' = length data ∧ opt_len (length data) buf'.
Proof.
  intros Hg Hb. unfold sgd_update.
  set (d_p := if nonzero _ then v_axpy _ grad data else grad).
  assert (length d_p = length data) as Hd by (unfold d_p; destruct (nonzero (sgd_weight_decay G)); vlen).
  destruct (nonzero (sgd_momentum G)); [|split; [vlen|done]].
  match goal with |- context [Some ?b] => assert (length b = length data) as Hl end.
  { destruct buf as [b|]; simpl in Hb; [vlen|]. unfold vadd. rewrite length_zip_with. vlen. }
  split; [|done]. destruct (sgd_nesterov G); vlen.
Qed.

(** An SGD update of a parameter keeps the sizes of its data, gradient and
    momentum buffer; without momentum the buffer is not created, and with it the
    buffer exists afterwards. *)
Theorem sgd_update_wf (G : sgd_group) data grad buf :
  length grad = length data → opt_len (length data) buf →
  let '(data', grad', buf') := sgd_update G data grad buf in
  length data' = length data ∧ length grad' = length data ∧ opt_len (length data) buf' ∧
  (nonzero (sgd_momentum G) = true → is_Some buf') ∧
  (nonzero (sgd_momentum G) = false → buf' = buf).
Proof.
  intros Hg Hb. unfold sgd_update.
  set (d_p := if nonzero _ then v_axpy _ grad data else grad).
  assert (length d_p = length data) as Hd.
  { unfold d_p. destruct (nonzero (sgd_weight_decay G)); vlen. }
  destruct (nonzero (sgd_momentum G)).
  - match goal with |- context [Some ?b] => assert (length b = length data) as Hl end.
    { destruct buf as [b|]; simpl in Hb.
      - vlen.
      - unfold vadd. rewrite length_zip_with. vlen. }
    split_and!; try done.
    destruct (sgd_nesterov G); vlen.
  - split_and!; try done. vlen.
Qed.

(** An RMSprop update of a parameter whose state fits it (or that has none
    yet) succeeds, counts the step, leaves the gradient unchanged, and keeps data
    and state of the parameter's size; the next update accepts the state. *)
Theorem rms_update_wf (G : rms_group) data grad st :
  length grad = length data → rms_ok G (length data) st →
  ∃ data' st', rms_update G false (data, grad, st) = (Ok (), (data', grad, Some st')) ∧
    length data' = length data ∧ rms_ok G (length data) (Some st') ∧
    rms_step st' = match st with Some s => rms_step s | None => 0 end + 1.
Proof.
  intros Hg Hst. unfold rms_update.
  assert (rms_ok G (length data) (Some (default (rms_init G (length data)) st)) ∧
    rms_step (default (rms_init G (length data)) st) = match st with Some s => rms_step s | None => 0 end)
    as [(H1 & H2 & H3 & H4 & H5 & H6) H7].
  { destruct st as [s|]; [done|]. simpl. rewrite !length_vzero. split; [|done].
    split_and!; try done; destruct (positive (rms_momentum G)), (rms_centered G); simpl; try done;
      first [apply length_vzero|by eexists]. }
  set (s0 := default _ st) in *.
  set (g := if nonzero _ then v_axpy _ grad data else grad).
  assert (length g = length data) as Hd.
  { unfold g. destruct (nonzero (rms_weight_decay G)); vlen. }
  destruct (rms_centered G) eqn:Hc; [destruct (H5 eq_refl) as [a Ha]; rewrite Ha in *|]; simpl;
    (destruct (positive (rms_momentum G)) eqn:Hp; [destruct (H4 eq_refl) as [b Hb]; rewrite Hb in *|]);
    simpl in *; do 2 eexists; (split; [reflexivity|]); simpl; split_and!; try done; try lia; vlen.
Qed.

Lemma update_groups_skip {G S} (upd : G → M S ()) nm sh b p groups st :
  Forall (λ gp : G * list param, group_matches nm sh p gp.2 = false) groups →
  update_groups upd nm sh b p groups st = (Ok (), st).
Proof.
  induction 1 as [|[g ps] groups Hg _ IH]; cbn [update_groups snd] in *; [done|].
  by rewrite Hg.
Qed.

Lemma update_groups_app {G S} (upd : G → M S ()) nm sh b p l1 l2 st :
  update_groups upd nm sh b p (l1 ++ l2) st =
  (update_groups upd nm sh b p l1;; update_groups upd nm sh b p l2) st.
Proof.
  revert st. induction l1 as [|[g ps] l1 IH]; intros st; [done|]. cbn [app update_groups].
  unfold mbind, M_bind in *.
  destruct ((if group_matches nm sh p ps && b then upd g else mret ()) st) as [[[]|e] st']; [apply IH|done].
Qed.

(** A parameter that belongs to one group, by name and shape, is updated by
    the poller exactly once, with that group's options; a parameter without a
    gradient is not updated. *)
Theorem sgd_single_group nm sh p pre (g : sgd_group) ps post data grad buf :
  group_matches nm sh p ps = true →
  Forall (λ gp : sgd_group * list param, group_matches nm sh p gp.2 = false) pre →
  Forall (λ gp : sgd_group * list param, group_matches nm sh p gp.2 = false) post →
  _sgd nm sh true p (pre ++ (g, ps) :: post) (data, grad, buf) = (Ok (), sgd_update g data grad buf) ∧
  _sgd nm sh false p (pre ++ (g, ps) :: post) (data, grad, buf) = (Ok (), (data, grad, buf)).
Proof.
  intros Hm Hpre Hpost. unfold _sgd. rewrite !update_groups_app. unfold mbind, M_bind.
  rewrite !(update_groups_skip _ nm sh _ p pre) by done. cbn [update_groups].
  rewrite Hm. split; cbn [andb]; unfold modify, mbind, M_bind, mret, M_ret; by rewrite update_groups_skip.
Qed.

(** *** Adam, element by element *)

Lemma lookup_v_axpy a x v i xi vi :
  x !! i = Some xi → v !! i = Some vi → v_axpy a x v !! i = Some (s_add xi (s_mul a vi)).
Proof. intros E1 E2. unfold v_axpy. by rewrite lookup_zip_with, E1, E2. Qed.
Lemma lookup_v_scale a x i xi : x !! i = Some xi → v_scale a x !! i = Some (s_mul xi a).
Proof. unfold v_scale. revert i. induction x as [|y x IH]; intros [|i]; simpl in *; try done; [congruence|auto]. Qed.
Lemma lookup_v_sqrt_eps a x i xi : x !! i = Some xi → v_sqrt_eps a x !! i = Some (s_add (s_sqrt xi) a).
Proof. unfold v_sqrt_eps. revert i. induction x as [|y x IH]; intros [|i]; simpl in *; try done; [congruence|auto]. Qed.
Lemma lookup_v_max x v i xi vi :
  x !! i = Some xi → v !! i = Some vi → v_max x v !! i = Some (s_max xi vi).
Proof. intros E1 E2. unfold v_max. by rewrite lookup_zip_with, E1, E2. Qed.
Lemma lookup_v_addcmul a x v w i xi vi wi :
  x !! i = Some xi → v !! i = Some vi → w !! i = Some wi →
  v_addcmul a x v w !! i = Some (s_add xi (s_mul a (s_mul vi wi))).
Proof. intros E1 E2 E3. unfold v_addcmul. by rewrite lookup_zip_with, lookup_zip_with, E1, E2, E3. Qed.
Lemma lookup_v_addcdiv a x v w i xi vi wi :
  x !! i = Some xi → v !! i = Some vi → w !! i = Some wi →
  v_addcdiv a x v w !! i = Some (s_add xi (s_mul a (s_div vi wi))).
Proof. intros E1 E2 E3. unfold v_addcdiv. by rewrite lookup_zip_with, lookup_zip_with, E1, E2, E3. Qed.

Create HintDb velem.
#[local] Hint Resolve lookup_v_axpy lookup_v_scale lookup_v_sqrt_eps lookup_v_max lookup_v_addcmul
  lookup_v_addcdiv : velem.

(** The gradient with weight decay. *)
Definition decayed (G : adam_group) (x g : R) : R :=
  if nonzero (adam_weight_decay G) then s_add g (s_mul (adam_weight_decay G) x) else g.

(** What one update does to an element whose averages are [m], [v] and [u]. *)
Lemma adam_update_elem (G : adam_group) data grad st (n : nat) :
  length data = n → length grad = n → adam_ok G n st →
  let s := default (adam_init G n) st in
  let r := adam_step_size G (adam_step s + 1) in
  ∃ data' grad' s',
    adam_update G false (data, grad, st) = (match r with Ok _ => Ok () | Raise e => Raise e end, (data', grad', Some s')) ∧
    length data' = n ∧ length grad' = n ∧ adam_ok G n (Some s') ∧ adam_step s' = adam_step s + 1 ∧
    ∀ i (x g m v : R), data !! i = Some x → grad !! i = Some g → exp_avg s !! i = Some m → exp_avg_sq s !! i = Some v →
      let w := decayed G x g in
      let m' := s_add (s_mul m (adam_beta1 G)) (s_mul (s_sub one (adam_beta1 G)) w) in
      let v' := s_add (s_mul v (adam_beta2 G)) (s_mul (s_sub one (adam_beta2 G)) (s_mul w w)) in
      grad' !! i = Some w ∧ exp_avg s' !! i = Some m' ∧ exp_avg_sq s' !! i = Some v' ∧
      ∀ d : R, (if adam_amsgrad G then ∃ us u, max_exp_avg_sq s = Some us ∧ us !! i = Some u ∧ d = s_max u v' else d = v') →
        (adam_amsgrad G = true → max_exp_avg_sq s' ≫= (.!! i) = Some d) ∧
        data' !! i = Some match r with
          | Ok a => s_add x (s_mul (s_neg a) (s_div m' (s_add (s_sqrt d) (adam_eps G))))
          | Raise _ => x end.
Proof.
  intros Hn Hg Hst s r. unfold adam_update. rewrite Hn. fold s.
  assert (adam_ok G n (Some s)) as (H1 & H2 & H3 & H4 & H5).
  { subst s. destruct st as [s|]; [done|]. simpl. rewrite !length_vzero.
    split_and!; try done; destruct (adam_amsgrad G); simpl; try done; first [apply length_vzero|by eexists]. }
  set (w := if nonzero _ then v_axpy _ grad data else grad).
  assert (length w = n) as Hw by (unfold w; destruct (nonzero (adam_weight_decay G)); vlen).
  assert (∀ i (x g : R), data !! i = Some x → grad !! i = Some g → w !! i = Some (decayed G x g)) as Hwi.
  { intros i x g E1 E2. unfold w, decayed. destruct (nonzero (adam_weight_decay G)); [|done]. eauto with velem. }
  clearbody w. destruct (adam_amsgrad G) eqn:Ham; cbn [fmap option_fmap option_map].
  - destruct (H4 eq_refl) as [us Hus]. rewrite Hus in *. cbn. fold r.
    destruct r as [a|e]; do 3 eexists; (split; [reflexivity|]);
      (split; [vlen|]); (split; [vlen|]); (split; [cbn; split_and!; try done; try lia; vlen|]); (split; [done|]); cbn.
    all: intros i x gi m v Ex Eg Em Ev; specialize (Hwi i x gi Ex Eg); (split; [done|]); (split; [eauto with velem|]); (split; [eauto with velem|]).
    all: intros d (us' & u & [= <-] & Eu & ->); split; [intros _|]; eauto 8 with velem.
  - cbn. fold r.
    destruct r as [a|e]; do 3 eexists; (split; [reflexivity|]);
      (split; [vlen|]); (split; [vlen|]); (split; [cbn; split_and!; try done; try lia; vlen|]); (split; [done|]); cbn.
    all: intros i x gi m v Ex Eg Em Ev; specialize (Hwi i x gi Ex Eg); (split; [done|]); (split; [eauto with velem|]); (split; [eauto with velem|]).
    all: intros d ->; split; [done|]; eauto 8 with velem.
Qed.

(** *** Adam over a sequence of gradients *)

(** [hist_run G data0 hist vars]: starting from the parameter [data0] without a
    state, updates that all succeeded led to [vars]; [hist] holds the gradients
    they used, weight decay included, as each update leaves them in place. *)
Inductive hist_run (G : adam_group) (data0 : list R) :
    list (list R) → list R * list R * option adam_state → Prop :=
  | hist_nil grad : hist_run G data0 [] (data0, grad, None)
  | hist_snoc hist data g0 st g data' grad' st' :
      hist_run G data0 hist (data, g0, st) → length g = length data →
      adam_update G false (data, g, st) = (Ok (), (data', grad', st')) →
      hist_run G data0 (hist ++ [grad']) (data', grad', st').

(** The gradients of one element. *)
Definition column (i : nat) (hist : list (list R)) : list R := omap (λ l, l !! i) hist.

Fixpoint powN (b : R) (k : nat) : R := match k with O => one | S k => s_mul b (powN b k) end.

(** The weighted average of a sequence: [(1 - b) * sum over k of b^k * w], where
    [k] counts the elements after [w]. *)
Definition moment (b : R) (ws : list R) : R :=
  s_mul (s_sub one b) (foldr s_add s_zero (imap (λ k (w : R), s_mul (powN b k) w) (reverse ws))).

Definition second_moment (b : R) (ws : list R) : R := moment b (map (λ w : R, s_mul w w) ws).

(** The largest second moment so far. *)
Definition largest_moment (b : R) (ws : list R) : R :=
  foldl s_max s_zero (map (λ k, second_moment b (take k ws)) (seq 1 (length ws))).

Section moments.
Hypothesis Hring : ring_theory s_zero one s_add s_mul s_sub s_neg (@eq R).
Add Ring R_ring : Hring.

Lemma moment_nil b : moment b [] = s_zero.
Proof. unfold moment. simpl. ring. Qed.

Lemma wsum_S b l : foldr s_add s_zero (imap (λ k (w : R), s_mul (powN b (S k)) w) l) =
  s_mul b (foldr s_add s_zero (imap (λ k (w : R), s_mul (powN b k) w) l)).
Proof.
  cut (∀ f g : nat → R → R, (∀ k (w : R), f k w = s_mul b (g k w)) →
    foldr s_add s_zero (imap f l) = s_mul b (foldr s_add s_zero (imap g l))).
  { intros Hc. apply Hc. intros k y. simpl. ring. }
  induction l as [|y l IH]; intros f g E; simpl; [ring|].
  rewrite (IH (f ∘ S) (g ∘ S)) by (intros; apply E). rewrite E. ring.
Qed.

Lemma moment_snoc b ws (w : R) :
  moment b (ws ++ [w]) = s_add (s_mul (moment b ws) b) (s_mul (s_sub one b) w).
Proof.
  unfold moment. rewrite reverse_app. simpl.
  change (imap ((λ k (w0 : R), s_mul (powN b k) w0) ∘ S) (reverse ws))
    with (imap (λ k (w0 : R), s_mul (powN b (S k)) w0) (reverse ws)).
  rewrite wsum_S. ring.
Qed.

Lemma second_moment_snoc b ws (w : R) : second_moment b (ws ++ [w]) =
  s_add (s_mul (second_moment b ws) b) (s_mul (s_sub one b) (s_mul w w)).
Proof. unfold second_moment. by rewrite map_app, <-moment_snoc. Qed.

Lemma largest_moment_snoc b ws (w : R) :
  largest_moment b (ws ++ [w]) = s_max (largest_moment b ws) (second_moment b (ws ++ [w])).
Proof.
  unfold largest_moment. rewrite length_app. simpl. rewrite Nat.add_1_r, seq_S, map_app, foldl_app. simpl.
  rewrite (take_ge (ws ++ [w])) by (rewrite length_app; simpl; lia). f_equal. f_equal.
  apply map_ext_in. intros k Hk%in_seq. by rewrite take_app_le by lia.
Qed.

Lemma column_snoc i hist g (w : R) : g !! i = Some w → column i (hist ++ [g]) = column i hist ++ [w].
Proof. intros E. unfold column. rewrite omap_app. simpl. by rewrite E. Qed.

(** The state holds the moments of the gradients used so far. *)
Definition moments_of (G : adam_group) (n : nat) (hist : list (list R)) (s : adam_state) : Prop :=
  adam_step s = Z.of_nat (length hist) ∧
  ∀ i, (i < n)%nat →
    exp_avg s !! i = Some (moment (adam_beta1 G) (column i hist)) ∧
    exp_avg_sq s !! i = Some (second_moment (adam_beta2 G) (column i hist)) ∧
    (adam_amsgrad G = true →
     max_exp_avg_sq s ≫= (.!! i) = Some (largest_moment (adam_beta2 G) (column i hist))).

Lemma adam_update_moments (G : adam_group) n hist data g st :
  length data = n → length g = n → adam_ok G n st → moments_of G n hist (default (adam_init G n) st) →
  let r := adam_step_size G (Z.of_nat (length hist) + 1) in
  ∃ data' grad' s',
    adam_update G false (data, g, st) = (match r with Ok _ => Ok () | Raise e => Raise e end, (data', grad', Some s')) ∧
    length data' = n ∧ length grad' = n ∧ adam_ok G n (Some s') ∧ moments_of G n (hist ++ [grad']) s' ∧
    ∀ i (x gi : R), data !! i = Some x → g !! i = Some gi →
      let ws := column i (hist ++ [grad']) in
      let d := if adam_amsgrad G then largest_moment (adam_beta2 G) ws else second_moment (adam_beta2 G) ws in
      grad' !! i = Some (decayed G x gi) ∧
      data' !! i = Some match r with
        | Ok a => s_add x (s_mul (s_neg a) (s_div (moment (adam_beta1 G) ws) (s_add (s_sqrt d) (adam_eps G))))
        | Raise _ => x end.
Proof.
  intros Hn Hg Hst [Ht Hm]. rewrite <-Ht. intros r.
  destruct (adam_update_elem G data g st n Hn Hg Hst) as (data' & grad' & s' & E & Hd & Hg' & Hok & Ht' & Hel).
  fold r in E, Hel. exists data', grad', s'. split; [exact E|].
  assert (∀ i (x gi : R), data !! i = Some x → g !! i = Some gi →
    let ws := column i (hist ++ [grad']) in
    let d := if adam_amsgrad G then largest_moment (adam_beta2 G) ws else second_moment (adam_beta2 G) ws in
    grad' !! i = Some (decayed G x gi) ∧
    exp_avg s' !! i = Some (moment (adam_beta1 G) ws) ∧
    exp_avg_sq s' !! i = Some (second_moment (adam_beta2 G) ws) ∧
    (adam_amsgrad G = true → max_exp_avg_sq s' ≫= (.!! i) = Some d) ∧
    data' !! i = Some match r with
      | Ok a => s_add x (s_mul (s_neg a) (s_div (moment (adam_beta1 G) ws) (s_add (s_sqrt d) (adam_eps G))))
      | Raise _ => x end) as Hall.
  { intros i x gi Ex Eg ws d. assert (i < n)%nat as Hi by (rewrite <-Hn; by eapply lookup_lt_Some).
    destruct (Hm i Hi) as (M1 & M2 & M3). destruct (Hel i x gi _ _ Ex Eg M1 M2) as (W & W1 & W2 & W3).
    assert (ws = column i hist ++ [decayed G x gi]) as Ews by (by apply column_snoc).
    rewrite <-moment_snoc, <-Ews in W1, W3. rewrite <-second_moment_snoc, <-Ews in W2, W3.
    destruct (W3 d) as [W4 W5]; [|done]. subst d. destruct (adam_amsgrad G); [|done].
    specialize (M3 eq_refl). apply bind_Some in M3 as (us & Hus & Hu).
    do 2 eexists. split; [exact Hus|]. split; [exact Hu|]. by rewrite Ews, <-largest_moment_snoc. }
  do 3 (split; [done|]). split.
  - split; [rewrite Ht', Ht, length_app; simpl; lia|]. intros i Hi.
    destruct (lookup_lt_is_Some_2 data i) as [x Ex]; [lia|]. destruct (lookup_lt_is_Some_2 g i) as [gi Eg]; [lia|].
    destruct (Hall i x gi Ex Eg) as (_ & W1 & W2 & W3 & _). do 2 (split; [done|]). intros Ha.
    specialize (W3 Ha). by rewrite Ha in W3.
  - intros i x gi Ex Eg. by destruct (Hall i x gi Ex Eg) as (W & _ & _ & _ & W5).
Qed.

Lemma adam_update_raise (G : adam_group) sp data g st e data' g' st' :
  adam_update G sp (data, g, st) = (Raise e, (data', g', st')) → data' = data.
Proof.
  unfold adam_update. destruct sp; [congruence|].
  destruct (if adam_amsgrad G then _ else _) as [[mx|]|]; [| |congruence];
    destruct (adam_step_size G _); congruence.
Qed.

Lemma hist_run_inv (G : adam_group) data0 hist vars :
  hist_run G data0 hist vars →
  let '(data, _, st) := vars in
  length data = length data0 ∧ adam_ok G (length data0) st ∧
  moments_of G (length data0) hist (default (adam_init G (length data0)) st).
Proof.
  induction 1 as [grad|hist data g0 st g data' grad' st' _ (IH1 & IH2 & IH3) Hg E].
  - split; [done|]. split; [done|]. split; [done|]. intros i Hi. simpl.
    unfold vzero, second_moment, largest_moment. simpl. rewrite !moment_nil, lookup_replicate_2 by done.
    do 2 (split; [done|]). intros ->. simpl. by rewrite lookup_replicate_2.
  - destruct (adam_update_moments G (length data0) hist data g st) as (d & w & s & E' & H1 & H2 & H3 & H4 & _);
      [done|by rewrite Hg|done|done|].
    rewrite E in E'. simplify_eq. split; [done|]. split; [done|]. exact H4.
Qed.

(** Equal gradients: dividing the averages by the bias corrections, as the step
    does, gives back the gradient and its square. *)
Theorem moment_constant b k (w : R) :
  moment b (replicate k w) = s_mul (s_sub one (powN b k)) w ∧
  second_moment b (replicate k w) = s_mul (s_sub one (powN b k)) (s_mul w w).
Proof.
  assert (∀ y : R, moment b (replicate k y) = s_mul (s_sub one (powN b k)) y) as Hm.
  { intros y. induction k as [|k IH]; [rewrite moment_nil; simpl; ring|].
    rewrite replicate_S_end, moment_snoc, IH. simpl. ring. }
  split; [apply Hm|]. unfold second_moment. rewrite <-Hm. f_equal.
  clear Hm. induction k as [|k IH]; simpl; [done|by rewrite IH].
Qed.

(** C40: Adam, in exact arithmetic, on a parameter that had no state and has been
    updated with the gradients of [hist], which include weight decay. A sparse
    gradient raises [RuntimeError] and changes nothing. Any other gradient gets the
    weight decay in place; the step is counted, and the averages in the state are,
    element by element, the sums of all gradients so far and of their squares with
    weights [(1 - beta) * beta^k], and with [amsgrad] the largest average of the
    squares so far. Then the powers of the betas may raise; a negative second bias
    correction raises [ValueError] and a first one of zero [ZeroDivisionError], and
    the data are unchanged; otherwise every element moves by the averages' quotient
    times the corrected step size. A state made without [amsgrad] is refused with
    [KeyError] by a group that has it. *)
Theorem adam_spec (G : adam_group) data0 hist data g0 st g :
  hist_run G data0 hist (data, g0, st) → length g = length data →
  let t := Z.of_nat (length hist) + 1 in
  adam_update G true (data, g, st) = (Raise RuntimeError, (data, g, st)) ∧
  (∃ r data' grad' s',
    adam_update G false (data, g, st) = (r, (data', grad', Some s')) ∧
    length data' = length data ∧ length grad' = length data ∧ adam_step s' = t ∧
    (∀ i (x gi : R), data !! i = Some x → g !! i = Some gi →
      let ws := column i (hist ++ [grad']) in
      grad' !! i = Some (if nonzero (adam_weight_decay G) then s_add gi (s_mul (adam_weight_decay G) x) else gi) ∧
      exp_avg s' !! i = Some (moment (adam_beta1 G) ws) ∧
      exp_avg_sq s' !! i = Some (second_moment (adam_beta2 G) ws) ∧
      (adam_amsgrad G = true →
       max_exp_avg_sq s' ≫= (.!! i) = Some (largest_moment (adam_beta2 G) ws))) ∧
    (∀ e, s_powi (adam_beta1 G) t = Raise e → r = Raise e ∧ data' = data) ∧
    (∀ p1 e, s_powi (adam_beta1 G) t = Ok p1 → s_powi (adam_beta2 G) t = Raise e → r = Raise e ∧ data' = data) ∧
    (∀ p1 p2, s_powi (adam_beta1 G) t = Ok p1 → s_powi (adam_beta2 G) t = Ok p2 →
      let c1 := s_sub one p1 in let c2 := s_sub one p2 in
      if s_leb c2 s_zero && negb (s_eqb c2 s_zero) then r = Raise ValueError ∧ data' = data
      else if s_eqb c1 s_zero then r = Raise ZeroDivisionError ∧ data' = data
      else r = Ok () ∧ ∀ i (x : R), data !! i = Some x →
        let ws := column i (hist ++ [grad']) in
        let d := if adam_amsgrad G then largest_moment (adam_beta2 G) ws else second_moment (adam_beta2 G) ws in
        data' !! i = Some (s_add x (s_mul (s_neg (s_div (s_mul (adam_lr G) (s_sqrt c2)) c1))
          (s_div (moment (adam_beta1 G) ws) (s_add (s_sqrt d) (adam_eps G))))))) ∧
  (∀ s, adam_amsgrad G = true → max_exp_avg_sq s = None →
    adam_update G false (data, g, Some s) = (Raise KeyError, (data, g, Some s))).
Proof.
  intros Hrun Hg t. destruct (hist_run_inv _ _ _ _ Hrun) as (Hd & Hok & Hm).
  split; [done|]. split; cycle 1.
  { intros s Ha Hs. unfold adam_update. simpl. by rewrite Ha, Hs. }
  destruct (adam_update_moments G (length data0) hist data g st)
    as (data' & grad' & s' & E & Hd' & Hg' & _ & [Ht Hms] & Hel); [done|by rewrite Hg|done|done|].
  fold t in E, Hel. do 4 eexists. split; [exact E|]. split; [congruence|]. split; [congruence|].
  split; [rewrite Ht, length_app; simpl; lia|]. split.
  { intros i x gi Ex Eg ws. split; [exact (proj1 (Hel i x gi Ex Eg))|].
    apply Hms. rewrite <-Hd. by eapply lookup_lt_Some. }
  assert (∀ e, adam_step_size G t = Raise e →
    (match adam_step_size G t with Ok _ => Ok () | Raise e => Raise e end) = Raise e ∧ data' = data) as Hr.
  { intros e Er. rewrite Er in *. split; [done|]. by eapply adam_update_raise. }
  split; [|split].
  - intros e E1. apply Hr. unfold adam_step_size. by rewrite E1.
  - intros p1 e E1 E2. apply Hr. unfold adam_step_size. by rewrite E1; simpl; rewrite E2.
  - intros p1 p2 E1 E2 c1 c2.
    assert (adam_step_size G t = root ← math_sqrt c2; num_div (s_mul (adam_lr G) root) c1) as Es.
    { unfold adam_step_size. by rewrite E1; simpl; rewrite E2. }
    unfold math_sqrt, num_div, nonzero in Es.
    destruct (s_leb c2 s_zero && negb (s_eqb c2 s_zero)); [by apply Hr|].
    destruct (s_eqb c1 s_zero); simpl in Es; [by apply Hr|]. rewrite Es in *. split; [done|].
    intros i x Ex. destruct (lookup_lt_is_Some_2 g i) as [gi Eg]; [rewrite Hg; by eapply lookup_lt_Some|].
    exact (proj2 (Hel i x gi Ex Eg)).
Qed.
End moments.
End updates.

(** ** Concrete instance *)
Module UpdatesDemo.
#[export] Instance math : OptMath Z := {| s_powi b t := Ok (b ^ t); s_max := Z.max |}.

Lemma sgd_update_wf_witness :
  let '(data', grad', buf') := sgd_update (SGD 1 1 1 0 true) [10; 20] [1; 2] (Some [3; 4]) in
  length data' = 2%nat ∧ length grad' = 2%nat.
Proof.
  pose proof (sgd_update_wf (SGD 1 1 1 0 true) [10; 20] [1; 2] (Some [3; 4]) eq_refl eq_refl) as Hwf.
  destruct (sgd_update (SGD 1 1 1 0 true) [10; 20] [1; 2] (Some [3; 4])) as [[d g] b].
  destruct Hwf as (H1 & H2 & _). split; [exact H1|exact H2].
Defined.

Lemma rms_update_wf_witness : ∃ r, rms_update (RMS 1 2 3 0 1 true) false ([10; 20], [1; 2], None) = (Ok (), r).
Proof.
  destruct (rms_update_wf (RMS 1 2 3 0 1 true) [10; 20] [1; 2] None eq_refl I)
    as (d & st & E & _). exact (ex_intro _ (d, [1; 2], Some st) E).
Defined.

(** Rational betas 1/2 and 0: the gradients 2 and 4 after one another. *)
#[export] Instance qmath : OptMath Qcanon.Qc := {|
  s_powi b t := Ok (powN b (Z.to_nat t)); s_max a b := if s_leb a b then b else a
|}.
Definition adam_half (weight_decay : Z) : adam_group :=
  Adam (qc_of_Z 1) (s_div (qc_of_Z 1) (qc_of_Z 2)) (qc_of_Z 0) (qc_of_Z 1) (qc_of_Z weight_decay) true.
Definition adam_once := (adam_update (adam_half 0) false ([qc_of_Z 10], [qc_of_Z 2], None)).2.

Lemma adam_spec_witness : ∃ data' grad' s',
  adam_update (adam_half 0) false (adam_once.1.1, [qc_of_Z 4], adam_once.2) = (Ok (), (data', grad', Some s')) ∧
  adam_step s' = 2 ∧
  exp_avg s' !! 0%nat = Some (s_div (qc_of_Z 5) (qc_of_Z 2)) ∧
  data' !! 0%nat = Some (s_div (qc_of_Z 26) (qc_of_Z 3)).
Proof.
  assert (hist_run (adam_half 0) [qc_of_Z 10] [adam_once.1.2] (adam_once.1.1, adam_once.1.2, adam_once.2)) as Hrun.
  { apply (hist_snoc _ _ [] [qc_of_Z 10] [] None [qc_of_Z 2]); [constructor|reflexivity|reflexivity]. }
  destruct (adam_spec (ex_ring (R := Qcanon.Qc)) _ _ _ _ _ _ [qc_of_Z 4] Hrun eq_refl)
    as (_ & (r & data' & grad' & s' & E & _ & _ & Ht & Hm & _ & _ & Hok) & _).
  specialize (Hok _ _ eq_refl eq_refl). cbn zeta in Hok.
  match type of Hok with if ?b then _ else if ?c then _ else _ =>
    replace b with false in Hok by (vm_compute; reflexivity);
    replace c with false in Hok by (vm_compute; reflexivity) end.
  destruct Hok as [-> Hx]. exists data', grad', s'. split; [exact E|]. split; [exact Ht|].
  assert (grad' = [qc_of_Z 4]) as ->.
  { change (grad' = (adam_update (adam_half 0) false (adam_once.1.1, [qc_of_Z 4], adam_once.2)).2.1.2). by rewrite E. }
  split.
  - destruct (Hm 0%nat _ _ eq_refl eq_refl) as (_ & -> & _). apply (f_equal Some), Qcanon.Qc_is_canon. by vm_compute.
  - rewrite (Hx 0%nat _ eq_refl). apply (f_equal Some), Qcanon.Qc_is_canon. by vm_compute.
Defined.

Lemma sgd_single_group_witness :
  _sgd (λ p, Some (py_str (Z.of_nat p))) (λ _, [2%nat]) true 1%nat
    [(SGD 1 0 0 0 false, [0%nat]); (SGD 2 0 0 0 false, [1%nat])] ([10; 20], [1; 2], None)
  = (Ok (), sgd_update (SGD 2 0 0 0 false) [10; 20] [1; 2] None).
Proof.
  apply (sgd_single_group (λ p, Some (py_str (Z.of_nat p))) (λ _, [2%nat]) 1%nat
    [(SGD 1 0 0 0 false, [0%nat])] (SGD 2 0 0 0 false) [1%nat] [] [10; 20] [1; 2] None).
  - reflexivity.
  - repeat constructor.
  - constructor.
Defined.
End UpdatesDemo.
