(* ===== verification/DDP.v ===== *)
(** * Distributed data parallel, [byteps/torch/parallel/distributed.py]

    [DistributedDataParallel] pushes a gradient as soon as a backward hook
    reports it, through the group operation of the extension, which counts the
    gradients of the pass; the hook of the last one waits for all of them. *)

From S2P Require Import Prelude PyStr Tensor TorchOps TorchCompression DistOptim Broadcast DistDemo.

Section ddp.
Context {R : Type} `{Scalar R, !Extension R, !TorchLib R, !Backend R}.

Record ddp : Type := DDP {
  dp_world : world (R := R);
  dp_grad : gmap param loc;
  dp_data : gmap param loc;
  dp_handles : odict param (option Z * ctx);
  _require_backward_grad_sync : bool
}.

(** What [__init__] fixes. *)
Record ddp_config : Type := DDPConfig {
  dp_compression : compression;
  dp_async : bool;
  dp_names : odict np_value string;
  dp_requires_update : gset param;
  _num_grads : Z;
  broadcast_buffers : bool
}.

Definition dp_set_world w (s : ddp) : ddp :=
  DDP w (dp_grad s) (dp_data s) (dp_handles s) (_require_backward_grad_sync s).
Definition dp_set_handles h (s : ddp) : ddp :=
  DDP (dp_world s) (dp_grad s) (dp_data s) h (_require_backward_grad_sync s).
Definition dp_set_require b (s : ddp) : ddp :=
  DDP (dp_world s) (dp_grad s) (dp_data s) (dp_handles s) b.
Definition dp_in_world {A} : M (world (R := R)) A → M ddp A := zoom dp_world dp_set_world.
Definition dp_in_ops {A} (m : M (ops R) A) : M ddp A := dp_in_world (on_ops m).
Definition dp_grad_of (p : param) : M ddp loc :=
  s ← get; lift (or_raise AttributeError (dp_grad s !! p)).

(** ** Construction *)

Definition dp_register (requires_grad : param → bool) (p : param) : M ddp () :=
  if requires_grad p then
    s ← get;
    d ← lift (or_raise AttributeError (dp_data s !! p));
    t ← dp_in_ops (read_t d);
    l ← dp_in_ops (alloc_t (with_data (vzero (length (t_data t))) t));
    modify (λ s, DDP (dp_world s) (<[p := l]> (dp_grad s)) (dp_data s) (dp_handles s)
                   (_require_backward_grad_sync s))
  else mret ().

(** [__init__]: [named] is [module.named_parameters()], [state] the items of
    [module.state_dict()]. Without parameters the code reads
    [self.param_groups], which a module does not have. *)
Definition ddp_init (device_ids : list Z) (named : list (string * param)) (requires_grad : param → bool)
    (c : compression) (bb : bool) (size rank : Z) (state : list (string * loc)) : M ddp ddp_config :=
  m_assert (bool_decide (length device_ids = 1%nat));;
  modify (dp_set_handles []);;
  modify (dp_set_require true);;
  names ← (match named with
           | [] => raise AttributeError
           | _ => mret (names_dict (sorted_pairs ((λ '(n, p), (n, NPTensor p)) <$> named)))
           end);
  num ← (if decide (1 < size) then
           for_each (dp_register requires_grad) named.*2;;
           let n := Z.of_nat (length (filter (λ p, requires_grad p = true) named.*2)) in
           dp_in_ops (byteps_torch_set_num_grads n);; mret n
         else mret 1);
  for_each (λ n, dp_in_ops (declare ("Gradient." +:+ n));; mret ()) (sorted_str names.*2);;
  for_each (λ n, dp_in_ops (declare ("Parameter." +:+ n));; mret ()) (sorted_str names.*2);;
  (match state with
   | [] => mret ()
   | _ => dp_in_ops (broadcast_parameters rank 0 "Parameter." (BCDict state))
   end);;
  mret (DDPConfig c false names
    (if decide (1 < size) then list_to_set (filter (λ p, requires_grad p = true) named.*2) else ∅)
    num bb).

(** ** Hooks *)

Definition dp_name (cf : ddp_config) (p : param) : option string := od_get (NPTensor p) (dp_names cf).

(** In asynchronous mode [grad_count] is not assigned. *)
Definition _push_pull_grad_group_sync (cf : ddp_config) (p : param) : M ddp (option Z * ctx * Z) :=
  if dp_async cf then raise UnboundLocalError
  else
    tensor ← dp_grad_of p;
    '(tc, cx) ← dp_in_world (compress (dp_compression cf) tensor None None);
    full ← lift (prefixed "Gradient." (dp_name cf p));
    '(handle, grad_count) ← dp_in_ops (push_pull_group_sync_inplace tc true (Some full));
    mret (Some handle, cx, grad_count).

Definition dp_push_pull_grad_async (cf : ddp_config) (p : param) : M ddp (option Z * ctx) :=
  if dp_async cf then mret (None, CtxNone)
  else
    tensor ← dp_grad_of p;
    '(tc, cx) ← dp_in_world (compress (dp_compression cf) tensor None None);
    full ← lift (prefixed "Gradient." (dp_name cf p));
    handle ← dp_in_ops (push_pull_async_inplace tc true (Some full) "");
    mret (Some handle, cx).

Definition push_one (cf : ddp_config) (p : param) : M ddp Z :=
  '(handle, cx, grad_count) ← _push_pull_grad_group_sync cf p;
  modify (λ s, dp_set_handles (od_set p (handle, cx) (dp_handles s)) s);;
  mret grad_count.

(** The second loop of [synchronize]: [_push_pull_grad_group_sync(p)] lacks an
    argument, a [TypeError] if it is reached. It leaves [ctx] bound to the last
    entry's. *)
Definition check_handles : M ddp ctx :=
  s ← get;
  if existsb (λ '(_, (h, _)), bool_decide (h = None)) (dp_handles s) then raise TypeError
  else mret (default CtxNone (last ((λ '(_, (_, c)), c) <$> dp_handles s))).

Definition dp_tensor_set (a b : loc) : M ddp () :=
  ta ← dp_in_ops (read_t a);
  tb ← dp_in_ops (read_t b);
  if decide (t_dtype ta = t_dtype tb) then dp_in_ops (write_t a tb) else raise RuntimeError.

(** The context is the one the second loop left. *)
Definition dp_finish (cf : ddp_config) (cx : ctx) (ph : param * (option Z * ctx)) : M ddp () :=
  let '(p, (h, _)) := ph in
  o ← dp_in_ops (synchronize h);
  if dp_async cf then mret ()
  else
    g ← dp_grad_of p;
    o ← lift (or_raise TypeError o);
    '(d, _) ← dp_in_world (decompress (dp_compression cf) o cx);
    dp_tensor_set g d.

Definition dp_synchronize (cf : ddp_config) : M ddp () :=
  s ← get;
  for_each (λ p, push_one cf p;; mret ())
    (set_order (dp_requires_update cf ∖ list_to_set (od_keys (dp_handles s))));;
  cx ← check_handles;
  s ← get;
  for_each (dp_finish cf cx) (dp_handles s);;
  modify (dp_set_handles []).

Definition dp_hook (cf : ddp_config) (p : param) : M ddp () :=
  s ← get;
  if _require_backward_grad_sync s then
    grad_count ← push_one cf p;
    if decide (grad_count = _num_grads cf) then dp_synchronize cf else mret ()
  else mret ().

(** ** [no_sync] and [forward] *)

Definition no_sync {A} (cf : ddp_config) (body : M ddp A) : M ddp A :=
  if dp_async cf then raise AssertionError
  else λ s,
    let old := _require_backward_grad_sync s in
    let '(r, s') := body (dp_set_require false s) in (r, dp_set_require old s').

Definition _sync_params (cf : ddp_config) (rank : Z) (buffers : list (string * loc)) : M ddp () :=
  if broadcast_buffers cf && bool_decide (buffers ≠ []) then
    dp_in_ops (broadcast_parameters rank 0 "Parameter."
                 (BCList ((λ '(n, l), BCPair (Some n) l) <$> buffers)))
  else mret ().

(** [require_forward_param_sync] is [broadcast_buffers]. *)
Definition ddp_forward {A} (cf : ddp_config) (rank : Z) (buffers : list (string * loc))
    (module : M ddp A) : M ddp A :=
  (if broadcast_buffers cf then _sync_params cf rank buffers else mret ());;
  module.

(** ** One backward pass *)

Implicit Types (s : ddp) (p : param).
Notation dops s := (dp_world s).1 (only parsing).
Notation dheap s := (o_heap (dp_world s).1) (only parsing).
Notation dpending s := (TorchOps._handle_map (dp_world s).1) (only parsing).
Notation dtasks s := (c_results (o_clib (dp_world s).1)) (only parsing).
Notation dlast s := (c_last_handle (o_clib (dp_world s).1)) (only parsing).

Definition group_supported (t : tensor R) : Prop :=
  c_attrs (_push_pull_group_function_factory t) = true ∧ t_contiguous t = true.

Lemma group_push_ok (o : ops R) g name t :
  o_heap o !! g = Some t → group_supported t → c_initialized (o_clib o) = true →
  ∃ o', push_pull_group_sync_inplace g true (Some name) o
          = (Ok (c_last_handle (o_clib o) + 1, c_grad_count (o_clib o) + 1), o') ∧
    o_heap o' = o_heap o ∧ o_next o' = o_next o ∧
    c_last_handle (o_clib o') = c_last_handle (o_clib o) + 1 ∧
    c_initialized (o_clib o') = true ∧ c_num_grads (o_clib o') = c_num_grads (o_clib o) ∧
    c_grad_count (o_clib o') = (if decide (c_grad_count (o_clib o) + 1 = c_num_grads (o_clib o))
                                then 0 else c_grad_count (o_clib o) + 1) ∧
    TorchOps._handle_map o'
      = <[c_last_handle (o_clib o) + 1 := (g, g, Some name)]> (TorchOps._handle_map o) ∧
    c_results (o_clib o') = <[c_last_handle (o_clib o) + 1 :=
      Task (t_data t) g true (GetOpName name) (norm2 (t_data t)) ""]> (c_results (o_clib o)).
Proof.
  intros Ht [Hf Hc] Hi. destruct o as [hp nx cl hm nn mn nt]. simpl in *.
  unfold push_pull_group_sync_inplace, _do_push_pull_group_sync, byteps_torch_declare_tensor,
    DoPushPullGroupSync, DoPushPull, count_grad, _check_function, read_t, mbind, M_bind, modify, lift,
    get, mret, M_ret. simpl.
  destruct (decide (GetOpName name ∈ c_declared cl)); simpl; rewrite Ht; simpl; rewrite Hf, Hc; simpl;
    rewrite Hi; simpl; eexists; (split; [reflexivity|]); simpl; by split_and!.
Qed.

Lemma dp_in_ops_eq {A} (m : M (ops R) A) s r o :
  m (dops s) = (r, o) → dp_in_ops m s = (r, dp_set_world (o, (dp_world s).2) s).
Proof. unfold dp_in_ops, dp_in_world, on_ops, zoom. intros E. by rewrite E. Qed.

Section pass.
Context (cf : ddp_config) (G : param → loc) (T : param → tensor R) (N : param → string).
Context (Hnone : dp_compression cf = CNone) (Hsync : dp_async cf = false).

Record pass_ready s (ps : list param) : Prop := {
  pr_inv : ops_inv (dops s);
  pr_init : c_initialized (o_clib (dops s)) = true;
  pr_nodup : NoDup ps;
  pr_all : dp_requires_update cf = list_to_set ps;
  pr_num : _num_grads cf = Z.of_nat (length ps);
  pr_cnum : c_num_grads (o_clib (dops s)) = Z.of_nat (length ps);
  pr_count : c_grad_count (o_clib (dops s)) = 0;
  pr_idle : dp_handles s = [];
  pr_require : _require_backward_grad_sync s = true;
  pr_grad p : p ∈ ps → dp_grad s !! p = Some (G p);
  pr_heap p : p ∈ ps → dheap s !! G p = Some (T p);
  pr_sup p : p ∈ ps → group_supported (T p);
  pr_name p : p ∈ ps → dp_name cf p = Some (N p);
  pr_inj p q : p ∈ ps → q ∈ ps → G p = G q → p = q
}.

Definition pass_key p : string := "Gradient." +:+ N p.
Definition pass_task p : task R :=
  Task (t_data (T p)) (G p) true (GetOpName (pass_key p)) (norm2 (t_data (T p))) "".

(** The entries of the handle table after the hooks of [dn]. *)
Definition entries (h0 : Z) (dn : list param) : odict param (option Z * ctx) :=
  imap (λ i p, (p, (Some (h0 + 1 + Z.of_nat i), CtxNone))) dn.

Lemma entries_app h0 dn p :
  entries h0 (dn ++ [p]) = entries h0 dn ++ [(p, (Some (h0 + 1 + Z.of_nat (length dn)), CtxNone))].
Proof. unfold entries. rewrite imap_app. simpl. by rewrite Nat.add_0_r. Qed.

Lemma entries_lookup h0 dn i :
  entries h0 dn !! i = (λ p, (p, (Some (h0 + 1 + Z.of_nat i), CtxNone))) <$> dn !! i.
Proof. exact (list_lookup_imap _ dn i). Qed.

Lemma entries_keys h0 dn : od_keys (entries h0 dn) = dn.
Proof.
  unfold od_keys, entries. apply list_eq. intros i. rewrite list_lookup_fmap, list_lookup_imap.
  by destruct (dn !! i).
Qed.

Record pushed s0 (dn : list param) s : Prop := {
  pu_inv : ops_inv (dops s);
  pu_init : c_initialized (o_clib (dops s)) = true;
  pu_heap : dheap s = dheap s0;
  pu_last : dlast s = dlast s0 + Z.of_nat (length dn);
  pu_num : c_num_grads (o_clib (dops s)) = c_num_grads (o_clib (dops s0));
  pu_count : c_grad_count (o_clib (dops s)) =
    if decide (Z.of_nat (length dn) = c_num_grads (o_clib (dops s0))) then 0 else Z.of_nat (length dn);
  pu_grad : dp_grad s = dp_grad s0;
  pu_require : _require_backward_grad_sync s = true;
  pu_handles : dp_handles s = entries (dlast s0) dn;
  pu_new i p : dn !! i = Some p → let h := dlast s0 + 1 + Z.of_nat i in
    dpending s !! h = Some (G p, G p, Some (pass_key p)) ∧ dtasks s !! h = Some (pass_task p);
  pu_old h : h ≤ dlast s0 → dpending s !! h = dpending s0 !! h ∧ dtasks s !! h = dtasks s0 !! h
}.

Lemma push_one_ok s0 ps dn p rest s :
  pass_ready s0 ps → ps = dn ++ p :: rest → pushed s0 dn s →
  ∃ s', push_one cf p s = (Ok (Z.of_nat (length dn) + 1), s') ∧ pushed s0 (dn ++ [p]) s'.
Proof.
  intros Hr Hps [P1 P2 P3 P4 P5 P6 P7 P8 P9 P10 P11].
  assert (p ∈ ps) as Hp by (rewrite Hps; set_solver).
  assert (p ∉ dn) as Hpd.
  { pose proof (pr_nodup _ _ Hr) as Hnd. rewrite Hps in Hnd.
    apply NoDup_app in Hnd as (_ & Hdis & _). intros Hin. apply (Hdis p Hin). left. }
  assert (Z.of_nat (length dn) ≠ c_num_grads (o_clib (dops s0))) as Hne.
  { rewrite (pr_cnum _ _ Hr), Hps, length_app. simpl. lia. }
  rewrite decide_False in P6 by done.
  destruct (group_push_ok (dops s) (G p) (pass_key p) (T p))
    as (o' & E & Hh & Hn & Hl & Hi & Hnum & Hc & Hm & Ht);
    [rewrite P3; by apply Hr|by apply Hr|done|].
  destruct s as [[os rs] gr da hs rq]. simpl in P1, P2, P3, P4, P5, P6, P7, P8, P9, P10, P11, E, Hh, Hn, Hl, Hi, Hnum, Hc, Hm, Ht.
  unfold push_one, _push_pull_grad_group_sync. rewrite Hsync, Hnone, (pr_name _ _ Hr) by done.
  erewrite bind_Ok.
  2: { erewrite bind_Ok.
       2: { unfold dp_grad_of. erewrite bind_Ok by reflexivity. unfold lift.
            rewrite P7, (pr_grad _ _ Hr) by done. reflexivity. }
       erewrite bind_Ok by reflexivity. cbv beta iota. erewrite bind_Ok by reflexivity.
       erewrite bind_Ok by (apply dp_in_ops_eq; exact E). reflexivity. }
  cbv beta iota. erewrite bind_Ok by reflexivity. eexists. split; [by rewrite P6|].
  simpl in *.
  assert (ops_inv o') as Hinv'.
  { apply (submit_inv os o' (G p) (G p) (Some (pass_key p)) (pass_task p)); try done.
    rewrite P3, (pr_heap _ _ Hr) by done. by eexists. }
  split; simpl; try done.
  - by rewrite Hh.
  - rewrite length_app, Hl, P4. simpl. lia.
  - by rewrite Hnum.
  - rewrite Hc, P5, P6, length_app. simpl.
    replace (Z.of_nat (length dn + 1)) with (Z.of_nat (length dn) + 1) by lia. done.
  - rewrite P9, od_set_new by (by rewrite entries_keys). rewrite entries_app, P4.
    by replace (dlast s0 + Z.of_nat (length dn) + 1) with (dlast s0 + 1 + Z.of_nat (length dn)) by lia.
  - intros i q. rewrite lookup_app_Some. intros [Hi'|[Hi' Hq]].
    + destruct (P10 i q Hi') as [A1 A2]. apply lookup_lt_Some in Hi' as Hlt.
      rewrite Hm, Ht, !lookup_insert_ne by lia. done.
    + apply list_lookup_singleton_Some in Hq as [Hi0 <-].
      assert (c_last_handle (o_clib (dp_world s0).1) + 1 + Z.of_nat i = c_last_handle (o_clib os) + 1) as ->
        by lia.
      by rewrite Hm, Ht, !lookup_insert_eq.
  - intros h Hle. rewrite Hm, Ht, !lookup_insert_ne by lia. by apply P11.
Qed.

Lemma hook_early s0 ps dn p rest s :
  pass_ready s0 ps → ps = dn ++ p :: rest → rest ≠ [] → pushed s0 dn s →
  ∃ s', dp_hook cf p s = (Ok (), s') ∧ pushed s0 (dn ++ [p]) s'.
Proof.
  intros Hr Hps Hrest Hpu. destruct (push_one_ok s0 ps dn p rest s Hr Hps Hpu) as (s' & E & Hpu').
  exists s'. split; [|done]. unfold dp_hook. erewrite bind_Ok by reflexivity.
  rewrite (pu_require _ _ _ Hpu). erewrite bind_Ok by exact E. rewrite decide_False; [done|].
  rewrite (pr_num _ _ Hr), Hps, length_app. destruct rest; [done|]. simpl. lia.
Qed.

(** The reply to the [i]-th gradient of the pass. *)
Definition pass_reply (h0 : Z) (i : nat) p : tensor R :=
  with_data (reduce (h0 + 1 + Z.of_nat i) (GetOpName (pass_key p)) true "" (t_data (T p))) (T p).

Record waited (h0 : Z) s1 (dn : list param) s : Prop := {
  wa_inv : ops_inv (dops s);
  wa_grad : dp_grad s = dp_grad s1;
  wa_count : c_grad_count (o_clib (dops s)) = c_grad_count (o_clib (dops s1));
  wa_last : dlast s = dlast s1;
  wa_done i p : dn !! i = Some p → dheap s !! G p = Some (pass_reply h0 i p);
  wa_rest l : (∀ p, p ∈ dn → l ≠ G p) → dheap s !! l = dheap s1 !! l;
  wa_gone h : h0 < h ≤ h0 + Z.of_nat (length dn) → dpending s !! h = None ∧ dtasks s !! h = None;
  wa_kept h : ¬ (h0 < h ≤ h0 + Z.of_nat (length dn)) →
    dpending s !! h = dpending s1 !! h ∧ dtasks s !! h = dtasks s1 !! h
}.

Lemma dp_finish_ok cx s p h c :
  dp_grad s !! p = Some (G p) → dpending s !! h = Some (G p, G p, Some (pass_key p)) →
  dtasks s !! h = Some (pass_task p) → dheap s !! G p = Some (T p) →
  ∃ s', dp_finish cf cx (p, (Some h, c)) s = (Ok (), s') ∧
    dops s' = completed (dops s) h (pass_task p) (T p) ∧ dp_grad s' = dp_grad s.
Proof.
  intros Hg Hp Ht Hl. unfold dp_finish.
  erewrite bind_Ok by (apply dp_in_ops_eq; exact (synchronize_ok _ _ _ _ _ _ (T p) Hp Ht Hl)).
  rewrite Hsync, Hnone. erewrite bind_Ok.
  2: { unfold dp_grad_of. erewrite bind_Ok by reflexivity. unfold lift. simpl. rewrite Hg. reflexivity. }
  erewrite bind_Ok by reflexivity. erewrite bind_Ok by reflexivity. cbv beta iota.
  unfold dp_tensor_set.
  do 2 (erewrite bind_Ok by (apply dp_in_ops_eq; unfold read_t, mbind, M_bind, get, lift; simpl;
    rewrite lookup_insert_eq; reflexivity)).
  rewrite decide_True by done. erewrite dp_in_ops_eq by reflexivity.
  eexists. split; [reflexivity|]. simpl. split; [|done].
  unfold completed, set_heap, set_clib, set_handle_map. simpl. by rewrite insert_insert_eq.
Qed.

Lemma wait_all_ok s0 ps s cx :
  pass_ready s0 ps → pushed s0 ps s →
  ∃ s', for_each (dp_finish cf cx) (entries (dlast s0) ps) s = (Ok (), s') ∧
    waited (dlast s0) s ps s'.
Proof.
  intros Hr Hpu.
  destruct (for_each_inv (dp_finish cf cx)
    (λ dn s', waited (dlast s0) s dn.*1 s') (entries (dlast s0) ps) s) as (s' & E & Hw).
  { split; try done; [apply Hpu|]. simpl. lia. }
  2: { exists s'. split; [done|]. by rewrite <-(entries_keys (dlast s0) ps). }
  intros dn [p hc] rest s2 Hes [W1 W2 W3 W4 W5 W6 W7 W8].
  assert (ps = dn.*1 ++ p :: rest.*1) as Hps.
  { rewrite <-(entries_keys (dlast s0) ps). unfold od_keys. rewrite Hes, fmap_app. done. }
  assert (ps !! length dn = Some p) as Hlk.
  { rewrite Hps. rewrite <-(length_fmap fst dn). by apply list_lookup_middle. }
  assert (hc = (Some (dlast s0 + 1 + Z.of_nat (length dn)), CtxNone)) as ->.
  { assert (entries (dlast s0) ps !! length dn = Some (p, hc)) as He
      by (rewrite Hes; by apply list_lookup_middle).
    rewrite entries_lookup, Hlk in He. simpl in He. congruence. }
  set (h := dlast s0 + 1 + Z.of_nat (length dn)).
  assert (p ∈ ps) as Hp by (by eapply list_elem_of_lookup_2).
  assert (p ∉ dn.*1) as Hpd.
  { pose proof (pr_nodup _ _ Hr) as Hnd. rewrite Hps in Hnd.
    apply NoDup_app in Hnd as (_ & Hdis & _). intros Hin. apply (Hdis p Hin). left. }
  assert (∀ q, q ∈ dn.*1 → G p ≠ G q) as Hne.
  { intros q Hq E. apply Hpd. rewrite (pr_inj _ _ Hr p q); [done|done|rewrite Hps; set_solver|done]. }
  destruct (pu_new _ _ _ Hpu _ _ Hlk) as [A1 A2]. fold h in A1, A2.
  rewrite length_fmap in W7, W8. destruct (W8 h) as [B1 B2]; [lia|].
  assert (dheap s2 !! G p = Some (T p)) as Ht.
  { rewrite W6 by done. rewrite (pu_heap _ _ _ Hpu). by apply Hr. }
  destruct (dp_finish_ok cx s2 p h CtxNone) as (s3 & E & Ho & Hg);
    [rewrite W2, (pu_grad _ _ _ Hpu); by apply Hr|by rewrite B1|by rewrite B2|done|].
  exists s3. split; [done|].
  assert (ops_inv (dops s3)) as Hinv.
  { rewrite Ho. apply completed_inv; [done|by rewrite B2|done]. }
  split; [done|by rewrite Hg|by rewrite Ho|by rewrite Ho| | | |]; rewrite Ho, fmap_app; simpl.
  - intros i q. rewrite lookup_app_Some, length_fmap. intros [Hi|[Hi Hq]].
    + apply list_elem_of_lookup_2 in Hi as Hin. rewrite lookup_insert_ne by (by apply Hne). by apply W5.
    + apply list_lookup_singleton_Some in Hq as [Hi0 <-]. rewrite lookup_insert_eq.
      unfold pass_reply, h. by replace i with (length dn) by lia.
  - intros l Hl. rewrite lookup_insert_ne by (apply not_eq_sym; apply Hl; set_solver).
    apply W6. intros q Hq. apply Hl. set_solver.
  - rewrite length_app, length_fmap. simpl. intros h' Hh'. rewrite !lookup_delete.
    case_decide; [done|]. apply W7. lia.
  - rewrite length_app, length_fmap. simpl. intros h' Hh'. rewrite !lookup_delete_ne by lia. apply W8. lia.
Qed.

Lemma check_handles_entries s h0 ps :
  dp_handles s = entries h0 ps → ∃ cx, check_handles s = (Ok cx, s).
Proof.
  intros Hh. unfold check_handles. erewrite bind_Ok by reflexivity. rewrite Hh.
  assert (existsb (λ '(_, (h, _)), bool_decide (h = None)) (entries h0 ps) = false) as ->.
  { apply not_true_iff_false. rewrite existsb_exists. intros ([p [h c]] & Hin & Hb).
    apply list_elem_of_In, list_elem_of_lookup in Hin as [i Hi].
    apply bool_decide_eq_true in Hb as ->. rewrite entries_lookup in Hi. by destruct (ps !! i). }
  by eexists.
Qed.

Lemma dp_synchronize_ok `{!BackendLaws R} s0 ps s :
  pass_ready s0 ps → pushed s0 ps s →
  ∃ s', dp_synchronize cf s = (Ok (), s') ∧ waited (dlast s0) s ps s' ∧ dp_handles s' = [].
Proof.
  intros Hr Hpu. unfold dp_synchronize. erewrite bind_Ok by reflexivity.
  assert (set_order (dp_requires_update cf ∖ list_to_set (od_keys (dp_handles s))) = []) as ->.
  { apply Permutation_nil_r. rewrite (set_order_perm (R := R)).
    rewrite (pu_handles _ _ _ Hpu), entries_keys, (pr_all _ _ Hr), difference_diag_L.
    by rewrite elements_empty. }
  erewrite bind_Ok by reflexivity.
  destruct (check_handles_entries s (dlast s0) ps (pu_handles _ _ _ Hpu)) as [cx Ecx].
  erewrite bind_Ok by exact Ecx. erewrite bind_Ok by reflexivity.
  rewrite (pu_handles _ _ _ Hpu).
  destruct (wait_all_ok s0 ps s cx Hr Hpu) as (s' & E & [W1 W2 W3 W4 W5 W6 W7 W8]).
  erewrite bind_Ok by exact E. eexists. split; [reflexivity|]. by split.
Qed.

(** C27: One backward pass. When the hooks of all parameters that require an
    update have run, once each and in any order, the last one has waited for the
    whole group: every gradient is the servers' average of what it was, in its
    own tensor with its type and shape; no other tensor is written, no handle and
    no operation is left, and the extension's counter is back at zero for the
    next pass. *)
Theorem ddp_backward_pass `{!BackendLaws R} s ps :
  pass_ready s ps → ps ≠ [] →
  ∃ s', for_each (dp_hook cf) ps s = (Ok (), s') ∧
    (∀ i p, ps !! i = Some p → dheap s' !! G p = Some (pass_reply (dlast s) i p)) ∧
    (∀ l, (∀ p, p ∈ ps → l ≠ G p) → dheap s' !! l = dheap s !! l) ∧
    dp_handles s' = [] ∧ dpending s' = dpending s ∧ dtasks s' = dtasks s ∧
    c_grad_count (o_clib (dops s')) = 0.
Proof.
  intros Hr Hne. destruct ps as [|pl ini _] using rev_ind; [done|]. clear Hne.
  assert (pushed s [] s) as Hpu0.
  { split; try done; try apply Hr; [simpl; lia|]. rewrite (pr_count _ _ Hr). simpl. by case_decide. }
  destruct (for_each_inv (dp_hook cf) (pushed s) ini s Hpu0) as (s1 & E1 & Hpu1).
  { intros dn p rest s1 Hini Hpu. eapply (hook_early s (ini ++ [pl]) dn p (rest ++ [pl])); [done| |by destruct rest|done].
    by rewrite Hini, <-app_assoc. }
  destruct (push_one_ok s (ini ++ [pl]) ini pl [] s1 Hr eq_refl Hpu1) as (s2 & E2 & Hpu2).
  destruct (dp_synchronize_ok s (ini ++ [pl]) s2 Hr Hpu2) as (s3 & E3 & [W1 W2 W3 W4 W5 W6 W7 W8] & Hh).
  destruct (tables_restored (dops s) (dops s3)) as [T1 T2]; [apply Hr|done| | |].
  { intros h Hle. destruct (W8 h) as [-> ->]; [lia|]. by apply (pu_old _ _ _ Hpu2). }
  { intros h Hle. apply W7. rewrite W4, (pu_last _ _ _ Hpu2) in Hle. lia. }
  exists s3. split_and!; try done.
  - rewrite for_each_app_eq. erewrite bind_Ok by exact E1. simpl.
    erewrite bind_Ok; [reflexivity|]. unfold dp_hook. erewrite bind_Ok by reflexivity.
    rewrite (pu_require _ _ _ Hpu1). erewrite bind_Ok by exact E2.
    rewrite decide_True; [exact E3|]. rewrite (pr_num _ _ Hr), length_app. simpl. lia.
  - intros l Hl. rewrite W6 by done. by rewrite (pu_heap _ _ _ Hpu2).
  - rewrite W3, (pu_count _ _ _ Hpu2), (pr_cnum _ _ Hr). by rewrite decide_True.
Qed.
End pass.

(** Inside [no_sync] any number of backward passes leaves the state as it was
    (the gradients accumulate locally), and the flag is restored on the way out,
    also when the body raises. *)
Theorem no_sync_accumulates (cf : ddp_config) (ps : list param) s :
  dp_async cf = false →
  no_sync cf (for_each (dp_hook cf) ps) s = (Ok (), s) ∧
  ∀ A (body : M ddp A), _require_backward_grad_sync (no_sync cf body s).2
                        = _require_backward_grad_sync s.
Proof.
  intros Hs. unfold no_sync. rewrite Hs. split.
  - assert (∀ s, _require_backward_grad_sync s = false → for_each (dp_hook cf) ps s = (Ok (), s)) as Hl.
    { intros s' Hf. induction ps as [|p ps' IH]; simpl; [done|].
      erewrite bind_Ok; [exact IH|]. unfold dp_hook. erewrite bind_Ok by reflexivity. by rewrite Hf. }
    rewrite Hl by done. by destruct s.
  - intros A body. by destruct (body (dp_set_require false s)).
Qed.
End ddp.

(** ** Concrete instance *)
Module DDPDemo.
Import OpsDemo CompressionDemo.
Definition conf : ddp_config :=
  DDPConfig CNone false [(NPTensor 0, "w"); (NPTensor 1, "b")] {[0%nat; 1%nat]} 2 true.
Definition ops2 : ops Z := Ops heap1 5 (CLib true 0 ∅ [] 2 0) ∅ ∅ 0 ∅.
Definition before : ddp :=
  DDP (ops2, ∅) {[0%nat := 2%nat; 1%nat := 3%nat]} {[0%nat := 0%nat; 1%nat := 1%nat]} [] true.

Lemma pass_ready_demo : pass_ready conf (λ p, p + 2)%nat (λ p, if decide (p = 0%nat) then gr0 else gr1)
  (λ p, if decide (p = 0%nat) then "w" else "b") before [1%nat; 0%nat].
Proof.
  split; try reflexivity.
  - destruct ops1_inv as [A1 A2 A3 A4 A5]. by split.
  - by apply (bool_decide_unpack _); vm_compute.
  - intros p [->|[->|[]%not_elem_of_nil]%elem_of_cons]%elem_of_cons; reflexivity.
  - intros p [->|[->|[]%not_elem_of_nil]%elem_of_cons]%elem_of_cons; reflexivity.
  - intros p [->|[->|[]%not_elem_of_nil]%elem_of_cons]%elem_of_cons; split; vm_compute; reflexivity.
  - intros p [->|[->|[]%not_elem_of_nil]%elem_of_cons]%elem_of_cons; reflexivity.
  - intros p q _ _ E. lia.
Qed.

Lemma ddp_backward_pass_witness : ∃ s, for_each (dp_hook conf) [1%nat; 0%nat] before = (Ok (), s) ∧
  dp_handles s = [].
Proof.
  destruct (ddp_backward_pass conf (λ p, p + 2)%nat (λ p, if decide (p = 0%nat) then gr0 else gr1)
    (λ p, if decide (p = 0%nat) then "w" else "b") eq_refl eq_refl before [1%nat; 0%nat] pass_ready_demo)
    as (s & E & _ & _ & Hh & _); [discriminate|exact (ex_intro _ s (conj E Hh))].
Defined.

Lemma no_sync_accumulates_witness :
  no_sync conf (for_each (dp_hook conf) [0%nat; 0%nat; 1%nat]) before = (Ok (), before).
Proof. apply (no_sync_accumulates conf [0%nat; 0%nat; 1%nat] before). reflexivity. Defined.
End DDPDemo.
