(* ===== verification/MXNet.v ===== *)
(** * The MXNet plugin, [byteps/mxnet]

    [compression.py] (the compressors and the two momentum adapters), [ops.py]
    (the arguments of [byteps_declare_tensor]) and [__init__.py]: the
    distributed optimizer, the broadcast, and the trainer with its registration
    of compressors.

    A push-pull reads and writes an array in place; here it takes the elements
    and returns the new ones, and leaves an entry in the list of calls. *)

From Stdlib Require Import Ascii.
From S2P Require Import Prelude PyStr Tensor TorchCompression DistOptim.

Module Mx.

(** ** [compression.py] *)
Section compression.
Context {R : Type} `{Scalar R, !TorchLib R}.

(** [size(shape)]: the bytes of a 32-bit array; [reduce] of an empty shape is a
    [TypeError]. *)
Definition size (shape : list nat) : res Z :=
  match shape with
  | [] => Raise TypeError
  | _ => Ok (Z.of_nat (numel shape) * 4)
  end.

(** An array: its element type, shape and elements. *)
Record array : Type := Array { a_dtype : dtype; a_shape : list nat; a_data : list R }.

Definition astype (d : dtype) (a : array) : array :=
  if decide (a_dtype a = d) then a else Array d (a_shape a) (map (cast d) (a_data a)).

(** The state of an adapter: [inited], whether the momentum is used, and it. *)
Record adapter : Type := Adapter { ad_inited : bool; ad_on : bool; ad_mom : list R }.
Definition fresh : adapter := Adapter false false [].

(** A compressor object; the adapters wrap another one. *)
Inductive compressor :=
  | NoneC
  | FP16C
  | NagC (inner : compressor) (mu : R) (threshold : Z) (st : adapter)
  | WdMomC (inner : compressor) (mu wd : R) (threshold : Z) (st : adapter).

Fixpoint compress (c : compressor) (t : array) : array * option dtype :=
  match c with
  | NoneC => (t, None)
  | FP16C => (if is_floating_point (a_dtype t) then astype float16 t else t, Some (a_dtype t))
  | NagC inner _ _ _ => compress inner t
  | WdMomC inner _ _ _ _ => compress inner t
  end.

(** [x.astype(...) * a] elementwise, and [t += l]. *)
Definition scale (a : R) (l : list R) : list R := map (λ x, s_mul x a) l.
Definition a_add (t : array) (l : list R) : array := Array (a_dtype t) (a_shape t) (vadd (a_data t) l).

(** Nesterov momentum: [mom += t; mom *= mu; t += mom]. *)
Definition momentum_step (mu : R) (mom g : list R) : list R := scale mu (vadd mom g).

Fixpoint decompress (c : compressor) (t : array) (cx : option dtype) (x : option array) :
    res (array * compressor) :=
  match c with
  | NoneC => Ok (t, c)
  | FP16C =>
      match cx with
      | Some d => Ok (if is_floating_point d then astype d t else t, c)
      | None => Ok (t, c)
      end
  | NagC inner mu threshold st =>
      '(t, inner) ← decompress inner t cx x;
      st ← (if ad_inited st then Ok st
            else n ← size (a_shape t);
                 Ok (if decide (n < threshold) then Adapter true true (vzero (length (a_data t)))
                     else Adapter true false []));
      if ad_on st then
        let mom := momentum_step mu (ad_mom st) (a_data t) in
        Ok (a_add t mom, NagC inner mu threshold (Adapter true true mom))
      else Ok (t, NagC inner mu threshold st)
  | WdMomC inner mu wd threshold st =>
      match x with
      | None => Raise ValueError
      | Some x =>
          let x' := astype (a_dtype t) x in
          st ← (if ad_inited st then Ok st
                else n ← size (a_shape t);
                     Ok (if decide (threshold ≤ n) then Adapter true true (vzero (length (a_data t)))
                         else Adapter true false []));
          let cache := scale wd (a_data x') in
          let '(t1, st1) :=
            if ad_on st then
              let mom := momentum_step mu (ad_mom st) cache in
              (a_add t mom, Adapter true true mom)
            else (t, st) in
          '(t2, inner) ← decompress inner (a_add t1 cache) cx (Some x);
          Ok (t2, WdMomC inner mu wd threshold st1)
      end
  end.

(** A sequence of gradients through one compressor. *)
Fixpoint decompress_all (c : compressor) (ts : list (array * option array)) : res (list array * compressor) :=
  match ts with
  | [] => Ok ([], c)
  | (t, x) :: ts' =>
      '(t', c') ← decompress c t None x;
      '(rest, c'') ← decompress_all c' ts';
      Ok (t' :: rest, c'')
  end.

Lemma scale_zero (mu : R) n : (∀ a, s_mul s_zero a = s_zero (R := R)) → scale mu (vzero n) = vzero n.
Proof. intros Hz. unfold scale, vzero. induction n as [|n IH]; simpl; [done|]. by rewrite Hz, IH. Qed.

(** The reference: [m_t = mu * m_{t-1} + g_t], and [g_t + mu * m_t]. *)
Definition next_momentum (mu : R) (m g : list R) : list R := vadd (scale mu m) g.
Fixpoint nesterov (mu : R) (m : list R) (gs : list (list R)) : list (list R) :=
  match gs with
  | [] => []
  | g :: gs' =>
      let m' := next_momentum mu m g in vadd g (scale mu m') :: nesterov mu m' gs'
  end.

Lemma nag_running inner mu th m ts :
  (∀ t x, decompress inner t None x = Ok (t, inner)) →
  ∃ rs c, decompress_all (NagC inner mu th (Adapter true true (scale mu m))) ts = Ok (rs, c) ∧
    a_data <$> rs = nesterov mu m (a_data <$> ts.*1).
Proof.
  intros Hin. revert m. induction ts as [|[t x] ts IH]; intros m; simpl; [by eexists _, _|].
  rewrite Hin. simpl. destruct (IH (next_momentum mu m (a_data t))) as (rs & c & E & Hrs).
  unfold momentum_step. unfold next_momentum in E, Hrs. rewrite E. simpl. do 2 eexists.
  split; [done|]. simpl. f_equal. exact Hrs.
Qed.

(** The adapter for uncompressed gradients computes Nesterov momentum: for a
    sequence of arrays below the threshold it returns [g_t + mu * m_t] with
    [m_t = mu * m_{t-1} + g_t] and [m_0 = 0], although it keeps [mu * m_t] and
    not [m_t]. *)
Theorem nag_refines mu th t x ts n :
  (∀ a, s_mul s_zero a = s_zero (R := R)) → size (a_shape t) = Ok n → n < th →
  ∃ rs c, decompress_all (NagC NoneC mu th fresh) ((t, x) :: ts) = Ok (rs, c) ∧
    a_data <$> rs = nesterov mu (vzero (length (a_data t))) (a_data <$> ((t, x) :: ts).*1).
Proof.
  intros Hz Hn Hlt. set (z := vzero (length (a_data t))).
  assert (scale mu z = z) as Hsz.
  { by apply scale_zero. }
  assert (∀ c', decompress (NagC NoneC mu th fresh) t None c'
    = decompress (NagC NoneC mu th (Adapter true true (scale mu z))) t None c') as Heq.
  { intros c'. simpl. rewrite Hn. simpl. rewrite decide_True by done. by rewrite Hsz. }
  destruct (nag_running NoneC mu th z ((t, x) :: ts)) as (rs & c & E & Hrs); [done|].
  exists rs, c. split; [|done]. cbn [decompress_all] in E |- *. by rewrite Heq.
Qed.

(** Above the threshold the adapter returns every gradient as it is. *)
Theorem nag_above_threshold mu th t x ts n :
  size (a_shape t) = Ok n → th ≤ n →
  ∃ c, decompress_all (NagC NoneC mu th fresh) ((t, x) :: ts) = Ok (t :: ts.*1, c).
Proof.
  intros Hn Hle. simpl. rewrite Hn. simpl. rewrite decide_False by lia. simpl.
  assert (decompress_all (NagC NoneC mu th (Adapter true false [])) ts
    = Ok (ts.*1, NagC NoneC mu th (Adapter true false []))) as ->.
  { clear. induction ts as [|[t x] ts IH]; simpl; [done|]. by rewrite IH. }
  by eexists.
Qed.

(** The reference of the docstring: [m_t = mu * m_{t-1} + wd * x_t] and
    [g_t + mu * m_t + wd * x_t]. *)
Fixpoint wd_nesterov (mu wd : R) (m : list R) (gxs : list (list R * list R)) : list (list R) :=
  match gxs with
  | [] => []
  | (g, x) :: rest =>
      let m' := next_momentum mu m (scale wd x) in
      vadd (vadd g (scale mu m')) (scale wd x) :: wd_nesterov mu wd m' rest
  end.

(** The gradients and the weights of the same element type. *)
Definition with_weights (ts : list (array * array)) : list (array * option array) :=
  (λ '(t, x), (t, Some x)) <$> ts.

Lemma wdmom_running mu wd th m (ts : list (array * array)) :
  Forall (λ tx, a_dtype tx.2 = a_dtype tx.1) ts →
  ∃ rs c, decompress_all (WdMomC NoneC mu wd th (Adapter true true (scale mu m))) (with_weights ts)
          = Ok (rs, c) ∧
    a_data <$> rs = wd_nesterov mu wd m ((λ '(t, x), (a_data t, a_data x)) <$> ts).
Proof.
  intros Hd. revert m. induction Hd as [|[t x] ts Htx _ IH]; intros m; [by eexists _, _|].
  set (m' := next_momentum mu m (scale wd (a_data x))).
  destruct (IH m') as (rs & c & E & Hrs).
  change (with_weights ((t, x) :: ts)) with ((t, Some x) :: with_weights ts). cbn [decompress_all].
  assert (decompress (WdMomC NoneC mu wd th (Adapter true true (scale mu m))) t None (Some x)
    = Ok (a_add (a_add t (scale mu m')) (scale wd (a_data x)),
          WdMomC NoneC mu wd th (Adapter true true (scale mu m')))) as ->.
  { simpl. unfold astype. by rewrite decide_True. }
  cbn [mbind res_bind]. rewrite E. do 2 eexists. split; [reflexivity|]. rewrite !fmap_cons. simpl.
  f_equal. exact Hrs.
Qed.

(** The weight-decay adapter of the 1-bit compressor computes what its
    docstring says: [g_t + mu * m_t + wd * x_t] with
    [m_t = mu * m_{t-1} + wd * x_t] and [m_0 = 0], for arrays at or above the
    threshold. *)
Theorem wdmom_refines mu wd th t x (ts : list (array * array)) n :
  (∀ a, s_mul s_zero a = s_zero (R := R)) → size (a_shape t) = Ok n → th ≤ n →
  Forall (λ tx, a_dtype tx.2 = a_dtype tx.1) ((t, x) :: ts) →
  ∃ rs c, decompress_all (WdMomC NoneC mu wd th fresh) (with_weights ((t, x) :: ts)) = Ok (rs, c) ∧
    a_data <$> rs = wd_nesterov mu wd (vzero (length (a_data t)))
                      ((λ '(t, x), (a_data t, a_data x)) <$> ((t, x) :: ts)).
Proof.
  intros Hz Hn Hle Hd. set (z := vzero (length (a_data t))).
  assert (scale mu z = z) as Hsz.
  { by apply scale_zero. }
  assert (decompress (WdMomC NoneC mu wd th fresh) t None (Some x)
    = decompress (WdMomC NoneC mu wd th (Adapter true true (scale mu z))) t None (Some x)) as Heq.
  { simpl. rewrite Hn. simpl. rewrite decide_True by done. by rewrite Hsz. }
  destruct (wdmom_running mu wd th z ((t, x) :: ts) Hd) as (rs & c & E & Hrs).
  exists rs, c. split; [|exact Hrs].
  change (with_weights ((t, x) :: ts)) with ((t, Some x) :: with_weights ts) in *.
  cbn [decompress_all] in E |- *. by rewrite Heq.
Qed.
End compression.

(** ** [ops.py]: the arguments of [byteps_declare_tensor] *)

(** A keyword value: a string, an integer, a float (given by its [str]), a
    boolean, or another object. [bool] is a subclass of [int]. *)
Inductive value := VStr (s : string) | VInt (z : Z) | VFloat (s : string) | VBool (b : bool) | VOther.
#[export] Instance value_eq_dec : EqDecision value.
Proof. solve_decision. Defined.

Definition str_of (v : value) : string :=
  match v with
  | VStr s => s | VInt z => py_str z | VFloat s => s
  | VBool b => if b then "True" else "False" | VOther => ""
  end.

Definition nonempty (s : string) : bool := negb (String.eqb s "").

(** One keyword; [isinstance(v, (int, float))] holds for a boolean. *)
Definition declare_arg (args : odict string string) (kv : string * value) : res (odict string string) :=
  let '(k, v) := kv in
  let splits := py_split "_" k in
  if bool_decide (length splits < 2)%nat && negb (forallb nonempty splits) then Ok args
  else
    let k' := py_join "_" (tail splits) in
    match v with
    | VStr s => Ok (od_set k' (py_lower s) args)
    | VInt _ | VFloat _ | VBool _ => Ok (od_set k' (str_of v) args)
    | VOther => Raise ValueError
    end.

Fixpoint declare_args (args : odict string string) (kwargs : list (string * value)) :
    res (odict string string) :=
  match kwargs with
  | [] => Ok args
  | kv :: rest => args' ← declare_arg args kv; declare_args args' rest
  end.

(** A keyword [byteps_<name>] reaches the extension under [<name>], for any
    name with at least one part, whatever underscores it contains; a string value
    is lowered, a boolean is written as Python prints it. *)
Theorem declare_arg_strips (parts : list string) v args :
  parts ≠ [] → Forall (str_forall (λ c, negb (Ascii.eqb c "_"))) parts → v ≠ VOther →
  declare_arg args ("byteps_" +:+ py_join "_" parts, v)
  = Ok (od_set (py_join "_" parts) (match v with VStr s => py_lower s | _ => str_of v end) args).
Proof.
  intros Hne Hp Hv. unfold declare_arg.
  assert (py_split "_" ("byteps_" +:+ py_join "_" parts) = "byteps" :: parts) as ->.
  { destruct parts as [|p ps]; [done|].
    change ("byteps_" +:+ py_join "_" (p :: ps)) with (py_join "_" ("byteps" :: p :: ps)).
    apply (py_split_join "_"); [done|]. constructor; [exact I|done]. }
  assert (bool_decide (length ("byteps" :: parts) < 2)%nat = false) as ->.
  { apply bool_decide_false. destruct parts; [done|]. simpl. lia. }
  simpl. by destruct v.
Qed.

(** ** [__init__.py] *)
Section plugin.
Context {R : Type} `{Scalar R, !TorchLib R}.
(** The reply to a push-pull: its name, averaging flag and input. *)
Context (mx_reduce : string → bool → list R → list R).

Inductive mx_call :=
  | CDeclare (name : string) (args : odict string string)
  | CPushPull (name : string) (priority : Z) (is_average : bool).
Record mx : Type := MX { mx_calls : list mx_call; parameter_index : Z }.

Definition mx_record (c : mx_call) : M mx () := modify (λ s, MX (mx_calls s ++ [c]) (parameter_index s)).
Definition byteps_declare_tensor (name : string) (kwargs : list (string * value)) : M mx () :=
  args ← lift (declare_args [] kwargs); mx_record (CDeclare name args).
Definition byteps_push_pull (t : list R) (priority : Z) (name : string) (is_average : bool) :
    M mx (list R) :=
  mx_record (CPushPull name priority is_average);; mret (mx_reduce name is_average t).

(** *** [DistributedOptimizer] *)
Definition enable_async (e : env) : res bool := DistOptim.enable_async e.

(** [_do_push_pull] and [_do_push_pull_param]; a single index is a list of one. *)
Definition push_pull_one (prefix : string) (average : bool) (index : Z) (t : list R) : M mx (list R) :=
  byteps_declare_tensor (prefix +:+ py_str index) [];;
  byteps_push_pull t (- index) (prefix +:+ py_str index) average.
Fixpoint push_pull_each (prefix : string) (average : bool) (index : list Z) (ts : list (list R)) :
    M mx (list (list R)) :=
  match index, ts with
  | [], _ => mret ts
  | i :: index', t :: ts' =>
      t' ← push_pull_one prefix average i t;
      rest ← push_pull_each prefix average index' ts';
      mret (t' :: rest)
  | _, [] => raise IndexError
  end.
Definition _do_push_pull := push_pull_each "gradient_" true.
Definition _do_push_pull_param := push_pull_each "weight_" false.

(** [update] and [update_multi_precision]: [opt] is the wrapped optimizer's
    update of the weights from the gradients. *)
Definition update (async : bool) (opt : list (list R) → list (list R) → list (list R))
    (index : list Z) (weight grad : list (list R)) : M mx (list (list R) * list (list R)) :=
  if async then
    let weight' := opt weight grad in
    let delta := zip_with (zip_with s_sub) weight' weight in
    w ← _do_push_pull_param index delta;
    mret (w, grad)
  else
    g ← _do_push_pull index grad;
    mret (opt weight g, g).

(** *** [broadcast_parameters] *)
Inductive mx_params := PDict (items : list (string * list R)) | PGluon | PInvalid.

Fixpoint broadcast_each (is_root : bool) (ts : list (list R)) : M mx (list (list R)) :=
  match ts with
  | [] => mret []
  | t :: ts' =>
      s ← get;
      let name := "parameter_" +:+ py_str (parameter_index s) in
      byteps_declare_tensor name [];;
      let t := if is_root then t else map (λ x, s_mul x (s_of_Z 0)) t in
      t' ← byteps_push_pull t 0 name false;
      modify (λ s, MX (mx_calls s) (parameter_index s + 1));;
      rest ← broadcast_each is_root ts';
      mret (t' :: rest)
  end.

(** The arrays in the order of their sorted names. *)
Definition broadcast_parameters (rank root_rank : Z) (params : mx_params) : M mx (list (list R)) :=
  match params with
  | PDict items => broadcast_each (bool_decide (rank = root_rank)) (sorted_pairs items).*2
  | PGluon => raise TypeError
  | PInvalid => raise ValueError
  end.

(** *** [DistributedTrainer] *)

(** A gluon parameter: name, [grad_req != 'null'], attributes [byteps_*], data and
    gradient. *)
Record gparam : Type := GParam {
  gp_name : string; gp_grad : bool; gp_attrs : list (string * value);
  gp_data : array (R := R); gp_gradient : array (R := R)
}.

Definition truthy (v : option value) : bool :=
  match v with
  | Some (VStr s) => nonempty s
  | Some (VInt z) => negb (z =? 0)
  | Some (VFloat s) => negb (String.eqb s "0.0")
  | Some (VBool b) => b
  | Some VOther => true
  | None => false
  end.

Definition attr_set (k : string) (v : value) (p : gparam) : gparam :=
  GParam (gp_name p) (gp_grad p) (od_set k v (gp_attrs p)) (gp_data p) (gp_gradient p).

Definition check_list : list string := ["compressor"; "ef"; "momentum"].

Fixpoint set_generic (cp : odict string value) (items : list string) (p : gparam) : res gparam :=
  match items with
  | [] => Ok p
  | item :: rest =>
      p' ← (if truthy (od_get item cp) then
              match od_get item cp with
              | Some (VStr s) => Ok (attr_set ("byteps_" +:+ item +:+ "_type") (VStr s) p)
              | _ => Raise TypeError
              end
            else Ok p);
      set_generic cp rest p'
  end.

(** [setattr(param, attr, "0")] or ["1"] for the two known values of a key. *)
Definition set_choice (cp : odict string value) (key attr v0 v1 : string) (p : gparam) : res gparam :=
  if truthy (od_get key cp) then
    match od_get key cp with
    | Some (VStr s) =>
        if String.eqb s v0 then Ok (attr_set attr (VStr "0") p)
        else if String.eqb s v1 then Ok (attr_set attr (VStr "1") p)
        else Raise ValueError
    | _ => Raise ValueError
    end
  else Ok p.

(** [optimizer_params[k]]: a [TypeError] when there are none. *)
Definition opt_param (op : option (odict string value)) (k : string) : res value :=
  match op with Some d => or_raise KeyError (od_get k d) | None => Raise TypeError end.

Definition is_str (v : option value) (s : string) : bool := bool_decide (v = Some (VStr s)).

Definition register_param (cp : odict string value) (op : option (odict string value)) (p : gparam) :
    res gparam :=
  p ← set_generic cp check_list p;
  let comp := od_get "compressor" cp in
  p ← (if is_str comp "onebit" then
         Ok (attr_set "byteps_compressor_onebit_scaling"
               (VStr (str_of (default (VBool false) (od_get "scaling" cp)))) p)
       else if is_str comp "topk" || is_str comp "randomk" || is_str comp "dithering" then
         k ← or_raise KeyError (od_get "k" cp); Ok (attr_set "byteps_compressor_k" k p)
       else Ok p);
  p ← (if truthy (od_get "momentum" cp) then
         mu ← opt_param op "momentum"; Ok (attr_set "byteps_momentum_mu" mu p)
       else Ok p);
  p ← (match od_get "seed" cp with Some v => Ok (attr_set "byteps_seed" v p) | None => Ok p end);
  p ← set_choice cp "partition" "byteps_dithering_partition" "linear" "natural" p;
  set_choice cp "normalize" "byteps_dithering_normalize" "max" "l2" p.

(** [of_value]: the number a value stands for. Without any parameter the local
    variable [compressor] is not bound. *)
Definition register_compressor (of_value : value → R) (e : env) (params : list gparam)
    (op : option (odict string value)) (cp : odict string value) :
    res (compressor (R := R) * list gparam * option (odict string value)) :=
  match cp with
  | [] => Ok (NoneC, params, op)
  | _ =>
      let base := if truthy (od_get "fp16" cp) then FP16C else NoneC in
      if negb (od_mem "compressor" cp) then Ok (base, params, op) else
      params' ← mapM (register_param cp op) params;
      if truthy (od_get "momentum" cp) then
        threshold ← getenv_int e "BYTEPS_MIN_COMPRESS_BYTES" 65536;
        mu ← opt_param op "momentum";
        match params, op with
        | [], _ => Raise UnboundLocalError
        | _, None => Raise TypeError
        | _, Some d =>
            let '(c, d) :=
              match od_get "wd" d with
              | Some wd => if is_str (od_get "compressor" cp) "onebit"
                           then (WdMomC base (of_value mu) (of_value wd) threshold fresh, od_del "wd" d)
                           else (base, d)
              | None => (base, d)
              end in
            Ok (NagC c (of_value mu) threshold fresh, params', Some (od_del "momentum" d))
        end
      else Ok (base, params', op)
  end.

(** The rest of [__init__]: the declarations and one copy of the compressor per
    parameter. *)
Fixpoint declare_params (i : nat) (ps : list gparam) : M mx () :=
  match ps with
  | [] => mret ()
  | p :: ps' =>
      byteps_declare_tensor ("parameter_" +:+ py_str (Z.of_nat i)) [];;
      (if gp_grad p then
         byteps_declare_tensor ("gradient_" +:+ py_str (Z.of_nat i))
           (filter (λ kv, py_startswith "byteps_" kv.1 = true) (gp_attrs p))
       else mret ());;
      declare_params (S i) ps'
  end.

(** [_allreduce_grads]: [1.0 / scale / size] on the gradient, compress, exchange,
    decompress into the gradient. *)
Definition reduce_grad (factor : R) (i : nat) (c : compressor (R := R)) (p : gparam) :
    M mx (compressor (R := R) * gparam) :=
  if gp_grad p then
    let g := gp_gradient p in
    let g' := Array (a_dtype g) (a_shape g) (scale factor (a_data g)) in
    let '(compressed, cx) := compress c g' in
    d ← byteps_push_pull (a_data compressed) (- Z.of_nat i) ("gradient_" +:+ py_str (Z.of_nat i)) false;
    '(out, c') ← lift (decompress c (Array (a_dtype compressed) (a_shape compressed) d) cx (Some (gp_data p)));
    mret (c', GParam (gp_name p) (gp_grad p) (gp_attrs p) (gp_data p)
                (Array (a_dtype g) (a_shape g) (a_data (astype (a_dtype g) out))))
  else mret (c, p).

Fixpoint _allreduce_grads (factor : R) (i : nat) (ps : list (compressor (R := R) * gparam)) :
    M mx (list (compressor (R := R) * gparam)) :=
  match ps with
  | [] => mret []
  | (c, p) :: ps' =>
      cp ← reduce_grad factor i c p;
      rest ← _allreduce_grads factor (S i) ps';
      mret (cp :: rest)
  end.

(** [_init_params]: a parameter is its index, whether its initialisation is
    deferred, and its data; the deferred ones are left for later. *)
Fixpoint _init_params (is_root : bool) (ps : list (nat * bool * list R)) :
    M mx (list (nat * bool * list R) * list (nat * bool * list R)) :=
  match ps with
  | [] => mret ([], [])
  | (idx, deferred, t) :: ps' =>
      if deferred then
        '(done_, later) ← _init_params is_root ps'; mret (done_, (idx, deferred, t) :: later)
      else
        t' ← byteps_push_pull (if is_root then t else map (λ x, s_mul x (s_of_Z 0)) t) 0
               ("parameter_" +:+ py_str (Z.of_nat idx)) false;
        '(done_, later) ← _init_params is_root ps';
        mret ((idx, deferred, t') :: done_, later)
  end.

(** Momentum is applied in one place only: when the compression parameters
    ask for it, registration wraps the compressor in the Nesterov adapter with
    the optimizer's coefficient and removes ["momentum"] from the optimizer's
    parameters (and ["wd"] with the 1-bit compressor); otherwise the optimizer's
    parameters are unchanged and there is no adapter. *)
Theorem momentum_once of_value e params d cp c ps' op' :
  NoDup (od_keys d) → register_compressor of_value e params (Some d) cp = Ok (c, ps', op') →
  od_mem "compressor" cp = true →
  (truthy (od_get "momentum" cp) = true →
     ∃ mu d' inner th, od_get "momentum" d = Some mu ∧ op' = Some d' ∧
       c = NagC inner (of_value mu) th fresh ∧ od_get "momentum" d' = None ∧
       (is_str (od_get "compressor" cp) "onebit" = true → od_get "wd" d' = None)) ∧
  (truthy (od_get "momentum" cp) = false → op' = Some d ∧ (c = NoneC ∨ c = FP16C)).
Proof.
  intros Hnd Hr Hc. unfold register_compressor in Hr. destruct cp as [|kv cp']; [done|].
  set (cp := kv :: cp') in *. rewrite Hc in Hr. simpl negb in Hr. cbv iota in Hr.
  destruct (mapM (register_param cp (Some d)) params) as [ps|]; cbn [mbind res_bind] in Hr; [|done].
  destruct (truthy (od_get "momentum" cp)).
  - split; [intros _|done].
    destruct (getenv_int e "BYTEPS_MIN_COMPRESS_BYTES" 65536) as [th|]; cbn [mbind res_bind] in Hr; [|done].
    unfold opt_param in Hr.
    destruct (od_get "momentum" d) as [mu|] eqn:Hmu; cbn [or_raise] in Hr; cbn [mbind res_bind] in Hr; [|done].
    destruct params as [|p0 params]; [done|].
    destruct (od_get "wd" d) as [wd|] eqn:Hwd.
    + destruct (is_str (od_get "compressor" cp) "onebit") eqn:Hone; simplify_eq; do 4 eexists;
        split_and!; try done.
      * apply od_get_del. by apply od_keys_del_NoDup.
      * intros _. rewrite od_get_del_ne by done. by apply od_get_del.
      * by apply od_get_del.
    + simplify_eq. do 4 eexists. split_and!; try done; [by apply od_get_del|].
      intros _. by rewrite od_get_del_ne.
  - split; [done|intros _]. simplify_eq. split; [done|].
    match goal with |- (if ?b then _ else _) = _ ∨ _ => destruct b end; auto.
Qed.

(** The calls of one broadcast of [k] arrays that starts at index [n]. *)
Fixpoint broadcast_calls (n : Z) (k : nat) : list mx_call :=
  match k with
  | O => []
  | S k' =>
      let name := "parameter_" +:+ py_str n in
      CDeclare name [] :: CPushPull name 0 false :: broadcast_calls (n + 1) k'
  end.

(** [broadcast_parameters] of a dictionary declares and exchanges one array
    per entry, in the order of the sorted names, under the next unused indices:
    [parameter_index] has advanced by the number of entries, so that a later
    broadcast never reuses a name. Without averaging the arrays become the
    servers' replies to the root's elements, or to zeros on another worker. *)
Theorem mx_broadcast_spec rank root items s :
  ∃ s', broadcast_parameters rank root (PDict items) s =
      (Ok (imap (λ i t, mx_reduce ("parameter_" +:+ py_str (parameter_index s + Z.of_nat i)) false
             (if bool_decide (rank = root) then t else map (λ x, s_mul x (s_of_Z 0)) t))
           (sorted_pairs items).*2), s') ∧
    parameter_index s' = parameter_index s + Z.of_nat (length items) ∧
    mx_calls s' = mx_calls s ++ broadcast_calls (parameter_index s) (length items).
Proof.
  unfold broadcast_parameters.
  assert (length (sorted_pairs items).*2 = length items) as <-.
  { rewrite length_fmap. apply Permutation_length, merge_sort_Permutation. }
  generalize (sorted_pairs items).*2 as ts. intros ts. revert s.
  induction ts as [|t ts IH]; intros s; simpl.
  { exists s. split_and!; [done|lia|by rewrite app_nil_r]. }
  erewrite bind_Ok by reflexivity. erewrite bind_Ok by reflexivity. erewrite bind_Ok by reflexivity.
  erewrite bind_Ok by reflexivity.
  match goal with |- context [(broadcast_each _ _ ≫= _) ?s1] => destruct (IH s1) as (s' & E & Hi & Hc) end.
  erewrite bind_Ok by exact E. exists s'. split_and!.
  - unfold mret, M_ret. do 2 f_equal. simpl. f_equal; [by rewrite Z.add_0_r|].
    apply list_eq. intros i. rewrite !list_lookup_imap. destruct (ts !! i); simpl; [|done].
    by replace (parameter_index s + 1 + Z.of_nat i) with (parameter_index s + Z.of_nat (S i)) by lia.
  - rewrite Hi. simpl. lia.
  - rewrite Hc. simpl. by rewrite <-!app_assoc.
Qed.
End plugin.

(** ** Concrete instance *)
Module MxDemo.
Import CompressionDemo.
Definition g (l : list Z) : array := Array float32 [length l] l.

Lemma nag_refines_witness : ∃ rs c,
  decompress_all (NagC NoneC 2 1000 fresh) [(g [1; 2], None); (g [3; 4], None)] = Ok (rs, c) ∧
  a_data <$> rs = [[3; 6]; [13; 20]].
Proof.
  destruct (nag_refines 2 1000 (g [1; 2]) None [(g [3; 4], None)] 8) as (rs & c & E & Hr);
    [done|reflexivity|lia|]. exists rs, c. split; [exact E|]. rewrite Hr. reflexivity.
Defined.

Lemma nag_above_threshold_witness : ∃ c,
  decompress_all (NagC NoneC 2 8 fresh) [(g [1; 2], None); (g [3; 4], None)]
  = Ok ([g [1; 2]; g [3; 4]], c).
Proof.
  destruct (nag_above_threshold 2 8 (g [1; 2]) None [(g [3; 4], None)] 8) as (c & E);
    [reflexivity|lia|]. exists c. exact E.
Defined.

Lemma wdmom_refines_witness : ∃ rs c,
  decompress_all (WdMomC NoneC 2 3 8 fresh) (with_weights [(g [1; 2], g [10; 20])]) = Ok (rs, c) ∧
  a_data <$> rs = [[91; 182]].
Proof.
  destruct (wdmom_refines 2 3 8 (g [1; 2]) (g [10; 20]) [] 8) as (rs & c & E & Hr);
    [done|reflexivity|lia|by repeat constructor|]. exists rs, c. split; [exact E|]. rewrite Hr. reflexivity.
Defined.

Lemma declare_arg_strips_witness :
  declare_arg [] ("byteps_compressor_type", VStr "OneBit") = Ok [("compressor_type", "onebit")].
Proof.
  apply (declare_arg_strips ["compressor"; "type"] (VStr "OneBit") []);
    [discriminate|by repeat constructor|discriminate].
Defined.

Definition p0 : gparam (R := Z) := GParam "w" true [] (g [1]) (g [2]).
Definition cp : odict string value :=
  [("compressor", VStr "onebit"); ("momentum", VStr "nesterov"); ("scaling", VBool true)].
Definition op : odict string value := [("momentum", VInt 9); ("wd", VInt 1); ("learning_rate", VInt 3)].
Definition num (v : value) : Z := match v with VInt z => z | _ => 0 end.

Lemma momentum_once_witness : ∃ c ps d', register_compressor num ∅ [p0] (Some op) cp = Ok (c, ps, Some d') ∧
  od_get "momentum" d' = None.
Proof.
  destruct (register_compressor num ∅ [p0] (Some op) cp) as [[[c ps] o]|] eqn:E; [|by vm_compute in E].
  destruct (momentum_once num ∅ [p0] op cp c ps o) as [Hm _];
    [by apply (bool_decide_unpack _); vm_compute|exact E|reflexivity|].
  destruct (Hm eq_refl) as (mu & d' & inner & th & _ & -> & _ & Hd & _).
  exists c, ps, d'. split; [reflexivity|exact Hd].
Defined.
End MxDemo.
End Mx.
