(* ===== verification/TFPlugin.v ===== *)
(** * The TensorFlow plugin, [byteps/tensorflow/ops.py], [compression.py] and [__init__.py]

    Operation names, [push_pull], [broadcast], the broadcast of variables, the
    legacy optimizer and the gradient tape. A graph is modelled by what running
    it does, in the order in which its operations are built; the C++ operation
    [byteps_push_pull] is a parameter that maps a key and an input to the
    servers' reply. *)

From Stdlib Require Import Ascii.
From S2P Require Import Prelude PyStr Tensor TorchOps TorchCompression DistOptim Broadcast.

Module Tf.

(** ** Names *)

Definition name_char (c : ascii) : bool :=
  in_range 97 122 c || in_range 65 90 c || in_range 48 57 c || Ascii.eqb c "_".

(** [re.sub('[^a-zA-Z0-9_]', '_', name)] *)
Fixpoint _normalize_name (name : string) : string :=
  match name with
  | "" => ""
  | String c s => String (if name_char c then c else "_"%char) (_normalize_name s)
  end.

(** [full_name.encode("ascii")]; a [UnicodeEncodeError] is a [ValueError]. *)
Definition ascii_char (c : ascii) : bool := (nat_of_ascii c <? 128)%nat.
Definition encode_ascii (s : string) : res string :=
  if str_forall ascii_char s then Ok s else Raise ValueError.

(** ** Reduction operations *)

Inductive ReduceOps := Average | Sum | Adsum.
#[export] Instance ReduceOps_eq_dec : EqDecision ReduceOps.
Proof. solve_decision. Defined.

Definition op_value (o : ReduceOps) : string :=
  match o with Average => "Average" | Sum => "Sum" | Adsum => "Adsum" end.

(** What a caller may pass for [op]: a member of the enumeration, or one of the
    module-level strings [Average], [Sum] and [Adasum], which have no [.value]. *)
Inductive op_arg := OpEnum (o : ReduceOps) | OpStr (s : string).

Definition handle_average_backwards_compatibility (op : option op_arg) (average : option bool) :
    res op_arg :=
  match op, average with
  | Some _, Some _ => Raise ValueError
  | Some o, None => Ok o
  | None, Some av => Ok (OpEnum (if av then Average else Sum))
  | None, None => Ok (OpEnum Average)
  end.

Definition op_arg_value (o : op_arg) : res string :=
  match o with OpEnum o => Ok (op_value o) | OpStr _ => Raise AttributeError end.

Section tf.
Context {R : Type} `{Scalar R, !TorchLib R}.

Record tf_tensor : Type := TfTensor { tf_name : string; tf_dtype : dtype; tf_data : list R }.
Definition set_data (l : list R) (t : tf_tensor) : tf_tensor := TfTensor (tf_name t) (tf_dtype t) l.

(** ** [compression.py] *)

Inductive tf_compressor := TfNone | TfFP16.

Definition tf_cast (d : dtype) (t : tf_tensor) : tf_tensor :=
  TfTensor (tf_name t) d (map (cast d) (tf_data t)).

Definition tf_compress (c : tf_compressor) (t : tf_tensor) : tf_tensor * option dtype :=
  match c with
  | TfNone => (t, None)
  | TfFP16 => (if is_floating_point (tf_dtype t) then tf_cast float16 t else t, Some (tf_dtype t))
  end.

Definition tf_decompress (c : tf_compressor) (t : tf_tensor) (ctx : option dtype) : res tf_tensor :=
  match c with
  | TfNone => Ok t
  | TfFP16 => d ← or_raise AttributeError ctx;
              Ok (if is_floating_point d then tf_cast d t else t)
  end.

(** ** The runtime

    [reply key input] is the servers' reply; [name_scope] the scope TensorFlow
    opens for a name (it makes it unique and ends it with a slash); [node_name] the graph's name for
    an operation, which the C++ kernel uses as the key when it is given no
    [input_name]; [random_letter] the letters [random.choice] yields. *)
Record runtime : Type := Runtime {
  executing_eagerly : bool;
  graph_name_scope : string;
  name_scope : string → string;
  rt_size : Z;
  rt_rank : Z;
  has_assign_sub : bool;
  node_name : string → string;
  random_letter : nat → ascii;
  reply : string → list R → list R
}.

Inductive tf_call := TDeclare (name : string) | TPushPull (key : string).

Record tfs : Type := TFS { tf_calls : list tf_call; tf_vars : gmap nat tf_tensor; tf_random : nat }.

Definition tf_record (c : tf_call) : M tfs () :=
  modify (λ s, TFS (tf_calls s ++ [c]) (tf_vars s) (tf_random s)).
Definition read_var (v : nat) : M tfs tf_tensor :=
  s ← get; lift (or_raise RuntimeError (tf_vars s !! v)).
Definition tf_assign (v : nat) (l : list R) : M tfs () :=
  t ← read_var v;
  modify (λ s, TFS (tf_calls s) (<[v := set_data l t]> (tf_vars s)) (tf_random s)).

Context (rt : runtime).

(** ** [ops.py] *)

Fixpoint letters (from n : nat) : string :=
  match n with O => "" | S n' => String (random_letter rt from) (letters (S from) n') end.
Definition randomString (stringLength : nat) : M tfs string :=
  s ← get;
  modify (λ s, TFS (tf_calls s) (tf_vars s) (tf_random s + stringLength)%nat);;
  mret (letters (tf_random s) stringLength).

(** The operation name, its scope, and the key, which [_push_pull] and
    [broadcast] compute in the same way. *)
Definition op_name (prefix tensor_name : string) (name : option string) : string :=
  match name with
  | None => if executing_eagerly rt then "" else prefix +:+ _normalize_name tensor_name
  | Some n => n
  end.
Definition op_scope (scope : string) : string :=
  if decide (scope = "") then
    if executing_eagerly rt then scope
    else let sc := graph_name_scope rt in if decide (sc = "") then sc else sc +:+ "/"
  else scope.
Definition op_names (prefix tensor_name scope : string) (name : option string) :
    M tfs (string * string) :=
  let name := op_name prefix tensor_name name in
  let full_name := op_scope scope +:+ name in
  full_name ← (if decide (full_name = "") then r ← randomString 16; mret ("empty_name_" +:+ r)
               else mret full_name);
  lift (encode_ascii full_name);;
  mret (name, full_name).

(** [C_LIB.byteps_push_pull] *)
Definition c_push_pull (t : tf_tensor) (name : string) (input_name : option string) : M tfs tf_tensor :=
  let key := default (node_name rt name) input_name in
  tf_record (TPushPull key);; mret (set_data (reply rt key (tf_data t)) t).

Definition _push_pull (t : tf_tensor) (scope : string) (name : option string) : M tfs tf_tensor :=
  '(name, full_name) ← op_names "BytePSPushPull_" (tf_name t) scope name;
  tf_record (TDeclare full_name);;
  c_push_pull t name (Some full_name).

Definition _push_pull_grad (grad : tf_tensor) : M tfs tf_tensor := _push_pull grad "" None.

Inductive bc_target := BVar (v : nat) | BTensor (t : tf_tensor).

(** [tf.assign_sub(tensor, tensor)] *)
Definition assign_sub_self (b : bc_target) : M tfs tf_tensor :=
  match b with
  | BTensor _ => raise AttributeError
  | BVar v => t ← read_var v;
              let l := zip_with s_sub (tf_data t) (tf_data t) in
              tf_assign v l;; mret (set_data l t)
  end.

Definition target_tensor (b : bc_target) : M tfs tf_tensor :=
  match b with BTensor t => mret t | BVar v => read_var v end.

Definition broadcast (b : bc_target) (root_rank : Z) (scope : string) (name : option string)
    (is_variable : bool) : M tfs tf_tensor :=
  t ← target_tensor b;
  '(name, full_name) ← op_names "BytePSBroadcast_" (tf_name t) scope name;
  tf_record (TDeclare full_name);;
  if decide (root_rank = rt_rank rt) then c_push_pull t name (Some full_name)
  else if is_variable then
    t' ← assign_sub_self b;
    c_push_pull t' name (if has_assign_sub rt then None else Some full_name)
  else c_push_pull (set_data (vzero (length (tf_data t))) t) name (Some full_name).

Definition _broadcast_grad (root_rank : Z) (grad : tf_tensor) : M tfs tf_tensor :=
  g ← _push_pull grad "" None;
  mret (if decide (rt_rank rt = root_rank) then g
        else set_data (map (λ x, s_mul x (s_of_Z 0)) (tf_data g)) g).

(** ** [__init__.py] *)

Definition push_pull (t : tf_tensor) (scope : string) (average : option bool) (c : tf_compressor)
    (op : option op_arg) (enable_async : bool) : M tfs tf_tensor :=
  o ← lift (handle_average_backwards_compatibility op average);
  op ← lift (op_arg_value o);
  let byteps_size := cast (tf_dtype t) (s_of_Z (rt_size rt)) in
  let '(tensor_compressed, ctx) := tf_compress c t in
  summed_compressed ← _push_pull tensor_compressed scope None;
  summed ← lift (tf_decompress c summed_compressed ctx);
  mret (if enable_async then summed
        else if decide (op = "Average") then set_data (map (λ x, s_div x byteps_size) (tf_data summed)) summed
        else summed).

Fixpoint broadcast_each (vars : list nat) (root_rank : Z) (scope : string) : M tfs () :=
  match vars with
  | [] => mret ()
  | v :: vars' =>
      t ← broadcast (BVar v) root_rank scope None true;
      tf_assign v (tf_data t);;
      broadcast_each vars' root_rank scope
  end.
Definition broadcast_variables (vars : list nat) (root_rank : Z) (scope : string) : M tfs () :=
  if rt_size rt <=? 1 then mret () else broadcast_each vars root_rank scope.

Definition broadcast_global_variables (global_variables : list nat) (root_rank : Z) : M tfs () :=
  if executing_eagerly rt then raise RuntimeError
  else broadcast_variables global_variables root_rank "".

(** *** Gradients

    A gradient may be missing, dense, or a [tf.IndexedSlices]; [densify] is
    TensorFlow's conversion of slices and [dense_name] the name it gives. A
    gradient that is still sparse when it reaches the operation is converted by
    TensorFlow under its own name. *)
Record slices : Type := Slices { sl_name : string; sl_dtype : dtype; sl_values : list R; sl_indices : list nat }.
Inductive gradient := GDense (t : tf_tensor) | GSlices (s : slices).

Context (densify : slices → list R) (dense_name : string → string).

Definition grad_input (sparse_as_dense : bool) (g : gradient) : tf_tensor :=
  match g with
  | GDense t => t
  | GSlices s => TfTensor (if sparse_as_dense then dense_name (sl_name s) else sl_name s)
                   (sl_dtype s) (densify s)
  end.

(** [push_pull_grads], in the name scope the wrapper opens. *)
Fixpoint push_pull_grads (scope : string) (c : tf_compressor) (sparse_as_dense async : bool)
    (grads : list (option gradient)) : M tfs (list (option gradient)) :=
  match grads with
  | [] => mret []
  | None :: gs => rest ← push_pull_grads scope c sparse_as_dense async gs; mret (None :: rest)
  | Some g :: gs =>
      t ← push_pull (grad_input sparse_as_dense g) scope None c None async;
      rest ← push_pull_grads scope c sparse_as_dense async gs;
      mret (Some (GDense t) :: rest)
  end.

Definition wrapper_scope (name : string) : string := name_scope rt (name +:+ "_Push_Pull").

Fixpoint read_vars (vars : list nat) : M tfs (list tf_tensor) :=
  match vars with
  | [] => mret []
  | v :: vars' => t ← read_var v; rest ← read_vars vars'; mret (t :: rest)
  end.

(** [tf.subtract(var, old)] *)
Definition delta (new old : tf_tensor) : tf_tensor := set_data (zip_with s_sub (tf_data new) (tf_data old)) new.

Fixpoint assign_each (vars : list nat) (ts : list (option gradient)) : M tfs () :=
  match vars, ts with
  | v :: vars', Some (GDense t) :: ts' => tf_assign v (tf_data t);; assign_each vars' ts'
  | _, _ => mret ()
  end.

(** [_DistributedGradientTape.gradient] *)
Definition tape_gradient (c : tf_compressor) (sparse_as_dense : bool)
    (gradients : list (option gradient)) : M tfs (list (option gradient)) :=
  if 1 <? rt_size rt
  then push_pull_grads (wrapper_scope "Distributed") c sparse_as_dense false gradients
  else mret gradients.

End tf.

(** *** The legacy optimizer *)
Section optimizer.
Context {R : Type} `{Scalar R, !TorchLib R}.
Context (rt : runtime (R := R)) (densify : slices (R := R) → list R) (dense_name : string → string).

(** [opt_defun]: whether [push_pull_grads] has been made a graph function. *)
Record tf_optimizer : Type := TfOptimizer {
  opt_name : string;
  opt_compression : tf_compressor;
  opt_sparse_as_dense : bool;
  opt_async : bool;
  opt_defun : bool
}.

(** [__init__] of the wrapper: [cls] is the wrapped optimizer's class name. When it
    executes eagerly the function goes through [tf.contrib.eager.defun], which there is in
    TensorFlow 1 only. *)
Definition optimizer_init (e : env) (has_contrib : bool) (name : option string) (cls : string) (c : tf_compressor)
    (sparse_as_dense : bool) : res tf_optimizer :=
  async ← enable_async e;
  if executing_eagerly rt && negb has_contrib then Raise AttributeError
  else Ok (TfOptimizer (default ("Distributed" +:+ cls) name) c sparse_as_dense async (executing_eagerly rt)).

(** Inside a graph function nothing executes eagerly, and its arguments are tensors of
    the graph: [arg_name i] is the name there of the tensor of the [i]-th gradient. *)
Context (arg_name : nat → string).
Definition traced : runtime :=
  Runtime false (graph_name_scope rt) (name_scope rt) (rt_size rt) (rt_rank rt) (has_assign_sub rt) (node_name rt)
    (random_letter rt) (reply rt).
Definition rename_gradient (n : string) (g : gradient (R := R)) : gradient :=
  match g with
  | GDense t => GDense (TfTensor n (tf_dtype t) (tf_data t))
  | GSlices s => GSlices (Slices n (sl_dtype s) (sl_values s) (sl_indices s))
  end.
Definition arguments (gs : list (option (gradient (R := R)))) : list (option gradient) :=
  imap (λ i g, rename_gradient (arg_name i) <$> g) gs.

(** [self._push_pull_grads] *)
Definition _push_pull_grads (o : tf_optimizer) (gs : list (option (gradient (R := R)))) : M (tfs (R := R)) (list (option gradient)) :=
  let scope := wrapper_scope rt (opt_name o) in
  if opt_defun o
  then push_pull_grads traced densify dense_name scope (opt_compression o) (opt_sparse_as_dense o) (opt_async o) (arguments gs)
  else push_pull_grads rt densify dense_name scope (opt_compression o) (opt_sparse_as_dense o) (opt_async o) gs.

Definition compute_gradients (o : tf_optimizer) (gradients : list (option (gradient (R := R)) * nat)) :
    M (tfs (R := R)) (list (option gradient * nat)) :=
  if (1 <? rt_size rt) && negb (opt_async o) then
    match gradients with
    | [] => raise ValueError
    | _ =>
        avg ← _push_pull_grads o gradients.*1;
        mret (zip avg gradients.*2)
    end
  else mret gradients.

(** [opt_apply] is the wrapped optimizer's own [apply_gradients]. *)
Definition apply_gradients (o : tf_optimizer) (opt_apply : list (option (gradient (R := R)) * nat) → M (tfs (R := R)) ())
    (grads_and_vars : list (option gradient * nat)) : M tfs () :=
  if opt_async o then
    match grads_and_vars with
    | [] => raise ValueError
    | _ =>
        let vars := grads_and_vars.*2 in
        old_tensors ← read_vars vars;
        opt_apply grads_and_vars;;
        new_tensors ← read_vars vars;
        updated ← _push_pull_grads o (Some ∘ GDense <$> zip_with delta new_tensors old_tensors);
        assign_each vars updated
    end
  else opt_apply grads_and_vars.
End optimizer.

(** [DistributedOptimizer]: which wrapper is built. *)
Inductive opt_kind := Legacy | KerasOptimizer | OtherOptimizer.
Definition DistributedOptimizer (k : opt_kind) (backward_passes_per_step : Z) (op : string) :
    res opt_kind :=
  match k with
  | OtherOptimizer => Raise ValueError
  | _ => if decide (op = "Adasum") then Raise ValueError
         else if 1 <? backward_passes_per_step then Raise ValueError else Ok k
  end.
End Tf.
