(* ===== verification/TFProofs.v ===== *)
(** * Theorems about the TensorFlow plugin

    Operation keys, averaging, broadcast and the two optimizer modes of
    [TFPlugin]. *)

From Stdlib Require Import Ascii.
From S2P Require Import Prelude PyStr Tensor TorchOps TorchCompression Broadcast TFPlugin.

Module TfProofs.
Import Tf.

(** ** Names *)

Lemma normalize_chars name : str_forall name_char (_normalize_name name).
Proof.
  induction name as [|c s IH]; [done|]. simpl. destruct (name_char c) eqn:E; [by rewrite E|done].
Qed.

Lemma normalize_id name : str_forall name_char name → _normalize_name name = name.
Proof.
  induction name as [|c s IH]; [done|]. simpl. destruct (name_char c); [|done].
  intros Hs. by rewrite IH.
Qed.

Lemma name_char_ascii c : name_char c → ascii_char c.
Proof.
  unfold name_char, ascii_char, in_range. intros H. apply Is_true_true. apply Is_true_true in H.
  apply Nat.ltb_lt. repeat (apply orb_prop in H as [H|H]).
  - apply andb_prop in H as [_ H%Nat.leb_le]. lia.
  - apply andb_prop in H as [_ H%Nat.leb_le]. lia.
  - apply andb_prop in H as [_ H%Nat.leb_le]. lia.
  - apply Ascii.eqb_eq in H as ->. vm_compute. lia.
Qed.

Lemma str_app_inj_l (s a b : string) : s +:+ a = s +:+ b → a = b.
Proof. induction s as [|c s IH]; [done|]. intros E. injection E. apply IH. Qed.

Section proofs.
Context {R : Type} `{Scalar R, !TorchLib R}.
Context (rt : runtime (R := R)).

(** The key of an operation that is given no name. *)
Definition op_key (prefix scope tensor_name : string) : string :=
  op_scope rt scope +:+ op_name rt prefix tensor_name None.

Lemma op_names_key prefix scope name s :
  op_key prefix scope name ≠ "" → str_forall ascii_char (op_key prefix scope name) →
  op_names rt prefix name scope None s =
    (Ok (op_name rt prefix name None, op_key prefix scope name), s).
Proof.
  intros Hne Ha. unfold op_names. fold (op_key prefix scope name). rewrite decide_False by done.
  erewrite bind_Ok by reflexivity. unfold encode_ascii.
  apply Is_true_true in Ha. rewrite Ha. reflexivity.
Qed.

(** In a graph the key is the scope followed by the operation's name. *)
Lemma graph_key_ok prefix scope name :
  executing_eagerly rt = false → prefix ≠ "" → str_forall ascii_char prefix →
  str_forall ascii_char (op_scope rt scope) →
  op_key prefix scope name = op_scope rt scope +:+ (prefix +:+ _normalize_name name) ∧
  op_key prefix scope name ≠ "" ∧ str_forall ascii_char (op_key prefix scope name).
Proof.
  intros He Hp Ha Hs. unfold op_key, op_name. rewrite He. split_and!; [done| |].
  - by destruct (op_scope rt scope), prefix.
  - rewrite !str_forall_app, !andb_True. split_and!; [done..|].
    eapply str_forall_impl, normalize_chars. apply name_char_ascii.
Qed.

(** In a graph, two tensors of one scope are exchanged under the same key
    exactly when their normalised names agree; the normalised part consists of
    letters, digits and underscores only, and normalising twice changes nothing;
    a push-pull and a broadcast never share a key. *)
Theorem tf_keys_distinct scope a b :
  executing_eagerly rt = false →
  (op_key "BytePSPushPull_" scope a = op_key "BytePSPushPull_" scope b ↔
     _normalize_name a = _normalize_name b) ∧
  str_forall name_char (_normalize_name a) ∧
  _normalize_name (_normalize_name a) = _normalize_name a ∧
  op_key "BytePSPushPull_" scope a ≠ op_key "BytePSBroadcast_" scope b.
Proof.
  intros He. unfold op_key, op_name. rewrite He. split_and!.
  - split; [|by intros ->]. intros E%str_app_inj_l. by apply str_app_inj_l in E.
  - apply normalize_chars.
  - apply normalize_id, normalize_chars.
  - intros E%str_app_inj_l. done.
Qed.

(** ** One exchange *)

Definition add_calls (l : list tf_call) (s : tfs (R := R)) : tfs :=
  TFS (tf_calls s ++ l) (tf_vars s) (tf_random s).

Definition exchange (key : string) : list tf_call := [TDeclare key; TPushPull key].

Lemma add_calls_app l1 l2 s : add_calls l2 (add_calls l1 s) = add_calls (l1 ++ l2) s.
Proof. unfold add_calls. simpl. by rewrite <-app_assoc. Qed.

Lemma add_calls_nil s : add_calls [] s = s.
Proof. destruct s. unfold add_calls. simpl. by rewrite app_nil_r. Qed.

(** The keys are usable: an operation named after the tensor has a key. *)
Definition key_ok (prefix scope name : string) : Prop :=
  op_key prefix scope name ≠ "" ∧ str_forall ascii_char (op_key prefix scope name).

Lemma push_pull_raw t scope s :
  key_ok "BytePSPushPull_" scope (tf_name t) →
  let key := op_key "BytePSPushPull_" scope (tf_name t) in
  _push_pull rt t scope None s =
    (Ok (set_data (reply rt key (tf_data t)) t), add_calls (exchange key) s).
Proof.
  intros [Hne Ha] key. unfold _push_pull. erewrite bind_Ok by (by apply op_names_key).
  cbv beta iota. erewrite bind_Ok by reflexivity.
  unfold c_push_pull. erewrite bind_Ok by reflexivity. cbn [default].
  unfold mret, M_ret, add_calls, exchange. simpl. by rewrite <-app_assoc.
Qed.

(** What [push_pull] returns for the reply [l] to a tensor of type [d]. *)
Definition combine (d : dtype) (op : ReduceOps) (enable_async : bool) (l : list R) : list R :=
  if enable_async then l
  else if decide (op = Average) then map (λ x, s_div x (cast d (s_of_Z (rt_size rt)))) l else l.

Lemma push_pull_ok t scope average op o async s :
  key_ok "BytePSPushPull_" scope (tf_name t) →
  handle_average_backwards_compatibility op average = Ok (OpEnum o) →
  let key := op_key "BytePSPushPull_" scope (tf_name t) in
  push_pull rt t scope average TfNone op async s =
    (Ok (set_data (combine (tf_dtype t) o async (reply rt key (tf_data t))) t),
     add_calls (exchange key) s).
Proof.
  intros Hk E key. unfold push_pull.
  erewrite bind_Ok by (unfold lift; by rewrite E). erewrite bind_Ok by reflexivity.
  cbn [tf_compress]. erewrite bind_Ok by (by apply push_pull_raw).
  erewrite bind_Ok by reflexivity. unfold combine, mret, M_ret.
  destruct async; [by destruct t|]. destruct o; [done|by destruct t..].
Qed.

(** [push_pull] asks for the sum over all workers under the tensor's key and
    divides it by the number of workers, unless summation is asked for or
    training is asynchronous; [average] and [op] select the same thing, giving
    both is a [ValueError], and a string for [op] (such as this module's own
    [Average]) an [AttributeError]; neither error starts an exchange. *)
Theorem tf_push_pull_spec t scope async s :
  key_ok "BytePSPushPull_" scope (tf_name t) →
  let key := op_key "BytePSPushPull_" scope (tf_name t) in
  let result op := (Ok (set_data (combine (tf_dtype t) op async (reply rt key (tf_data t))) t),
                    add_calls (exchange key) s) in
  push_pull rt t scope None TfNone None async s = result Average ∧
  (∀ op, push_pull rt t scope None TfNone (Some (OpEnum op)) async s = result op) ∧
  (∀ av, push_pull rt t scope (Some av) TfNone None async s = result (if av then Average else Sum)) ∧
  (∀ op av c, push_pull rt t scope (Some av) c (Some op) async s = (Raise ValueError, s)) ∧
  (∀ o c, push_pull rt t scope None c (Some (OpStr o)) async s = (Raise AttributeError, s)).
Proof.
  intros Hk key result.
  split_and!; [by apply push_pull_ok|intros op; by apply push_pull_ok|
    intros []; by apply push_pull_ok|done|done].
Qed.

(** 16-bit compression returns a tensor of the input's element type: the
    reply to the 16-bit elements converted back, and averaged in the original
    type. *)
Theorem tf_fp16_spec t scope s :
  key_ok "BytePSPushPull_" scope (tf_name t) → is_floating_point (tf_dtype t) = true →
  push_pull rt t scope None TfFP16 None false s =
    (Ok (set_data (map (λ x, s_div x (cast (tf_dtype t) (s_of_Z (rt_size rt))))
       (map (cast (tf_dtype t))
          (reply rt (op_key "BytePSPushPull_" scope (tf_name t)) (map (cast float16) (tf_data t))))) t),
     add_calls (exchange (op_key "BytePSPushPull_" scope (tf_name t))) s).
Proof.
  intros Hk Hf. unfold push_pull. do 2 erewrite bind_Ok by reflexivity.
  cbn [tf_compress]. rewrite Hf.
  erewrite bind_Ok by (apply (push_pull_raw (tf_cast float16 t)); exact Hk).
  cbn [tf_decompress or_raise mbind res_bind]. rewrite Hf. reflexivity.
Qed.

(** ** Gradients *)
Context (densify : slices (R := R) → list R) (dense_name : string → string).

Definition g_key (sd : bool) (scope : string) (g : gradient) : string :=
  op_key "BytePSPushPull_" scope (tf_name (grad_input densify dense_name sd g)).

(** The exchanged gradient. *)
Definition g_reduced (sd async : bool) (scope : string) (g : gradient) : gradient :=
  let t := grad_input densify dense_name sd g in
  GDense (set_data (combine (tf_dtype t) Average async (reply rt (g_key sd scope g) (tf_data t))) t).

Definition g_calls (sd : bool) (scope : string) (g : option gradient) : list tf_call :=
  match g with Some g => exchange (g_key sd scope g) | None => [] end.

Definition grads_ok (sd : bool) (scope : string) (gs : list (option gradient)) : Prop :=
  Forall (λ g, ∀ g', g = Some g' →
    key_ok "BytePSPushPull_" scope (tf_name (grad_input densify dense_name sd g'))) gs.

Lemma push_pull_grads_ok sd async scope gs s :
  grads_ok sd scope gs →
  push_pull_grads rt densify dense_name scope TfNone sd async gs s =
    (Ok (fmap (M:=option) (g_reduced sd async scope) <$> gs), add_calls (flat_map (g_calls sd scope) gs) s).
Proof.
  intros HF. revert s. induction HF as [|g gs Hg HF IH]; intros s; cbn [push_pull_grads].
  { by rewrite add_calls_nil. }
  destruct g as [g|].
  - erewrite bind_Ok by (apply (push_pull_ok _ _ _ _ Average); [by apply Hg|done]). erewrite bind_Ok by (apply IH).
    unfold mret, M_ret. by rewrite add_calls_app.
  - erewrite bind_Ok by (apply IH). done.
Qed.

(** While executing eagerly the tensor's name is not used: every gradient a
    distributed tape computes is exchanged under the same key, the name of the
    tape's scope, whatever the gradients are. *)
Theorem eager_gradients_share_key sd gs s :
  executing_eagerly rt = true → 1 < rt_size rt →
  let scope := wrapper_scope rt "Distributed" in
  scope ≠ "" → str_forall ascii_char scope →
  ∃ r, tape_gradient rt densify dense_name TfNone sd gs s
    = (Ok r, add_calls (flat_map (λ g : option gradient,
               match g with Some _ => exchange scope | None => [] end) gs) s).
Proof.
  intros He Hsz scope Hsc Ha. unfold tape_gradient. fold scope.
  assert (∀ n, op_key "BytePSPushPull_" scope n = scope) as Hk.
  { intros n. unfold op_key, op_scope, op_name. rewrite He, decide_False by done. apply str_app_nil_r. }
  destruct (Z.ltb_spec 1 (rt_size rt)); [|lia].
  eexists. rewrite push_pull_grads_ok.
  - do 2 f_equal. apply flat_map_ext. intros [g|]; [|done]. unfold g_calls, g_key. by rewrite Hk.
  - apply Forall_forall. intros g _ g' _. unfold key_ok. by rewrite Hk.
Qed.

(** ** Broadcast *)

(** Worker [me] broadcasts [vars]; [V v j] is worker [j]'s value of [v], [N v]
    its name. The last field is what the servers reply to a summation. *)
Record bcast_ready (W root me : nat) (scope : string) (vars : list nat) (N : nat → string)
    (D : nat → dtype) (V : nat → nat → list R) (s : tfs (R := R)) : Prop := {
  tb_many : 1 < rt_size rt;
  tb_rank : rt_rank rt = Z.of_nat me;
  tb_root : (root < W)%nat;
  tb_nodup : NoDup vars;
  tb_here v : v ∈ vars → tf_vars s !! v = Some (TfTensor (N v) (D v) (V v me));
  tb_len v j : v ∈ vars → (j < W)%nat → length (V v j) = length (V v root);
  tb_key v : v ∈ vars → key_ok "BytePSBroadcast_" scope (N v);
  tb_node v : v ∈ vars → has_assign_sub rt = true →
    node_name rt (op_name rt "BytePSBroadcast_" (N v) None) = op_key "BytePSBroadcast_" scope (N v);
  tb_reply v : v ∈ vars →
    reply rt (op_key "BytePSBroadcast_" scope (N v))
        (contribution (Z.of_nat me) (Z.of_nat root) (V v me))
    = vsum (length (V v root)) (contributions W root (V v))
}.

Definition put_var (v : nat) (t : tf_tensor) (s : tfs (R := R)) : tfs :=
  TFS (tf_calls s) (<[v := t]> (tf_vars s)) (tf_random s).

Lemma sub_self `{!ScalarLaws R} (l : list R) : zip_with s_sub l l = vzero (length l).
Proof.
  unfold vzero. induction l as [|x l IH]; simpl; [done|]. by rewrite s_sub_diag, IH.
Qed.

Lemma read_var_ok v t (s : tfs (R := R)) : tf_vars s !! v = Some t → read_var v s = (Ok t, s).
Proof. intros E. unfold read_var, mbind, M_bind, get, lift. by rewrite E. Qed.

Lemma assign_ok v t l (s : tfs (R := R)) :
  tf_vars s !! v = Some t → tf_assign v l s = (Ok (), put_var v (set_data l t) s).
Proof. intros E. unfold tf_assign. by erewrite bind_Ok by (by apply read_var_ok). Qed.

(** One variable: whatever the rank, it ends up with the reply to the worker's
    contribution. *)
Lemma broadcast_var_ok `{!ScalarLaws R} W root me scope vars N D V v s :
  bcast_ready W root me scope vars N D V s → v ∈ vars →
  let key := op_key "BytePSBroadcast_" scope (N v) in
  ∃ r s1, broadcast rt (BVar v) (Z.of_nat root) scope None true s = (Ok r, s1) ∧
    tf_data r = reply rt key (contribution (Z.of_nat me) (Z.of_nat root) (V v me)) ∧
    ∀ l, tf_assign v l s1 =
      (Ok (), put_var v (TfTensor (N v) (D v) l) (add_calls (exchange key) s)).
Proof.
  intros [B1 B2 B3 B4 B5 B6 B7 B8 B9] Hv key. unfold broadcast. cbn [target_tensor].
  erewrite bind_Ok by (by apply read_var_ok, B5). cbn [tf_name tf_data].
  destruct (B7 v Hv) as [Hne Ha]. erewrite bind_Ok by (by apply op_names_key).
  cbv beta iota. fold key. erewrite bind_Ok by reflexivity. rewrite B2.
  unfold contribution. destruct (decide (Z.of_nat root = Z.of_nat me)) as [Hr|Hr].
  - rewrite (decide_True (P := Z.of_nat me = Z.of_nat root)) by done. eexists _, _.
    split; [reflexivity|]. split; [done|]. intros l. simpl.
    rewrite (assign_ok v (TfTensor (N v) (D v) (V v me))) by (by apply B5).
    unfold put_var, add_calls, exchange. simpl. by rewrite <-app_assoc.
  - rewrite (decide_False (P := Z.of_nat me = Z.of_nat root)) by lia. cbn [assign_sub_self].
    erewrite bind_Ok.
    2: { erewrite bind_Ok by (by apply read_var_ok, B5).
         erewrite bind_Ok by (by apply assign_ok, B5). reflexivity. }
    cbn [tf_data]. rewrite sub_self.
    assert (default (node_name rt (op_name rt "BytePSBroadcast_" (N v) None))
      (if has_assign_sub rt then None else Some key) = key) as Hkey
      by (destruct (has_assign_sub rt) eqn:Has; [by apply B8|done]).
    unfold c_push_pull. rewrite Hkey. eexists _, _. split; [reflexivity|]. split; [done|].
    intros l. rewrite (assign_ok v (TfTensor (N v) (D v) (vzero (length (V v me)))))
      by (simpl; by rewrite lookup_insert_eq).
    unfold put_var, add_calls, exchange. simpl. by rewrite <-app_assoc, insert_insert_eq.
Qed.

Definition put_all (vars : list nat) (f : nat → tf_tensor) (m : gmap nat tf_tensor) :
    gmap nat (tf_tensor (R := R)) :=
  foldr (λ v m, <[v := f v]> m) m vars.

Lemma put_all_lookup vars f m v :
  put_all vars f m !! v = if decide (v ∈ vars) then Some (f v) else m !! v.
Proof.
  induction vars as [|w vars IH]; simpl; [done|].
  destruct (decide (v = w)) as [->|Hne].
  - by rewrite lookup_insert_eq, decide_True by left.
  - rewrite lookup_insert_ne, IH by done.
    destruct (decide (v ∈ vars)) as [Hv|Hv];
      [by rewrite decide_True by (by right)|by rewrite decide_False by set_solver].
Qed.

Lemma put_all_insert vars f m v :
  v ∉ vars → put_all vars f (<[v := f v]> m) = put_all (v :: vars) f m.
Proof.
  intros Hv. apply map_eq. intros w. rewrite !put_all_lookup.
  destruct (decide (w = v)) as [->|Hne].
  - by rewrite decide_False, lookup_insert_eq, decide_True by (done || left).
  - rewrite lookup_insert_ne by done. by repeat case_decide; set_solver.
Qed.

Lemma broadcast_variables_ok `{!ScalarLaws R} W root me scope vars N D V s :
  bcast_ready W root me scope vars N D V s →
  broadcast_variables rt vars (Z.of_nat root) scope s =
    (Ok (), TFS (tf_calls s ++ flat_map (λ v, exchange (op_key "BytePSBroadcast_" scope (N v))) vars)
              (put_all vars (λ v, TfTensor (N v) (D v) (V v root)) (tf_vars s)) (tf_random s)).
Proof.
  intros HB. unfold broadcast_variables. pose proof (tb_many _ _ _ _ _ _ _ _ _ HB) as Hm.
  destruct (Z.leb_spec (rt_size rt) 1); [lia|]. clear Hm.
  revert s HB. induction vars as [|v vars IH]; intros s HB; cbn [broadcast_each].
  { simpl. rewrite app_nil_r. by destruct s. }
  destruct (broadcast_var_ok W root me scope (v :: vars) N D V v s HB) as (r & s1 & E & Hr & Ha); [left|].
  erewrite bind_Ok by exact E. erewrite bind_Ok by apply Ha.
  pose proof HB as [B1 B2 B3 B4 B5 B6 B7 B8 B9]. apply NoDup_cons in B4 as [Hv Hnd].
  rewrite B9, (contributions_sum W root (V v)) in Hr; [|done|by intros j Hj; apply B6; [left|]|left].
  rewrite Hr, IH.
  - cbn [put_var add_calls tf_calls tf_vars tf_random flat_map].
    rewrite (put_all_insert vars (λ v, TfTensor (N v) (D v) (V v root))) by done.
    by rewrite <-app_assoc.
  - split; [done|done|done|done|..].
    + intros w Hw. simpl. rewrite lookup_insert_ne by (intros ->; done). by apply B5; right.
    + intros w j Hw Hj. by apply B6; [right|].
    + intros w Hw. by apply B7; right.
    + intros w Hw. by apply B8; right.
    + intros w Hw. by apply B9; right.
Qed.

(** After [broadcast_variables] every variable of every worker holds the
    root's value, with its own name and type; each variable is exchanged once,
    in order, and no other variable is changed. *)
Theorem tf_broadcast_spec `{!ScalarLaws R} W root me scope vars N D V s :
  bcast_ready W root me scope vars N D V s →
  broadcast_variables rt vars (Z.of_nat root) scope s =
    (Ok (), TFS (tf_calls s ++ flat_map (λ v, exchange (op_key "BytePSBroadcast_" scope (N v))) vars)
              (put_all vars (λ v, TfTensor (N v) (D v) (V v root)) (tf_vars s)) (tf_random s)).
Proof. apply broadcast_variables_ok. Qed.

(** ** Asynchronous training *)

Lemma read_vars_ok vars (f : nat → tf_tensor) (s : tfs (R := R)) :
  (∀ v, v ∈ vars → tf_vars s !! v = Some (f v)) → read_vars vars s = (Ok (f <$> vars), s).
Proof.
  induction vars as [|v vars IH]; intros Hv; cbn [read_vars]; [done|].
  erewrite bind_Ok by (apply read_var_ok, Hv; left).
  erewrite bind_Ok by (apply IH; intros w Hw; apply Hv; by right). done.
Qed.

Lemma assign_each_ok vars (g : nat → tf_tensor) (f : nat → tf_tensor) (s : tfs (R := R)) :
  NoDup vars → (∀ v, v ∈ vars → tf_vars s !! v = Some (f v)) →
  assign_each vars ((λ v, Some (GDense (g v))) <$> vars) s =
    (Ok (), TFS (tf_calls s) (put_all vars (λ v, set_data (tf_data (g v)) (f v)) (tf_vars s))
              (tf_random s)).
Proof.
  intros Hnd. revert s. induction Hnd as [|v vars Hv Hnd IH]; intros s Hf; cbn [fmap list_fmap assign_each].
  { by destruct s. }
  erewrite bind_Ok by (apply assign_ok, Hf; left). rewrite IH.
  - cbn [put_var tf_calls tf_vars tf_random].
    by rewrite (put_all_insert vars (λ v, set_data (tf_data (g v)) (f v))).
  - intros w Hw. simpl. rewrite lookup_insert_ne by (intros ->; done). apply Hf. by right.
Qed.

End proofs.

(** ** The optimizer *)
Section optimizer.
Context {R : Type} `{Scalar R, !TorchLib R}.
Context (rt : runtime (R := R)) (densify : slices (R := R) → list R) (dense_name : string → string).
Context (arg_name : nat → string).

(** What the exchange of the gradients [gs] runs on: in a graph function, or as it is. *)
Definition runtime_of (o : tf_optimizer) : runtime := if opt_defun o then traced rt else rt.
Definition gradients_of (o : tf_optimizer) (gs : list (option (gradient (R := R)))) : list (option gradient) :=
  if opt_defun o then arguments arg_name gs else gs.

Lemma _push_pull_grads_ok o gs s :
  let scope := wrapper_scope rt (opt_name o) in
  opt_compression o = TfNone →
  grads_ok (runtime_of o) densify dense_name (opt_sparse_as_dense o) scope (gradients_of o gs) →
  _push_pull_grads rt densify dense_name arg_name o gs s =
    (Ok (fmap (M:=option) (g_reduced (runtime_of o) densify dense_name (opt_sparse_as_dense o) (opt_async o) scope)
           <$> gradients_of o gs),
     add_calls (flat_map (g_calls (runtime_of o) densify dense_name (opt_sparse_as_dense o) scope) (gradients_of o gs)) s).
Proof.
  intros scope Hc HF. unfold _push_pull_grads, runtime_of, gradients_of in *. rewrite Hc.
  destruct (opt_defun o); by apply push_pull_grads_ok.
Qed.

(** C38: The gradients of the legacy optimizer without compression, with more than one worker
    and in the synchronous mode, come back paired with the same variables in
    the same order: a missing gradient stays missing, every other one is
    the servers' sum divided by the number of workers, each exchanged once in order; variables are not
    touched. With one worker, or in the asynchronous mode, they are returned as they
    are. The key of a gradient is the scope, [BytePSPushPull_] and the tensor's name, normalised; if
    the optimizer was constructed while executing eagerly, the name is that of the argument
    of the graph function, so that the keys differ although eager tensors have no names. *)
Theorem compute_gradients_averages o gvs s :
  let scope := wrapper_scope rt (opt_name o) in
  let sd := opt_sparse_as_dense o in
  let rt' := runtime_of o in
  let gs := gradients_of o gvs.*1 in
  opt_compression o = TfNone → grads_ok rt' densify dense_name sd scope gs → gvs ≠ [] →
  compute_gradients rt densify dense_name arg_name o gvs s =
    (if (1 <? rt_size rt) && negb (opt_async o) then
      (Ok (zip (fmap (M:=option) (g_reduced rt' densify dense_name sd false scope) <$> gs) gvs.*2),
       add_calls (flat_map (g_calls rt' densify dense_name sd scope) gs) s)
    else (Ok gvs, s)) ∧
  (opt_defun o = executing_eagerly rt → scope ≠ "" →
   ∀ g, g_key rt' densify dense_name sd scope g
     = scope +:+ ("BytePSPushPull_" +:+ _normalize_name (tf_name (grad_input densify dense_name sd g)))).
Proof.
  intros scope sd rt' gs Hc HF Hne. split.
  - unfold compute_gradients. destruct (1 <? rt_size rt); [|done]. destruct (opt_async o) eqn:Ha; [done|]. simpl.
    destruct gvs as [|gv gvs]; [done|]. erewrite bind_Ok by (by apply _push_pull_grads_ok). by rewrite Ha.
  - intros Hd Hs g. unfold g_key, op_key, op_scope, op_name.
    assert (executing_eagerly rt' = false) as -> by (unfold rt', runtime_of; rewrite Hd; by destruct (executing_eagerly rt) eqn:E).
    by rewrite decide_False.
Qed.

(** In asynchronous training a step sends, for every variable, the change the
    local optimizer made to it, and the variable becomes the servers' reply (the
    global weight), not averaged; each variable is exchanged once, in order, and
    no other variable is changed after the local step. *)
Theorem async_apply_gradients o opt_apply gvs old new s s1 :
  let vars := gvs.*2 in
  let scope := wrapper_scope rt (opt_name o) in
  let key v := op_key rt "BytePSPushPull_" scope (tf_name (new v)) in
  opt_defun o = false → opt_async o = true → opt_compression o = TfNone → gvs ≠ [] → NoDup vars →
  (∀ v, v ∈ vars → tf_vars s !! v = Some (old v)) →
  opt_apply gvs s = (Ok (), s1) → (∀ v, v ∈ vars → tf_vars s1 !! v = Some (new v)) →
  (∀ v, v ∈ vars → key_ok rt "BytePSPushPull_" scope (tf_name (new v))) →
  apply_gradients rt densify dense_name arg_name o opt_apply gvs s =
    (Ok (), TFS (tf_calls s1 ++ flat_map (λ v, exchange (key v)) vars)
       (put_all vars (λ v, set_data
          (reply rt (key v) (zip_with s_sub (tf_data (new v)) (tf_data (old v)))) (new v)) (tf_vars s1))
       (tf_random s1)).
Proof.
  intros vars scope key Hdf Ha Hc Hne Hnd Hold Happ Hnew Hkey. unfold apply_gradients. rewrite Ha.
  destruct gvs as [|gv gvs']; [done|]. fold vars scope.
  erewrite bind_Ok by (by apply read_vars_ok). erewrite bind_Ok by exact Happ.
  erewrite bind_Ok by (by apply read_vars_ok).
  assert (Some ∘ GDense <$> zip_with delta (new <$> vars) (old <$> vars)
    = (λ v, Some (GDense (delta (new v) (old v)))) <$> vars) as ->.
  { rewrite zip_with_fmap_l, zip_with_fmap_r, zip_with_diag, <-list_fmap_compose. done. }
  erewrite bind_Ok.
  2: { unfold _push_pull_grads. rewrite Hdf, Ha, Hc. apply push_pull_grads_ok. apply Forall_fmap, Forall_forall. intros v Hv g' [= <-].
       apply Hkey, Hv. }
  rewrite <-list_fmap_compose.
  etrans; [apply (assign_each_ok vars (λ v, set_data (reply rt (key v)
    (zip_with s_sub (tf_data (new v)) (tf_data (old v)))) (delta (new v) (old v))) new); done|].
  unfold add_calls. cbn [tf_calls tf_vars tf_random]. do 3 f_equal.
  clear. induction vars as [|v vs IH]; [done|]. cbn [fmap list_fmap flat_map]. by rewrite IH.
Qed.
End optimizer.

(** ** Two workers, rank 1 *)
Module TfDemo.
#[local] Existing Instance CompressionDemo.lib.

Definition argument_name (i : nat) : string := "grads_" +:+ pretty i +:+ ":0".
(** The other worker (the root) holds [5; 6] in every tensor. *)
Definition rt0 (eager : bool) : runtime (R := Z) :=
  Runtime eager "" (λ n, n +:+ "/") 2 1 false (λ n, n) (λ _, "a"%char) (λ _ l, zip_with Z.add l [5; 6]).
Definition w0 : tf_tensor (R := Z) := TfTensor "w:0" float32 [1; 2].
Definition s0 : tfs (R := Z) := TFS [] {[0%nat := w0]} 0.
Definition none_densify (s : slices (R := Z)) : list Z := sl_values s.

Lemma tf_keys_distinct_witness :
  op_key (rt0 false) "BytePSPushPull_" "s/" "w:0" = op_key (rt0 false) "BytePSPushPull_" "s/" "w_0" ∧
  op_key (rt0 false) "BytePSPushPull_" "s/" "w:0" ≠ op_key (rt0 false) "BytePSBroadcast_" "s/" "w_0".
Proof.
  destruct (tf_keys_distinct (rt0 false) "s/" "w:0" "w_0") as (H1 & _ & _ & H4); [reflexivity|].
  split; [apply H1; reflexivity|exact H4].
Defined.

Lemma tf_push_pull_spec_witness :
  push_pull (rt0 false) w0 "" None TfNone None false s0 =
    (Ok (TfTensor "w:0" float32 [3; 4]),
     TFS [TDeclare "BytePSPushPull_w_0"; TPushPull "BytePSPushPull_w_0"] {[0%nat := w0]} 0).
Proof.
  destruct (tf_push_pull_spec (rt0 false) w0 "" false s0) as [E _].
  - split; vm_compute; [discriminate|exact I].
  - rewrite E. vm_compute. reflexivity.
Defined.

Lemma tf_fp16_spec_witness :
  (push_pull (rt0 false) w0 "" None TfFP16 None false s0).1 = Ok (TfTensor "w:0" float32 [3; 4]).
Proof.
  rewrite (tf_fp16_spec (rt0 false) w0 "" s0); [vm_compute; reflexivity| |reflexivity].
  split; vm_compute; [discriminate|exact I].
Defined.

Definition wrapped (async : bool) : tf_optimizer := TfOptimizer "DistributedSGD" TfNone false async false.

(** Two eager tensors, which have no name, in a graph function. *)
Definition eager_wrapped : tf_optimizer := TfOptimizer "DistributedSGD" TfNone false false true.
Definition eager_gradients : list (option (gradient (R := Z)) * nat) :=
  [(Some (GDense (TfTensor "" float32 [1; 2])), 0%nat); (None, 1%nat); (Some (GDense (TfTensor "" float32 [3; 8])), 2%nat)].

Lemma compute_gradients_averages_witness :
  compute_gradients (rt0 true) none_densify id argument_name eager_wrapped eager_gradients s0
  = (Ok [(Some (GDense (TfTensor "grads_0:0" float32 [3; 4])), 0%nat); (None, 1%nat);
         (Some (GDense (TfTensor "grads_2:0" float32 [4; 7])), 2%nat)],
     add_calls (exchange "DistributedSGD_Push_Pull/BytePSPushPull_grads_0_0" ++
                exchange "DistributedSGD_Push_Pull/BytePSPushPull_grads_2_0") s0).
Proof.
  destruct (compute_gradients_averages (rt0 true) none_densify id argument_name eager_wrapped eager_gradients s0) as [E _].
  - reflexivity.
  - repeat (apply Forall_cons; split; [first [intros g' [= <-]; split; vm_compute; [discriminate|exact I]|done]|]).
    apply Forall_nil. exact I.
  - done.
  - etrans; [exact E|]. vm_compute. reflexivity.
Defined.

(** TensorFlow 2 has no [tf.contrib]. *)
Example eager_init_raises name c sd :
  optimizer_init (rt0 true) ∅ false name "SGD" c sd = Raise AttributeError.
Proof. reflexivity. Qed.

Lemma eager_gradients_share_key_witness :
  ∃ r, tape_gradient (rt0 true) none_densify id TfNone false
         [Some (GDense w0); Some (GDense (TfTensor "b:0" float32 [7]))] s0
       = (Ok r, add_calls (exchange "Distributed_Push_Pull/" ++ exchange "Distributed_Push_Pull/") s0).
Proof.
  apply (eager_gradients_share_key (rt0 true) none_densify id false
    [Some (GDense w0); Some (GDense (TfTensor "b:0" float32 [7]))] s0); done.
Defined.

Definition vals (v j : nat) : list Z := if decide (j = 0%nat) then [5; 6] else [1; 2].

Lemma bcast_ready_demo :
  bcast_ready (rt0 false) 2 0 1 "" [0%nat] (λ _, "w:0") (λ _, float32) vals s0.
Proof.
  split; [reflexivity|reflexivity|lia|apply NoDup_singleton|..].
  - by intros v ->%list_elem_of_singleton.
  - intros v j _ _. unfold vals. by destruct (decide (j = 0%nat)).
  - intros v _. split; vm_compute; [discriminate|exact I].
  - intros v _. vm_compute. discriminate.
  - intros v _. vm_compute. reflexivity.
Qed.

Lemma tf_broadcast_spec_witness :
  (broadcast_variables (rt0 false) [0%nat] 0 "" s0).2 =
    TFS [TDeclare "BytePSBroadcast_w_0"; TPushPull "BytePSBroadcast_w_0"]
      {[0%nat := TfTensor "w:0" float32 [5; 6]]} 0.
Proof.
  rewrite (tf_broadcast_spec (rt0 false) 2 0 1 "" [0%nat] (λ _, "w:0") (λ _, float32) vals s0);
    [vm_compute; reflexivity|apply bcast_ready_demo].
Defined.

(** A local step that subtracts one from every element. *)
Definition local_step (_ : list (option (gradient (R := Z)) * nat)) : M (tfs (R := Z)) () := tf_assign 0 [0; 1].

Lemma async_apply_gradients_witness :
  (apply_gradients (rt0 false) none_densify id argument_name (wrapped true) local_step [(None, 0%nat)] s0).1 = Ok () ∧
  tf_vars (apply_gradients (rt0 false) none_densify id argument_name (wrapped true) local_step [(None, 0%nat)] s0).2
    !! 0%nat = Some (TfTensor "w:0" float32 [4; 5]).
Proof.
  rewrite (async_apply_gradients (rt0 false) none_densify id argument_name (wrapped true) local_step [(None, 0%nat)]
    (λ _, w0) (λ _, TfTensor "w:0" float32 [0; 1]) s0 (local_step [] s0).2);
    [vm_compute; split; reflexivity|reflexivity|reflexivity|reflexivity|done|apply NoDup_singleton|..].
  - by intros v ->%list_elem_of_singleton.
  - reflexivity.
  - intros v ->%list_elem_of_singleton. vm_compute. reflexivity.
  - intros v _. split; vm_compute; [discriminate|exact I].
Defined.
End TfDemo.
End TfProofs.
