(* ===== verification/Keras.v ===== *)
(** * The Keras plugin, [byteps/_keras/callbacks.py] and [byteps/_keras/__init__.py]

    The learning-rate schedule and warm-up callbacks as a state machine over the
    optimizer's learning rate and momentum, the metric and broadcast callbacks,
    the optimizer wrapper and [load_model]. Collective operations are those of
    [TFPlugin]. *)

From S2P Require Import Prelude PyStr Tensor TorchOps TorchCompression DistOptim Broadcast TFPlugin.

Module Keras.

(** [d.update(l)] *)
Definition dict_update {V} (d : odict string V) (l : list (string * V)) : odict string V :=
  foldl (λ d '(k, v), od_set k v d) d l.

(** ** [LearningRateScheduleCallbackImpl] *)
Section schedule.
Context {R : Type} `{Scalar R}.

(** [a / b] on Python numbers. *)
Definition py_div (a b : R) : res R :=
  if s_eqb b s_zero then Raise ZeroDivisionError else Ok (s_div a b).

(** What is passed as [multiplier]: a number, a function of the epoch, or the
    function [LearningRateWarmupCallbackImpl] defines, which reads the callback's
    [steps_per_epoch] when it is called. *)
Inductive multiplier :=
  | MConst (x : R)
  | MFun (f : R → R)
  | MWarmup (size warmup_epochs : Z).

(** The callback's attributes, Keras's [self.params], and the learning rate and
    momentum of [self.model.optimizer] ([None]: no such attribute). *)
Record lr_cb : Type := LrCb {
  start_epoch : Z;
  end_epoch : option Z;
  staircase : bool;
  momentum_correction : bool;
  mult : multiplier;
  initial_lr : option R;
  restore_momentum : option R;
  steps_per_epoch : option Z;
  current_epoch : option Z;
  keras_params : odict string Z;
  lr : R;
  momentum : option R
}.

Definition set_lr x c : lr_cb :=
  LrCb (start_epoch c) (end_epoch c) (staircase c) (momentum_correction c) (mult c) (initial_lr c)
    (restore_momentum c) (steps_per_epoch c) (current_epoch c) (keras_params c) x (momentum c).
Definition set_momentum m c : lr_cb :=
  LrCb (start_epoch c) (end_epoch c) (staircase c) (momentum_correction c) (mult c) (initial_lr c)
    (restore_momentum c) (steps_per_epoch c) (current_epoch c) (keras_params c) (lr c) m.
Definition set_restore m c : lr_cb :=
  LrCb (start_epoch c) (end_epoch c) (staircase c) (momentum_correction c) (mult c) (initial_lr c)
    m (steps_per_epoch c) (current_epoch c) (keras_params c) (lr c) (momentum c).
Definition set_initial x c : lr_cb :=
  LrCb (start_epoch c) (end_epoch c) (staircase c) (momentum_correction c) (mult c) x
    (restore_momentum c) (steps_per_epoch c) (current_epoch c) (keras_params c) (lr c) (momentum c).
Definition set_steps n c : lr_cb :=
  LrCb (start_epoch c) (end_epoch c) (staircase c) (momentum_correction c) (mult c) (initial_lr c)
    (restore_momentum c) n (current_epoch c) (keras_params c) (lr c) (momentum c).
Definition set_epoch e c : lr_cb :=
  LrCb (start_epoch c) (end_epoch c) (staircase c) (momentum_correction c) (mult c) (initial_lr c)
    (restore_momentum c) (steps_per_epoch c) e (keras_params c) (lr c) (momentum c).

(** [__init__]: a multiplier that is not callable forces [staircase]. *)
Definition schedule_init (m : multiplier) (start_ : Z) (end_ : option Z) (stair correct : bool)
    (steps : option Z) (initial : option R) (params : odict string Z) (lr0 : R) (mom : option R) : lr_cb :=
  LrCb start_ end_ (match m with MConst _ => true | _ => stair end) correct m initial None steps None
    params lr0 mom.

Definition warmup_init (size warmup_epochs : Z) (correct : bool) (steps : option Z)
    (initial : option R) (params : odict string Z) (lr0 : R) (mom : option R) : lr_cb :=
  schedule_init (MWarmup size warmup_epochs) 0 (Some warmup_epochs) false correct steps initial
    params lr0 mom.

Definition call_multiplier (c : lr_cb) (epoch : R) : res R :=
  match mult c with
  | MConst x => Ok x
  | MFun f => Ok (f epoch)
  | MWarmup size warmup_epochs =>
      steps ← or_raise TypeError (steps_per_epoch c);
      inc ← py_div (s_of_Z 1) (s_of_Z steps);
      let epoch := s_add epoch inc in
      inv ← py_div (s_of_Z 1) (s_of_Z size);
      part ← py_div (s_mul epoch (s_of_Z (size - 1))) (s_of_Z warmup_epochs);
      Ok (s_mul inv (s_add part (s_of_Z 1)))
  end.

(** [self.params.get(k)], when it counts as true. *)
Definition param_of (c : lr_cb) (k : string) : option Z :=
  v ← od_get k (keras_params c); if decide (v = 0) then None else Some v.

Definition _autodetect_steps_per_epoch (c : lr_cb) : res Z :=
  match param_of c "steps" with
  | Some n => Ok n
  | None => match param_of c "samples", param_of c "batch_size" with
            | Some n, Some b => Ok (n `div` b)
            | _, _ => Raise ValueError
            end
  end.

Definition _adjust_learning_rate (epoch : R) : M lr_cb () :=
  c ← get;
  let old_lr := lr c in
  i ← lift (or_raise TypeError (initial_lr c));
  m ← lift (call_multiplier c epoch);
  let new_lr := s_mul i m in
  modify (set_lr new_lr);;
  match momentum c with
  | Some mo =>
      if momentum_correction c then
        modify (set_restore (Some mo));;
        modify (set_momentum (Some (s_div (s_mul mo new_lr) old_lr)))
      else mret ()
  | None => mret ()
  end.

Definition _restore_momentum_if_needed : M lr_cb () :=
  c ← get;
  match restore_momentum c with
  | Some m => if s_eqb m s_zero then mret ()
              else modify (set_momentum (Some m));; modify (set_restore None)
  | None => mret ()
  end.

Definition on_train_begin : M lr_cb () :=
  c ← get;
  (if decide (initial_lr c = None) then modify (set_initial (Some (lr c))) else mret ());;
  if staircase c then mret ()
  else match steps_per_epoch c with
       | Some (Zpos _) | Some (Zneg _) => mret ()
       | _ => n ← lift (_autodetect_steps_per_epoch c); modify (set_steps (Some n))
       end.

Definition on_epoch_begin (epoch : Z) : M lr_cb () := modify (set_epoch (Some epoch)).

Definition on_batch_begin (batch : Z) : M lr_cb () :=
  c ← get;
  e ← lift (or_raise TypeError (current_epoch c));
  if (e <? start_epoch c) || match end_epoch c with Some n => n <=? e | None => false end
  then mret ()
  else if staircase c then
    if decide (batch = 0) then _adjust_learning_rate (s_of_Z e) else mret ()
  else
    steps ← lift (or_raise TypeError (steps_per_epoch c));
    f ← lift (py_div (s_of_Z batch) (s_of_Z steps));
    _adjust_learning_rate (s_add (s_of_Z e) f).

Definition on_batch_end : M lr_cb () := _restore_momentum_if_needed.

(** [on_epoch_end], and what it leaves under ["lr"] in [logs]. *)
Definition on_epoch_end (logs : option (odict string R)) : M lr_cb (option (odict string R)) :=
  c ← get; mret (od_set "lr" (lr c) <$> logs).
End schedule.
Arguments lr_cb : clear implicits.
Arguments multiplier : clear implicits.

(** ** [MetricAverageCallbackImpl] *)
Section metrics.
Context {R : Type} `{Scalar R, !TorchLib R}.
Context (rt : Tf.runtime (R := R)).
(** The scope [tf.name_scope('MetricAverageCallback')] opens the [i]-th time. *)
Context (metric_scope : nat → string).

(** [self.variables]: the scope a variable was made in and its value. The
    operation in [self.push_pull_ops] is built in that scope, and reduces the
    value the variable has when it is run. *)
Record metric_cb : Type := MetricCb { variables : odict string (string * R); mc_tf : Tf.tfs (R := R) }.

Definition in_tf {A} : M (Tf.tfs (R := R)) A → M metric_cb A :=
  zoom mc_tf (λ t c, MetricCb (variables c) t).

(** The single element of a reduced scalar. *)
Definition scalar_of (t : Tf.tf_tensor (R := R)) : res R := or_raise ValueError (head (Tf.tf_data t)).

(** [_make_variable], or [set_value] of the variable that exists already. *)
Definition set_metric (metric : string) (value : R) : M metric_cb string :=
  c ← get;
  let scope := match od_get metric (variables c) with
               | Some (sc, _) => sc
               | None => metric_scope (length (variables c))
               end in
  modify (λ c, MetricCb (od_set metric (scope, value) (variables c)) (mc_tf c));;
  mret scope.

(** Running again an operation that [push_pull] built in [scope]: the exchange
    and the average; nothing is declared. *)
Definition rerun_push_pull (t : Tf.tf_tensor (R := R)) (scope : string) : M (Tf.tfs (R := R)) Tf.tf_tensor :=
  let name := Tf.op_name rt "BytePSPushPull_" (Tf.tf_name t) None in
  summed ← Tf.c_push_pull rt t name (Some (Tf.op_scope rt scope +:+ name));
  mret (Tf.set_data (map (λ x, s_div x (cast (Tf.tf_dtype t) (s_of_Z (Tf.rt_size rt)))) (Tf.tf_data summed))
          summed).

(** A metric is a Python float, so the variable's type is [float32]. *)
Definition reduce_metric (metric : string) (value : R) : M metric_cb R :=
  if Tf.executing_eagerly rt then
    t ← in_tf (Tf.push_pull rt (Tf.TfTensor metric float32 [value]) "" None Tf.TfNone None false);
    lift (scalar_of t)
  else
    c ← get;
    scope ← set_metric metric value;
    let var := Tf.TfTensor (scope +:+ metric +:+ ":0") float32 [value] in
    t ← in_tf (match od_get metric (variables c) with
               | None => Tf.push_pull rt var scope None Tf.TfNone None false
               | Some _ => rerun_push_pull var scope
               end);
    lift (scalar_of t).

Fixpoint reduce_metrics (items : list (string * R)) : M metric_cb (list (string * R)) :=
  match items with
  | [] => mret []
  | (metric, value) :: items' =>
      r ← reduce_metric metric value;
      rest ← reduce_metrics items';
      mret ((metric, r) :: rest)
  end.

(** [logs] is changed in place; for [None] a fresh dict is, and is lost. *)
Definition _average_metrics_in_place (logs : option (odict string R)) :
    M metric_cb (option (odict string R)) :=
  reduced ← reduce_metrics (sorted_pairs (default [] logs));
  mret ((λ d, dict_update d reduced) <$> logs).
End metrics.

(** ** [BroadcastGlobalVariablesCallbackImpl] *)
Section broadcast_callback.
Context {R : Type} `{Scalar R, !TorchLib R}.
Context (rt : Tf.runtime (R := R)).

(** [model_variables] and [optimizer_variables]; [None]: the model has none. *)
Definition broadcast_on_batch_end (model_variables : option (list nat))
    (optimizer_variables global_variables : list nat) (root_rank : Z) :
    M (bool * Tf.tfs (R := R)) () :=
  s ← get;
  if s.1 : bool then mret ()
  else if Tf.rt_size rt <=? 1 then mret ()
  else
    zoom snd (λ t s, (s.1, t))
      (match model_variables with
       | Some vs => if Tf.executing_eagerly rt then
                      Tf.broadcast_variables rt vs root_rank "";;
                      Tf.broadcast_variables rt optimizer_variables root_rank ""
                    else Tf.broadcast_global_variables rt global_variables root_rank
       | None => Tf.broadcast_global_variables rt global_variables root_rank
       end);;
    modify (λ s, (true, s.2)).
End broadcast_callback.

(** ** [create_distributed_optimizer] *)
Section optimizer.
Context {R : Type} `{Scalar R, !TorchLib R}.
Context (rt : Tf.runtime (R := R)) (densify : Tf.slices (R := R) → list R) (dense_name : string → string).

Record keras_opt : Type := KerasOpt { _aggregated_gradients : bool; ko_tf : Tf.tfs (R := R) }.

Definition keras_push_pull (name : string) (c : Tf.tf_compressor) (sparse_as_dense : bool)
    (gradients : list (option Tf.gradient)) : M keras_opt (list (option Tf.gradient)) :=
  modify (λ o, KerasOpt true (ko_tf o));;
  if 1 <? Tf.rt_size rt then
    zoom ko_tf (λ t o, KerasOpt (_aggregated_gradients o) t)
      (Tf.push_pull_grads rt densify dense_name (Tf.name_scope rt (name +:+ "_Push_Pull")) c
         sparse_as_dense false gradients)
  else mret gradients.

(** [get_gradients] and [_aggregate_gradients] both end in [_push_pull]. *)
Definition _aggregate_gradients (name : string) (c : Tf.tf_compressor) (sparse_as_dense : bool)
    (grads_and_vars : list (option Tf.gradient * nat)) : M keras_opt (list (option Tf.gradient)) :=
  keras_push_pull name c sparse_as_dense grads_and_vars.*1.

(** Python's bare [Exception] is represented by [RuntimeError]. *)
Definition keras_apply_gradients {A} (super_apply : M keras_opt A) : M keras_opt A :=
  o ← get; if _aggregated_gradients o then super_apply else raise RuntimeError.
End optimizer.

(** ** [load_model] *)

(** The dictionary of objects handed to Keras: [subclasses] is the name and
    module of every subclass of [Optimizer], [wrap] the wrapper. *)
Definition load_model_objects {V} (wrap : string → V) (subclasses : list (string * string))
    (optimizer_modules : list string) (custom_optimizers : option (list string))
    (custom_objects : option (list (string * V))) : odict string V :=
  let byteps_objects :=
    dict_update [] (map (λ '(cls, _), (py_lower cls, wrap cls))
      (filter (λ cm, cm.2 ∈ optimizer_modules) subclasses)) in
  let byteps_objects :=
    match custom_optimizers with
    | Some l => dict_update byteps_objects (map (λ cls, (cls, wrap cls)) l)
    | None => byteps_objects
    end in
  match custom_objects with Some l => dict_update byteps_objects l | None => byteps_objects end.
End Keras.
