(* ===== verification/KerasProofs.v ===== *)
(** * Theorems about the Keras plugin

    Momentum correction, the learning-rate schedule and the linear warm-up,
    metric averaging, the broadcast callback and [load_model] of [Keras]. *)

From Stdlib Require Import Field.
From S2P Require Import Prelude PyStr Tensor TorchOps TorchCompression DistOptim DistOptimProofs.
From S2P Require Import Broadcast TFPlugin TFProofs Keras.

Module KerasProofs.
Import Keras TfProofs.

(** ** Momentum and the schedule *)
Section schedule.
Context {R : Type} `{Scalar R}.
Implicit Types (c : lr_cb R).

(** [on_batch_begin] can run: the epoch and the initial rate are known, and the
    multiplier has a value. *)
Record sched_ready c : Prop := {
  sr_initial : is_Some (initial_lr c);
  sr_epoch : is_Some (current_epoch c);
  sr_steps : staircase c = false → ∃ n, steps_per_epoch c = Some n ∧ s_eqb (s_of_Z n) s_zero = false;
  sr_mult e : ∃ m, call_multiplier c e = Ok m
}.

(** Nothing is left to restore. A zero momentum is kept back too, but
    [if self.restore_momentum] skips it. *)
Definition settled c : Prop :=
  restore_momentum c = None ∨ (restore_momentum c = Some s_zero ∧ momentum c = Some s_zero).

(** The two states agree on everything but the rate and what is kept back. *)
Definition same_setup c c' : Prop :=
  start_epoch c' = start_epoch c ∧ end_epoch c' = end_epoch c ∧ staircase c' = staircase c ∧
  momentum_correction c' = momentum_correction c ∧ mult c' = mult c ∧ initial_lr c' = initial_lr c ∧
  steps_per_epoch c' = steps_per_epoch c ∧ current_epoch c' = current_epoch c.

Lemma same_setup_refl c : same_setup c c.
Proof. by split_and!. Qed.
Lemma same_setup_trans c1 c2 c3 : same_setup c1 c2 → same_setup c2 c3 → same_setup c1 c3.
Proof. unfold same_setup. intuition congruence. Qed.

Lemma same_setup_ready c c' : same_setup c c' → sched_ready c → sched_ready c'.
Proof.
  intros (E1 & E2 & E3 & E4 & E5 & E6 & E7 & E8) [H1 H2 H3 H4].
  split; [by rewrite E6|by rewrite E8|by rewrite E3, E7|].
  intros e. destruct (H4 e) as [m Hm]. exists m. unfold call_multiplier in *. by rewrite E5, E7.
Qed.

(** The rate [_adjust_learning_rate] sets, and what it does to the momentum. *)
Lemma adjust_ok c epoch i m :
  initial_lr c = Some i → call_multiplier c epoch = Ok m →
  ∃ c', _adjust_learning_rate epoch c = (Ok (), c') ∧ lr c' = s_mul i m ∧ same_setup c c' ∧
    ((momentum c' = momentum c ∧ restore_momentum c' = restore_momentum c) ∨
     ∃ mo, momentum c = Some mo ∧ restore_momentum c' = Some mo ∧
           momentum c' = Some (s_div (s_mul mo (s_mul i m)) (lr c))).
Proof.
  intros Hi Hm. unfold _adjust_learning_rate. erewrite bind_Ok by reflexivity.
  erewrite bind_Ok by (unfold lift; by rewrite Hi). erewrite bind_Ok by (unfold lift; by rewrite Hm).
  erewrite bind_Ok by reflexivity.
  destruct (momentum c) as [mo|] eqn:Emo; [destruct (momentum_correction c)|].
  - eexists. split; [reflexivity|]. split; [done|]. split; [by split_and!|]. right. eauto.
  - eexists. split; [reflexivity|]. split; [done|]. split; [by split_and!|]. by left.
  - eexists. split; [reflexivity|]. split; [done|]. split; [by split_and!|]. by left.
Qed.

(** The epoch a batch counts as, when the callback acts on it. *)
Definition batch_epoch c (e b : Z) : option R :=
  if (e <? start_epoch c) || match end_epoch c with Some n => n <=? e | None => false end then None
  else if staircase c then if decide (b = 0) then Some (s_of_Z e) else None
  else n ← steps_per_epoch c; Some (s_add (s_of_Z e) (s_div (s_of_Z b) (s_of_Z n))).

Lemma batch_begin_cases c e b :
  sched_ready c → current_epoch c = Some e →
  on_batch_begin b c = match batch_epoch c e b with
                       | Some x => _adjust_learning_rate x c
                       | None => (Ok (), c)
                       end.
Proof.
  intros [_ _ Hs _] He. unfold on_batch_begin, batch_epoch. erewrite bind_Ok by reflexivity.
  erewrite bind_Ok by (unfold lift; by rewrite He).
  destruct (_ || _); [done|]. destruct (staircase c); [by destruct (decide (b = 0))|].
  destruct Hs as (n & Hn & Hz); [done|]. rewrite Hn.
  erewrite bind_Ok by reflexivity. erewrite bind_Ok by (unfold lift, py_div; by rewrite Hz). done.
Qed.

Context (Hzero : ∀ a b, s_div (s_mul s_zero a) b = s_zero (R := R))
        (Heqb : ∀ x y : R, s_eqb x y = true ↔ x = y).

Lemma restore_ok c mo :
  (momentum c = mo ∧ settled c) ∨ (∃ m x, mo = Some m ∧ restore_momentum c = Some m ∧
     momentum c = Some x ∧ (m = s_zero → x = s_zero)) →
  ∃ c', on_batch_end c = (Ok (), c') ∧ momentum c' = mo ∧ settled c' ∧ same_setup c c' ∧ lr c' = lr c.
Proof.
  intros Hc. unfold on_batch_end, _restore_momentum_if_needed. erewrite bind_Ok by reflexivity.
  destruct Hc as [[Hm [Hr|[Hr Hz]]]|(m & x & -> & Hr & Hx & Hmx)]; rewrite Hr.
  - exists c. split; [done|]. split; [done|]. split; [by left|]. by split; [apply same_setup_refl|].
  - rewrite (proj2 (Heqb s_zero s_zero) eq_refl). exists c. split; [done|]. split; [done|].
    split; [by right|]. by split; [apply same_setup_refl|].
  - destruct (s_eqb m s_zero) eqn:E.
    + apply Heqb in E as ->. exists c. rewrite Hx, Hmx by done. split; [done|]. split; [done|].
      split; [right; by rewrite Hx, Hmx|]. by split; [apply same_setup_refl|].
    + eexists. split; [reflexivity|]. split; [done|]. split; [by left|]. by split_and!.
Qed.

(** One batch: begin and end. *)
Definition run_batch (b : Z) : M (lr_cb R) () := on_batch_begin b;; on_batch_end.

Lemma run_batch_ok c e b i :
  sched_ready c → settled c → current_epoch c = Some e → initial_lr c = Some i →
  ∃ c', run_batch b c = (Ok (), c') ∧ momentum c' = momentum c ∧ settled c' ∧ same_setup c c' ∧
    match batch_epoch c e b with
    | Some x => ∃ m, call_multiplier c x = Ok m ∧ lr c' = s_mul i m
    | None => lr c' = lr c
    end.
Proof.
  intros Hready Hset He Hi. unfold run_batch.
  pose proof (batch_begin_cases c e b Hready He) as Eb.
  destruct (batch_epoch c e b) as [x|].
  - destruct (sr_mult c Hready x) as [m Hm].
    destruct (adjust_ok c x i m Hi Hm) as (c1 & E1 & Hlr & Hsame & Hmom).
    rewrite E1 in Eb. erewrite bind_Ok by exact Eb.
    destruct (restore_ok c1 (momentum c)) as (c2 & E2 & Hm2 & Hs2 & Hsm2 & Hl2).
    { destruct Hmom as [[Hmo Hr]|(mo & Hmo & Hr & Hx)].
      - left. split; [done|]. unfold settled. by rewrite Hmo, Hr.
      - right. eexists mo, _. split; [done|]. split; [done|]. split; [exact Hx|]. intros ->. apply Hzero. }
    exists c2. split_and!; [done..|by eapply same_setup_trans|]. exists m. by rewrite Hl2.
  - erewrite bind_Ok by exact Eb. destruct (restore_ok c (momentum c)) as (c2 & ?); [by left|].
    exists c2. tauto.
Qed.

(** Momentum correction is undone at the end of every batch: over any
    sequence of batches of an epoch the callback succeeds, and afterwards the
    optimizer's momentum is what it was before, with nothing left to restore. *)
Theorem momentum_restored c bs :
  sched_ready c → settled c →
  ∃ c', for_each run_batch bs c = (Ok (), c') ∧ momentum c' = momentum c ∧ settled c' ∧
    same_setup c c'.
Proof.
  intros Hready Hset.
  apply (for_each_inv run_batch (λ _ c', momentum c' = momentum c ∧ settled c' ∧ same_setup c c')).
  { split_and!; [done|done|apply same_setup_refl]. }
  intros dn b rest c1 _ (Hm & Hs & Hsame).
  pose proof (same_setup_ready c c1 Hsame Hready) as Hr1.
  destruct (sr_epoch c1 Hr1) as [e He]. destruct (sr_initial c1 Hr1) as [i Hi].
  destruct (run_batch_ok c1 e b i) as (c2 & E & Hm2 & Hs2 & Hsame2 & _); [done..|].
  exists c2. split; [done|]. split_and!; [congruence|done|by eapply same_setup_trans].
Qed.

Definition in_scope c (e : Z) : Prop :=
  start_epoch c ≤ e ∧ ∀ n, end_epoch c = Some n → e < n.

Lemma batch_epoch_stair c e b :
  staircase c = true →
  (in_scope c e → batch_epoch c e b = if decide (b = 0) then Some (s_of_Z e) else None) ∧
  (¬ in_scope c e → batch_epoch c e b = None).
Proof.
  intros Hs. unfold batch_epoch, in_scope. rewrite Hs.
  destruct (Z.ltb_spec e (start_epoch c)) as [Hlt|Hge]; simpl; [split; [lia|done]|].
  destruct (end_epoch c) as [n|].
  - destruct (Z.leb_spec n e); [split; [intros [_ Hn]; specialize (Hn n eq_refl); lia|done]|].
    split; [done|]. intros Hn. exfalso. apply Hn. split; [done|]. by intros ? [= <-].
  - split; [done|]. intros Hn. exfalso. by apply Hn.
Qed.

(** A staircase schedule sets the rate on the first batch of every epoch of
    its range to the initial rate times the multiplier of that epoch, and keeps
    it for the rest of the epoch; outside the range it leaves the rate alone. *)
Theorem staircase_epoch c e n i :
  sched_ready (set_epoch (Some e) c) → settled c → staircase c = true → initial_lr c = Some i → 1 ≤ n →
  ∃ c', (on_epoch_begin e;; for_each run_batch (seqZ 0 n)) c = (Ok (), c') ∧
    momentum c' = momentum c ∧
    (in_scope c e → ∃ m, call_multiplier c (s_of_Z e) = Ok m ∧ lr c' = s_mul i m) ∧
    (¬ in_scope c e → lr c' = lr c).
Proof.
  intros Hready Hset Hst Hi Hn. erewrite bind_Ok by reflexivity.
  set (c0 := set_epoch (Some e) c) in *.
  destruct (for_each_inv run_batch (λ dn c', momentum c' = momentum c ∧ settled c' ∧ same_setup c0 c' ∧
    (dn ≠ [] → in_scope c e → ∃ m, call_multiplier c (s_of_Z e) = Ok m ∧ lr c' = s_mul i m) ∧
    (¬ in_scope c e → lr c' = lr c)) (seqZ 0 n) c0) as (c' & E & Hm & _ & _ & H1 & H2).
  { split_and!; [done|done|apply same_setup_refl|done|done]. }
  - intros dn b rest c1 Hl (Hm & Hs & Hsame & H1 & H2).
    pose proof (same_setup_ready c0 c1 Hsame Hready) as Hr1.
    pose proof Hsame as (E1 & E2 & E3 & E4 & E5 & E6 & E7 & E8).
    destruct (run_batch_ok c1 e b i) as (c2 & E & Hm2 & Hs2 & Hsame2 & Hlr); [done..|by rewrite E6|].
    exists c2. split; [done|].
    destruct (batch_epoch_stair c1 e b) as [Hin Hout]; [by rewrite E3|].
    assert (in_scope c1 e ↔ in_scope c e) as Hsc by (unfold in_scope; by rewrite E1, E2).
    assert (∀ x, call_multiplier c1 x = call_multiplier c x) as Hcm
      by (intros x; unfold call_multiplier; by rewrite E5, E7).
    split_and!; [congruence|done|by eapply same_setup_trans| |].
    + intros _ Hin'. rewrite Hin in Hlr by (by apply Hsc).
      destruct (decide (b = 0)) as [->|Hb]; [by rewrite Hcm in Hlr|].
      rewrite Hlr. apply H1; [|done]. intros ->. simpl in Hl. apply Hb.
      rewrite seqZ_cons in Hl by lia. congruence.
    + intros Ho. rewrite Hout in Hlr by (by rewrite Hsc). rewrite Hlr. by apply H2.
  - exists c'. split_and!; [done|done| |done]. intros Hin. apply H1; [|done].
    rewrite seqZ_cons by lia. done.
Qed.
End schedule.

(** ** Warm-up *)

(** Exact arithmetic: the elements form a field that contains the integers. *)
Class FieldLaws (R : Type) `{Scalar R} (s_inv : R → R) : Prop := {
  fl_field : field_theory s_zero (s_of_Z 1) s_add s_mul s_sub s_neg s_div s_inv eq;
  fl_add a b : s_of_Z (a + b) = s_add (s_of_Z a) (s_of_Z b);
  fl_mul a b : s_of_Z (a * b) = s_mul (s_of_Z a) (s_of_Z b);
  fl_nonzero n : n ≠ 0 → s_of_Z n ≠ s_zero;
  fl_eqb x y : s_eqb x y = true ↔ x = y
}.

Section warmup.
Context {R : Type} `{Scalar R} (s_inv : R → R) `{!FieldLaws R s_inv}.

Add Field R_field : (fl_field (R := R) (s_inv := s_inv)).

Lemma py_div_ok (a : R) n : n ≠ 0 → py_div a (s_of_Z n) = Ok (s_div a (s_of_Z n)).
Proof.
  intros Hn. unfold py_div. destruct (s_eqb (s_of_Z n) s_zero) eqn:E; [|done].
  apply fl_eqb in E. by apply (fl_nonzero (s_inv := s_inv)) in E.
Qed.

(** The multiplier after [k] of the [steps * w] warm-up batches. *)
Definition ramp (size w steps k : Z) : R :=
  s_div (s_of_Z (steps * w + k * (size - 1))) (s_of_Z (size * (steps * w))).

Lemma ramp_mult (c : lr_cb R) size w steps e b :
  mult c = MWarmup size w → steps_per_epoch c = Some steps → 1 ≤ size → 1 ≤ w → 1 ≤ steps →
  call_multiplier c (s_add (s_of_Z e) (s_div (s_of_Z b) (s_of_Z steps)))
  = Ok (ramp size w steps (e * steps + b + 1)).
Proof.
  intros Hm Hs Hsize Hw Hst. unfold call_multiplier, ramp. rewrite Hm, Hs.
  cbn [or_raise mbind res_bind]. rewrite py_div_ok by lia. cbn [mbind res_bind].
  rewrite py_div_ok by lia. cbn [mbind res_bind]. rewrite py_div_ok by lia. cbn [mbind res_bind].
  f_equal. rewrite !(fl_add (s_inv := s_inv)), !(fl_mul (s_inv := s_inv)), !(fl_add (s_inv := s_inv)), !(fl_mul (s_inv := s_inv)).
  field. split_and!; apply (fl_nonzero (s_inv := s_inv)); lia.
Qed.

(** In exact arithmetic the warm-up raises the rate linearly: with [steps]
    batches per epoch, after batch [b] of epoch [e] has begun the rate is the
    initial rate times [(1 + (k / n) (size - 1)) / size], where [k] of the
    [n = steps * warmup_epochs] warm-up batches have begun; the last one reaches
    the initial rate exactly, and from epoch [warmup_epochs] on the rate is left
    alone. *)
Theorem warmup_linear size w steps correct params lr0 mo i e b (c : lr_cb R) :
  1 ≤ size → 1 ≤ w → 1 ≤ steps → 0 ≤ e → 0 ≤ b < steps →
  c = set_epoch (Some e) (warmup_init size w correct (Some steps) (Some i) params lr0 mo) →
  ∃ c', on_batch_begin b c = (Ok (), c') ∧
    (e < w → lr c' = s_mul i (ramp size w steps (e * steps + b + 1))) ∧
    (e = w - 1 → b = steps - 1 → lr c' = i) ∧
    (w ≤ e → c' = c).
Proof.
  intros Hsize Hw Hst He Hb ->. set (c := set_epoch _ _).
  assert (on_batch_begin b c = if decide (e < w)
    then _adjust_learning_rate (s_add (s_of_Z e) (s_div (s_of_Z b) (s_of_Z steps))) c else (Ok (), c)) as ->.
  { unfold on_batch_begin. do 2 erewrite bind_Ok by reflexivity. cbn.
    destruct (Z.ltb_spec e 0); [lia|]. simpl.
    destruct (Z.leb_spec w e); [by rewrite decide_False by lia|]. rewrite decide_True by lia.
    erewrite bind_Ok by reflexivity. erewrite bind_Ok by (unfold lift; by rewrite py_div_ok by lia). done. }
  destruct (decide (e < w)) as [Hlt|Hge].
  - destruct (adjust_ok c (s_add (s_of_Z e) (s_div (s_of_Z b) (s_of_Z steps))) i
      (ramp size w steps (e * steps + b + 1))) as (c' & E & Hlr & _); [done|by apply ramp_mult|].
    exists c'. split; [done|]. split; [done|]. split; [|lia]. intros -> ->. rewrite Hlr. unfold ramp.
    replace (steps * w + ((w - 1) * steps + (steps - 1) + 1) * (size - 1)) with (size * (steps * w)) by lia.
    field. apply (fl_nonzero (s_inv := s_inv)). nia.
  - exists c. split; [done|]. split; [lia|]. split; [lia|done].
Qed.
End warmup.

(** ** Dictionaries *)

Lemma dict_update_get {V} (d l : odict string V) k :
  NoDup l.*1 →
  od_get k (dict_update d l) = match od_get k l with Some v => Some v | None => od_get k d end.
Proof.
  unfold dict_update. revert d. induction l as [|[k' v'] l IH]; intros d Hnd; simpl; [done|].
  apply NoDup_cons in Hnd as [Hk Hnd]. rewrite IH by done.
  destruct (decide (k = k')) as [->|Hne].
  - rewrite od_get_set_eq. by rewrite (proj2 (od_get_None k' l) Hk).
  - by rewrite od_get_set_ne.
Qed.

Lemma dict_update_keys {V} (d l : odict string V) :
  Forall (λ k, k ∈ od_keys d) l.*1 → od_keys (dict_update d l) = od_keys d.
Proof.
  unfold dict_update. revert d. induction l as [|[k v] l IH]; intros d HF; simpl; [done|].
  apply Forall_cons in HF as [Hk HF]. rewrite IH; rewrite od_keys_set_in; done.
Qed.

Lemma sorted_pairs_unique {V} (d d' : odict string V) :
  NoDup d.*1 → d ≡ₚ d' → sorted_pairs d = sorted_pairs d'.
Proof.
  intros Hnd Hp.
  assert (∀ l : odict string V, StronglySorted pair_le (sorted_pairs l)) as Hs.
  { intros l. apply StronglySorted_merge_sort.
    - intros x y z. unfold pair_le. by etrans.
    - intros x y. unfold pair_le. apply (total String.le). }
  apply (StronglySorted_unique_strong pair_le); [|apply Hs|apply Hs|].
  - intros [k1 v1] [k2 v2] H1 H2 L1 L2. unfold pair_le in L1, L2. simpl in *.
    assert (k1 = k2) as -> by (by apply (anti_symm String.le)).
    rewrite (sorted_pairs_perm d) in H1. rewrite (sorted_pairs_perm d'), <-Hp in H2.
    f_equal. apply od_get_elem_NoDup in H1, H2; [congruence|done..].
  - by rewrite !sorted_pairs_perm.
Qed.

(** ** Metrics *)
Section metrics.
Context {R : Type} `{Scalar R, !TorchLib R}.
Context (rt : Tf.runtime (R := R)) (metric_scope : nat → string).
Context (Hgraph : Tf.executing_eagerly rt = false)
        (Hlen : ∀ key l, length (Tf.reply rt key l) = length l).
Implicit Types (c : metric_cb (R := R)).

Definition metric_key (scope k : string) : string :=
  op_key rt "BytePSPushPull_" scope (scope +:+ k +:+ ":0").

(** The average over the workers of metric [k], made in [scope]. *)
Definition metric_avg (scope k : string) (v : R) : R :=
  match Tf.reply rt (metric_key scope k) [v] with
  | x :: _ => s_div x (cast float32 (s_of_Z (Tf.rt_size rt)))
  | [] => v
  end.

Definition scope_ok (scope : string) : Prop := scope ≠ "" ∧ str_forall Tf.ascii_char scope.
Definition scopes_ok c : Prop :=
  (∀ i, scope_ok (metric_scope i)) ∧ ∀ k sc v, od_get k (variables c) = Some (sc, v) → scope_ok sc.

Definition metric_scope_of c k : string :=
  match od_get k (variables c) with Some (sc, _) => sc | None => metric_scope (length (variables c)) end.

(** The calls made for metric [k]: it is declared the first time only. *)
Definition metric_calls c (key k : string) : list Tf.tf_call :=
  match od_get k (variables c) with Some _ => [Tf.TPushPull key] | None => exchange key end.

(** Built now or before, the operation exchanges the value and averages it. *)
Lemma metric_op_ok scope k v c (s : Tf.tfs (R := R)) :
  scope_ok scope →
  let var := Tf.TfTensor (scope +:+ k +:+ ":0") float32 [v] in
  (match od_get k (variables c) with
   | None => Tf.push_pull rt var scope None Tf.TfNone None false
   | Some _ => rerun_push_pull rt var scope
   end) s =
  (Ok (Tf.set_data (combine rt float32 Tf.Average false (Tf.reply rt (metric_key scope k) [v])) var),
   add_calls (metric_calls c (metric_key scope k) k) s).
Proof.
  intros [Hne Ha] var. unfold metric_calls.
  destruct (od_get k (variables c)); [reflexivity|].
  erewrite (push_pull_ok rt _ _ _ _ Tf.Average); [reflexivity| |done].
  destruct (graph_key_ok rt "BytePSPushPull_" scope (scope +:+ k +:+ ":0")) as (_ & H1 & H2);
    [done|done|done| |by split].
  unfold Tf.op_scope. by rewrite decide_False.
Qed.

Lemma set_metric_ok k v c :
  set_metric metric_scope k v c = (Ok (metric_scope_of c k),
    MetricCb (od_set k (metric_scope_of c k, v) (variables c)) (mc_tf c)).
Proof. unfold set_metric. do 2 erewrite bind_Ok by reflexivity. reflexivity. Qed.

Lemma reduce_metric_ok k v c :
  scopes_ok c →
  let scope := metric_scope_of c k in
  ∃ c', reduce_metric rt metric_scope k v c = (Ok (metric_avg scope k v), c') ∧
    variables c' = od_set k (scope, v) (variables c) ∧
    mc_tf c' = add_calls (metric_calls c (metric_key scope k) k) (mc_tf c) ∧ scopes_ok c'.
Proof.
  intros [Hi Hc] scope. unfold reduce_metric. rewrite Hgraph.
  assert (scope_ok scope) as Hsc.
  { unfold scope, metric_scope_of. destruct (od_get k (variables c)) as [[sc v']|] eqn:E; eauto. }
  erewrite bind_Ok by reflexivity. erewrite bind_Ok by apply set_metric_ok. fold scope.
  erewrite bind_Ok by (unfold in_tf, zoom; cbn [mc_tf]; rewrite metric_op_ok by done; reflexivity).
  simpl. unfold metric_avg.
  pose proof (Hlen (metric_key scope k) [v]) as Hl.
  destruct (Tf.reply rt (metric_key scope k) [v]) as [|x l]; [done|].
  eexists. split; [reflexivity|]. split; [done|]. split; [done|]. split; [done|].
  intros k' sc v'. simpl. destruct (decide (k' = k)) as [->|Hk].
  - rewrite od_get_set_eq. by intros [= <- <-].
  - rewrite od_get_set_ne by done. apply Hc.
Qed.

(** What a run over [items] has done to the callback's variables. *)
Record metrics_done (items : list (string * R)) c c' : Prop := {
  md_value k v : (k, v) ∈ items → ∃ sc, od_get k (variables c') = Some (sc, v);
  md_other k : k ∉ items.*1 → od_get k (variables c') = od_get k (variables c);
  md_scopes : scopes_ok c';
  md_calls : Tf.tf_calls (mc_tf c') = Tf.tf_calls (mc_tf c) ++
    flat_map (λ kv, metric_calls c (metric_key (metric_scope_of c' kv.1) kv.1) kv.1) items
}.

Lemma reduce_metrics_ok items c :
  NoDup items.*1 → scopes_ok c →
  ∃ c', reduce_metrics rt metric_scope items c =
      (Ok (map (λ kv, (kv.1, metric_avg (metric_scope_of c' kv.1) kv.1 kv.2)) items), c') ∧
    metrics_done items c c'.
Proof.
  intros Hnd. revert c. induction items as [|[k v] items IH]; intros c Hs; cbn [reduce_metrics].
  { exists c. split; [done|]. split; [by intros ?? []%not_elem_of_nil|done|done|by rewrite app_nil_r]. }
  apply NoDup_cons in Hnd as [Hk Hnd]. simpl in Hk.
  destruct (reduce_metric_ok k v c Hs) as (c1 & E1 & Hv1 & Ht1 & Hs1).
  destruct (IH Hnd c1 Hs1) as (c2 & E2 & [D1 D2 D3 D4]).
  assert (od_get k (variables c2) = Some (metric_scope_of c k, v)) as Hk2
    by (by rewrite D2, Hv1, od_get_set_eq).
  assert (metric_scope_of c2 k = metric_scope_of c k) as Hsc by (unfold metric_scope_of at 1; by rewrite Hk2).
  erewrite bind_Ok by exact E1. erewrite bind_Ok by exact E2.
  exists c2. simpl. rewrite Hsc. split; [done|]. split; [| |done|].
  - intros k' v' [[= -> ->]|Hin]%elem_of_cons; [by eexists|by apply D1].
  - intros k' [Hne Hin]%not_elem_of_cons. simpl in Hne. rewrite D2, Hv1 by done. by apply od_get_set_ne.
  - rewrite D4, Ht1. simpl. rewrite Hsc, <-app_assoc. do 2 f_equal.
    apply flat_map_ext_elem. intros [k' v'] Hin. unfold metric_calls. rewrite Hv1, od_get_set_ne; [done|].
    simpl. intros ->. apply Hk. by apply (list_elem_of_fmap_2 fst _ (k', v')).
Qed.

(** Averaging the metrics of a log replaces every metric's value by its
    average over the workers and changes neither the metrics nor their order in
    the log; the exchanges are made in the order of the metrics' names, so that
    workers whose logs list the same metrics in different orders make the same
    ones; a metric is declared the first time it is averaged and not again. *)
Theorem metrics_averaged d d2 c :
  NoDup (od_keys d) → d ≡ₚ d2 → scopes_ok c →
  ∃ c' d' d2', _average_metrics_in_place rt metric_scope (Some d) c = (Ok (Some d'), c') ∧
    _average_metrics_in_place rt metric_scope (Some d2) c = (Ok (Some d2'), c') ∧
    od_keys d' = od_keys d ∧ od_keys d2' = od_keys d2 ∧
    (∀ k v, od_get k d = Some v →
       od_get k d' = Some (metric_avg (metric_scope_of c' k) k v) ∧ od_get k d2' = od_get k d') ∧
    Tf.tf_calls (mc_tf c') = Tf.tf_calls (mc_tf c) ++
      flat_map (λ kv, metric_calls c (metric_key (metric_scope_of c' kv.1) kv.1) kv.1) (sorted_pairs d).
Proof.
  intros Hnd Hp Hs.
  assert (NoDup (sorted_pairs d).*1) as Hnd' by (by rewrite (sorted_pairs_perm d)).
  destruct (reduce_metrics_ok (sorted_pairs d) c Hnd' Hs) as (c' & E & [_ _ _ D4]).
  set (r := map _ (sorted_pairs d)) in E.
  assert (r.*1 = (sorted_pairs d).*1) as Hr1.
  { unfold r. by rewrite <-list_fmap_compose. }
  assert (∀ k v, od_get k d = Some v → od_get k r = Some (metric_avg (metric_scope_of c' k) k v)) as Hr.
  { intros k v Hk%od_get_Some_elem. apply od_get_elem_NoDup; [by unfold od_keys; rewrite Hr1|].
    apply list_elem_of_fmap. exists (k, v). by rewrite (sorted_pairs_perm d). }
  exists c', (dict_update d r), (dict_update d2 r). unfold _average_metrics_in_place. cbn [from_option id].
  rewrite <-(sorted_pairs_unique d d2 Hnd Hp).
  assert (∀ d3, d ≡ₚ d3 → od_keys (dict_update d3 r) = od_keys d3) as Hkeys.
  { intros d3 Hp3. apply dict_update_keys, Forall_forall. intros k. rewrite Hr1, (sorted_pairs_perm d).
    unfold od_keys. by rewrite Hp3. }
  split_and!; [by erewrite bind_Ok by exact E|by erewrite bind_Ok by exact E|by apply Hkeys|by apply Hkeys| |done].
  intros k v Hk. rewrite !dict_update_get by (by rewrite Hr1). by rewrite (Hr k v Hk).
Qed.
End metrics.

(** ** The broadcast callback *)
Section broadcast_callback.
Context {R : Type} `{Scalar R, !TorchLib R} (rt : Tf.runtime (R := R)).

(** In graph mode the variables are broadcast at the end of the first batch
    and never again: after any positive number of batches every variable holds
    the root's value and was exchanged exactly once; with a single worker
    nothing is done. *)
Theorem broadcast_callback_once `{!ScalarLaws R} W root me mv ov vars N D V n s :
  Tf.executing_eagerly rt = false → (1 ≤ n)%nat →
  bcast_ready rt W root me "" vars N D V s →
  for_each (λ _, broadcast_on_batch_end rt mv ov vars (Z.of_nat root)) (seq 0 n) (false, s) =
    (Ok (), (true, Tf.TFS
       (Tf.tf_calls s ++ flat_map (λ v, exchange (op_key rt "BytePSBroadcast_" "" (N v))) vars)
       (put_all vars (λ v, Tf.TfTensor (N v) (D v) (V v root)) (Tf.tf_vars s)) (Tf.tf_random s))).
Proof.
  intros He Hn HB. destruct n as [|n]; [lia|]. cbn [seq for_each].
  pose proof (tb_many _ _ _ _ _ _ _ _ _ _ HB) as Hm.
  pose proof (broadcast_variables_ok rt W root me "" vars N D V s HB) as E. set (s1 := Tf.TFS _ _ _) in *.
  erewrite bind_Ok.
  2: { unfold broadcast_on_batch_end. erewrite bind_Ok by reflexivity. cbn [fst].
       destruct (Z.leb_spec (Tf.rt_size rt) 1); [lia|].
       assert (∀ m : M (Tf.tfs (R := R)) (), m = Tf.broadcast_global_variables rt vars (Z.of_nat root) →
         zoom snd (λ t (s : bool * Tf.tfs), (s.1, t)) m (false, s) = (Ok (), (false, s1))) as Hz.
       { intros m ->. unfold zoom, Tf.broadcast_global_variables. rewrite He. simpl. rewrite E. reflexivity. }
       erewrite bind_Ok by (apply Hz; destruct mv; [by rewrite He|done]). reflexivity. }
  generalize (seq 1 n). intros l. cbn [snd]. induction l as [|x l IH]; [done|].
  cbn [for_each]. erewrite bind_Ok by reflexivity. exact IH.
Qed.
End broadcast_callback.

(** ** The optimizer wrapper *)
Section optimizer.
Context {R : Type} `{Scalar R, !TorchLib R} (rt : Tf.runtime (R := R)).
Context (densify : Tf.slices (R := R) → list R) (dense_name : string → string).

(** Gradients can be applied only after they were aggregated: before, the
    wrapper raises; aggregation averages every gradient that is present over the
    workers (with one worker it returns them as they are) and opens the way. *)
Theorem keras_aggregate_first {A} name sd gs (super_apply : M keras_opt A) (o : keras_opt (R := R)) :
  grads_ok rt densify dense_name sd (Tf.name_scope rt (name +:+ "_Push_Pull")) gs →
  let scope := Tf.name_scope rt (name +:+ "_Push_Pull") in
  (_aggregated_gradients o = false → keras_apply_gradients super_apply o = (Raise RuntimeError, o)) ∧
  ∃ gs' o', keras_push_pull rt densify dense_name name Tf.TfNone sd gs o = (Ok gs', o') ∧
    gs' = (if 1 <? Tf.rt_size rt then fmap (M:=option) (g_reduced rt densify dense_name sd false scope) <$> gs
           else gs) ∧
    keras_apply_gradients super_apply o' = super_apply o'.
Proof.
  intros Hg scope. split.
  { intros Ha. unfold keras_apply_gradients. erewrite bind_Ok by reflexivity. by rewrite Ha. }
  unfold keras_push_pull. erewrite bind_Ok by reflexivity. fold scope.
  destruct (1 <? Tf.rt_size rt).
  - unfold zoom. cbn [ko_tf _aggregated_gradients]. rewrite push_pull_grads_ok by done.
    eexists _, _. split; [reflexivity|]. by split.
  - eexists _, _. split; [reflexivity|]. by split.
Qed.
End optimizer.

(** ** Loading a model *)

(** The objects [load_model] hands to Keras: a name in [custom_objects]
    stands for the given object, else a custom optimizer for its wrapper, else
    the lower-case name of a known optimizer class for that class's wrapper;
    nothing else is included. *)
Theorem load_model_precedence {V} (wrap : string → V) subclasses modules custom objs k :
  NoDup (default [] custom) → NoDup (default [] objs).*1 →
  NoDup (py_lower <$> (filter (λ cm, cm.2 ∈ modules) subclasses).*1) →
  let builtin := (filter (λ cm, cm.2 ∈ modules) subclasses).*1 in
  let found := od_get k (load_model_objects wrap subclasses modules custom objs) in
  (∀ v, (k, v) ∈ default [] objs → found = Some v) ∧
  (k ∉ (default [] objs).*1 → k ∈ default [] custom → found = Some (wrap k)) ∧
  (k ∉ (default [] objs).*1 → k ∉ default [] custom →
     ∀ cls, cls ∈ builtin → k = py_lower cls → found = Some (wrap cls)) ∧
  (k ∉ (default [] objs).*1 → k ∉ default [] custom → k ∉ py_lower <$> builtin → found = None).
Proof.
  intros Hc Ho Hb builtin found.
  set (b := map (λ '(cls, _), (py_lower cls, wrap cls)) (filter (λ cm, cm.2 ∈ modules) subclasses)).
  set (cu := map (λ cls, (cls, wrap cls)) (default [] custom)).
  assert (b = (λ cls, (py_lower cls, wrap cls)) <$> builtin) as Eb.
  { unfold b, builtin. rewrite <-list_fmap_compose. apply list_fmap_ext. by intros ? []. }
  assert (b.*1 = py_lower <$> builtin) as Hb1 by (rewrite Eb, <-list_fmap_compose; done).
  assert (cu.*1 = default [] custom) as Hcu1.
  { unfold cu. rewrite <-list_fmap_compose. apply list_fmap_id. }
  assert (found = match od_get k (default [] objs) with
    | Some v => Some v
    | None => match od_get k cu with Some v => Some v | None => od_get k b end end) as ->.
  { assert (od_get k (dict_update [] b) = od_get k b) as Hb0
      by (rewrite dict_update_get by (by rewrite Hb1); by destruct (od_get k b)).
    assert (∀ d, od_get k (dict_update d cu) =
      match od_get k cu with Some v => Some v | None => od_get k d end) as Hcu
      by (intros d; apply dict_update_get; by rewrite Hcu1).
    unfold found, load_model_objects. fold b. rewrite <-Hb0.
    destruct custom as [l|], objs as [l'|]; cbn [from_option id] in *; fold cu;
      rewrite ?(dict_update_get _ l') by done; by rewrite ?Hcu. }
  split_and!.
  - intros v Hin. by rewrite (od_get_elem_NoDup k v) by done.
  - intros Hk Hin. rewrite (proj2 (od_get_None k _) Hk).
    rewrite (od_get_elem_NoDup k (wrap k)); [done|by unfold od_keys; rewrite Hcu1|].
    unfold cu. apply list_elem_of_fmap. by exists k.
  - intros Hk Hkc cls Hin ->. rewrite (proj2 (od_get_None _ _) Hk).
    rewrite (proj2 (od_get_None _ cu)) by (unfold od_keys; by rewrite Hcu1).
    apply od_get_elem_NoDup; [by unfold od_keys; rewrite Hb1|]. rewrite Eb. apply list_elem_of_fmap. by exists cls.
  - intros Hk Hkc Hkb. rewrite (proj2 (od_get_None _ _) Hk).
    rewrite (proj2 (od_get_None _ cu)) by (unfold od_keys; by rewrite Hcu1).
    apply od_get_None. unfold od_keys. by rewrite Hb1.
Qed.
End KerasProofs.
