(* ===== verification/KerasDemo.v ===== *)
(** * Keras demos

    Exact rational arithmetic for the warm-up, and concrete callbacks, logs and
    models on which the theorems of [KerasProofs] apply. *)

From Stdlib Require Import Ascii QArith Qabs Qcanon.
From S2P Require Import Prelude PyStr Tensor TorchOps TorchCompression DistOptim Broadcast TFPlugin.
From S2P Require Import TFProofs Keras KerasProofs.
#[local] Open Scope Z_scope.

Module KerasDemo.
Import Keras TfProofs KerasProofs.
#[local] Existing Instance CompressionDemo.lib.

(** ** Rationals; the square root is rounded down to the input's denominator *)
Definition qc_of_Z (z : Z) : Qc := Q2Qc (inject_Z z).

#[export] Instance Qc_scalar : Scalar Qc := {|
  s_zero := Q2Qc 0%Q; s_add := Qcplus; s_sub := Qcminus; s_mul := Qcmult; s_div := Qcdiv;
  s_neg := Qcopp; s_abs := λ x, Q2Qc (Qabs x);
  s_sqrt := λ x, Q2Qc (Qmake (Z.sqrt (Qnum x * QDen x)) (Qden x));
  s_leb := λ x y, Qle_bool x y; s_eqb := Qc_eq_bool;
  s_of_Z := qc_of_Z; s_to_Z := λ x, Qnum x `quot` QDen x
|}.

#[export] Instance Qc_field : FieldLaws Qc Qcinv.
Proof.
  split.
  - exact Qcft.
  - intros a b. apply Qc_is_canon. simpl. rewrite !Qred_correct. by rewrite inject_Z_plus.
  - intros a b. apply Qc_is_canon. simpl. rewrite !Qred_correct. by rewrite inject_Z_mult.
  - intros n Hn E. apply Hn. assert (inject_Z n == 0)%Q as E'.
    { rewrite <-(Qred_correct (inject_Z n)), <-(Qred_correct 0).
      change (qc_of_Z n = Q2Qc 0) in E.
      change (this (qc_of_Z n) == this (Q2Qc 0))%Q. by rewrite E. }
    unfold Qeq in E'. simpl in E'. lia.
  - intros x y. split; [apply Qc_eq_bool_correct|]. intros ->.
    change (Qc_eq_bool y y = true). unfold Qc_eq_bool. destruct (Qcanon.Qc_eq_dec y y) as [_|n]; [reflexivity|by destruct (n eq_refl)].
Qed.

(** Four workers, two warm-up epochs of two batches: the last batch reaches the
    initial rate. *)
Lemma warmup_linear_witness :
  ∃ c', on_batch_begin 1 (set_epoch (Some 1)
      (warmup_init 4 2 true (Some 2) (Some (qc_of_Z 8)) [] (qc_of_Z 3) None)) = (Ok (), c') ∧
    lr c' = qc_of_Z 8.
Proof.
  destruct (warmup_linear Qcinv 4 2 2 true [] (qc_of_Z 3) None (qc_of_Z 8) 1 1
    (set_epoch (Some 1) (warmup_init 4 2 true (Some 2) (Some (qc_of_Z 8)) [] (qc_of_Z 3) None)))
    as (c' & E & _ & H & _); [lia..|reflexivity|].
  exists c'. split; [exact E|]. apply H; lia.
Defined.

(** ** A staircase schedule that doubles the rate from epoch 2 on *)
Definition stair : lr_cb Z :=
  schedule_init (MConst 2) 2 None false true None (Some 10) [] 10 (Some 9).

Lemma stair_ready e : sched_ready (set_epoch (Some e) stair).
Proof. split; [by eexists|by eexists|done|]. intros x. by exists 2. Qed.

Lemma zero_div (a b : Z) : s_div (s_mul s_zero a) b = s_zero (R := Z).
Proof. reflexivity. Qed.

Lemma momentum_restored_witness :
  ∃ c', for_each run_batch [0; 1; 2] (set_epoch (Some 3) stair) = (Ok (), c') ∧
    momentum c' = Some 9 ∧ settled c'.
Proof.
  destruct (momentum_restored zero_div Z.eqb_eq (set_epoch (Some 3) stair) [0; 1; 2])
    as (c' & E & H1 & H2 & _); [apply stair_ready|by left|].
  exists c'. split; [exact E|]. split; [exact H1|exact H2].
Defined.

Lemma staircase_epoch_witness :
  ∃ c', (on_epoch_begin 3;; for_each run_batch (seqZ 0 2)) stair = (Ok (), c') ∧
    momentum c' = Some 9 ∧ lr c' = 20.
Proof.
  destruct (staircase_epoch zero_div Z.eqb_eq stair 3 2 10) as (c' & E & H1 & H2 & _);
    [apply stair_ready|by left|reflexivity|reflexivity|lia|].
  exists c'. split; [exact E|]. split; [exact H1|].
  destruct H2 as (m & Hm & Hl); [by split|]. vm_compute in Hm. injection Hm as <-. exact Hl.
Defined.

(** ** Metrics of two workers *)
Definition rt_metrics : Tf.runtime (R := Z) :=
  Tf.Runtime false "" (λ n, n +:+ "/") 2 1 false (λ n, n) (λ _, "a"%char) (λ _ l, map (λ x, x + 4) l).

Lemma metrics_averaged_witness :
  ∃ c' d' d2', _average_metrics_in_place rt_metrics (λ _, "Metric/") (Some [("loss", 6); ("acc", 2)])
      (MetricCb [] (Tf.TFS [] ∅ 0)) = (Ok (Some d'), c') ∧
    _average_metrics_in_place rt_metrics (λ _, "Metric/") (Some [("acc", 2); ("loss", 6)])
      (MetricCb [] (Tf.TFS [] ∅ 0)) = (Ok (Some d2'), c') ∧
    od_get "loss" d' = Some 5.
Proof.
  destruct (metrics_averaged rt_metrics (λ _, "Metric/") eq_refl
    (λ _ l, length_map _ l) [("loss", 6); ("acc", 2)] [("acc", 2); ("loss", 6)] (MetricCb [] (Tf.TFS [] ∅ 0)))
    as (c' & d' & d2' & E1 & E2 & _ & _ & H & _).
  - apply (bool_decide_unpack _). vm_compute. exact I.
  - apply perm_swap.
  - split; [by intros i|done].
  - exists c', d', d2'. split; [exact E1|]. split; [exact E2|].
    destruct (H "loss" 6) as [H1 _]; [reflexivity|]. exact H1.
Defined.

(** ** One broadcast over three batches *)
Lemma broadcast_callback_once_witness :
  for_each (λ _, broadcast_on_batch_end (TfDemo.rt0 false) None [] [0%nat] 0) (seq 0 3) (false, TfDemo.s0)
  = (Ok (), (true, Tf.TFS (exchange "BytePSBroadcast_w_0")
       {[0%nat := Tf.TfTensor "w:0" float32 [5; 6]]} 0)).
Proof.
  etrans; [apply (broadcast_callback_once (TfDemo.rt0 false) 2 0 1 None [] [0%nat] (λ _, "w:0")
    (λ _, float32) TfDemo.vals 3 TfDemo.s0); [reflexivity|lia|]|vm_compute; reflexivity].
  apply TfDemo.bcast_ready_demo.
Defined.

Lemma keras_aggregate_first_witness :
  ∃ gs' o', keras_push_pull (TfDemo.rt0 false) TfDemo.none_densify id "SGD" Tf.TfNone false
      [Some (Tf.GDense TfDemo.w0); None] (KerasOpt false TfDemo.s0) = (Ok gs', o') ∧
    keras_apply_gradients (mret ()) o' = (Ok (), o').
Proof.
  destruct (keras_aggregate_first (TfDemo.rt0 false) TfDemo.none_densify id "SGD" false
    [Some (Tf.GDense TfDemo.w0); None] (mret ()) (KerasOpt false TfDemo.s0)) as (_ & gs' & o' & E & _ & H).
  - apply Forall_cons. split; [intros g' [= <-]; split; vm_compute; [discriminate|exact I]|].
    apply Forall_cons. split; [done|]. apply Forall_nil. exact I.
  - exists gs', o'. split; [exact E|exact H].
Defined.

Lemma load_model_precedence_witness :
  od_get "sgd" (load_model_objects (λ c, "Distributed" +:+ c) [("SGD", "keras.optimizers")]
    ["keras.optimizers"] (Some ["MyOpt"]) None) = Some "DistributedSGD".
Proof.
  destruct (load_model_precedence (λ c, "Distributed" +:+ c) [("SGD", "keras.optimizers")]
    ["keras.optimizers"] (Some ["MyOpt"]) None "sgd") as (_ & _ & H & _).
  - apply NoDup_singleton.
  - apply NoDup_nil. exact I.
  - apply NoDup_singleton.
  - apply (H ltac:(apply not_elem_of_nil) ltac:(set_solver) "SGD"); [left|reflexivity].
Defined.
End KerasDemo.
