(* ===== verification/CrossDevice.v ===== *)
(** * Cross-device reduction, [byteps/tensorflow/distribute/cross_device_ops.py]

    The division of a batch of gradients into packs
    ([MyCollectiveAllReduce._make_gradient_chunks], from the grouped values on),
    the reduction [BytepsCrossDeviceOps] makes, over the replicas of a worker
    first, then over the workers; and, in [Collective], values that are not
    distributed and the collective all-reduce. *)

From S2P Require Import Prelude PyStr Tensor TorchOps TorchCompression TFPlugin TFProofs.

Module Cdo.

(** [l[a:b]] for [0 <= a]. *)
Definition z_slice {A} (a b : Z) (l : list A) : list A := take (Z.to_nat (b - a)) (drop (Z.to_nat a) l).

(** [range(0, stop, step)] for a positive step; [fuel] bounds its length. *)
Fixpoint range_step (fuel : nat) (x stop step : Z) : list Z :=
  match fuel with
  | O => []
  | S n => if x <? stop then x :: range_step n (x + step) stop step else []
  end.

(** From [chunked_by_var] on. When [leftover_size] is positive so is
    [num_packs], and the step of the range is positive or the range empty. *)
Definition gradient_chunks {A} (chunked_by_var : list A) (num_packs : Z) : res (list (list A)) :=
  let n := Z.of_nat (length chunked_by_var) in
  if n <? num_packs then Ok [chunked_by_var]
  else if decide (num_packs = 0) then Raise ZeroDivisionError
  else
    let chunk_size := n `div` num_packs in
    let leftover_size := n - chunk_size * (num_packs - 1) in
    py_assert (0 <? leftover_size);;
    let starts := range_step (length chunked_by_var) 0 (n - leftover_size) chunk_size in
    Ok (map (λ x, z_slice x (x + chunk_size) chunked_by_var) starts ++
        [drop (Z.to_nat (n - leftover_size)) chunked_by_var]).

Section reduce.
Context {R : Type} `{Scalar R, !TorchLib R}.
Context (rt : Tf.runtime (R := R)).

Inductive reduce_op := SUM | MEAN | OTHER.

(** A replica's value and the device it is on. *)
Record replica : Type := Replica { r_device : string; r_value : Tf.tf_tensor (R := R) }.

(** [accumulation_fn] is [add_n]; TensorFlow names the results. *)
Context (sum_name mean_name : string → string).

Definition add_n (first : Tf.tf_tensor (R := R)) (rest : list (list R)) : Tf.tf_tensor :=
  Tf.TfTensor (sum_name (Tf.tf_name first)) (Tf.tf_dtype first) (foldl vadd (Tf.tf_data first) rest).
Definition divide_by_n (n : Z) (t : Tf.tf_tensor (R := R)) : Tf.tf_tensor :=
  Tf.TfTensor (mean_name (Tf.tf_name t)) (Tf.tf_dtype t) (map (λ x, s_div x (s_of_Z n)) (Tf.tf_data t)).

Definition _simple_reduce (all_values : list replica) (reduce_to_device : string) (op : reduce_op) :
    res (Tf.tf_tensor (R := R)) :=
  match all_values with
  | [] => Raise ValueError
  | v :: vs =>
      let count := Z.of_nat (length all_values) in
      if decide (count = 1 ∧ r_device v = reduce_to_device) then Ok (r_value v)
      else
        let reduced := add_n (r_value v) (map (λ r, Tf.tf_data (r_value r)) vs) in
        match op with
        | MEAN => Ok (divide_by_n count reduced)
        | SUM => Ok reduced
        | OTHER => Raise ValueError
        end
  end.

(** [destinations]: the devices it names; when there are none, those of the
    value itself. *)
Definition reduce_implementation (op : reduce_op) (per_replica_value : list replica)
    (destinations : list string) : M (Tf.tfs (R := R)) (Tf.tf_tensor (R := R)) :=
  let devices := match destinations with [] => map r_device per_replica_value | _ => destinations end in
  reduce_to_device ← lift (or_raise IndexError (head devices));
  reduced ← lift (_simple_reduce per_replica_value reduce_to_device op);
  if 1 <? Tf.rt_size rt then Tf._push_pull rt reduced "" None else mret reduced.
End reduce.

(** ** Packs *)

Lemma z_slice_app {A} (a b c : Z) (l : list A) :
  0 ≤ a ≤ b → b ≤ c → z_slice a b l ++ z_slice b c l = z_slice a c l.
Proof.
  intros Hab Hbc. unfold z_slice.
  replace (Z.to_nat (c - a)) with (Z.to_nat (b - a) + Z.to_nat (c - b))%nat by lia.
  rewrite <-take_take_drop, drop_drop. do 3 f_equal. lia.
Qed.

(** [k] full packs from [x] on. *)
Lemma range_step_mult (k fuel : nat) x step :
  1 ≤ step → (k ≤ fuel)%nat →
  range_step fuel x (x + Z.of_nat k * step) step = (λ i, x + Z.of_nat i * step) <$> seq 0 k.
Proof.
  intros Hs. revert fuel x. induction k as [|k IH]; intros fuel x Hf.
  { destruct fuel as [|fuel]; [done|]. cbn [range_step].
    destruct (Z.ltb_spec x (x + Z.of_nat 0 * step)); [lia|done]. }
  destruct fuel as [|fuel]; [lia|]. cbn [range_step].
  destruct (Z.ltb_spec x (x + Z.of_nat (S k) * step)); [|nia].
  replace (x + Z.of_nat (S k) * step) with ((x + step) + Z.of_nat k * step) by lia.
  rewrite IH by lia. cbn [seq fmap list_fmap]. f_equal; [lia|].
  rewrite <-fmap_S_seq, <-list_fmap_compose. apply list_fmap_ext. intros i j _. simpl. lia.
Qed.

Lemma concat_packs {A} (l : list A) (k : nat) step :
  1 ≤ step →
  concat ((λ x, z_slice x (x + step) l) <$> ((λ i, 0 + Z.of_nat i * step) <$> seq 0 k))
  = z_slice 0 (Z.of_nat k * step) l.
Proof.
  intros Hs. induction k as [|k IH]; [done|].
  rewrite seq_S, !fmap_app, concat_app, IH. cbn [fmap list_fmap concat]. rewrite app_nil_r.
  replace (0 + Z.of_nat (0 + k) * step) with (Z.of_nat k * step) by lia.
  rewrite z_slice_app by nia. f_equal. lia.
Qed.

(** Dividing a batch into packs loses nothing and keeps the order: the packs
    together are the batch; a batch of at least [num_packs] variables makes
    exactly [num_packs] packs, all but the last of the same size, and the last
    at least as large; a smaller batch is one pack. A number of packs below one
    is an error on any batch. *)
Theorem chunks_partition {A} (l : list A) num_packs :
  let size := Z.to_nat (Z.of_nat (length l) `div` num_packs) in
  (1 ≤ num_packs → ∃ chunks, gradient_chunks l num_packs = Ok chunks ∧ concat chunks = l ∧
     (Z.of_nat (length l) < num_packs → chunks = [l]) ∧
     (num_packs ≤ Z.of_nat (length l) → length chunks = Z.to_nat num_packs ∧
        ∃ front last, chunks = front ++ [last] ∧ Forall (λ c, length c = size) front ∧
          (1 ≤ size ≤ length last)%nat)) ∧
  (num_packs < 1 → ¬ is_ok (gradient_chunks l num_packs)).
Proof.
  intros size. unfold gradient_chunks. set (n := Z.of_nat (length l)) in *. split.
  - intros Hp. destruct (Z.ltb_spec n num_packs) as [Hlt|Hge].
    { exists [l]. split; [done|]. split; [apply app_nil_r|]. split; [done|lia]. }
    rewrite decide_False by lia. set (cs := n `div` num_packs) in *.
    assert (1 ≤ cs) as Hcs by (apply Z.div_le_lower_bound; lia).
    assert (num_packs * cs ≤ n) as Hn by (apply Z.mul_div_le; lia).
    destruct (Z.ltb_spec 0 (n - cs * (num_packs - 1))); [|nia].
    cbn [py_assert mbind res_bind].
    replace (n - (n - cs * (num_packs - 1))) with (0 + Z.of_nat (Z.to_nat (num_packs - 1)) * cs)
      by (rewrite Z2Nat.id by lia; lia).
    rewrite range_step_mult by lia. set (k := Z.to_nat (num_packs - 1)).
    eexists. split; [reflexivity|]. split; [|split; [lia|]].
    + rewrite concat_app. etrans; [apply (f_equal2 app); [apply (concat_packs l k cs Hcs)|reflexivity]|].
      cbn [concat]. rewrite app_nil_r. unfold z_slice. rewrite drop_0.
      replace (Z.to_nat (0 + Z.of_nat k * cs)) with (Z.to_nat (Z.of_nat k * cs - 0)) by lia.
      apply take_drop.
    + intros _. rewrite length_app, length_map, length_fmap, length_seq. simpl. split; [lia|].
      eexists _, _. split; [reflexivity|]. split.
      * apply Forall_fmap, Forall_fmap, Forall_forall. intros i Hi%elem_of_seq. simpl.
        unfold z_slice. rewrite length_take, length_drop. unfold size. fold cs. nia.
      * rewrite length_drop. unfold size. fold cs. nia.
  - intros Hp. destruct (Z.ltb_spec n num_packs); [lia|]. case_decide; [by intros []|].
    set (cs := n `div` num_packs).
    assert (n ≤ num_packs * cs) as Hn.
    { unfold cs. pose proof (Z.div_mod n num_packs ltac:(lia)).
      pose proof (Z.mod_neg_bound n num_packs ltac:(lia)). lia. }
    assert (cs ≤ 0) as Hcs by nia.
    destruct (Z.ltb_spec 0 (n - cs * (num_packs - 1))); [nia|]. by intros [].
Qed.

(** ** Reduction over replicas and workers *)
Section reduction.
Context {R : Type} `{Scalar R, !TorchLib R}.
Context (rt : Tf.runtime (R := R)) (sum_name mean_name : string → string).

(** What the replicas of this worker contribute together. *)
Definition local_sum (v : replica (R := R)) (vs : list replica) : list R :=
  foldl vadd (Tf.tf_data (r_value v)) (map (λ r, Tf.tf_data (r_value r)) vs).

(** The tensor this worker hands to the servers. *)
Definition contributed (op : reduce_op) (v : replica (R := R)) (vs : list replica) : Tf.tf_tensor :=
  let reduced := add_n sum_name (r_value v) (map (λ r, Tf.tf_data (r_value r)) vs) in
  match op with
  | MEAN => divide_by_n mean_name (Z.of_nat (length (v :: vs))) reduced
  | _ => reduced
  end.

(** With several replicas, the reduction sums their values, divides by the
    number of this worker's replicas when the mean is asked for, and, in a job of
    several workers, returns the sum of the workers' results: the mean is not
    divided by the number of workers. One exchange is made, under the key of the
    reduced tensor, and none when this is the only worker; an unknown reduction
    or an empty value is a [ValueError] or an [IndexError] and makes none. *)
Theorem reduce_spec op v v' vs dest s :
  let all := v :: v' :: vs in
  let t := contributed op v (v' :: vs) in
  let key := TfProofs.op_key rt "BytePSPushPull_" "" (Tf.tf_name t) in
  op ≠ OTHER → TfProofs.key_ok rt "BytePSPushPull_" "" (Tf.tf_name t) →
  reduce_implementation rt sum_name mean_name op all dest s =
    (if 1 <? Tf.rt_size rt
     then (Ok (Tf.set_data (Tf.reply rt key (Tf.tf_data t)) t),
           TfProofs.add_calls (TfProofs.exchange key) s)
     else (Ok t, s)) ∧
  Tf.tf_data t = match op with
                 | MEAN => map (λ x, s_div x (s_of_Z (Z.of_nat (length all)))) (local_sum v (v' :: vs))
                 | _ => local_sum v (v' :: vs)
                 end ∧
  reduce_implementation rt sum_name mean_name OTHER all dest s = (Raise ValueError, s) ∧
  ¬ is_ok (reduce_implementation rt sum_name mean_name op [] dest s).1 ∧
  (reduce_implementation rt sum_name mean_name op [] dest s).2 = s.
Proof.
  intros all t key Hop Hk.
  assert (∀ p, _simple_reduce sum_name mean_name all p op = Ok t) as Hr.
  { intros p. unfold _simple_reduce, all. rewrite decide_False by (intros [? _]; simpl in *; lia).
    by destruct op. }
  assert (∀ o, reduce_implementation rt sum_name mean_name o all dest s =
    (let '(p, rest) := match dest with [] => (r_device v, r_device v' :: map r_device vs) | d :: ds => (d, ds) end in
     reduced ← lift (_simple_reduce sum_name mean_name all p o);
     if 1 <? Tf.rt_size rt then Tf._push_pull rt reduced "" None else mret reduced) s) as Hd.
  { intros o. by destruct dest. }
  split_and!.
  - rewrite Hd. destruct dest; (erewrite bind_Ok by (unfold lift; by rewrite Hr));
      (case_match; [by rewrite TfProofs.push_pull_raw|done]).
  - by destruct op.
  - rewrite Hd. destruct dest; unfold _simple_reduce, all, mbind, M_bind, lift;
      (rewrite decide_False by (intros [? _]; simpl in *; lia)); done.
  - destruct dest; simpl; by intros [].
  - by destruct dest.
Qed.
End reduction.

(** ** Witnesses *)
Module CdoDemo.
#[local] Existing Instance CompressionDemo.lib.

Lemma chunks_partition_witness :
  gradient_chunks [1; 2; 3; 4; 5] 2 = Ok [[1; 2]; [3; 4; 5]] ∧ ¬ is_ok (gradient_chunks [1; 2] 0) ∧
  ∃ chunks, gradient_chunks [1; 2; 3; 4; 5] 2 = Ok chunks ∧ concat chunks = [1; 2; 3; 4; 5].
Proof.
  split; [vm_compute; reflexivity|]. split; [apply (chunks_partition [1; 2] 0); lia|].
  destruct (proj1 (chunks_partition [1; 2; 3; 4; 5] 2) ltac:(lia)) as (c & E & Ec & _). by exists c.
Defined.

Definition rep (l : list Z) : replica (R := Z) := Replica "gpu:0" (Tf.TfTensor "g:0" float32 l).

(** Two replicas here; the other worker contributes [[5; 6]]. *)
Lemma reduce_spec_witness :
  (reduce_implementation (TfProofs.TfDemo.rt0 false) id id MEAN [rep [1; 2]; rep [3; 4]] ["cpu:0"]
     TfProofs.TfDemo.s0).1 = Ok (Tf.TfTensor "g:0" float32 [7; 9]).
Proof.
  destruct (reduce_spec (TfProofs.TfDemo.rt0 false) id id MEAN (rep [1; 2]) (rep [3; 4]) [] ["cpu:0"]
    TfProofs.TfDemo.s0) as [E _]; [discriminate|split; vm_compute; [discriminate|exact I]|].
  rewrite E. vm_compute. reflexivity.
Defined.
End CdoDemo.
End Cdo.

(** * Values that are not distributed, and the collective all-reduce

    [reduce_non_distributed_value] with its helpers: what a reduction of a value that
    is the same on all replicas returns, by cases. [MyCollectiveAllReduce] uses names
    that its module does not define: it raises [NameError] for every batch. *)
Module Collective.
Import Cdo.

(** ** Destinations *)

(** What can be passed as [destinations]: an object with a device map of its own, of
    which [devices] are those of its logical device; a variable or tensor on a device;
    a device string; anything else. *)
Inductive destination : Type :=
  | DValues (devices : list string)
  | DOnDevice (device : string)
  | DString (device : string)
  | DOther (truthy : bool).

Definition check_destinations (d : destination) : bool :=
  match d with
  | DValues _ => true
  | DOnDevice device | DString device => bool_decide (device ≠ "")
  | DOther b => b
  end.

Definition validate_destinations (d : destination) : res () :=
  match d with
  | DOther _ => Raise ValueError
  | _ => if check_destinations d then Ok () else Raise ValueError
  end.

Section values.
(** A Python number or a tensor; TensorFlow makes device strings canonical. *)
Context {V : Type} (resolve : string → string).

(** [destinations.device] of an object without one is an error. *)
Definition devices_of (d : destination) : res (list string) :=
  match d with
  | DValues devices => Ok devices
  | DString device => Ok [resolve device]
  | DOnDevice device => Ok [device]
  | DOther _ => Raise AttributeError
  end.

(** A value on a device, or on several as a [Mirrored]. *)
Inductive placed_value : Type := Copy (device : string) (v : V) | Mirrored (copies : list (string * V)).

Definition simple_broadcast (v : V) (d : destination) (always_mirrored : bool) : res placed_value :=
  devices ← devices_of d;
  match devices with
  | [device] => if always_mirrored then Ok (Mirrored [(device, v)]) else Ok (Copy device v)
  | _ => Ok (Mirrored ((λ device, (device, v)) <$> devices))
  end.

(** ** [reduce_non_distributed_value]

    [zero] tells whether the value is a number equal to 0. *)
Inductive argument : Type := Distributed | Same (v : V) (zero : bool).
Inductive reduced : Type := Zero | Unchanged (v : V) | Placed (p : placed_value).

Definition reduce_non_distributed_value (op : reduce_op) (num_replicas_in_graph : Z) (value : argument)
    (d : destination) : res reduced :=
  match value with
  | Distributed => Raise ValueError
  | Same v zero =>
      if zero : bool then Ok Zero
      else
        match op with
        | MEAN => Ok (Unchanged v)
        | _ =>
            validate_destinations d;;
            if decide (num_replicas_in_graph ≠ 1) then Raise ValueError
            else Placed <$> simple_broadcast v d false
        end
  end.

(** A value that is the same everywhere is its own mean; a sum of it is a copy on every
    device that the destinations name, for one replica, and an error for several. A
    result is always the value itself, wherever it is placed. *)
Theorem same_value_reduced v n d :
  reduce_non_distributed_value MEAN n (Same v false) d = Ok (Unchanged v) ∧
  (n ≠ 1 → reduce_non_distributed_value SUM n (Same v false) d = Raise ValueError) ∧
  (∀ devices, devices_of d = Ok devices → check_destinations d = true →
     ∃ p, reduce_non_distributed_value SUM 1 (Same v false) d = Ok (Placed p) ∧
       p = match devices with [device] => Copy device v | _ => Mirrored ((λ device, (device, v)) <$> devices) end).
Proof.
  split_and!; [done|..].
  - intros Hn. unfold reduce_non_distributed_value. destruct (validate_destinations d) as [[]|e] eqn:E; cbn [mbind res_bind].
    + by rewrite decide_True.
    + unfold validate_destinations in E. destruct d; repeat case_match; congruence.
  - intros devices Hd Hc. eexists. split; [|reflexivity]. unfold reduce_non_distributed_value.
    assert (validate_destinations d = Ok ()) as -> by (unfold validate_destinations; rewrite Hc; by destruct d).
    cbn [mbind res_bind]. rewrite decide_False by lia. unfold simple_broadcast. rewrite Hd. cbn [mbind res_bind].
    by destruct devices as [|? []].
Qed.
End values.

(** ** [MyCollectiveAllReduce] *)

Inductive CollectiveCommunication := AUTO | RING | NCCL.
Record collective : Type := MyCollectiveAllReduce {
  _num_workers : Z; _num_gpus_per_worker : Z; _num_packs : Z; _communication : CollectiveCommunication
}.

Section collective.
(** A value of all replicas, whether it is of [IndexedSlices]; and the devices of its
    replicas. *)
Context {V : Type} (is_sparse : V → bool).

(** [_group_value_by_device], [_all_devices_match], [_ungroup_and_make_mirrored],
    [def_function] and [_context] are not defined in the module. *)
Definition undefined_name {A} : res A := Raise NameError.

(** [chunked_by_var] is what [zip] makes of the values grouped by device. *)
Definition _make_gradient_chunks (per_replica_values : list V) (num_packs : Z) : res (list (list (list V))) :=
  chunked_by_var ← undefined_name (A := list (list V));
  gradient_chunks chunked_by_var num_packs.

(** The all-reduce of a chunk is [my_build_collective_reduce]. *)
Definition my_collective_reduce : res V := undefined_name.
Definition my_all_reduce (t : V) (group_size : Z) : res V :=
  if decide (group_size < 1) then Raise ValueError else my_collective_reduce.
Definition my_build_collective_reduce (eager : bool) (input_tensors : list V) (num_workers : Z) : res (list V) :=
  let group_size := Z.of_nat (length input_tensors) * num_workers in
  if decide (group_size < 2) then Ok input_tensors
  else if eager then undefined_name
  else mapM (λ t, my_all_reduce t group_size) input_tensors.

(** What a batch of values becomes, dense or sparse: chunks, a collective operation for
    each, and the results put together again. *)
Definition _do_batch_all_reduce (reduce_chunk : list V → res (list V)) (c : collective) (per_replica_values : list V) :
    res (list V) :=
  chunked_gv ← _make_gradient_chunks per_replica_values (_num_packs c);
  reduced ← mapM reduce_chunk (concat chunked_gv);
  undefined_name.

(** [gather] stands for the gathers of values and indices. *)
Definition _batch_all_reduce (eager : bool) (gather : list V → res (list V))
    (stitch : list V → list V → list V) (c : collective) (per_replica_values : list V) : res (list V) :=
  let dense := filter (λ v, is_sparse v = false) per_replica_values in
  let sparse := filter (λ v, is_sparse v = true) per_replica_values in
  dense_results ← (match dense with
    | [] => Ok []
    | _ => _do_batch_all_reduce (λ l, my_build_collective_reduce eager l (_num_workers c)) c dense
    end);
  sparse_results ← (match sparse with [] => Ok [] | _ => _do_batch_all_reduce gather c sparse end);
  Ok (stitch dense_results sparse_results).

(** [place] stands for what [reduce_implementation] does with the first result. *)
Definition collective_reduce_implementation (eager : bool) (gather : list V → res (list V))
    (stitch : list V → list V → list V) (place : V → list string → res V) (c : collective)
    (per_replica_value : V) (devices : list string) : res V :=
  all_reduced ← _batch_all_reduce eager gather stitch c [per_replica_value];
  v ← or_raise IndexError (head all_reduced);
  place v devices.

Definition batch_reduce_implementation (eager : bool) (gather : list V → res (list V))
    (stitch : list V → list V → list V) (place : V → list string → res V) (c : collective)
    (pairs : list (V * list string)) : res (list V) :=
  all_devices_match ← undefined_name (A := bool);
  if all_devices_match : bool then _batch_all_reduce eager gather stitch c pairs.*1
  else mapM (λ p, collective_reduce_implementation eager gather stitch place c p.1 p.2) pairs.

(** No reduction with this class ever succeeds, whatever the configuration: each value,
    and each batch, even an empty one, ends in a [NameError]; and so does the operation
    it is built from, on two tensors or more. *)
Theorem collective_never_reduces eager gather stitch place c v devices pairs l :
  collective_reduce_implementation eager gather stitch place c v devices = Raise NameError ∧
  batch_reduce_implementation eager gather stitch place c pairs = Raise NameError ∧
  (2 ≤ Z.of_nat (length l) * _num_workers c → my_build_collective_reduce eager l (_num_workers c) = Raise NameError).
Proof.
  split_and!; [|done|].
  - unfold collective_reduce_implementation, _batch_all_reduce. rewrite !filter_cons, !filter_nil.
    destruct (is_sparse v); done.
  - intros Hl. unfold my_build_collective_reduce. rewrite decide_False by lia. destruct eager; [done|].
    destruct l as [|t l]; [cbn in Hl; lia|].
    assert (my_all_reduce t (Z.of_nat (length (t :: l)) * _num_workers c) = Raise NameError) as E
      by (unfold my_all_reduce; by rewrite decide_False by lia).
    unfold mapM; fold (mapM (M := res) (A := V) (B := V)). by rewrite E.
Qed.
End collective.

(** ** [BytepsAllReduce.__init__] *)
Definition byteps_all_reduce_init (num_packs : Z) : res Z :=
  if decide (num_packs < 0) then Raise ValueError else Ok num_packs.
End Collective.
