(* ===== verification/Rabit.v ===== *)
(** * Topology of the rabit tracker, [3rdparty/ps-lite/tracker/tracker.py]

    [RabitTracker.get_neighbor] to [get_link_map]: a binary tree over the
    workers, a ring that visits the tree depth first, and the renaming of ranks
    that puts the ring in order. The source is Python 2: [/] of integers rounds
    down, and exceeding the recursion limit is a [RuntimeError]. *)

From stdpp Require Import list_numbers.
From S2P Require Import Prelude.

(** ** Loops that may raise *)
Fixpoint fold_res {A B} (f : B → A → res A) (l : list B) (a : A) : res A :=
  match l with
  | [] => Ok a
  | x :: l' => a' ← f x a; fold_res f l' a'
  end.

(** Loop rule: an invariant indexed by what has been processed. *)
Lemma fold_res_inv {A B} (f : B → A → res A) (I : list B → A → Prop) l a :
  I [] a →
  (∀ dn x rest a, l = dn ++ x :: rest → I dn a → ∃ a', f x a = Ok a' ∧ I (dn ++ [x]) a') →
  ∃ a', fold_res f l a = Ok a' ∧ I l a'.
Proof.
  intros H0 Hstep.
  cut (∀ todo dn a, l = dn ++ todo → I dn a → ∃ a', fold_res f todo a = Ok a' ∧ I l a').
  { intros H. by apply (H l []). }
  induction todo as [|x todo IH]; intros dn b Hl Hi.
  { rewrite app_nil_r in Hl. subst. by exists b. }
  destruct (Hstep dn x todo b Hl Hi) as (b1 & Hb & Hi1). simpl. rewrite Hb. simpl.
  apply (IH (dn ++ [x])); [|done]. by rewrite <-app_assoc.
Qed.

(** [l[i]] for [0 <= i]. *)
Definition nth_res {A} (l : list A) (i : Z) : res A := or_raise IndexError (l !! Z.to_nat i).

(** The order in which Python enumerates a set of integers. *)
Class IterOrder : Type := set_order : gset Z → list Z.
Class IterOrderLaws `{IterOrder} : Prop := set_order_elements X : set_order X ≡ₚ elements X.

Module Rabit.
Section topology.
Context `{IterOrder}.
(** The interpreter's recursion limit. *)
Context (recursion_limit : nat).

Definition get_neighbor (rank nslave : Z) : list Z :=
  let rank := rank + 1 in
  (if 1 <? rank then [rank `div` 2 - 1] else []) ++
  (if rank * 2 - 1 <? nslave then [rank * 2 - 1] else []) ++
  (if rank * 2 <? nslave then [rank * 2] else []).

Definition get_tree (nslave : Z) : gmap Z (list Z) * gmap Z Z :=
  foldl (λ '(tree_map, parent_map) r,
      (<[r := get_neighbor r nslave]> tree_map, <[r := (r + 1) `div` 2 - 1]> parent_map))
    (∅, ∅) (seqZ 0 nslave).

(** The loop over the children: the list of the last one is reversed. *)
Fixpoint share_children (find : Z → res (list Z)) (len cnt : nat) (rlst vs : list Z) : res (list Z) :=
  match vs with
  | [] => Ok rlst
  | v :: vs' =>
      vlst ← find v;
      let cnt := S cnt in
      share_children find len cnt (rlst ++ if decide (cnt = len) then reverse vlst else vlst) vs'
  end.

Fixpoint find_share_ring (depth : nat) (tree_map : gmap Z (list Z)) (parent_map : gmap Z Z) (r : Z) :
    res (list Z) :=
  match depth with
  | O => Raise RuntimeError
  | S depth' =>
      nset ← or_raise KeyError (tree_map !! r);
      par ← or_raise KeyError (parent_map !! r);
      let cset := (list_to_set nset : gset Z) ∖ {[par]} in
      if decide (size cset = 0%nat) then Ok [r]
      else
        share_children (find_share_ring depth' tree_map parent_map) (size cset) 0%nat [r] (set_order cset)
  end.

Definition get_ring (tree_map : gmap Z (list Z)) (parent_map : gmap Z Z) : res (gmap Z (Z * Z)) :=
  p0 ← or_raise KeyError (parent_map !! 0);
  py_assert (bool_decide (p0 = -1));;
  rlst ← find_share_ring recursion_limit tree_map parent_map 0;
  let nslave := Z.of_nat (size tree_map) in
  py_assert (bool_decide (Z.of_nat (length rlst) = nslave));;
  fold_res (λ r ring_map,
      k ← nth_res rlst r;
      rprev ← nth_res rlst ((r + nslave - 1) `mod` nslave);
      rnext ← nth_res rlst ((r + 1) `mod` nslave);
      Ok (<[k := (rprev, rnext)]> ring_map)) (seqZ 0 nslave) ∅.

(** The loops that rename the keys of a dictionary [m] with [rmap]. *)
Definition relabel {V W} (rmap : gmap Z Z) (value : Z → V → res W) (m : gmap Z V) : res (gmap Z W) :=
  fold_res (λ '(k, v) m_,
      k_ ← or_raise KeyError (rmap !! k);
      v_ ← value k v;
      Ok (<[k_ := v_]> m_)) (map_to_list m) ∅.

Definition rename (rmap : gmap Z Z) (k : Z) : res Z := or_raise KeyError (rmap !! k).

(** [k = ring_map[k][1]; rmap[k] = i + 1] *)
Definition number_next (ring_map : gmap Z (Z * Z)) (i : Z) (st : Z * gmap Z Z) : res (Z * gmap Z Z) :=
  e ← or_raise KeyError (ring_map !! st.1);
  Ok (e.2, <[e.2 := i + 1]> st.2).

Definition get_link_map (nslave : Z) : res (gmap Z (list Z) * gmap Z Z * gmap Z (Z * Z)) :=
  let '(tree_map, parent_map) := get_tree nslave in
  ring_map ← get_ring tree_map parent_map;
  '(_, rmap) ← fold_res (number_next ring_map) (seqZ 0 (nslave - 1)) (0, {[0 := 0]});
  ring_map_ ← relabel rmap (λ _ (v : Z * Z), a ← rename rmap v.1; b ← rename rmap v.2; Ok (a, b)) ring_map;
  tree_map_ ← relabel rmap (λ _ v, mapM (rename rmap) v) tree_map;
  parent_map_ ← relabel rmap (λ k v, if decide (k ≠ 0) then rename rmap v else Ok (-1)) parent_map;
  Ok (tree_map_, parent_map_, ring_map_).
End topology.
End Rabit.
