(* ===== verification/RabitProofs.v ===== *)
(** * The links the rabit tracker hands out form a ring and a tree

    Correctness of [Rabit]: [find_share_ring] visits every worker once,
    [get_ring] closes the visit to a cycle, and [get_link_map] renames ranks so
    that the cycle is in order and the tree stays a tree. *)

From stdpp Require Import list_numbers.
From S2P Require Import Prelude Rabit.

Module RabitProofs.
Import Rabit.

(** ** The binary tree *)

(** [x] is [r] or below [r] in the infinite binary tree. *)
Definition desc (r x : Z) : Prop := ∃ k : nat, (x + 1) `div` 2 ^ Z.of_nat k = r + 1.

Lemma half_cases a b : a `div` 2 = b → a = 2 * b ∨ a = 2 * b + 1.
Proof. intros. pose proof (Z.div_mod a 2 ltac:(lia)). pose proof (Z.mod_pos_bound a 2). lia. Qed.

Lemma half_odd b : (2 * b + 1) `div` 2 = b.
Proof. by rewrite Z.add_comm, Z.mul_comm, Z.div_add. Qed.

Lemma half_even b : (2 * b) `div` 2 = b.
Proof. by rewrite Z.mul_comm, Z.div_mul. Qed.

Lemma div_pow_S a k : a `div` 2 ^ Z.of_nat (S k) = (a `div` 2 ^ Z.of_nat k) `div` 2.
Proof. rewrite Nat2Z.inj_succ, Z.pow_succ_r, Z.mul_comm, Z.div_div; lia. Qed.

Lemma div_pow_le a k : 0 ≤ a → a `div` 2 ^ Z.of_nat k ≤ a.
Proof.
  intros Ha. apply Z.div_le_upper_bound; [lia|]. assert (1 ≤ 2 ^ Z.of_nat k) by lia. nia.
Qed.

Lemma desc_refl r : desc r r.
Proof. exists 0%nat. by rewrite Z.div_1_r. Qed.

Lemma desc_ge r x : 0 ≤ x → desc r x → r ≤ x.
Proof. intros Hx [k E]. pose proof (div_pow_le (x + 1) k). lia. Qed.

Lemma desc_step r x : desc r x ↔ x = r ∨ desc (2 * r + 1) x ∨ desc (2 * r + 2) x.
Proof.
  split.
  - intros [[|k] E]; [rewrite Z.div_1_r in E; left; lia|].
    rewrite div_pow_S in E. apply half_cases in E as [E|E]; right; [left|right]; exists k; lia.
  - intros [->|[[k E]|[k E]]]; [apply desc_refl|..]; exists (S k); rewrite div_pow_S, E.
    + replace (2 * r + 1 + 1) with (2 * (r + 1)) by lia. apply half_even.
    + replace (2 * r + 2 + 1) with (2 * (r + 1) + 1) by lia. apply half_odd.
Qed.

Lemma desc_trans a b x : desc a b → desc b x → desc a x.
Proof.
  intros [j Hj] [k Hk]. exists (k + j)%nat.
  rewrite Nat2Z.inj_add, Z.pow_add_r, <-Z.div_div by lia. by rewrite Hk.
Qed.

(** Ancestors of one node are comparable. *)
Lemma desc_linear a b x : desc a x → desc b x → desc a b ∨ desc b a.
Proof.
  intros [j Hj] [k Hk]. destruct (decide (j ≤ k)%nat) as [Hle|Hle].
  - right. exists (k - j)%nat. rewrite <-Hj, <-Hk. rewrite Z.div_div by lia.
    rewrite <-Z.pow_add_r by lia. do 2 f_equal. lia.
  - left. exists (j - k)%nat. rewrite <-Hj, <-Hk. rewrite Z.div_div by lia.
    rewrite <-Z.pow_add_r by lia. do 2 f_equal. lia.
Qed.

Lemma desc_children_disjoint r x : 0 ≤ r → desc (2 * r + 1) x → desc (2 * r + 2) x → False.
Proof.
  intros Hr H1 H2. destruct (desc_linear _ _ _ H1 H2) as [[k E]|[k E]].
  - destruct k as [|k]; [rewrite Z.div_1_r in E; lia|]. rewrite Nat2Z.inj_succ, Z.pow_succ_r in E by lia.
    rewrite <-Z.div_div in E by lia. replace (2 * r + 2 + 1) with (2 * (r + 1) + 1) in E by lia.
    rewrite half_odd in E. pose proof (div_pow_le (r + 1) k). lia.
  - pose proof (div_pow_le (2 * r + 1 + 1) k). lia.
Qed.

Lemma desc_root x : 0 ≤ x → desc 0 x.
Proof.
  intros Hx. exists (Z.to_nat (Z.log2 (x + 1))). rewrite Z2Nat.id by apply Z.log2_nonneg.
  pose proof (Z.log2_spec (x + 1) ltac:(lia)) as [Hl Hu]. rewrite Z.pow_succ_r in Hu by apply Z.log2_nonneg.
  symmetry. apply (Z.div_unique_pos _ _ _ (x + 1 - 2 ^ Z.log2 (x + 1))); lia.
Qed.

(** ** [get_tree] *)

Lemma get_tree_lookup n r :
  (get_tree n).1 !! r = (if decide (0 ≤ r < n) then Some (get_neighbor r n) else None) ∧
  (get_tree n).2 !! r = (if decide (0 ≤ r < n) then Some ((r + 1) `div` 2 - 1) else None).
Proof.
  unfold get_tree.
  cut (∀ l (t : gmap Z (list Z)) (p : gmap Z Z), let m := foldl (λ '(tree_map, parent_map) r,
      (<[r := get_neighbor r n]> tree_map, <[r := (r + 1) `div` 2 - 1]> parent_map)) (t, p) l in
    m.1 !! r = (if decide (r ∈ l) then Some (get_neighbor r n) else t !! r) ∧
    m.2 !! r = (if decide (r ∈ l) then Some ((r + 1) `div` 2 - 1) else p !! r)).
  { intros Hl. destruct (Hl (seqZ 0 n) ∅ ∅) as [-> ->].
    by rewrite !(decide_ext (r ∈ seqZ 0 n) (0 ≤ r < n)) by (rewrite elem_of_seqZ; lia). }
  induction l as [|x l IH]; intros t p; cbn [foldl].
  { by rewrite !decide_False by apply not_elem_of_nil. }
  destruct (IH (<[x := get_neighbor x n]> t) (<[x := (x + 1) `div` 2 - 1]> p)) as [-> ->].
  destruct (decide (r ∈ l)); [by rewrite !decide_True by (by right)|].
  destruct (decide (r = x)) as [->|Hne].
  - by rewrite !decide_True, !lookup_insert_eq by left.
  - by rewrite !decide_False, !lookup_insert_ne by (by rewrite ?elem_of_cons; naive_solver).
Qed.

Lemma get_tree_size n : 0 ≤ n → Z.of_nat (size (get_tree n).1) = n.
Proof.
  intros Hn. assert (dom (get_tree n).1 = list_to_set (seqZ 0 n) :> gset Z) as Hd.
  { apply set_eq. intros r. rewrite elem_of_dom, elem_of_list_to_set, elem_of_seqZ.
    rewrite (proj1 (get_tree_lookup n r)). case_decide; rewrite <-?not_eq_None_Some; naive_solver lia. }
  rewrite <-size_dom, Hd, size_list_to_set by apply NoDup_seqZ. rewrite length_seqZ. lia.
Qed.

Lemma elem_of_neighbor r n v :
  0 ≤ r → v ∈ get_neighbor r n ↔
    (0 < r ∧ v = (r + 1) `div` 2 - 1) ∨ (v < n ∧ (v = 2 * r + 1 ∨ v = 2 * r + 2)).
Proof.
  intros Hr. unfold get_neighbor. rewrite !elem_of_app.
  destruct (Z.ltb_spec 1 (r + 1)), (Z.ltb_spec ((r + 1) * 2 - 1) n), (Z.ltb_spec ((r + 1) * 2) n);
    rewrite ?list_elem_of_singleton, ?elem_of_nil; intuition lia.
Qed.

Lemma neighbor_NoDup r n : 0 ≤ r → NoDup (get_neighbor r n) ∧ (length (get_neighbor r n) ≤ 3)%nat.
Proof.
  intros Hr. assert ((r + 1) `div` 2 ≤ r + 1) by (apply Z.div_le_upper_bound; lia).
  unfold get_neighbor.
  destruct (1 <? r + 1), ((r + 1) * 2 - 1 <? n), ((r + 1) * 2 <? n); simpl; split; try lia;
    repeat (apply NoDup_cons; split; [rewrite ?elem_of_cons, ?elem_of_nil; lia|]); apply NoDup_nil; done.
Qed.

(** ** [find_share_ring] *)
Section ring.
Context `{IterOrderLaws}.

Definition children (r n : Z) : gset Z := filter (λ v, v < n) {[2 * r + 1; 2 * r + 2]}.

Lemma elem_of_children r n v : v ∈ children r n ↔ v < n ∧ (v = 2 * r + 1 ∨ v = 2 * r + 2).
Proof. unfold children. set_solver. Qed.

Lemma cset_children r n :
  0 ≤ r → list_to_set (get_neighbor r n) ∖ {[(r + 1) `div` 2 - 1]} = children r n.
Proof.
  intros Hr. assert ((r + 1) `div` 2 ≤ r + 1) by (apply Z.div_le_upper_bound; lia).
  apply set_eq. intros v.
  rewrite elem_of_difference, elem_of_list_to_set, elem_of_singleton, elem_of_neighbor by done.
  rewrite elem_of_children. intuition lia.
Qed.

Lemma desc_children r n x :
  0 ≤ r < n → 0 ≤ x < n ∧ desc r x ↔ x = r ∨ ∃ v, v ∈ children r n ∧ 0 ≤ x < n ∧ desc v x.
Proof.
  intros Hr. rewrite desc_step. setoid_rewrite elem_of_children. split.
  - intros [Hx [->|[Hv|Hv]]]; [by left|..]; right; eexists; (split; [|by split]);
      (split; [apply desc_ge in Hv; lia|lia]).
  - intros [->|(v & [Hv [->| ->]] & Hx & Hdx)]; auto 6.
Qed.

(** The loop over the children appends a permutation of their lists. *)
Lemma share_loop (find : Z → res (list Z)) (f : Z → list Z) last cnt rlst vs :
  (∀ v, v ∈ vs → find v = Ok (f v)) →
  ∃ l, share_children find last cnt rlst vs = Ok (rlst ++ l) ∧ l ≡ₚ vs ≫= f.
Proof.
  revert cnt rlst. induction vs as [|v vs IH]; intros cnt rlst Hf.
  { exists []. by rewrite app_nil_r. }
  cbn [share_children]. rewrite (Hf v) by left. cbn [mbind res_bind].
  destruct (IH (S cnt) (rlst ++ if decide (S cnt = last) then reverse (f v) else f v)) as (l & E & Hl).
  { intros u Hu. apply Hf. by right. }
  rewrite E, <-app_assoc. eexists. split; [done|]. cbn [mbind list_bind]. rewrite Hl.
  apply Permutation_app_tail. case_decide; [apply reverse_Permutation|done].
Qed.

(** Below [r] the recursion finds every descendant once, [r] first. *)
Lemma share_ring_ok n d r :
  0 ≤ r < n → n < (r + 1) * 2 ^ Z.of_nat d →
  ∃ l, find_share_ring d (get_tree n).1 (get_tree n).2 r = Ok (r :: l) ∧ NoDup (r :: l) ∧
    ∀ x, x ∈ r :: l ↔ 0 ≤ x < n ∧ desc r x.
Proof.
  revert r. induction d as [|d IH]; intros r Hr Hd; [lia|].
  cbn [find_share_ring]. destruct (get_tree_lookup n r) as [-> ->]. rewrite !decide_True by done.
  cbn [or_raise mbind res_bind]. rewrite cset_children by lia.
  assert (∀ v, v ∈ children r n → ∃ l, find_share_ring d (get_tree n).1 (get_tree n).2 v = Ok l ∧
    NoDup l ∧ ∀ x, x ∈ l ↔ 0 ≤ x < n ∧ desc v x) as Hc.
  { intros v Hv%elem_of_children. destruct (IH v) as (l & E & Hnd & Hl); [lia| |by exists (v :: l)].
    rewrite Nat2Z.inj_succ, Z.pow_succ_r in Hd by lia. nia. }
  case_decide as Hs.
  - exists []. split; [done|]. split; [apply NoDup_singleton|]. intros x. rewrite desc_children by lia.
    apply size_empty_inv in Hs. set_solver.
  - set (f v := match find_share_ring d (get_tree n).1 (get_tree n).2 v with Ok l => l | _ => [] end).
    assert (∀ v, v ∈ children r n → find_share_ring d (get_tree n).1 (get_tree n).2 v = Ok (f v) ∧
      NoDup (f v) ∧ ∀ x, x ∈ f v ↔ 0 ≤ x < n ∧ desc v x) as Hf.
    { intros v Hv. destruct (Hc v Hv) as (l & E & Hl). unfold f. by rewrite E. }
    assert (∀ v x, v ∈ children r n → x ∈ f v ↔ 0 ≤ x < n ∧ desc v x) as Hfx by (intros; by apply Hf).
    assert (∀ v, v ∈ set_order (children r n) ↔ v ∈ children r n) as Ho.
    { intros v. by rewrite set_order_elements, elem_of_elements. }
    destruct (share_loop (find_share_ring d (get_tree n).1 (get_tree n).2) f (size (children r n)) 0 [r]
      (set_order (children r n))) as (l & E & Hl).
    { intros v Hv%Ho. by apply Hf. }
    exists l. split; [exact E|]. clear E. split.
    + apply NoDup_cons. split.
      * rewrite Hl, list_elem_of_bind. intros (v & Hin & Hv%Ho).
        apply (Hfx v r Hv) in Hin as [_ Hdv]. apply desc_ge in Hdv; [|lia]. apply elem_of_children in Hv. lia.
      * rewrite Hl. apply NoDup_bind.
        -- intros v1 v2 x Hv1%Ho Hv2%Ho D1 D2. apply Hfx in D1 as [_ D1], D2 as [_ D2]; [|done|done].
           apply elem_of_children in Hv1 as [_ [->| ->]], Hv2 as [_ [->| ->]]; try done;
             exfalso; by eapply (desc_children_disjoint r x); [lia|..].
        -- intros v Hv%Ho. by apply Hf.
        -- rewrite set_order_elements. apply NoDup_elements.
    + intros x. rewrite elem_of_cons, desc_children, Hl by lia.
      rewrite list_elem_of_bind.
      setoid_rewrite Ho. split; (intros [?|(v & H1 & H2)]; [by left|right; exists v]).
      * split; [done|]. by apply Hfx.
      * split; [by apply Hfx|done].
Qed.

Lemma visit_all n d :
  1 ≤ n < 2 ^ Z.of_nat d →
  ∃ rlst, find_share_ring d (get_tree n).1 (get_tree n).2 0 = Ok (0 :: rlst) ∧ 0 :: rlst ≡ₚ seqZ 0 n.
Proof.
  intros Hn. destruct (share_ring_ok n d 0) as (l & E & Hnd & Hl); [lia..|].
  exists l. split; [done|]. apply NoDup_Permutation; [done|apply NoDup_seqZ|].
  intros x. rewrite Hl, elem_of_seqZ. split; [lia|]. intros Hx. split; [lia|]. apply desc_root. lia.
Qed.
End ring.

(** ** Dictionaries filled by a loop *)

Lemma fold_insert {B W} (step : B → gmap Z W → res (gmap Z W)) (σ : B → Z) (γ : B → W) l :
  (∀ x m, x ∈ l → step x m = Ok (<[σ x := γ x]> m)) →
  (∀ x y, x ∈ l → y ∈ l → σ x = σ y → γ x = γ y) →
  ∃ m, fold_res step l ∅ = Ok m ∧ (∀ x, x ∈ l → m !! σ x = Some (γ x)) ∧
    ∀ k w, m !! k = Some w → ∃ x, x ∈ l ∧ k = σ x ∧ w = γ x.
Proof.
  intros Hs Hinj.
  destruct (fold_res_inv step (λ dn m, (∀ x, x ∈ dn → m !! σ x = Some (γ x)) ∧
    ∀ k w, m !! k = Some w → ∃ x, x ∈ dn ∧ k = σ x ∧ w = γ x) l ∅) as (m & E & Hm); [| |by exists m].
  { split; [by intros ? ?%not_elem_of_nil|]. intros k w. by rewrite lookup_empty. }
  intros dn x rest m Hl [H1 H2]. exists (<[σ x := γ x]> m).
  split; [apply Hs; rewrite Hl; set_solver|]. split.
  - intros y Hy. destruct (decide (σ y = σ x)) as [Heq|Hne].
    + rewrite Heq, lookup_insert_eq. f_equal. apply Hinj; rewrite ?Hl; set_solver.
    + rewrite lookup_insert_ne by done. apply H1. set_solver.
  - intros k w. destruct (decide (k = σ x)) as [->|Hne].
    + rewrite lookup_insert_eq. intros [= <-]. exists x. set_solver.
    + rewrite lookup_insert_ne by done. intros (y & Hy & ->  & ->)%H2. exists y. set_solver.
Qed.

Lemma relabel_ok {V W} (rmap : gmap Z Z) (rm : Z → Z) value (γ : Z → V → W) (m : gmap Z V) :
  (∀ k v, m !! k = Some v → rmap !! k = Some (rm k) ∧ value k v = Ok (γ k v)) →
  (∀ k k', is_Some (m !! k) → is_Some (m !! k') → rm k = rm k' → k = k') →
  ∃ m', relabel rmap value m = Ok m' ∧ (∀ k v, m !! k = Some v → m' !! rm k = Some (γ k v)) ∧
    ∀ j w, m' !! j = Some w → ∃ k v, m !! k = Some v ∧ j = rm k ∧ w = γ k v.
Proof.
  intros Hv Hinj.
  destruct (fold_insert (λ '(k, v) m_, k_ ← or_raise KeyError (rmap !! k); v_ ← value k v;
    Ok (<[k_ := v_]> m_)) (λ kv, rm kv.1) (λ kv, γ kv.1 kv.2) (map_to_list m)) as (m' & E & H1 & H2).
  - intros [k v] m' [-> Ev]%elem_of_map_to_list%Hv. simpl. by rewrite Ev.
  - intros [k v] [k' v'] H1%elem_of_map_to_list H2%elem_of_map_to_list Heq. simpl in *.
    assert (k = k') as -> by (by apply Hinj; eauto). congruence.
  - exists m'. split; [exact E|]. split.
    + intros k v Hk. apply (H1 (k, v)). by apply elem_of_map_to_list.
    + intros j w ([k v] & Hk%elem_of_map_to_list & -> & ->)%H2. by exists k, v.
Qed.

(** ** The ring *)
Section links.
Context (n : Z) (Hn : 1 ≤ n).

(** [rlst[i]] *)
Definition nthz (l : list Z) (i : Z) : Z := l !!! Z.to_nat i.

Lemma nth_res_ok l i : 0 ≤ i < Z.of_nat (length l) → nth_res l i = Ok (nthz l i).
Proof.
  intros Hi. unfold nth_res, nthz.
  destruct (lookup_lt_is_Some_2 l (Z.to_nat i)) as [x Hx]; [lia|].
  by rewrite (list_lookup_total_correct _ _ _ Hx), Hx.
Qed.

Lemma nthz_inj l i j :
  NoDup l → 0 ≤ i < Z.of_nat (length l) → 0 ≤ j < Z.of_nat (length l) → nthz l i = nthz l j → i = j.
Proof.
  intros Hnd Hi Hj E. unfold nthz in E.
  destruct (lookup_lt_is_Some_2 l (Z.to_nat i)) as [x Hx]; [lia|].
  destruct (lookup_lt_is_Some_2 l (Z.to_nat j)) as [y Hy]; [lia|].
  rewrite (list_lookup_total_correct _ _ _ Hx), (list_lookup_total_correct _ _ _ Hy) in E. subst y.
  pose proof (NoDup_lookup _ _ _ _ Hnd Hx Hy). lia.
Qed.

Lemma elem_of_nthz l x : x ∈ l ↔ ∃ i, 0 ≤ i < Z.of_nat (length l) ∧ x = nthz l i.
Proof.
  unfold nthz. rewrite list_elem_of_lookup. split.
  - intros [i Hi]. exists (Z.of_nat i). rewrite Nat2Z.id, (list_lookup_total_correct _ _ _ Hi).
    apply lookup_lt_Some in Hi. split; [lia|done].
  - intros (i & Hi & ->). exists (Z.to_nat i). apply list_lookup_lookup_total_lt. lia.
Qed.

(** A visit of all ranks from 0 on. *)
Definition visit (l : list Z) : Prop := l ≡ₚ seqZ 0 n ∧ nthz l 0 = 0.

Lemma visit_length l : visit l → Z.of_nat (length l) = n.
Proof. intros [Hp _]. rewrite Hp, length_seqZ. lia. Qed.

Lemma visit_NoDup l : visit l → NoDup l.
Proof. intros [Hp _]. rewrite Hp. apply NoDup_seqZ. Qed.

Lemma visit_elem l i : visit l → 0 ≤ i < n → 0 ≤ nthz l i < n.
Proof.
  intros Hv Hi. assert (nthz l i ∈ l) as Hin.
  { apply elem_of_nthz. exists i. rewrite visit_length by done. by split. }
  generalize dependent (nthz l i). intros x Hin.
  destruct Hv as [Hp _]. rewrite Hp, elem_of_seqZ in Hin. lia.
Qed.

Lemma visit_find l x : visit l → 0 ≤ x < n → ∃ i, 0 ≤ i < n ∧ x = nthz l i.
Proof.
  intros Hv Hx. destruct (proj1 (elem_of_nthz l x)) as (i & Hi & ->).
  { rewrite (proj1 Hv). apply elem_of_seqZ. lia. }
  exists i. by rewrite visit_length in Hi.
Qed.

Lemma visit_inj l i j : visit l → 0 ≤ i < n → 0 ≤ j < n → nthz l i = nthz l j → i = j.
Proof. intros Hv Hi Hj. apply nthz_inj; rewrite ?visit_length; auto using visit_NoDup. Qed.

Lemma get_ring_ok `{IterOrderLaws} (recursion_limit : nat) :
  n < 2 ^ Z.of_nat recursion_limit →
  ∃ l m, visit l ∧ get_ring recursion_limit (get_tree n).1 (get_tree n).2 = Ok m ∧
    (∀ i, 0 ≤ i < n → m !! nthz l i = Some (nthz l ((i + n - 1) `mod` n), nthz l ((i + 1) `mod` n))) ∧
    ∀ x w, m !! x = Some w → 0 ≤ x < n.
Proof.
  intros Hlim. destruct (visit_all n recursion_limit) as (l & E & Hp); [done|].
  assert (visit (0 :: l)) as Hv by (split; [done|reflexivity]). set (r := 0 :: l) in *.
  unfold get_ring. destruct (get_tree_lookup n 0) as [_ ->]. rewrite decide_True by lia.
  cbn [or_raise mbind res_bind]. change ((0 + 1) `div` 2 - 1) with (-1).
  rewrite bool_decide_true by done. cbn [py_assert mbind res_bind]. rewrite E. cbn [mbind res_bind].
  rewrite get_tree_size, visit_length by (done || lia). rewrite bool_decide_true by done.
  cbn [py_assert mbind res_bind].
  destruct (fold_insert (λ i m, k ← nth_res r i; rprev ← nth_res r ((i + n - 1) `mod` n);
    rnext ← nth_res r ((i + 1) `mod` n); Ok (<[k := (rprev, rnext)]> m)) (nthz r)
    (λ i, (nthz r ((i + n - 1) `mod` n), nthz r ((i + 1) `mod` n))) (seqZ 0 n)) as (m & Em & H1 & H2).
  - intros i m Hi%elem_of_seqZ.
    rewrite !nth_res_ok by (rewrite visit_length by done; try apply Z.mod_pos_bound; lia). done.
  - intros i j Hi%elem_of_seqZ Hj%elem_of_seqZ Heq. apply visit_inj in Heq; [by subst|done|lia..].
  - exists r, m. split_and!; [done|exact Em| |].
    + intros i Hi. apply H1, elem_of_seqZ. lia.
    + intros x w (i & Hi%elem_of_seqZ & -> & _)%H2. apply visit_elem; [done|lia].
Qed.

(** Following the ring from 0 numbers the ranks in the order of the visit. *)
Lemma walk_ok l (m : gmap Z (Z * Z)) :
  visit l →
  (∀ i, 0 ≤ i < n → m !! nthz l i = Some (nthz l ((i + n - 1) `mod` n), nthz l ((i + 1) `mod` n))) →
  ∃ k rmap, fold_res (number_next m) (seqZ 0 (n - 1)) (0, {[0 := 0]}) = Ok (k, rmap) ∧
    ∀ i, 0 ≤ i < n → rmap !! nthz l i = Some i.
Proof.
  intros Hv Hm. pose proof (proj2 Hv) as Hz.
  destruct (fold_res_inv (number_next m) (λ dn '(k, rmap),
      let d := Z.of_nat (length dn) in k = nthz l d ∧ ∀ i, 0 ≤ i ≤ d → rmap !! nthz l i = Some i)
    (seqZ 0 (n - 1)) (0, {[0 := 0]} : gmap Z Z)) as ([k rmap] & E & _ & Hr).
  - simpl. split; [done|]. intros i Hi. assert (i = 0) as -> by lia. rewrite Hz. apply lookup_singleton_eq.
  - intros dn x rest [k rmap] Hl [-> Hr].
    assert (x = Z.of_nat (length dn) ∧ x + 1 < n) as [-> Hx].
    { assert (seqZ 0 (n - 1) !! length dn = Some x) as Hlk by (rewrite Hl; by apply list_lookup_middle).
      apply lookup_seqZ in Hlk. lia. }
    unfold number_next. cbn [fst snd]. rewrite Hm by lia. cbn [or_raise mbind res_bind snd]. rewrite (Z.mod_small (_ + 1)) by lia.
    eexists. split; [done|]. cbv beta iota. rewrite length_app. cbn [length].
    replace (Z.of_nat (length dn + 1)) with (Z.of_nat (length dn) + 1) by lia. split; [done|].
    intros i Hi. destruct (decide (i = Z.of_nat (length dn) + 1)) as [->|Hne].
    + apply lookup_insert_eq.
    + rewrite lookup_insert_ne; [apply Hr; lia|]. intros Heq. apply visit_inj in Heq; [lia|done|lia|lia].
  - exists k, rmap. split; [exact E|]. intros i Hi. apply Hr. rewrite length_seqZ. lia.
Qed.
End links.

(** ** The link map *)

(** A link map for [n] workers: the ring is 0, 1, ..., [n - 1] and back; the tree
    has root 0, every other worker has a parent that leads to the root, and a
    worker's neighbours are its parent and the workers whose parent it is. *)
Record link_map_ok (n : Z) (tree : gmap Z (list Z)) (parent : gmap Z Z) (ring : gmap Z (Z * Z)) : Prop := {
  lm_ring i : 0 ≤ i < n → ring !! i = Some ((i + n - 1) `mod` n, (i + 1) `mod` n);
  lm_ring_dom i : is_Some (ring !! i) → 0 ≤ i < n;
  lm_tree_dom i : is_Some (tree !! i) ↔ 0 ≤ i < n;
  lm_root : parent !! 0 = Some (-1);
  lm_parent i : 0 < i < n → ∃ p, parent !! i = Some p ∧ 0 ≤ p < n;
  lm_parent_dom i : is_Some (parent !! i) → 0 ≤ i < n;
  lm_neighbours i l : tree !! i = Some l → NoDup l ∧ (length l ≤ 3)%nat ∧
    ∀ j, j ∈ l ↔ (parent !! i = Some j ∧ i ≠ 0) ∨ parent !! j = Some i;
  lm_rooted i : 0 ≤ i < n → rtc (λ c p, parent !! c = Some p) i 0
}.

Lemma parent_range x n : 0 < x < n → 0 ≤ (x + 1) `div` 2 - 1 < x.
Proof. intros Hx. pose proof (Z.div_mod (x + 1) 2). pose proof (Z.mod_pos_bound (x + 1) 2). lia. Qed.

Lemma parent_children x y : 0 < y → (y + 1) `div` 2 - 1 = x ↔ y = 2 * x + 1 ∨ y = 2 * x + 2.
Proof. intros Hy. pose proof (Z.div_mod (y + 1) 2). pose proof (Z.mod_pos_bound (y + 1) 2). lia. Qed.

(** Renaming the ranks [0 .. n-1] by an injection that fixes 0. *)
Section renamed.
Context (n : Z) (rm : Z → Z) (Hn : 1 ≤ n) (Hrm0 : rm 0 = 0).
Context (Hrange : ∀ x, 0 ≤ x < n → 0 ≤ rm x < n) (Hsurj : ∀ j, 0 ≤ j < n → ∃ x, 0 ≤ x < n ∧ rm x = j).
Context (Hinj : ∀ x y, 0 ≤ x < n → 0 ≤ y < n → rm x = rm y → x = y).
Context (tree : gmap Z (list Z)) (parent : gmap Z Z).
Context (Htree : ∀ x, 0 ≤ x < n → tree !! rm x = Some (rm <$> get_neighbor x n)).
Context (Htree' : ∀ j, is_Some (tree !! j) → ∃ x, 0 ≤ x < n ∧ j = rm x).
Context (Hpar : ∀ x, 0 ≤ x < n → parent !! rm x = Some (if decide (x ≠ 0) then rm ((x + 1) `div` 2 - 1) else -1)).
Context (Hpar' : ∀ j, is_Some (parent !! j) → ∃ x, 0 ≤ x < n ∧ j = rm x).

Lemma renamed_parent x y : 0 ≤ x < n → 0 ≤ y < n →
  parent !! rm y = Some (rm x) ↔ y = 2 * x + 1 ∨ y = 2 * x + 2.
Proof.
  intros Hx Hy. rewrite Hpar by done. case_decide as Hy0.
  - rewrite <-parent_children by lia. pose proof (parent_range y n).
    split; [intros [= E]; apply Hinj in E; lia|by intros ->].
  - pose proof (Hrange x Hx). split; [intros [= E]; lia|lia].
Qed.

Lemma renamed_neighbours x j : 0 ≤ x < n →
  j ∈ rm <$> get_neighbor x n ↔ (parent !! rm x = Some j ∧ rm x ≠ 0) ∨ parent !! j = Some (rm x).
Proof.
  intros Hx. rewrite list_elem_of_fmap. split.
  - intros (y & -> & Hy). apply elem_of_neighbor in Hy as [[Hx0 ->]|[Hy Hc]]; [| |lia].
    + left. rewrite Hpar, decide_True by lia. split; [done|]. intros E. rewrite <-Hrm0 in E. apply Hinj in E; lia.
    + right. apply renamed_parent; lia.
  - intros [[E Hx0]|E].
    + rewrite Hpar in E by done. case_decide as Hd; [|congruence]. injection E as <-.
      eexists. split; [done|]. apply elem_of_neighbor; [lia|]. left. split; [lia|done].
    + destruct (Hpar' j) as (y & Hy & ->); [eauto|]. exists y. split; [done|].
      apply renamed_parent in E; [|done..]. apply elem_of_neighbor; lia.
Qed.

Lemma renamed_rooted x : 0 ≤ x < n → rtc (λ c p, parent !! c = Some p) (rm x) 0.
Proof.
  induction (Z.lt_wf 0 x) as [x _ IH]. intros Hx. destruct (decide (x = 0)) as [->|Hx0].
  { by rewrite Hrm0. }
  pose proof (parent_range x n ltac:(lia)).
  eapply rtc_l; [by rewrite Hpar, decide_True|apply IH; lia].
Qed.

Lemma renamed_ok (ring : gmap Z (Z * Z)) :
  (∀ i, 0 ≤ i < n → ring !! i = Some ((i + n - 1) `mod` n, (i + 1) `mod` n)) →
  (∀ i, is_Some (ring !! i) → 0 ≤ i < n) →
  link_map_ok n tree parent ring.
Proof.
  intros Hr Hr'. split; [done|done|..].
  - intros j. split; [intros (x & Hx & ->)%Htree'; by apply Hrange|].
    intros (x & Hx & <-)%Hsurj. rewrite Htree by done. by eexists.
  - rewrite <-Hrm0 at 1. rewrite Hpar by lia. done.
  - intros j Hj. destruct (Hsurj j) as (x & Hx & <-); [lia|]. rewrite Hpar by done.
    rewrite decide_True by (intros ->; lia). eexists. split; [done|]. apply Hrange.
    pose proof (parent_range x n). assert (x ≠ 0) by (intros ->; lia). lia.
  - intros j (x & Hx & ->)%Hpar'. by apply Hrange.
  - intros j l Hl. destruct (Htree' j) as (x & Hx & ->); [eauto|]. rewrite Htree in Hl by done.
    injection Hl as <-. destruct (neighbor_NoDup x n) as [Hnd Hlen]; [lia|].
    rewrite length_fmap. split_and!; [|done|intros j; by apply renamed_neighbours].
    apply NoDup_fmap_2_strong; [|done]. intros y z Hy Hz. apply elem_of_neighbor in Hy, Hz; [|lia..].
    pose proof (parent_range x n). apply Hinj; lia.
  - intros j (x & Hx & <-)%Hsurj. by apply renamed_rooted.
Qed.
End renamed.

(** Ranks renamed by the position [rm] at which the visit [l] reaches them. *)
Section relabelled.
Context (n : Z) (l : list Z) (rmap : gmap Z Z) (rm : Z → Z).
Context (Hn : 1 ≤ n) (Hv : visit n l) (Hrm : ∀ i, 0 ≤ i < n → rm (nthz l i) = i).
Context (Hrmap : ∀ i, 0 ≤ i < n → rmap !! nthz l i = Some i).

Lemma rm_find x : 0 ≤ x < n → rmap !! x = Some (rm x) ∧ 0 ≤ rm x < n ∧ x = nthz l (rm x).
Proof.
  intros Hx. destruct (visit_find n Hn l x Hv Hx) as (i & Hi & ->). rewrite Hrm by done. auto.
Qed.

Lemma rm_inj x y : 0 ≤ x < n → 0 ≤ y < n → rm x = rm y → x = y.
Proof. intros (_ & _ & E1)%rm_find (_ & _ & E2)%rm_find E. congruence. Qed.

Lemma rm_rename x : 0 ≤ x < n → rename rmap x = Ok (rm x).
Proof. intros (E & _)%rm_find. unfold rename. by rewrite E. Qed.

Lemma relabel_ring (m : gmap Z (Z * Z)) :
  (∀ i, 0 ≤ i < n → m !! nthz l i = Some (nthz l ((i + n - 1) `mod` n), nthz l ((i + 1) `mod` n))) →
  (∀ x w, m !! x = Some w → 0 ≤ x < n) →
  ∃ ring, relabel rmap (λ _ (v : Z * Z), a ← rename rmap v.1; b ← rename rmap v.2; Ok (a, b)) m = Ok ring ∧
    (∀ i, 0 ≤ i < n → ring !! i = Some ((i + n - 1) `mod` n, (i + 1) `mod` n)) ∧
    ∀ i, is_Some (ring !! i) → 0 ≤ i < n.
Proof.
  intros Hm Hm'.
  destruct (relabel_ok rmap rm (λ _ (v : Z * Z), a ← rename rmap v.1; b ← rename rmap v.2; Ok (a, b))
    (λ _ v, (rm v.1, rm v.2)) m) as (ring & E & H1 & H2).
  - intros x w Hx. pose proof (Hm' x w Hx) as Hrx. split; [by apply rm_find|].
    apply rm_find in Hrx as (_ & Hi & E). rewrite E, Hm in Hx by done. injection Hx as <-. cbn [fst snd].
    rewrite !rm_rename by (apply visit_elem; [done|done|apply Z.mod_pos_bound; lia]). done.
  - intros x y [? Hx%Hm'] [? Hy%Hm']. by apply rm_inj.
  - exists ring. split; [done|]. split.
    + intros i Hi. pose proof (H1 _ _ (Hm i Hi)) as E'. rewrite Hrm in E' by done. rewrite E'. cbn [fst snd].
      by rewrite !Hrm by (apply Z.mod_pos_bound; lia).
    + intros i [w (x & v & Hx%Hm' & -> & _)%H2]. by apply rm_find.
Qed.

(** A dictionary over the ranks is renamed key by key. *)
Lemma relabel_ranks {V W} (m : gmap Z V) (f : Z → V) value (γ : Z → V → W) :
  (∀ x, m !! x = if decide (0 ≤ x < n) then Some (f x) else None) →
  (∀ x, 0 ≤ x < n → value x (f x) = Ok (γ x (f x))) →
  ∃ m', relabel rmap value m = Ok m' ∧ (∀ x, 0 ≤ x < n → m' !! rm x = Some (γ x (f x))) ∧
    ∀ j, is_Some (m' !! j) → ∃ x, 0 ≤ x < n ∧ j = rm x.
Proof.
  intros Hm Hval.
  assert (∀ x v, m !! x = Some v → 0 ≤ x < n ∧ v = f x) as Hm'.
  { intros x v. rewrite Hm. case_decide; by intros [= <-]. }
  destruct (relabel_ok rmap rm value γ m) as (m' & E & H1 & H2).
  - intros x v [Hx ->]%Hm'. split; [by apply rm_find|by apply Hval].
  - intros x y [? [Hx _]%Hm'] [? [Hy _]%Hm']. by apply rm_inj.
  - exists m'. split; [done|]. split.
    + intros x Hx. apply H1. by rewrite Hm, decide_True.
    + intros j [w (x & v & [Hx _]%Hm' & -> & _)%H2]. by exists x.
Qed.

Lemma neighbours_renamed x : 0 ≤ x < n → mapM (rename rmap) (get_neighbor x n) = Ok (rm <$> get_neighbor x n).
Proof.
  intros Hx. assert (Forall (λ y, 0 ≤ y < n) (get_neighbor x n)) as HF.
  { apply Forall_forall. intros y Hy. apply elem_of_neighbor in Hy; [|lia].
    pose proof (parent_range x n). lia. }
  induction HF as [|y ys Hy _ IH]; [done|]. cbn [mapM fmap list_fmap].
  rewrite rm_rename by done. cbn [mbind res_bind]. by rewrite IH.
Qed.
End relabelled.

(** C19: Whatever order Python enumerates its sets in, [get_link_map] succeeds for
    any positive number of workers within the recursion limit, and hands out a
    ring through all ranks in order and a tree rooted at rank 0: everyone reaches
    the root along parents, has at most three tree neighbours, and is a
    neighbour of exactly its parent and its children. *)
Theorem link_map_spec `{IterOrderLaws} (recursion_limit : nat) n :
  1 ≤ n < 2 ^ Z.of_nat recursion_limit →
  ∃ tree parent ring, get_link_map recursion_limit n = Ok (tree, parent, ring) ∧
    link_map_ok n tree parent ring.
Proof.
  intros Hn. assert (1 ≤ n) as Hn1 by lia.
  destruct (get_ring_ok n Hn1 recursion_limit) as (l & m & Hv & Er & Hm & Hm'); [lia|].
  destruct (walk_ok n Hn1 l m Hv Hm) as (k & rmap & Ew & Hrmap).
  set (rm x := default 0 (rmap !! x)).
  assert (∀ i, 0 ≤ i < n → rm (nthz l i) = i) as Hrm by (intros i Hi; unfold rm; by rewrite Hrmap).
  pose proof (rm_find n l rmap rm Hn1 Hv Hrm Hrmap) as Hfind.
  pose proof (λ x, proj1 (get_tree_lookup n x)) as Ht. pose proof (λ x, proj2 (get_tree_lookup n x)) as Hp.
  destruct (relabel_ring n l rmap rm Hn1 Hv Hrm Hrmap m Hm Hm') as (ring & Ering & Hr1 & Hr2).
  destruct (relabel_ranks n l rmap rm Hn1 Hv Hrm Hrmap _ _ (λ _ v, mapM (rename rmap) v) (λ _ v, rm <$> v) Ht)
    as (tree & Etree & Ht1 & Ht2); [by apply neighbours_renamed with l|].
  destruct (relabel_ranks n l rmap rm Hn1 Hv Hrm Hrmap _ _
    (λ k v, if decide (k ≠ 0) then rename rmap v else Ok (-1))
    (λ k v, if decide (k ≠ 0) then rm v else -1) Hp) as (parent & Epar & Hp1 & Hp2).
  { intros x Hx. case_decide; [|done]. apply (rm_rename n l rmap rm Hn1 Hv Hrm Hrmap).
    pose proof (parent_range x n). lia. }
  exists tree, parent, ring. split.
  - unfold get_link_map. rewrite (surjective_pairing (get_tree n)), Er. cbn [mbind res_bind].
    rewrite Ew. cbn [mbind res_bind]. rewrite Ering. cbn [mbind res_bind]. rewrite Etree.
    cbn [mbind res_bind]. by rewrite Epar.
  - apply (renamed_ok n rm); try done.
    + rewrite <-(proj2 Hv) at 1. apply Hrm. lia.
    + intros x Hx. by apply Hfind.
    + intros j Hj. exists (nthz l j). split; [by apply visit_elem|by apply Hrm].
    + by apply (rm_inj n l rmap).
Qed.

(** Three recursion levels are enough for six workers. *)
Module RabitDemo.
#[export] Instance ascending : IterOrder := elements.
#[export] Instance ascending_laws : IterOrderLaws.
Proof. by intros X. Qed.

Lemma link_map_spec_witness :
  ∃ tree parent ring, get_link_map 3 6 = Ok (tree, parent, ring) ∧ link_map_ok 6 tree parent ring ∧
    ring !! 5 = Some (4, 0) ∧ tree !! 5 = Some [0; 4; 3] ∧ parent !! 5 = Some 0.
Proof.
  destruct (link_map_spec 3 6) as (tree & parent & ring & E & Hok); [lia|].
  exists tree, parent, ring. split; [exact E|]. split; [exact Hok|].
  vm_compute in E. injection E as <- <- <-. split_and!; reflexivity.
Defined.
End RabitDemo.
End RabitProofs.
