(* ===== verification/Wire.v ===== *)
(** * Sockets of the tracker, [3rdparty/ps-lite/tracker/tracker.py]

    [ExSocket]: integers and strings over a TCP connection. A connection is what
    the peer sends, in the segments in which it arrives, and what has been sent
    to it. [struct]'s native ['@i'] is a four-byte little-endian two's-complement
    integer.

    Code that talks to a peer may wait for ever: it is in the monad [D]. *)

From stdpp Require Import list_numbers.
From Stdlib Require Import Ascii String.
From S2P Require Import Prelude.

Module Wire.

Notation bytes := (list ascii).

Record conn : Type := Conn { inbox : list bytes; outbox : bytes }.

(** [sock.recv(k)]: a non-empty piece of what has arrived, and the empty string
    once the peer has closed the connection. *)
Definition recv (k : nat) : M conn bytes := λ c,
  match inbox c with
  | [] => (Ok [], c)
  | seg :: segs =>
      (Ok (take k seg), Conn (if decide (drop k seg = []) then segs else drop k seg :: segs) (outbox c))
  end.

Definition sendall (s : bytes) : M conn () := modify (λ c, Conn (inbox c) (outbox c ++ s)).

(** The loop reads at least one byte at each turn, or the peer has closed the
    connection and it never ends. *)
Fixpoint recv_loop (fuel : nat) (nbytes nread : Z) (acc : bytes) : D conn bytes :=
  if nread <? nbytes then
    match fuel with
    | O => never
    | S fuel' =>
        chunk ← run (recv (Z.to_nat (Z.min (nbytes - nread) 1024)));
        recv_loop fuel' nbytes (nread + Z.of_nat (length chunk)) (acc ++ chunk)
    end
  else mret acc.

Definition recvall (nbytes : Z) : D conn bytes := recv_loop (Z.to_nat nbytes) nbytes 0 [].

(** [struct.pack('@i', n)] and [struct.unpack('@i', s)[0]] *)
Definition pack_int (n : Z) : res bytes :=
  if decide (- 2 ^ 31 ≤ n < 2 ^ 31)
  then Ok ((λ b, ascii_of_N (Z.to_N b)) <$> Z_to_little_endian 4 8 n)
  else Raise StructError.

Definition unpack_int (s : bytes) : res Z :=
  if decide (length s = 4%nat) then
    let u := little_endian_to_Z 8 ((λ c, Z.of_N (N_of_ascii c)) <$> s) in
    Ok (if u <? 2 ^ 31 then u else u - 2 ^ 32)
  else Raise StructError.

Definition recvint : D conn Z := s ← recvall 4; run (lift (unpack_int s)).
Definition sendint (n : Z) : D conn () := s ← run (lift (pack_int n)); run (sendall s).
Definition sendstr (s : string) : D conn () :=
  sendint (Z.of_nat (String.length s));; run (sendall (String.list_ascii_of_string s)).
Definition recvstr : D conn string :=
  slen ← recvint; s ← recvall slen; mret (String.string_of_list_ascii s).

(** ** Receiving what was sent *)

(** [c] delivers [s] in some segments and has been sent [o]. *)
Definition delivers (c : conn) (s o : bytes) : Prop :=
  Forall (λ seg, seg ≠ []) (inbox c) ∧ concat (inbox c) = s ∧ outbox c = o.

Lemma recv_delivers k c s o :
  delivers c s o → (0 < k)%nat → s ≠ [] →
  ∃ a b c', s = a ++ b ∧ recv k c = (Ok a, c') ∧ delivers c' b o ∧ a ≠ [] ∧ (length a ≤ k)%nat.
Proof.
  intros (Hw & Hc & Ho) Hk Hs. unfold recv. destruct (inbox c) as [|seg segs] eqn:E; [done|].
  apply Forall_cons in Hw as [Hseg Hw]. exists (take k seg), (drop k seg ++ concat segs).
  eexists. split; [by rewrite app_assoc, take_drop|]. split; [reflexivity|]. split; [|split].
  - unfold delivers. cbn [inbox outbox]. case_decide as Hd; split_and!; try done.
    + by rewrite Hd.
    + by apply Forall_cons.
  - destruct seg, k; try done; lia.
  - rewrite length_take. lia.
Qed.

Lemma recv_loop_ok fuel nbytes nread acc c s o a b :
  delivers c s o → s = a ++ b → Z.of_nat (length a) = nbytes - nread → (length a ≤ fuel)%nat →
  ∃ c', recv_loop fuel nbytes nread acc c = Some (Ok (acc ++ a), c') ∧ delivers c' b o.
Proof.
  revert nread acc c s a. induction fuel as [|fuel IH]; intros nread acc c s a Hd Hs Hl Hf.
  { assert (a = []) as -> by (by apply nil_length_inv; lia). simpl in *. subst s.
    destruct (Z.ltb_spec nread nbytes); [lia|]. exists c. by rewrite app_nil_r. }
  cbn [recv_loop]. destruct (Z.ltb_spec nread nbytes) as [Hlt|Hge].
  - destruct (recv_delivers (Z.to_nat (Z.min (nbytes - nread) 1024)) c s o) as
      (x & y & c1 & Ex & E & Hd1 & Hx & Hlx); [done|lia|by destruct a; subst; [simpl in *; lia|]|].
    erewrite D_bind_Ok by (unfold run; by rewrite E).
    assert (∃ a', a = x ++ a' ∧ y = a' ++ b) as (a' & -> & ->).
    { rewrite Ex in Hs. destruct (app_eq_inv _ _ _ _ Hs) as [(k & -> & ->)|(k & -> & ->)]; [|by exists k].
      rewrite length_app in Hlx. assert (k = []) as -> by (apply nil_length_inv; lia).
      exists []. by rewrite !app_nil_r. }
    rewrite length_app in *. assert (1 ≤ length x)%nat by (destruct x; simpl; [done|lia]).
    destruct (IH (nread + Z.of_nat (length x)) (acc ++ x) c1 (a' ++ b) a') as (c2 & E2 & Hd2); [done|done|lia|lia|].
    exists c2. by rewrite E2, <-app_assoc.
  - assert (a = []) as -> by (by apply nil_length_inv; lia). simpl in *. subst s.
    exists c. by rewrite app_nil_r.
Qed.

Lemma recvall_ok n c a b o :
  delivers c (a ++ b) o → Z.of_nat (length a) = n →
  ∃ c', recvall n c = Some (Ok a, c') ∧ delivers c' b o.
Proof.
  intros Hd Hl. destruct (recv_loop_ok (Z.to_nat n) n 0 [] c (a ++ b) o a b) as (c' & E & Hd'); [done|done|lia|lia|].
  by exists c'.
Qed.

(** A peer that closes the connection early keeps the reader in its loop. *)
Lemma recv_loop_short fuel nbytes nread acc c s o :
  delivers c s o → Z.of_nat (length s) < nbytes - nread → recv_loop fuel nbytes nread acc c = None.
Proof.
  revert nread acc c s. induction fuel as [|fuel IH]; intros nread acc c s Hd Hl; cbn [recv_loop];
    (destruct (Z.ltb_spec nread nbytes); [|lia]); [done|].
  destruct (decide (s = [])) as [->|Hs].
  - destruct Hd as (Hw & Hc & Ho). assert (inbox c = []) as Hi.
    { destruct (inbox c) as [|seg segs]; [done|]. apply Forall_cons in Hw as [? _].
      by destruct seg. }
    erewrite D_bind_Ok by (unfold run, recv; rewrite Hi; reflexivity).
    apply (IH _ _ _ []); [|simpl in *; lia]. split_and!; [by rewrite Hi|by rewrite Hi|done].
  - destruct (recv_delivers (Z.to_nat (Z.min (nbytes - nread) 1024)) c s o) as
      (x & y & c1 & -> & E & Hd1 & Hx & Hlx); [done|lia|done|].
    erewrite D_bind_Ok by (unfold run; by rewrite E). rewrite length_app in Hl.
    apply (IH _ _ _ y); [done|lia].
Qed.

Lemma little_byte_range n b : b ∈ Z_to_little_endian 4 8 n → 0 ≤ b < 2 ^ 8.
Proof.
  intros Hb. pose proof (Z_to_little_endian_bound 4 8 n ltac:(lia) ltac:(lia)) as HF.
  rewrite Forall_forall in HF. by apply HF.
Qed.

Lemma byte_of_ascii b : 0 ≤ b < 2 ^ 8 → Z.of_N (N_of_ascii (ascii_of_N (Z.to_N b))) = b.
Proof. change (2 ^ 8) with 256. intros Hb. rewrite N_ascii_embedding; lia. Qed.

Lemma Ok_inj {A} (a b : A) : Ok a = Ok b → a = b.
Proof. by intros [= ->]. Qed.

(** The four bytes of an integer are read back as that integer. *)
Lemma unpack_pack n s : pack_int n = Ok s → length s = 4%nat ∧ unpack_int s = Ok n.
Proof.
  unfold pack_int. case_decide as Hn; [|done]. intros <-%Ok_inj.
  assert (length ((λ b, ascii_of_N (Z.to_N b)) <$> Z_to_little_endian 4 8 n) = 4%nat) as Hl.
  { rewrite length_fmap. pose proof (length_Z_to_little_endian 4 8 n ltac:(lia)). lia. }
  split; [done|]. unfold unpack_int. rewrite decide_True by done. rewrite <-list_fmap_compose.
  assert (((λ c, Z.of_N (N_of_ascii c)) ∘ (λ b, ascii_of_N (Z.to_N b))) <$> Z_to_little_endian 4 8 n
    = Z_to_little_endian 4 8 n) as ->.
  { rewrite <-(list_fmap_id (Z_to_little_endian 4 8 n)) at 2. apply list_fmap_ext.
    intros i b Hb. apply byte_of_ascii, (little_byte_range n). by eapply list_elem_of_lookup_2. }
  rewrite little_endian_to_Z_to_little_endian by lia. change (2 ^ (4 * 8)) with (2 ^ 32). f_equal.
  destruct (decide (0 ≤ n)).
  - rewrite Z.mod_small by lia. destruct (Z.ltb_spec n (2 ^ 31)); lia.
  - rewrite <-(Z.mod_add _ 1), Z.mod_small by lia. destruct (Z.ltb_spec (n + 1 * 2 ^ 32) (2 ^ 31)); lia.
Qed.

Definition int_ok (n : Z) : Prop := - 2 ^ 31 ≤ n < 2 ^ 31.

(** The bytes of an integer, of a string. *)
Definition enc_int (n : Z) : bytes := match pack_int n with Ok s => s | Raise _ => [] end.
Definition enc_str (s : string) : bytes :=
  enc_int (Z.of_nat (String.length s)) ++ String.list_ascii_of_string s.

Lemma pack_enc n : int_ok n → pack_int n = Ok (enc_int n).
Proof. intros Hn. unfold enc_int, pack_int. by rewrite decide_True. Qed.

Lemma sendint_ok n c s o : delivers c s o → int_ok n →
  ∃ c', sendint n c = Some (Ok (), c') ∧ delivers c' s (o ++ enc_int n).
Proof.
  intros (Hw & Hc & Ho) Hn. unfold sendint.
  erewrite D_bind_Ok by (unfold run, lift; by rewrite pack_enc).
  eexists. split; [reflexivity|]. split_and!; [done|done|]. cbn [outbox]. by rewrite Ho.
Qed.

Lemma sendstr_ok str c s o : delivers c s o → int_ok (Z.of_nat (String.length str)) →
  ∃ c', sendstr str c = Some (Ok (), c') ∧ delivers c' s (o ++ enc_str str).
Proof.
  intros Hd Hn. destruct (sendint_ok _ c s o Hd Hn) as (c1 & E & (Hw & Hc & Ho)).
  unfold sendstr. erewrite D_bind_Ok by done.
  eexists. split; [reflexivity|]. split_and!; [done|done|]. cbn [outbox].
  by rewrite Ho, <-app_assoc.
Qed.

Lemma recvint_ok n c s o : delivers c (enc_int n ++ s) o → int_ok n →
  ∃ c', recvint c = Some (Ok n, c') ∧ delivers c' s o.
Proof.
  intros Hd Hn. destruct (unpack_pack n (enc_int n) (pack_enc n Hn)) as [Hl Hu].
  destruct (recvall_ok 4 c (enc_int n) s o) as (c' & E & Hd'); [done|lia|].
  exists c'. split; [|done]. unfold recvint. erewrite D_bind_Ok by done. unfold run, lift. by rewrite Hu.
Qed.

Lemma length_list_ascii s : length (String.list_ascii_of_string s) = String.length s.
Proof. induction s as [|a s IH]; simpl; [done|]. by rewrite IH. Qed.

Lemma recvstr_ok str c s o : delivers c (enc_str str ++ s) o → int_ok (Z.of_nat (String.length str)) →
  ∃ c', recvstr c = Some (Ok str, c') ∧ delivers c' s o.
Proof.
  intros Hd Hn. unfold enc_str in Hd. rewrite <-app_assoc in Hd.
  destruct (recvint_ok _ _ _ _ Hd Hn) as (c1 & E1 & Hd1).
  destruct (recvall_ok (Z.of_nat (String.length str)) c1 (String.list_ascii_of_string str) s o)
    as (c2 & E2 & Hd2); [done|by rewrite length_list_ascii|].
  exists c2. split; [|done]. unfold recvstr. erewrite D_bind_Ok by done. erewrite D_bind_Ok by done.
  unfold mret, D_ret. by rewrite String.string_of_list_ascii_of_string.
Qed.

(** ** Messages *)

Inductive msg := MInt (n : Z) | MStr (s : string).
Definition msg_ok (m : msg) : Prop :=
  int_ok match m with MInt n => n | MStr s => Z.of_nat (String.length s) end.
Definition enc_msg (m : msg) : bytes := match m with MInt n => enc_int n | MStr s => enc_str s end.
Definition enc (l : list msg) : bytes := concat (enc_msg <$> l).

Definition send_msg (m : msg) : D conn () := match m with MInt n => sendint n | MStr s => sendstr s end.
(** Read a message of the kind of [m]. *)
Definition recv_as (m : msg) : D conn msg :=
  match m with MInt _ => n ← recvint; mret (MInt n) | MStr _ => s ← recvstr; mret (MStr s) end.
Fixpoint recv_like (l : list msg) : D conn (list msg) :=
  match l with [] => mret [] | m :: l' => x ← recv_as m; xs ← recv_like l'; mret (x :: xs) end.

Lemma send_msg_ok m c s o : delivers c s o → msg_ok m →
  ∃ c', send_msg m c = Some (Ok (), c') ∧ delivers c' s (o ++ enc_msg m).
Proof. destruct m; [apply sendint_ok|apply sendstr_ok]. Qed.

Lemma send_msgs_ok l c s o : delivers c s o → Forall msg_ok l →
  ∃ c', for_eachD send_msg l c = Some (Ok (), c') ∧ delivers c' s (o ++ enc l).
Proof.
  intros Hd HF. revert c o Hd. induction HF as [|m l Hm _ IH]; intros c o Hd; cbn [for_eachD].
  { exists c. unfold enc. simpl. by rewrite app_nil_r. }
  destruct (send_msg_ok m c s o Hd Hm) as (c1 & E1 & Hd1). erewrite D_bind_Ok by done.
  destruct (IH c1 _ Hd1) as (c2 & E2 & Hd2). exists c2. split; [done|]. by rewrite <-app_assoc in Hd2.
Qed.

Lemma recv_as_ok m c s o : delivers c (enc_msg m ++ s) o → msg_ok m →
  ∃ c', recv_as m c = Some (Ok m, c') ∧ delivers c' s o.
Proof.
  destruct m as [n|str]; intros Hd Hm; cbn [recv_as].
  - destruct (recvint_ok _ _ _ _ Hd Hm) as (c1 & E1 & Hd1). exists c1. split; [|done]. by erewrite D_bind_Ok.
  - destruct (recvstr_ok _ _ _ _ Hd Hm) as (c1 & E1 & Hd1). exists c1. split; [|done]. by erewrite D_bind_Ok.
Qed.

(** C33: Whatever sequence of integers and strings one side sends, the other side
    reads back, however the network cuts the bytes into segments and whatever
    follows; an integer that does not fit four bytes is refused when it is
    sent; and if the peer closes the connection before a value is complete, the
    reader never returns. *)
Theorem wire_roundtrip l c s0 c' peer rest o :
  Forall msg_ok l → delivers c s0 [] →
  for_eachD send_msg l c = Some (Ok (), c') →
  delivers peer (outbox c' ++ rest) o →
  (∃ peer', recv_like l peer = Some (Ok l, peer') ∧ delivers peer' rest o) ∧
  (∀ n, ¬ int_ok n → sendint n c = Some (Raise StructError, c)) ∧
  (∀ short s o', delivers short s o' → (length s < 4)%nat → recvint short = None).
Proof.
  intros HF Hc Es Hd. split_and!.
  - destruct (send_msgs_ok l c s0 [] Hc HF) as (c1 & E1 & (_ & _ & Ho1)).
    rewrite E1 in Es. injection Es as <-. rewrite Ho1 in Hd. cbn [app] in Hd. clear -HF Hd.
    revert peer Hd. induction HF as [|m l Hm _ IH]; intros peer Hd; cbn [recv_like].
    { by exists peer. }
    unfold enc in Hd. cbn [fmap list_fmap concat] in Hd. rewrite <-app_assoc in Hd.
    destruct (recv_as_ok m peer _ o Hd Hm) as (p1 & E1 & Hd1). erewrite D_bind_Ok by done.
    destruct (IH p1 Hd1) as (p2 & E2 & Hd2). exists p2. split; [|done]. by erewrite D_bind_Ok.
  - intros n Hn. unfold sendint. assert (pack_int n = Raise StructError) as E.
    { unfold pack_int. by rewrite decide_False. }
    unfold mbind, D_bind, run, lift. by rewrite E.
  - intros short s o' Hs Hl. unfold recvint. apply D_bind_never, (recv_loop_short _ _ _ _ _ s o'); [done|lia].
Qed.

(** ** Bytes that are left *)

Definition bytes_left (c : conn) : nat := length (concat (inbox c)).

(** [m] reads at least [k] bytes when it returns a value, and never gives bytes back. *)
Definition reads {A} (k : nat) (m : D conn A) : Prop := ∀ c r c', m c = Some (r, c') →
  (bytes_left c' ≤ bytes_left c)%nat ∧ (is_ok r → (bytes_left c' + k ≤ bytes_left c)%nat).

Lemma reads_weaken {A} k j (m : D conn A) : (j ≤ k)%nat → reads k m → reads j m.
Proof. intros Hj Hm c r c' E. destruct (Hm c r c' E) as [H1 H2]. split; [done|]. intros Hr%H2. lia. Qed.

Lemma reads_ret {A} (a : A) : reads 0 (mret a).
Proof. intros c r c' [= <- <-]. split; [|intros _]; lia. Qed.

Lemma reads_bind {A B} k j (m : D conn A) (f : A → D conn B) :
  reads k m → (∀ a, reads j (f a)) → reads (k + j) (m ≫= f).
Proof.
  intros Hm Hf c r c'. unfold mbind, D_bind. destruct (m c) as [[[a|e] c1]|] eqn:E; [| |done].
  - intros E'. destruct (Hm _ _ _ E) as [H1 H2]. destruct (Hf a _ _ _ E') as [H3 H4].
    specialize (H2 I). split; [lia|]. intros Hr%H4. lia.
  - intros [= <- <-]. destruct (Hm _ _ _ E) as [H1 _]. split; [done|]. intros [].
Qed.

Lemma reads_lift {A} (r : res A) : reads 0 (run (lift r)).
Proof. intros c r' c' [= <- <-]. split; [|intros _]; lia. Qed.

Lemma reads_sendint n : reads 0 (sendint n).
Proof. apply (reads_bind 0 0); [apply reads_lift|]. intros s c r c' [= <- <-]. split; [|intros _]; unfold bytes_left; cbn; lia. Qed.

Lemma reads_sendstr s : reads 0 (sendstr s).
Proof. apply (reads_bind 0 0); [apply reads_sendint|]. intros _ c r c' [= <- <-]. split; [|intros _]; unfold bytes_left; cbn; lia. Qed.

Lemma reads_for_each {A} (body : A → D conn ()) l : (∀ x, reads 0 (body x)) → reads 0 (for_eachD body l).
Proof. intros Hb. induction l as [|x l IH]; [apply reads_ret|]. by apply (reads_bind 0 0). Qed.

Lemma recv_left k c : match recv k c with
  | (Ok a, c') => bytes_left c = (length a + bytes_left c')%nat
  | (Raise _, _) => False
  end.
Proof.
  unfold recv, bytes_left. destruct (inbox c) as [|seg segs] eqn:E; [by rewrite E|].
  cbn [inbox concat]. rewrite length_app. rewrite <-(take_drop k seg) at 1. rewrite length_app.
  case_decide as Hd; [rewrite Hd; simpl; lia|]. cbn [concat]. rewrite length_app. lia.
Qed.

Lemma recv_loop_left fuel nbytes nread acc c r c' :
  recv_loop fuel nbytes nread acc c = Some (r, c') →
  ∃ s, r = Ok (acc ++ s) ∧ bytes_left c = (length s + bytes_left c')%nat.
Proof.
  revert nread acc c. induction fuel as [|fuel IH]; intros nread acc c; cbn [recv_loop];
    (destruct (nread <? nbytes); [|intros [= <- <-]; exists []; by rewrite app_nil_r]); [done|].
  pose proof (recv_left (Z.to_nat (Z.min (nbytes - nread) 1024)) c) as Hl.
  unfold mbind, D_bind, run. destruct (recv _ c) as [[a|e] c1]; [|done].
  intros (s & -> & E)%IH. exists (a ++ s). rewrite app_assoc, length_app. split; [done|]. lia.
Qed.

Lemma reads_recvint : reads 4 recvint.
Proof.
  intros c r c'. unfold recvint, mbind, D_bind.
  destruct (recvall 4 c) as [[[s|e] c1]|] eqn:E; [| |done]; apply recv_loop_left in E as (s' & Es & El).
  - intros [= <- <-]. simpl in Es. injection Es as ->. unfold unpack_int. case_decide; (split; [lia|]); [lia|by intros []].
  - done.
Qed.

Module WireDemo.
(** Two messages arrive cut inside the first integer. *)
Definition segments : list bytes := match enc [MInt 258; MStr "start"] with a :: b => [[a]; b] | [] => [] end.

Lemma wire_roundtrip_witness :
  (∃ p, recv_like [MInt 258; MStr "start"] (Conn segments []) = Some (Ok [MInt 258; MStr "start"], p)) ∧
  sendint (2 ^ 31) (Conn [] []) = Some (Raise StructError, Conn [] []) ∧ recvint (Conn [] []) = None.
Proof.
  destruct (wire_roundtrip [MInt 258; MStr "start"] (Conn [] []) [] (Conn [] (enc [MInt 258; MStr "start"]))
    (Conn segments []) [] []) as ((p & E & _) & H1 & H2).
  - repeat constructor; vm_compute; congruence.
  - by split_and!.
  - vm_compute. reflexivity.
  - split_and!; [|vm_compute; reflexivity|reflexivity]. repeat constructor; discriminate.
  - split; [by exists p|]. split; [apply H1; unfold int_ok; lia|].
    apply (H2 (Conn [] []) [] []); [by split_and!|simpl; lia].
Defined.
End WireDemo.
End Wire.
