(* ===== verification/Tracker.v ===== *)
(** * The rabit tracker's protocol, [3rdparty/ps-lite/tracker/tracker.py]

    [SlaveEntry] (the greeting of a worker, [decide_rank], [assign_rank]) and
    [RabitTracker.accept_slaves]: workers connect, are given ranks and links, and
    report that they are done. The tracker's state is the dictionaries local to
    [accept_slaves]; what is said on a connection is in its [outbox].

    [gethostbyname] is a parameter; messages are logged in the source and left
    out here, except that a worker's [print] is kept. *)

From stdpp Require Import list_numbers.
From Stdlib Require Import Ascii String.
From S2P Require Import Prelude Rabit Wire.

Module Tracker.
Import Rabit Wire.

Definition kMagic : Z := 65433.

(** A worker, as its greeting describes it. *)
Record slave : Type := Slave {
  host : string; rank : Z; world_size : Z; jobid : string; cmd : string
}.

(** What [wait_conn] keeps of a worker that waits for others to connect. *)
Record waiter : Type := Waiter { w_host : string; w_port : Z; wait_accept : Z }.

Section tracker.
Context `{IterOrder} (recursion_limit : nat) (gethostbyname : string → string).

(** ** [SlaveEntry] *)

Definition SlaveEntry_init (s_addr : string) : D conn slave :=
  magic ← recvint;
  run (m_assert (bool_decide (magic = kMagic)));;
  sendint kMagic;;
  rank ← recvint;
  world_size ← recvint;
  jobid ← recvstr;
  cmd ← recvstr;
  mret (Slave (gethostbyname s_addr) rank world_size jobid cmd).

Definition decide_rank (s : slave) (job_map : gmap string Z) : Z :=
  if 0 <=? rank s then rank s
  else if decide (jobid s ≠ "NULL") then default (-1) (job_map !! jobid s) else -1.

(** A link of the ring that exists: it is added to the links and announced. *)
Definition ring_link (rank r : Z) (nnset : gset Z) : D conn (gset Z) :=
  if decide (r ≠ -1 ∧ r ≠ rank) then sendint r;; mret ({[r]} ∪ nnset)
  else sendint (-1);; mret nnset.

(** [for i in xrange(n): goodset.add(recvint())] *)
Fixpoint recv_set (n : nat) (acc : gset Z) : D conn (gset Z) :=
  match n with
  | O => mret acc
  | S n' => r ← recvint; recv_set n' ({[r]} ∪ acc)
  end.

(** The links still to make: those whose other end waits, and how many are left. *)
Definition send_links (wait_conn : gmap Z waiter) (r : Z) : D conn () :=
  w ← run (lift (or_raise KeyError (wait_conn !! r)));
  sendstr (w_host w);; sendint (w_port w);; sendint r.

(** One turn of the loop: [None] when the worker reports errors. *)
Definition link_round (wait_conn : gmap Z waiter) (nnset : gset Z) :
    D conn (option (Z * list Z * Z)) :=
  ngood ← recvint;
  goodset ← recv_set (Z.to_nat ngood) ∅;
  run (m_assert (bool_decide (goodset ⊆ nnset)));;
  let badset := nnset ∖ goodset in
  let conset := filter (λ r, is_Some (wait_conn !! r)) (set_order badset) in
  let remaining := Z.of_nat (size badset) - Z.of_nat (length conset) in
  sendint (Z.of_nat (length conset));;
  sendint remaining;;
  for_eachD (send_links wait_conn) conset;;
  nerr ← recvint;
  if decide (nerr ≠ 0) then mret None
  else port ← recvint; mret (Some (port, conset, remaining)).

(** A turn that is repeated has read at least eight bytes. *)
Fixpoint link_loop (fuel : nat) (wait_conn : gmap Z waiter) (nnset : gset Z) : D conn (Z * list Z * Z) :=
  match fuel with
  | O => never
  | S fuel' =>
      o ← link_round wait_conn nnset;
      match o with Some r => mret r | None => link_loop fuel' wait_conn nnset end
  end.

Definition make_links (wait_conn : gmap Z waiter) (nnset : gset Z) : D conn (Z * list Z * Z) := λ c,
  link_loop (S (length (concat (inbox c)))) wait_conn nnset c.

(** [wait_conn[r].wait_accept -= 1] for every link made, and the workers that
    wait for nobody else are removed. *)
Definition accept_one (wait_conn : gmap Z waiter) (r : Z) : gmap Z waiter :=
  alter (λ w, Waiter (w_host w) (w_port w) (wait_accept w - 1)) r wait_conn.
Definition connected (wait_conn : gmap Z waiter) (conset : list Z) : gmap Z waiter :=
  let waiting := foldl accept_one wait_conn conset in
  let rmset := filter (λ r, wait_accept <$> waiting !! r = Some 0) conset in
  foldl (λ m r, delete r m) waiting rmset.

(** [assign_rank]: the worker's port, the new [wait_conn], and how many workers
    it waits for. *)
Definition assign_rank (r : Z) (wait_conn : gmap Z waiter) (tree_map : gmap Z (list Z))
    (parent_map : gmap Z Z) (ring_map : gmap Z (Z * Z)) : D conn (Z * gmap Z waiter * Z) :=
  nbrs ← run (lift (or_raise KeyError (tree_map !! r)));
  let nnset := list_to_set nbrs : gset Z in
  '(rprev, rnext) ← run (lift (or_raise KeyError (ring_map !! r)));
  sendint r;;
  p ← run (lift (or_raise KeyError (parent_map !! r)));
  sendint p;;
  sendint (Z.of_nat (size tree_map));;
  sendint (Z.of_nat (size nnset));;
  for_eachD sendint (set_order nnset);;
  nnset ← ring_link r rprev nnset;
  nnset ← ring_link r rnext nnset;
  '(port, conset, remaining) ← make_links wait_conn nnset;
  mret (port, connected wait_conn conset, remaining).

(** ** [accept_slaves] *)

Record tracker : Type := Trk {
  nslave : Z;
  shutdown : gset Z;
  wait_conn : gmap Z waiter;
  job_map : gmap string Z;
  pending : list (slave * conn);
  todo_nodes : list Z;
  links : option (gmap Z (list Z) * gmap Z Z * gmap Z (Z * Z));
  started : bool;
  printed : list string;
  assigned : list (Z * slave * conn)
}.

Definition trk_init (n : Z) : tracker := Trk n ∅ ∅ ∅ [] [] None false [] [].

(** [sort(key = lambda x: x.host)], which is stable. *)
Fixpoint insert_host (s : slave * conn) (l : list (slave * conn)) : list (slave * conn) :=
  match l with
  | [] => [s]
  | x :: l' => if String.ltb (host s.1) (host x.1) then s :: l else x :: insert_host s l'
  end.
Definition sort_hosts (l : list (slave * conn)) : list (slave * conn) :=
  foldl (λ acc s, insert_host s acc) [] l.

Definition set_wait (w : gmap Z waiter) (t : tracker) : tracker :=
  Trk (nslave t) (shutdown t) w (job_map t) (pending t) (todo_nodes t) (links t) (started t)
    (printed t) (assigned t).

(** [s.assign_rank(rank, ...)], and [wait_conn[rank] = s] if [s] waits. *)
Definition give_rank (r : Z) (s : slave) (c : conn) : D tracker () := λ t,
  match links t with
  | None => Some (Raise UnboundLocalError, t)
  | Some (tree_map, parent_map, ring_map) =>
      match assign_rank r (wait_conn t) tree_map parent_map ring_map c with
      | None => None
      | Some (Raise e, _) => Some (Raise e, t)
      | Some (Ok (port, w, remaining), c') =>
          let w := if 0 <? remaining then <[r := Waiter (host s) port remaining]> w else w in
          Some (Ok (), Trk (nslave t) (shutdown t) w (job_map t) (pending t) (todo_nodes t) (links t)
                         (started t) (printed t) (assigned t ++ [(r, s, c')]))
      end
  end.

(** The body of [for s in pending]. *)
Definition start_pending (sc : slave * conn) : D tracker () :=
  let '(s, c) := sc in
  t ← run get;
  match todo_nodes t with
  | [] => run (raise IndexError)
  | r :: todo =>
      let jm := if decide (jobid s ≠ "NULL") then <[jobid s := r]> (job_map t) else job_map t in
      run (modify (λ t, Trk (nslave t) (shutdown t) (wait_conn t) jm (pending t) todo (links t)
                          (started t) (printed t) (assigned t)));;
      give_rank r s c
  end.

(** [if tree_map == None: ... else: ...] *)
Definition init_links (s : slave) : M tracker () :=
  t ← get;
  match links t with
  | None =>
      m_assert (bool_decide (cmd s = "start"));;
      let n := if 0 <? world_size s then world_size s else nslave t in
      l ← lift (get_link_map recursion_limit n);
      modify (λ t, Trk n (shutdown t) (wait_conn t) (job_map t) (pending t) (seqZ 0 n) (Some l)
                     (started t) (printed t) (assigned t))
  | Some _ => m_assert (bool_decide (world_size s = -1 ∨ world_size s = nslave t))
  end.

Definition add_pending (p : list (slave * conn)) (t : tracker) : tracker :=
  Trk (nslave t) (shutdown t) (wait_conn t) (job_map t) p (todo_nodes t) (links t) (started t)
    (printed t) (assigned t).
Definition set_started (t : tracker) : tracker :=
  Trk (nslave t) (shutdown t) (wait_conn t) (job_map t) (pending t) (todo_nodes t) (links t) true
    (printed t) (assigned t).

(** Batch assignment: ranks are given out when as many workers wait as there
    are ranks left. *)
Definition wait_for_rank (s : slave) (c : conn) : D tracker () :=
  t ← run get;
  run (m_assert (bool_decide (todo_nodes t ≠ [])));;
  let p := pending t ++ [(s, c)] in
  (if decide (length p = length (todo_nodes t)) then
     run (modify (add_pending (sort_hosts p)));;
     for_eachD start_pending (sort_hosts p)
   else run (modify (add_pending p)));;
  t ← run get;
  if decide (todo_nodes t = []) then run (modify set_started) else mret ().

(** One connection: a turn of the loop of [accept_slaves]. *)
Definition handle (s : slave) (c : conn) : D tracker () :=
  if decide (cmd s = "print") then λ t,
    match recvstr c with
    | None => None
    | Some (Raise e, _) => Some (Raise e, t)
    | Some (Ok m, _) =>
        Some (Ok (), Trk (nslave t) (shutdown t) (wait_conn t) (job_map t) (pending t) (todo_nodes t)
                       (links t) (started t) (printed t ++ [m]) (assigned t))
    end
  else if decide (cmd s = "shutdown") then run (
    t ← get;
    m_assert (bool_decide (0 ≤ rank s ∧ rank s ∉ shutdown t));;
    m_assert (bool_decide (wait_conn t !! rank s = None));;
    modify (λ t, Trk (nslave t) ({[rank s]} ∪ shutdown t) (wait_conn t) (job_map t) (pending t)
                   (todo_nodes t) (links t) (started t) (printed t) (assigned t)))
  else
    run (m_assert (bool_decide (cmd s = "start" ∨ cmd s = "recover")));;
    run (init_links s);;
    run (if decide (cmd s = "recover") then m_assert (0 <=? rank s) else mret ());;
    t ← run get;
    let r := decide_rank s (job_map t) in
    if decide (r = -1) then wait_for_rank s c else give_rank r s c.

Definition accept (sc : string * conn) : D tracker () := λ t,
  match SlaveEntry_init sc.1 sc.2 with
  | None => None
  | Some (Raise e, _) => Some (Raise e, t)
  | Some (Ok s, c) => handle s c t
  end.

(** [incoming]: the connections, in the order [self.sock.accept()] returns them.
    Without another one it waits for ever. At the end the running time is
    computed from [self.start_time], which exists once all ranks are given. *)
Fixpoint accept_slaves (incoming : list (string * conn)) : D tracker () := λ t,
  if decide (Z.of_nat (size (shutdown t)) ≠ nslave t) then
    match incoming with
    | [] => None
    | sc :: incoming' => (accept sc;; accept_slaves incoming') t
    end
  else if started t then Some (Ok (), t) else Some (Raise AttributeError, t).
End tracker.
End Tracker.
