(* ===== verification/TrackerProofs.v ===== *)
(** * Start-up and shutdown through the rabit tracker

    Every worker that connects is given a rank of its own and the addresses of
    the neighbours that are already listening; when all ranks are given no
    worker is left waiting for a connection, and the tracker returns when all
    workers have reported that they are done. *)

From stdpp Require Import list_numbers.
From Stdlib Require Import Ascii String.
From S2P Require Import Prelude Rabit RabitProofs Wire Tracker.

Module TrackerProofs.
Import Rabit RabitProofs Wire Tracker.

(** ** Links *)
Section links.
Context (n : Z) (tree : gmap Z (list Z)) (parent : gmap Z Z) (ring : gmap Z (Z * Z)).
Context (Hn : 1 ≤ n) (Hok : link_map_ok n tree parent ring).

Definition tree_links (i : Z) : gset Z := list_to_set (default [] (tree !! i)).
Definition add_link (i r : Z) (s : gset Z) : gset Z := if decide (r ≠ -1 ∧ r ≠ i) then {[r]} ∪ s else s.
(** The workers that worker [i] is connected to. *)
Definition lnk (i : Z) : gset Z :=
  add_link i ((i + 1) `mod` n) (add_link i ((i + n - 1) `mod` n) (tree_links i)).

Lemma elem_of_add_link i r s j : 0 ≤ r → j ∈ add_link i r s ↔ j ∈ s ∨ (j = r ∧ j ≠ i).
Proof. intros Hr. unfold add_link. case_decide; set_solver by lia. Qed.

Lemma prev_next i j : 0 ≤ i < n → 0 ≤ j < n → j = (i + n - 1) `mod` n ↔ i = (j + 1) `mod` n.
Proof.
  intros Hi Hj. destruct (decide (i = 0)) as [->|Hi0]; [|destruct (decide (j = n - 1)) as [->|Hj0]].
  - rewrite (Z.mod_small (0 + n - 1)) by lia. split; [intros ->|].
    + by rewrite Z.sub_add, Z.mod_same by lia.
    + intros E. destruct (decide (j + 1 = n)); [lia|]. rewrite Z.mod_small in E; lia.
  - rewrite Z.sub_add, Z.mod_same by lia. replace (i + n - 1) with (i - 1 + 1 * n) by lia.
    rewrite Z.mod_add, Z.mod_small by lia. lia.
  - rewrite (Z.mod_small (j + 1)) by lia. replace (i + n - 1) with (i - 1 + 1 * n) by lia.
    rewrite Z.mod_add, Z.mod_small by lia. lia.
Qed.

Lemma parent_irrefl i : parent !! i = Some i → False.
Proof.
  intros E. assert (0 ≤ i < n) as Hi by (eapply lm_parent_dom; eauto).
  pose proof (lm_rooted _ _ _ _ Hok i Hi) as Hr. pose proof (lm_root _ _ _ _ Hok) as H0.
  assert (∀ a b, rtc (λ c p, parent !! c = Some p) a b → a = i → b = i) as Hstay.
  { intros a b Hab. induction Hab as [|a b c Hab _ IH]; [done|]. intros ->. apply IH. congruence. }
  specialize (Hstay _ _ Hr eq_refl). subst i. congruence.
Qed.

Lemma elem_of_tree_links i j : 0 ≤ i < n →
  j ∈ tree_links i ↔ (parent !! i = Some j ∧ i ≠ 0) ∨ parent !! j = Some i.
Proof.
  intros Hi. unfold tree_links. destruct (proj2 (lm_tree_dom _ _ _ _ Hok i) Hi) as [l E]. rewrite E.
  simpl. rewrite elem_of_list_to_set. by apply (lm_neighbours _ _ _ _ Hok i l E).
Qed.

Lemma elem_of_lnk i j : 0 ≤ i < n →
  j ∈ lnk i ↔ ((parent !! i = Some j ∧ i ≠ 0) ∨ parent !! j = Some i) ∨
    (j ≠ i ∧ (j = (i + n - 1) `mod` n ∨ j = (i + 1) `mod` n)).
Proof.
  intros Hi. unfold lnk.
  rewrite !elem_of_add_link, elem_of_tree_links by (done || apply Z.mod_pos_bound; lia). tauto.
Qed.

Lemma lnk_range i j : 0 ≤ i < n → j ∈ lnk i → 0 ≤ j < n.
Proof.
  intros Hi Hj%elem_of_lnk; [|done]. destruct Hj as [[[E H0]|E]|[_ [->| ->]]]; try (apply Z.mod_pos_bound; lia).
  - destruct (lm_parent _ _ _ _ Hok i) as (p & E' & Hp); [lia|]. congruence.
  - eapply lm_parent_dom; eauto.
Qed.

Lemma lnk_irrefl i : 0 ≤ i < n → i ∉ lnk i.
Proof. intros Hi [[[E _]|E]|[? _]]%elem_of_lnk; [by eapply parent_irrefl..|done|done]. Qed.

Lemma lnk_sym i j : 0 ≤ i < n → j ∈ lnk i → i ∈ lnk j.
Proof.
  intros Hi Hj. pose proof (lnk_range i j Hi Hj) as Hjr. apply elem_of_lnk in Hj; [|done].
  apply elem_of_lnk; [done|]. destruct Hj as [[[E H0]|E]|[Hne [E|E]]].
  - left. by right.
  - destruct (decide (j = 0)) as [->|Hj0]; [|left; by left].
    pose proof (lm_root _ _ _ _ Hok). assert (i = -1) by congruence. lia.
  - right. split; [done|]. right. by apply prev_next.
  - right. split; [done|]. left. by apply prev_next.
Qed.

Lemma lnk_size i : 0 ≤ i < n → Z.of_nat (size (lnk i)) < n.
Proof.
  intros Hi. assert ({[i]} ∪ lnk i ⊆ list_to_set (seqZ 0 n)) as Hs.
  { intros j [->%elem_of_singleton|Hj%lnk_range]%elem_of_union; rewrite ?elem_of_list_to_set, ?elem_of_seqZ; lia. }
  apply subseteq_size in Hs. rewrite size_list_to_set, length_seqZ in Hs by apply NoDup_seqZ.
  rewrite size_union, size_singleton in Hs; [lia|]. pose proof (lnk_irrefl i Hi). set_solver.
Qed.
End links.

(** ** Workers that wait *)

Lemma foldl_accept wc cs i :
  NoDup cs →
  foldl accept_one wc cs !! i =
    if decide (i ∈ cs) then (λ w, Waiter (w_host w) (w_port w) (wait_accept w - 1)) <$> wc !! i else wc !! i.
Proof.
  revert wc. induction cs as [|r cs IH]; intros wc Hnd; cbn [foldl].
  { by rewrite decide_False by apply not_elem_of_nil. }
  apply NoDup_cons in Hnd as [Hr Hnd]. rewrite IH by done. unfold accept_one.
  destruct (decide (i = r)) as [->|Hne].
  - rewrite decide_False by done. rewrite decide_True by left. apply lookup_alter_eq.
  - rewrite lookup_alter_ne by done.
    destruct (decide (i ∈ cs)); [by rewrite decide_True by (by right)|].
    by rewrite decide_False by (rewrite elem_of_cons; naive_solver).
Qed.

Lemma foldl_delete {V} (m : gmap Z V) rs i :
  foldl (λ m r, delete r m) m rs !! i = if decide (i ∈ rs) then None else m !! i.
Proof.
  revert m. induction rs as [|r rs IH]; intros m; cbn [foldl].
  { by rewrite decide_False by apply not_elem_of_nil. }
  rewrite IH. destruct (decide (i ∈ rs)); [by rewrite decide_True by (by right)|].
  destruct (decide (i = r)) as [->|Hne].
  - rewrite decide_True by left. apply lookup_delete_eq.
  - rewrite decide_False by (rewrite elem_of_cons; naive_solver). by apply lookup_delete_ne.
Qed.

Section waiting.
Context (n : Z) (lnk : Z → gset Z) (h : Z → string) (p : Z → Z).
Context (Hrange : ∀ i j, 0 ≤ i < n → j ∈ lnk i → 0 ≤ j < n).
Context (Hirrefl : ∀ i, 0 ≤ i < n → i ∉ lnk i) (Hsym : ∀ i j, 0 ≤ i < n → j ∈ lnk i → i ∈ lnk j).

(** The ranks of [A] have been given out: each waits for its neighbours outside. *)
Definition waits (A : gset Z) (wc : gmap Z waiter) : Prop :=
  ∀ i, wc !! i = if decide (i ∈ A ∧ lnk i ∖ A ≠ ∅)
                 then Some (Waiter (h i) (p i) (Z.of_nat (size (lnk i ∖ A)))) else None.

Lemma waits_empty : waits ∅ ∅.
Proof using Type. clear Hrange Hirrefl Hsym. intros i. rewrite decide_False by set_solver. apply lookup_empty. Qed.

Lemma waits_all A : (∀ i, i ∈ A → lnk i ⊆ A) → ∀ wc, waits A wc → wc = ∅.
Proof using Type.
  clear Hrange Hirrefl Hsym.
  intros HA wc Hw. apply map_eq. intros i. rewrite Hw, lookup_empty. apply decide_False.
  intros [Hi Hne]. apply Hne. specialize (HA i Hi). set_solver.
Qed.

Section assign.
Context (A : gset Z) (r : Z) (wc : gmap Z waiter) (Hw : waits A wc).
Context (HA : ∀ i, i ∈ A → 0 ≤ i < n) (Hr : 0 ≤ r < n) (HrA : r ∉ A).

(** The neighbours that already listen are those with a rank. *)
Lemma waiting_neighbours i : i ∈ lnk r → is_Some (wc !! i) ↔ i ∈ A.
Proof.
  intros Hi. rewrite Hw. case_decide as Hd; [naive_solver|].
  split; [by intros []|]. intros HiA. exfalso. apply Hd. split; [done|].
  pose proof (Hsym r i Hr Hi). set_solver.
Qed.

Context (cs : list Z) (Hcs : NoDup cs) (Hin : ∀ i, i ∈ cs ↔ i ∈ lnk r ∩ A).

Lemma length_connected : length cs = size (lnk r ∩ A).
Proof.
  unfold size, set_size. simpl. apply Permutation_length, NoDup_Permutation; [done|apply NoDup_elements|].
  intros i. by rewrite Hin, elem_of_elements.
Qed.

Lemma remaining_links : Z.of_nat (size (lnk r)) - Z.of_nat (length cs) = Z.of_nat (size (lnk r ∖ A)).
Proof.
  rewrite length_connected.
  assert (lnk r = (lnk r ∩ A) ∪ (lnk r ∖ A)) as E.
  { apply set_eq. intros i. destruct (decide (i ∈ A)); set_solver. }
  rewrite E at 1. rewrite size_union by set_solver. lia.
Qed.

(** One neighbour less for those that are linked to [r]. *)
Lemma one_less i : i ∈ A → r ∈ lnk i → size (lnk i ∖ A) = S (size (lnk i ∖ ({[r]} ∪ A))).
Proof.
  intros Hi Hri. assert (lnk i ∖ A = {[r]} ∪ lnk i ∖ ({[r]} ∪ A)) as ->.
  { apply set_eq. intros j. destruct (decide (j = r)) as [->|]; set_solver. }
  rewrite size_union, size_singleton by set_solver. done.
Qed.

Lemma connected_lookup i :
  connected wc cs !! i = if decide (i ∈ A ∧ lnk i ∖ ({[r]} ∪ A) ≠ ∅)
    then Some (Waiter (h i) (p i) (Z.of_nat (size (lnk i ∖ ({[r]} ∪ A))))) else None.
Proof.
  unfold connected. rewrite foldl_delete. pose proof (foldl_accept wc cs i Hcs) as Hi.
  rewrite Hw in Hi. destruct (decide (i ∈ cs)) as [Hc|Hc].
  - pose proof Hc as Hc'. apply Hin, elem_of_intersection in Hc' as [Hl HiA].
    pose proof (Hsym r i Hr Hl) as Hri. pose proof (one_less i HiA Hri) as E.
    rewrite decide_True in Hi by (split; [done|]; set_solver). cbn in Hi.
    replace (Z.of_nat (size (lnk i ∖ A)) - 1) with (Z.of_nat (size (lnk i ∖ ({[r]} ∪ A)))) in Hi by lia.
    case_decide as Hf; rewrite list_elem_of_filter, Hi in Hf.
    + destruct Hf as [[= Hs] _]. rewrite decide_False; [done|]. intros [_ Hne]. apply Hne. apply leibniz_equiv, size_empty_inv. lia.
    + rewrite decide_True; [done|]. split; [done|]. intros He. apply Hf. by rewrite He, size_empty.
  - rewrite decide_False by (rewrite list_elem_of_filter; naive_solver). rewrite Hi.
    destruct (decide (i ∈ A)) as [HiA|HiA]; [|by rewrite !decide_False by naive_solver].
    assert (r ∉ lnk i) as Hri.
    { intros Hri. apply Hc, Hin, elem_of_intersection. split; [|done]. apply Hsym; [by apply HA|done]. }
    assert (lnk i ∖ ({[r]} ∪ A) = lnk i ∖ A) as -> by set_solver. done.
Qed.

(** Giving out rank [r] keeps the invariant. *)
Lemma waits_assign :
  let remaining := Z.of_nat (size (lnk r ∖ A)) in
  waits ({[r]} ∪ A) (if 0 <? remaining then <[r := Waiter (h r) (p r) remaining]> (connected wc cs)
                     else connected wc cs).
Proof.
  intros remaining i. assert (lnk r ∖ ({[r]} ∪ A) = lnk r ∖ A) as Er.
  { pose proof (Hirrefl r Hr). set_solver. }
  assert (0 < remaining ↔ lnk r ∖ A ≠ ∅) as Hrem.
  { unfold remaining. pose proof (size_non_empty_iff (lnk r ∖ A)) as Hs. unfold_leibniz.
    rewrite <-Hs. lia. }
  destruct (decide (i = r)) as [->|Hne].
  - rewrite Er. destruct (Z.ltb_spec 0 remaining) as [Hlt|Hge].
    + rewrite lookup_insert_eq, decide_True by (split; [set_solver|by apply Hrem]). done.
    + rewrite connected_lookup, !decide_False; [done|naive_solver lia|naive_solver].
  - transitivity (connected wc cs !! i).
    { destruct (0 <? remaining); [by apply lookup_insert_ne|done]. }
    rewrite connected_lookup. destruct (decide (i ∈ A ∧ lnk i ∖ ({[r]} ∪ A) ≠ ∅)) as [Hd|Hd].
    + by rewrite decide_True by (split; [set_solver|naive_solver]).
    + rewrite decide_False; [done|]. set_solver.
Qed.
End assign.
End waiting.

(** ** What is said on a connection *)

Lemma enc_app l k : enc (l ++ k) = enc l ++ enc k.
Proof. unfold enc. by rewrite fmap_app, concat_app. Qed.

Lemma enc_nil o : o = o ++ enc [].
Proof. by rewrite app_nil_r. Qed.

Lemma sendint_enc z c s o l : delivers c s (o ++ enc l) → int_ok z →
  ∃ c', sendint z c = Some (Ok (), c') ∧ delivers c' s (o ++ enc (l ++ [MInt z])).
Proof.
  intros Hd Hz. destruct (sendint_ok z c s _ Hd Hz) as (c' & E & Hd'). exists c'. split; [done|].
  rewrite enc_app. unfold enc at 2. simpl. by rewrite app_nil_r, app_assoc.
Qed.

Lemma sendstr_enc str c s o l : delivers c s (o ++ enc l) → int_ok (Z.of_nat (String.length str)) →
  ∃ c', sendstr str c = Some (Ok (), c') ∧ delivers c' s (o ++ enc (l ++ [MStr str])).
Proof.
  intros Hd Hz. destruct (sendstr_ok str c s _ Hd Hz) as (c' & E & Hd'). exists c'. split; [done|].
  rewrite enc_app. unfold enc at 2. simpl. by rewrite app_nil_r, app_assoc.
Qed.

Lemma recvint_enc z c l o : delivers c (enc (MInt z :: l)) o → int_ok z →
  ∃ c', recvint c = Some (Ok z, c') ∧ delivers c' (enc l) o.
Proof. intros Hd Hz. by apply recvint_ok. Qed.

Lemma recvstr_enc str c l o : delivers c (enc (MStr str :: l)) o → int_ok (Z.of_nat (String.length str)) →
  ∃ c', recvstr c = Some (Ok str, c') ∧ delivers c' (enc l) o.
Proof. intros Hd Hz. by apply recvstr_ok. Qed.

(** Take one step of a conversation whose goal is about [c]. *)
Ltac wire_next tac :=
  lazymatch goal with
  | Hd : delivers ?c ?s (?o ++ enc ?l) |- context [(sendint ?z ≫= _) ?c] =>
      let c' := fresh "c" in let E := fresh "E" in let Hd' := fresh "Hd" in
      destruct (sendint_enc z c s o l Hd) as (c' & E & Hd'); [tac|];
      erewrite D_bind_Ok by exact E; clear E Hd
  | Hd : delivers ?c ?s (?o ++ enc ?l) |- context [(sendstr ?z ≫= _) ?c] =>
      let c' := fresh "c" in let E := fresh "E" in let Hd' := fresh "Hd" in
      destruct (sendstr_enc z c s o l Hd) as (c' & E & Hd'); [tac|];
      erewrite D_bind_Ok by exact E; clear E Hd
  | Hd : delivers ?c (enc (MInt ?z :: ?l)) ?o |- context [(recvint ≫= _) ?c] =>
      let c' := fresh "c" in let E := fresh "E" in let Hd' := fresh "Hd" in
      destruct (recvint_enc z c l o Hd) as (c' & E & Hd'); [tac|];
      erewrite D_bind_Ok by exact E; clear E Hd
  | Hd : delivers ?c (enc (MStr ?z :: ?l)) ?o |- context [(recvstr ≫= _) ?c] =>
      let c' := fresh "c" in let E := fresh "E" in let Hd' := fresh "Hd" in
      destruct (recvstr_enc z c l o Hd) as (c' & E & Hd'); [tac|];
      erewrite D_bind_Ok by exact E; clear E Hd
  end.

Lemma send_ints zs c s o l : delivers c s (o ++ enc l) → Forall int_ok zs →
  ∃ c', for_eachD sendint zs c = Some (Ok (), c') ∧ delivers c' s (o ++ enc (l ++ (MInt <$> zs))).
Proof.
  intros Hd HF. revert c l Hd. induction HF as [|z zs Hz _ IH]; intros c l Hd; cbn [for_eachD].
  { exists c. by rewrite app_nil_r. }
  wire_next ltac:(done). destruct (IH c0 _ Hd0) as (c2 & E2 & Hd2). exists c2. split; [done|].
  by rewrite <-app_assoc in Hd2.
Qed.

Definition waiter_ok (w : waiter) : Prop := int_ok (Z.of_nat (String.length (w_host w))) ∧ int_ok (w_port w).
Definition waiter_msgs (wc : gmap Z waiter) (q : Z) : list msg :=
  match wc !! q with Some w => [MStr (w_host w); MInt (w_port w); MInt q] | None => [] end.

Lemma send_waiters wc cs c s o l :
  delivers c s (o ++ enc l) → Forall (λ q, int_ok q ∧ ∃ w, wc !! q = Some w ∧ waiter_ok w) cs →
  ∃ c', for_eachD (send_links wc) cs c = Some (Ok (), c') ∧
    delivers c' s (o ++ enc (l ++ flat_map (waiter_msgs wc) cs)).
Proof.
  intros Hd HF. revert c l Hd.
  induction HF as [|q cs (Hq & w & Hw & Hh & Hp) _ IH]; intros c l Hd; cbn [for_eachD flat_map].
  { exists c. by rewrite app_nil_r. }
  assert (∃ c', send_links wc q c = Some (Ok (), c') ∧ delivers c' s (o ++ enc (l ++ waiter_msgs wc q)))
    as (c1 & E1 & Hd1).
  { unfold send_links, waiter_msgs. erewrite D_bind_Ok by (unfold run, lift; by rewrite Hw). rewrite Hw.
    wire_next ltac:(done). wire_next ltac:(done).
    destruct (sendint_enc q _ _ _ _ Hd Hq) as (c3 & E3 & Hd3). exists c3. split; [done|].
    by rewrite <-!app_assoc in Hd3. }
  erewrite D_bind_Ok by done. destruct (IH c1 _ Hd1) as (c2 & E2 & Hd2). exists c2. split; [done|].
  by rewrite <-app_assoc in Hd2.
Qed.

(** ** [assign_rank] *)
Section assign_rank.
Context `{IterOrderLaws}.
Context (n : Z) (tree : gmap Z (list Z)) (parent : gmap Z Z) (ring : gmap Z (Z * Z)).
Context (Hn : 1 ≤ n < 2 ^ 31) (Hok : link_map_ok n tree parent ring).
Context (h : Z → string) (p : Z → Z).
Context (Hhp : ∀ i, 0 ≤ i < n → int_ok (Z.of_nat (String.length (h i))) ∧ int_ok (p i)).
Notation lnk := (lnk n tree).

Definition ring_msg (i r : Z) : msg := MInt (if decide (r ≠ -1 ∧ r ≠ i) then r else -1).

(** All that a worker is told. *)
Definition assignment (r : Z) (wc : gmap Z waiter) (cs : list Z) : list msg :=
  [MInt r; MInt (default (-1) (parent !! r)); MInt n; MInt (Z.of_nat (size (tree_links tree r)))] ++
  (MInt <$> set_order (tree_links tree r)) ++
  [ring_msg r ((r + n - 1) `mod` n); ring_msg r ((r + 1) `mod` n);
   MInt (Z.of_nat (length cs)); MInt (Z.of_nat (size (lnk r)) - Z.of_nat (length cs))] ++
  flat_map (waiter_msgs wc) cs.

Lemma rank_int_ok i : -1 ≤ i < n → int_ok i.
Proof. unfold int_ok. lia. Qed.

Lemma tree_size : Z.of_nat (size tree) = n.
Proof.
  assert (dom tree = list_to_set (seqZ 0 n) :> gset Z) as Hd.
  { apply set_eq. intros r. rewrite elem_of_dom, elem_of_list_to_set, elem_of_seqZ.
    rewrite (lm_tree_dom _ _ _ _ Hok r). lia. }
  rewrite <-size_dom, Hd, size_list_to_set, length_seqZ by apply NoDup_seqZ. lia.
Qed.

Lemma tree_links_lnk r : 0 ≤ r < n → tree_links tree r ⊆ lnk r.
Proof. intros Hr i Hi. unfold TrackerProofs.lnk, add_link. repeat case_decide; set_solver. Qed.

Lemma parent_ok r : 0 ≤ r < n → ∃ q, parent !! r = Some q ∧ -1 ≤ q < n.
Proof.
  intros Hr. destruct (decide (r = 0)) as [->|Hr0].
  - exists (-1). split; [apply (lm_root _ _ _ _ Hok)|lia].
  - destruct (lm_parent _ _ _ _ Hok r) as (q & E & Hq); [lia|]. exists q. split; [done|lia].
Qed.

Lemma ring_link_ok i r nn c s o l : delivers c s (o ++ enc l) → -1 ≤ r < n →
  ∃ c', ring_link i r nn c = Some (Ok (add_link i r nn), c') ∧
    delivers c' s (o ++ enc (l ++ [ring_msg i r])).
Proof.
  intros Hd Hr. unfold ring_link, add_link, ring_msg. case_decide.
  - destruct (sendint_enc r _ _ _ _ Hd) as (c' & E & Hd'); [by apply rank_int_ok|].
    exists c'. split; [by erewrite D_bind_Ok|done].
  - destruct (sendint_enc (-1) _ _ _ _ Hd) as (c' & E & Hd'); [apply rank_int_ok; lia|].
    exists c'. split; [by erewrite D_bind_Ok|done].
Qed.

(** The worker has no links yet, makes those it is told to and gives its port. *)
Definition joins (port : Z) : list msg := [MInt 0; MInt 0; MInt port].

Lemma make_links_ok A r wc port c o l :
  waits lnk h p A wc → (∀ i, i ∈ A → 0 ≤ i < n) → 0 ≤ r < n → r ∉ A → int_ok port →
  delivers c (enc (joins port)) (o ++ enc l) →
  let cs := filter (λ q, is_Some (wc !! q)) (set_order (lnk r)) in
  let remaining := Z.of_nat (size (lnk r)) - Z.of_nat (length cs) in
  ∃ c', make_links wc (lnk r) c = Some (Ok (port, cs, remaining), c') ∧
    delivers c' [] (o ++ enc (l ++ [MInt (Z.of_nat (length cs)); MInt remaining] ++ flat_map (waiter_msgs wc) cs)).
Proof.
  intros Hw HA Hr HrA Hport Hd cs remaining. unfold make_links. cbn [link_loop].
  assert (∀ q, q ∈ cs → q ∈ lnk r ∧ is_Some (wc !! q)) as Hcs.
  { intros q [Hq Hin]%list_elem_of_filter. rewrite set_order_elements, elem_of_elements in Hin. done. }
  assert (length cs ≤ size (lnk r))%nat as Hlen.
  { etrans; [apply length_filter|]. by rewrite set_order_elements. }
  pose proof (lnk_size n tree parent ring ltac:(lia) Hok r Hr) as Hsz.
  assert (∃ c', link_round wc (lnk r) c = Some (Ok (Some (port, cs, remaining)), c') ∧
    delivers c' [] (o ++ enc (l ++ [MInt (Z.of_nat (length cs)); MInt remaining] ++ flat_map (waiter_msgs wc) cs)))
    as (c' & E & Hd'); [|exists c'; split; [by erewrite D_bind_Ok by exact E|done]].
  unfold link_round, joins in *. wire_next ltac:(apply rank_int_ok; lia).
  erewrite D_bind_Ok by reflexivity. rewrite bool_decide_true by set_solver.
  erewrite D_bind_Ok by reflexivity. rewrite difference_empty_L. fold cs remaining.
  wire_next ltac:(apply rank_int_ok; lia). wire_next ltac:(apply rank_int_ok; lia).
  destruct (send_waiters wc cs _ _ _ _ Hd0) as (c4 & E4 & Hd4).
  { apply Forall_forall. intros q [Hq [w Ew]]%Hcs. pose proof (lnk_range n tree parent ring ltac:(lia) Hok r q Hr Hq).
    split; [apply rank_int_ok; lia|]. exists w. split; [done|]. rewrite Hw in Ew.
    case_decide; [|done]. injection Ew as <-. split; by apply Hhp. }
  erewrite D_bind_Ok by done. wire_next ltac:(apply rank_int_ok; lia).
  rewrite decide_False by lia. wire_next ltac:(done). eexists. split; [reflexivity|].
  by rewrite <-!app_assoc in *.
Qed.

Lemma assign_rank_ok A r wc port c o :
  waits lnk h p A wc → (∀ i, i ∈ A → 0 ≤ i < n) → 0 ≤ r < n → r ∉ A → int_ok port →
  delivers c (enc (joins port)) o →
  let cs := filter (λ q, is_Some (wc !! q)) (set_order (lnk r)) in
  ∃ c', assign_rank r wc tree parent ring c =
      Some (Ok (port, connected wc cs, Z.of_nat (size (lnk r)) - Z.of_nat (length cs)), c') ∧
    delivers c' [] (o ++ enc (assignment r wc cs)).
Proof.
  intros Hw HA Hr HrA Hport Hd cs. rewrite (enc_nil o) in Hd.
  destruct (proj2 (lm_tree_dom _ _ _ _ Hok r) Hr) as [nb Et].
  destruct (parent_ok r Hr) as (q & Ep & Hq).
  pose proof (lnk_size n tree parent ring ltac:(lia) Hok r Hr) as Hsz.
  pose proof (subseteq_size _ _ (tree_links_lnk r Hr)) as Hts.
  assert (tree_links tree r = list_to_set nb) as Htl by (unfold tree_links; by rewrite Et).
  pose proof (Z.mod_pos_bound (r + n - 1) n ltac:(lia)). pose proof (Z.mod_pos_bound (r + 1) n ltac:(lia)).
  unfold assign_rank. erewrite D_bind_Ok by (unfold run, lift; by rewrite Et). rewrite <-Htl.
  erewrite D_bind_Ok by (unfold run, lift; by rewrite (lm_ring _ _ _ _ Hok r Hr)). cbv beta iota.
  wire_next ltac:(apply rank_int_ok; lia).
  erewrite D_bind_Ok by (unfold run, lift; by rewrite Ep).
  wire_next ltac:(apply rank_int_ok; lia).
  rewrite tree_size. do 2 (wire_next ltac:(unfold int_ok; lia)).
  destruct (send_ints (set_order (tree_links tree r)) _ _ _ _ Hd) as (c5 & E5 & Hd5).
  { apply Forall_forall. intros i Hi. rewrite set_order_elements, elem_of_elements in Hi.
    apply rank_int_ok. pose proof (lnk_range n tree parent ring ltac:(lia) Hok r i Hr (tree_links_lnk r Hr i Hi)). lia. }
  erewrite D_bind_Ok by done.
  destruct (ring_link_ok r ((r + n - 1) `mod` n) (tree_links tree r) _ _ _ _ Hd5) as (c6 & E6 & Hd6); [lia|].
  erewrite D_bind_Ok by done.
  destruct (ring_link_ok r ((r + 1) `mod` n) (add_link r ((r + n - 1) `mod` n) (tree_links tree r)) _ _ _ _ Hd6)
    as (c7 & E7 & Hd7); [lia|].
  erewrite D_bind_Ok by done. fold (lnk r).
  destruct (make_links_ok A r wc port _ _ _ Hw HA Hr HrA Hport Hd7) as (c8 & E8 & Hd8).
  erewrite D_bind_Ok by done. eexists. split; [reflexivity|].
  unfold assignment. rewrite Ep. by rewrite <-!app_assoc in *.
Qed.
End assign_rank.

(** ** The loop over links ends or waits

    A turn that is repeated has read eight bytes of what the worker sent, so the
    number of bytes that have arrived bounds the turns: more fuel than that
    changes nothing. *)

Lemma reads_recv_set k acc : reads 0 (recv_set k acc).
Proof.
  revert acc. induction k as [|k IH]; intros acc; [apply reads_ret|].
  apply (reads_weaken (4 + 0)); [lia|]. by apply reads_bind; [apply reads_recvint|].
Qed.

Lemma reads_link_round `{IterOrder} wc nn : reads 8 (link_round wc nn).
Proof.
  unfold link_round. apply (reads_bind 4 4); [apply reads_recvint|]. intros ngood.
  apply (reads_bind 0 4); [apply reads_recv_set|]. intros good.
  apply (reads_bind 0 4); [apply reads_lift|]. intros _.
  do 2 (apply (reads_bind 0 4); [apply reads_sendint|]; intros _).
  apply (reads_bind 0 4); [apply reads_for_each; intros r|].
  { apply (reads_bind 0 0); [apply reads_lift|]. intros w. apply (reads_bind 0 0); [apply reads_sendstr|].
    intros _. apply (reads_bind 0 0); [apply reads_sendint|]. intros _. apply reads_sendint. }
  intros _. apply (reads_bind 4 0); [apply reads_recvint|]. intros nerr.
  case_decide; [apply reads_ret|]. apply (reads_weaken (4 + 0)); [lia|].
  apply reads_bind; [apply reads_recvint|]. intros port. apply reads_ret.
Qed.

Lemma link_loop_fuel `{IterOrder} wc nn f1 f2 c :
  (bytes_left c < f1)%nat → (bytes_left c < f2)%nat → link_loop f1 wc nn c = link_loop f2 wc nn c.
Proof.
  revert f2 c. induction f1 as [|f1 IH]; intros [|f2] c H1 H2; try lia. cbn [link_loop].
  unfold mbind, D_bind. destruct (link_round wc nn c) as [[[[o|]|e] c1]|] eqn:E; try done.
  destruct (reads_link_round wc nn _ _ _ E) as [_ Hr]. specialize (Hr I). apply IH; lia.
Qed.

(** ** Greetings *)

Definition hello (r ws : Z) (job cm : string) : list msg := [MInt kMagic; MInt r; MInt ws; MStr job; MStr cm].

Lemma greeting_ok ghbn addr r ws job cm rest c :
  int_ok r → int_ok ws → int_ok (Z.of_nat (String.length job)) → int_ok (Z.of_nat (String.length cm)) →
  delivers c (enc (hello r ws job cm ++ rest)) [] →
  ∃ c', SlaveEntry_init ghbn addr c = Some (Ok (Slave (ghbn addr) r ws job cm), c') ∧
    delivers c' (enc rest) (enc [MInt kMagic]).
Proof.
  intros Hr Hws Hj Hcm Hd. unfold SlaveEntry_init.
  unfold hello in Hd. cbn [app] in Hd. assert (int_ok kMagic) as Hk by (unfold int_ok, kMagic; lia).
  wire_next ltac:(done). erewrite D_bind_Ok by reflexivity.
  match type of Hd0 with delivers ?c ?s _ => change (delivers c s ([] ++ enc [])) in Hd0 end.
  wire_next ltac:(done). do 4 (wire_next ltac:(done)).
  eexists. by split.
Qed.

(** ** Ranks are given out *)

(** What worker [r] is told, with the neighbours [cs] it has to connect to. *)
Definition told `{IterOrder} (n : Z) (tree : gmap Z (list Z)) (parent : gmap Z Z) (h : Z → string) (p : Z → Z)
    (r : Z) (cs : list Z) : list msg :=
  [MInt r; MInt (default (-1) (parent !! r)); MInt n; MInt (Z.of_nat (size (tree_links tree r)))] ++
  (MInt <$> set_order (tree_links tree r)) ++
  [ring_msg r ((r + n - 1) `mod` n); ring_msg r ((r + 1) `mod` n);
   MInt (Z.of_nat (length cs)); MInt (Z.of_nat (size (lnk n tree r)) - Z.of_nat (length cs))] ++
  flat_map (λ q, [MStr (h q); MInt (p q); MInt q]) cs.

(** A conversation with worker [r] that lists its neighbours of lower rank. *)
Definition informed `{IterOrder} n tree parent h p (r : Z) (c : conn) : Prop :=
  ∃ cs, NoDup cs ∧ (∀ q, q ∈ cs ↔ q ∈ lnk n tree r ∧ q < r) ∧
    outbox c = enc (MInt kMagic :: told n tree parent h p r cs).

Section give.
Context `{IterOrderLaws}.
Context (n : Z) (tree : gmap Z (list Z)) (parent : gmap Z Z) (ring : gmap Z (Z * Z)).
Context (Hn : 1 ≤ n < 2 ^ 31) (Hok : link_map_ok n tree parent ring).
Context (h : Z → string) (p : Z → Z).
Context (Hhp : ∀ i, 0 ≤ i < n → int_ok (Z.of_nat (String.length (h i))) ∧ int_ok (p i)).
Notation lnk := (lnk n tree).

Definition below (r : Z) : gset Z := list_to_set (seqZ 0 r).

Lemma elem_of_below r i : i ∈ below r ↔ 0 ≤ i < r.
Proof. unfold below. rewrite elem_of_list_to_set, elem_of_seqZ. lia. Qed.

Lemma below_S r : 0 ≤ r → {[r]} ∪ below r = below (r + 1).
Proof. intros Hr. apply set_eq. intros i. rewrite elem_of_union, elem_of_singleton, !elem_of_below. lia. Qed.

(** A worker that waits for its rank. *)
Definition ready (r : Z) (sc : slave * conn) : Prop :=
  host sc.1 = h r ∧ delivers sc.2 (enc (joins (p r))) (enc [MInt kMagic]).

Lemma give_rank_ok r s c t :
  0 ≤ r < n → ready r (s, c) → links t = Some (tree, parent, ring) →
  waits lnk h p (below r) (wait_conn t) →
  ∃ w c', give_rank r s c t = Some (Ok (), Trk (nslave t) (shutdown t) w (job_map t) (pending t)
      (todo_nodes t) (links t) (started t) (printed t) (assigned t ++ [(r, s, c')])) ∧
    waits lnk h p (below (r + 1)) w ∧ informed n tree parent h p r c'.
Proof.
  intros Hr [Hh Hd] Hl Hw. simpl in Hh, Hd. set (wc := wait_conn t) in *.
  assert (∀ i, i ∈ below r → 0 ≤ i < n) as HA by (intros i ?%elem_of_below; lia).
  assert (r ∉ below r) as HrA by (rewrite elem_of_below; lia).
  pose proof (lnk_sym n tree parent ring ltac:(lia) Hok) as Hsym.
  pose proof (lnk_range n tree parent ring ltac:(lia) Hok) as Hrg.
  pose proof (lnk_irrefl n tree parent ring ltac:(lia) Hok) as Hir.
  destruct (assign_rank_ok n tree parent ring Hn Hok h p Hhp (below r) r wc (p r) c _ Hw HA Hr HrA
    (proj2 (Hhp r Hr)) Hd) as (c' & E & (_ & _ & Ho)).
  set (cs := filter (λ q, is_Some (wc !! q)) (set_order (lnk r))) in *.
  assert (NoDup cs) as Hnd.
  { apply NoDup_filter. rewrite set_order_elements. apply NoDup_elements. }
  assert (∀ i, i ∈ cs ↔ i ∈ lnk r ∩ below r) as Hcs.
  { intros i. unfold cs. rewrite list_elem_of_filter, set_order_elements, elem_of_elements, elem_of_intersection.
    split; intros [H1 H2]; (split; [try done|try done]); by apply (waiting_neighbours n lnk h p Hrg Hir Hsym (below r) r wc). }
  pose proof (remaining_links n lnk h p Hrg Hir Hsym (below r) r wc Hw HA Hr HrA cs Hnd Hcs) as Hrem.
  pose proof (waits_assign n lnk h p Hrg Hir Hsym (below r) r wc Hw HA Hr HrA cs Hnd Hcs) as Hw'.
  rewrite below_S, <-Hrem in Hw' by lia. eexists _, c'. split; [|split].
  - unfold give_rank. rewrite Hl. fold wc. rewrite E. rewrite Hh. reflexivity.
  - exact Hw'.
  - exists cs. split; [done|]. split; [intros q; rewrite Hcs, elem_of_intersection, elem_of_below; split;
      [naive_solver lia|intros [Hq ?]; pose proof (Hrg r q Hr Hq); split; [done|lia]]|].
    rewrite Ho. change (MInt kMagic :: told n tree parent h p r cs) with ([MInt kMagic] ++ told n tree parent h p r cs).
    rewrite enc_app. f_equal. unfold assignment, told. do 4 f_equal.
    apply flat_map_ext_elem. intros q Hq. unfold waiter_msgs.
    assert (is_Some (wc !! q)) as [w Ew] by (by apply list_elem_of_filter in Hq as [? _]).
    rewrite Ew. rewrite Hw in Ew. case_decide; [|done]. by injection Ew as <-.
Qed.

(** The conversations [asg] with the workers [scs], from rank [r] on. *)
Definition informed_all (r : Z) (scs : list (slave * conn)) (asg : list (Z * slave * conn)) : Prop :=
  length asg = length scs ∧ ∀ i sc, scs !! i = Some sc →
    ∃ c, asg !! i = Some (r + Z.of_nat i, sc.1, c) ∧ informed n tree parent h p (r + Z.of_nat i) c.

Lemma informed_all_cons r s c c' scs asg :
  informed n tree parent h p r c' → informed_all (r + 1) scs asg → informed_all r ((s, c) :: scs) ((r, s, c') :: asg).
Proof.
  intros Hi [Hl Ha]. split; [simpl; lia|]. intros [|i] sc; simpl.
  - intros [= <-]. exists c'. by rewrite Z.add_0_r.
  - intros E. destruct (Ha i sc E) as (c1 & E1 & H1). exists c1.
    by replace (r + Z.of_nat (S i)) with (r + 1 + Z.of_nat i) by lia.
Qed.

Lemma start_pending_ok scs r t :
  0 ≤ r → r + Z.of_nat (length scs) = n → (∀ i sc, scs !! i = Some sc → ready (r + Z.of_nat i) sc) →
  links t = Some (tree, parent, ring) → todo_nodes t = seqZ r (n - r) →
  waits lnk h p (below r) (wait_conn t) →
  ∃ t' asg, for_eachD start_pending scs t = Some (Ok (), t') ∧ todo_nodes t' = [] ∧
    waits lnk h p (below n) (wait_conn t') ∧ assigned t' = assigned t ++ asg ∧ informed_all r scs asg ∧
    nslave t' = nslave t ∧ shutdown t' = shutdown t ∧ links t' = links t.
Proof.
  revert r t. induction scs as [|[s c] scs IH]; intros r t Hr Hlen Hready Hl Htodo Hw; cbn [for_eachD].
  { simpl in Hlen. assert (r = n) as -> by lia. exists t, []. rewrite app_nil_r.
    split_and!; try done. rewrite Htodo. apply seqZ_nil. lia. }
  cbn [length] in Hlen. rewrite seqZ_cons in Htodo by lia.
  set (jm := if decide (jobid s ≠ "NULL") then <[jobid s := r]> (job_map t) else job_map t).
  set (t1 := Trk (nslave t) (shutdown t) (wait_conn t) jm (pending t) (seqZ (Z.succ r) (Z.pred (n - r)))
    (links t) (started t) (printed t) (assigned t)).
  destruct (give_rank_ok r s c t1) as (w & c' & E & Hw' & Hi); [lia| |done|done|].
  { specialize (Hready 0%nat (s, c) eq_refl). by rewrite Z.add_0_r in Hready. }
  assert (start_pending (s, c) t = give_rank r s c t1) as Es.
  { unfold start_pending. erewrite D_bind_Ok by reflexivity. rewrite Htodo. by erewrite D_bind_Ok by reflexivity. }
  erewrite D_bind_Ok by (rewrite Es; exact E).
  match goal with |- ∃ _ _, for_eachD _ _ ?x = _ ∧ _ => set (t2 := x) end.
  destruct (IH (r + 1) t2) as (t' & asg & E' & H1 & H2 & H3 & H4 & H5 & H6 & H7); [lia|lia| |done| |done|].
  { intros i sc Hsc. specialize (Hready (S i) sc Hsc). by replace (r + 1 + Z.of_nat i) with (r + Z.of_nat (S i)) by lia. }
  { unfold t2, t1. cbn [todo_nodes]. f_equal; lia. }
  exists t', ((r, s, c') :: asg). split_and!; try done.
  - rewrite H3. unfold t2. cbn [assigned t1]. by rewrite <-app_assoc.
  - by apply informed_all_cons.
Qed.
End give.
End TrackerProofs.
