(* ===== verification/TrackerRun.v ===== *)
(** * A whole run of the rabit tracker

    The connections of a job, from the first worker that asks for a rank to the
    last that reports the end, taken through [Tracker.accept_slaves]. *)

From stdpp Require Import list_numbers.
From Stdlib Require Import Ascii String.
From S2P Require Import Prelude Rabit RabitProofs Wire Tracker TrackerProofs.

Module TrackerRun.
Import Rabit RabitProofs Wire Tracker TrackerProofs.

(** ** Sorting *)

Lemma insert_host_perm s l : insert_host s l ≡ₚ s :: l.
Proof.
  induction l as [|x l IH]; simpl; [done|]. case_match; [done|]. rewrite IH. apply perm_swap.
Qed.

Lemma sort_hosts_perm l : sort_hosts l ≡ₚ l.
Proof.
  unfold sort_hosts. cut (∀ acc, foldl (λ acc s, insert_host s acc) acc l ≡ₚ l ++ acc).
  { intros Hc. by rewrite Hc, app_nil_r. }
  induction l as [|s l IH]; intros acc; simpl; [done|]. by rewrite IH, insert_host_perm, <-Permutation_middle.
Qed.

Lemma Forall_choose {A B} (P : A → B → Prop) l : Forall (λ x, ∃ y, P x y) l → ∃ k, Forall2 P l k.
Proof.
  induction 1 as [|x l (y & Hy) _ (k & Hk)]; [by exists []|]. exists (y :: k). by constructor.
Qed.

(** ** The workers of a job *)

(** A worker that asks for a rank: its address and connection, its job id, the
    world size it knows (or -1), and the port on which it listens. *)
Record worker : Type := Worker {
  k_addr : string; k_conn : conn; k_job : string; k_world : Z; k_port : Z
}.

Definition str_ok (s : string) : Prop := int_ok (Z.of_nat (String.length s)).

Section run.
Context `{IterOrderLaws} (recursion_limit : nat) (ghbn : string → string).
Context (n : Z) (tree : gmap Z (list Z)) (parent : gmap Z Z) (ring : gmap Z (Z * Z)).
Context (Hn : 1 ≤ n < 2 ^ 31) (Hok : link_map_ok n tree parent ring).
Context (Hlinks : get_link_map recursion_limit n = Ok (tree, parent, ring)).

Definition worker_ok (w : worker) : Prop :=
  delivers (k_conn w) (enc (hello (-1) (k_world w) (k_job w) "start" ++ joins (k_port w))) [] ∧
  (k_world w = -1 ∨ k_world w = n) ∧ int_ok (k_port w) ∧ str_ok (k_job w) ∧ str_ok (ghbn (k_addr w)).

(** A worker whose greeting has been read. *)
Definition greeted (sc : slave * conn) (port : Z) : Prop :=
  delivers sc.2 (enc (joins port)) (enc [MInt kMagic]) ∧ int_ok port ∧ str_ok (host sc.1).

(** Before the ranks are given out. *)
Definition collecting (scs : list (slave * conn)) (o : option (gmap Z (list Z) * gmap Z Z * gmap Z (Z * Z))) :
    tracker :=
  Trk n ∅ ∅ ∅ scs (match o with None => [] | Some _ => seqZ 0 n end) o false [] [].

Definition greeting_of (w : worker) : slave := Slave (ghbn (k_addr w)) (-1) (k_world w) (k_job w) "start".

Lemma accept_start w scs o :
  worker_ok w → o = None ∨ o = Some (tree, parent, ring) →
  ∃ c, accept recursion_limit ghbn (k_addr w, k_conn w) (collecting scs o) =
      wait_for_rank (greeting_of w) c (collecting scs (Some (tree, parent, ring))) ∧
    greeted (greeting_of w, c) (k_port w).
Proof.
  intros (Hd & Hw & Hp & Hj & Hh) Ho.
  assert (int_ok (k_world w)) as Hwi by (unfold int_ok in *; lia).
  destruct (greeting_ok ghbn (k_addr w) (-1) (k_world w) (k_job w) "start" (joins (k_port w)) (k_conn w))
    as (c & E & Hd'); [by unfold int_ok; lia|done|done|by vm_compute|done|].
  exists c. split; [|done]. unfold accept. cbn [fst snd]. rewrite E. fold (greeting_of w). unfold handle.
  do 2 (rewrite decide_False by done). erewrite D_bind_Ok by reflexivity.
  assert (init_links recursion_limit (greeting_of w) (collecting scs o) =
    (Ok (), collecting scs (Some (tree, parent, ring)))) as Ei.
  { unfold init_links. destruct Ho as [-> | ->]; erewrite bind_Ok by reflexivity; cbn.
    - destruct (Z.ltb_spec 0 (k_world w)).
      + assert (k_world w = n) as -> by lia. unfold mbind, M_bind, m_assert, lift. simpl. by rewrite Hlinks.
      + unfold mbind, M_bind, m_assert, lift. simpl. by rewrite Hlinks.
    - unfold m_assert, lift. by rewrite bool_decide_true. }
  erewrite D_bind_Ok by (unfold run; by rewrite Ei). rewrite decide_False by done.
  do 2 (erewrite D_bind_Ok by reflexivity). unfold decide_rank. cbn [rank jobid job_map collecting].
  rewrite decide_True; [done|]. simpl. case_decide; [by rewrite lookup_empty|done].
Qed.

(** All ranks are given out. *)
Definition all_started (pend : list (slave * conn)) (t : tracker) : Prop :=
  nslave t = n ∧ shutdown t = ∅ ∧ wait_conn t = ∅ ∧ started t = true ∧
  links t = Some (tree, parent, ring) ∧
  ∃ h p, (∀ i sc, sort_hosts pend !! i = Some sc → h (Z.of_nat i) = host sc.1 ∧ greeted sc (p (Z.of_nat i))) ∧
    informed_all n tree parent h p 0 (sort_hosts pend) (assigned t).

Lemma last_worker s c scs port :
  Z.of_nat (length scs) + 1 = n → Forall (λ sc, ∃ q, greeted sc q) scs → greeted (s, c) port →
  ∃ t, wait_for_rank s c (collecting scs (Some (tree, parent, ring))) = Some (Ok (), t) ∧
    all_started (scs ++ [(s, c)]) t.
Proof.
  intros Hlen Hg Hs. set (pend := scs ++ [(s, c)]). set (srt := sort_hosts pend).
  assert (length pend = Z.to_nat n) as Hl by (unfold pend; rewrite length_app; simpl; lia).
  assert (length srt = Z.to_nat n) as Hls by (unfold srt; by rewrite sort_hosts_perm).
  assert (Forall (λ sc, ∃ q, greeted sc q) srt) as HF.
  { unfold srt. rewrite sort_hosts_perm. apply Forall_app. split; [done|]. apply Forall_singleton. by exists port. }
  destruct (Forall_choose _ _ HF) as (ports & HF2).
  set (h i := default "" (host ∘ fst <$> srt !! Z.to_nat i)). set (p i := default 0 (ports !! Z.to_nat i)).
  assert (∀ i sc, srt !! i = Some sc → h (Z.of_nat i) = host sc.1 ∧ greeted sc (p (Z.of_nat i))) as Hhp.
  { intros i sc Hi. unfold h, p. rewrite Nat2Z.id, Hi. split; [done|].
    destruct (Forall2_lookup_l _ _ _ _ _ HF2 Hi) as (q & -> & Hq). done. }
  assert (∀ i, 0 ≤ i < n → int_ok (Z.of_nat (String.length (h i))) ∧ int_ok (p i)) as Hint.
  { intros i Hi. destruct (lookup_lt_is_Some_2 srt (Z.to_nat i)) as [sc Hsc]; [lia|].
    destruct (Hhp _ _ Hsc) as [Hh (_ & Hq & Hs')]. rewrite Z2Nat.id in * by lia. rewrite Hh. done. }
  set (t1 := add_pending srt (collecting scs (Some (tree, parent, ring)))).
  destruct (start_pending_ok n tree parent ring Hn Hok h p Hint srt 0 t1) as
    (t' & asg & E & Htodo & Hw & Ha & Hinf & Hns & Hsh & Hlk); [lia|lia| |done|by cbn; f_equal; lia|..].
  { intros i sc Hi. destruct (Hhp i sc Hi) as [Hh (Hd & _)]. by split. }
  { change (below 0) with (∅ : gset Z). apply waits_empty. }
  exists (set_started t'). split.
  - unfold wait_for_rank. erewrite D_bind_Ok by reflexivity. cbn [todo_nodes collecting pending].
    rewrite bool_decide_true by (rewrite seqZ_cons by lia; done). erewrite D_bind_Ok by reflexivity.
    fold pend. rewrite decide_True by (rewrite length_seqZ; done). fold srt.
    erewrite D_bind_Ok by (erewrite D_bind_Ok by reflexivity; exact E).
    erewrite D_bind_Ok by reflexivity. by rewrite decide_True.
  - split_and!; try done.
    + simpl. apply (waits_all (lnk n tree) h p (below n)); [|done].
      intros i Hi%elem_of_below j Hj. apply elem_of_below.
      by apply (lnk_range n tree parent ring ltac:(lia) Hok i j).
    + exists h, p. split; [done|]. cbn [assigned set_started]. rewrite Ha. done.
Qed.

Lemma early_worker s c scs :
  Z.of_nat (length scs) + 1 < n →
  wait_for_rank s c (collecting scs (Some (tree, parent, ring))) =
    Some (Ok (), collecting (scs ++ [(s, c)]) (Some (tree, parent, ring))).
Proof.
  intros Hlen. unfold wait_for_rank. erewrite D_bind_Ok by reflexivity. cbn [todo_nodes collecting pending].
  rewrite bool_decide_true by (rewrite seqZ_cons by lia; done). erewrite D_bind_Ok by reflexivity.
  rewrite decide_False by (rewrite length_seqZ, length_app; simpl; lia).
  erewrite D_bind_Ok by reflexivity. erewrite D_bind_Ok by reflexivity.
  rewrite decide_False; [done|]. cbn. rewrite seqZ_cons by lia. done.
Qed.

Definition conn_of (w : worker) : string * conn := (k_addr w, k_conn w).

(** The greetings of [ws] after those of [scs] lead to [all_started]. *)
Lemma collect_ok ws scs o rest :
  ws ≠ [] → Z.of_nat (length scs + length ws) = n → Forall worker_ok ws →
  Forall (λ sc, ∃ q, greeted sc q) scs → o = None ∨ o = Some (tree, parent, ring) →
  ∃ t pend, accept_slaves recursion_limit ghbn ((conn_of <$> ws) ++ rest) (collecting scs o) =
      accept_slaves recursion_limit ghbn rest t ∧ all_started (scs ++ pend) t ∧ pend.*1 = greeting_of <$> ws.
Proof.
  revert scs o. induction ws as [|w ws IH]; intros scs o Hne Hlen Hws Hg Ho; [done|]. clear Hne.
  apply Forall_cons in Hws as [Hw Hws]. destruct (accept_start w scs o Hw Ho) as (c & E & Hc).
  cbn [fmap list_fmap app accept_slaves length] in *.
  rewrite decide_True by (cbn [shutdown nslave collecting]; rewrite size_empty; lia).
  destruct ws as [|w' ws].
  - destruct (last_worker (greeting_of w) c scs (k_port w)) as (t & Et & Ht); [simpl in Hlen; lia|done|done|].
    exists t, [(greeting_of w, c)]. split; [|done]. erewrite D_bind_Ok; [reflexivity|].
    unfold conn_of. by rewrite E.
  - destruct (IH (scs ++ [(greeting_of w, c)]) (Some (tree, parent, ring))) as (t & pend & Et & Ht & Hp);
      [done|rewrite length_app; simpl in *; lia|done| |by right|].
    { apply Forall_app. split; [done|]. apply Forall_singleton. eauto. }
    exists t, ((greeting_of w, c) :: pend). rewrite <-app_assoc in Ht. split_and!; [|done|by rewrite fmap_cons, Hp].
    erewrite D_bind_Ok; [exact Et|]. unfold conn_of at 1. rewrite E. apply early_worker. simpl in Hlen. lia.
Qed.

(** A connection that reports the end of worker [r]. *)
Definition reports (r : Z) (d : string * conn) : Prop :=
  ∃ ws job rest, delivers d.2 (enc (hello r ws job "shutdown" ++ rest)) [] ∧ int_ok ws ∧ str_ok job.

Definition with_shutdown (S : gset Z) (t : tracker) : tracker :=
  Trk (nslave t) S (wait_conn t) (job_map t) (pending t) (todo_nodes t) (links t) (started t) (printed t)
    (assigned t).

Lemma shutdown_ok rs ds S t rest :
  nslave t = n → started t = true → wait_conn t = ∅ → shutdown t = S →
  Forall2 reports rs ds → NoDup rs → (∀ r, r ∈ rs → 0 ≤ r < n ∧ r ∉ S) →
  Z.of_nat (size S) + Z.of_nat (length rs) = n →
  accept_slaves recursion_limit ghbn (ds ++ rest) t = Some (Ok (), with_shutdown (list_to_set rs ∪ S) t).
Proof.
  intros Hns Hst Hw HS HF. revert t S Hns Hst Hw HS.
  induction HF as [|r d rs ds (ws & job & more & Hd & Hws & Hj) _ IH]; intros t S Hns Hst Hw HS Hnd Hrs Hlen.
  { assert (with_shutdown (list_to_set [] ∪ S) t = t) as ->.
    { rewrite <-HS. destruct t. unfold with_shutdown. simpl. by rewrite union_empty_l_L. }
    destruct rest as [|d rest]; cbn [app accept_slaves];
      (rewrite decide_False by (rewrite HS, Hns; simpl in Hlen; lia)); by rewrite Hst. }
  apply NoDup_cons in Hnd as [Hr Hnd]. destruct (Hrs r) as [Hrn HrS]; [left|]. cbn [app accept_slaves length] in *.
  rewrite decide_True by (rewrite HS, Hns; lia).
  destruct (greeting_ok ghbn d.1 r ws job "shutdown" more d.2) as (c & E & _);
    [unfold int_ok; lia|done|done|by vm_compute|done|].
  assert (accept recursion_limit ghbn d t = Some (Ok (), with_shutdown ({[r]} ∪ S) t)) as Ea.
  { unfold accept. rewrite E. unfold handle. cbn [cmd rank]. rewrite decide_False by done. rewrite decide_True by done.
    unfold run. erewrite bind_Ok by reflexivity. rewrite (bool_decide_true (0 ≤ r ∧ _)) by (rewrite HS; split; [lia|done]).
    erewrite bind_Ok by reflexivity. rewrite bool_decide_true by (by rewrite Hw, lookup_empty).
    erewrite bind_Ok by reflexivity. unfold modify. by rewrite HS. }
  erewrite D_bind_Ok by exact Ea. rewrite (IH (with_shutdown ({[r]} ∪ S) t) ({[r]} ∪ S)); try done.
  - f_equal. f_equal. unfold with_shutdown. cbn. f_equal. set_solver.
  - intros q Hq. destruct (Hrs q) as [Hqn HqS]; [by right|]. split; [done|]. set_solver.
  - rewrite size_union, size_singleton by set_solver. lia.
Qed.
End run.

(** C20: A job of [n] workers that connect in any order, and report their end in
    any order, is served to the end: the tracker returns, no worker is left
    waiting for a connection, the ranks 0 to [n - 1] are given out in the order
    of the workers' hosts, one to each, and rank [r] is told its parent, its tree
    and ring links, the address of each neighbour with a lower rank, and how
    many neighbours will connect to it; however the network cuts the messages
    and in whatever order Python enumerates its sets. *)
Theorem tracker_completes `{IterOrderLaws} (recursion_limit : nat) (ghbn : string → string) n ws rs ds rest :
  1 ≤ n < 2 ^ 31 → n < 2 ^ Z.of_nat recursion_limit →
  Z.of_nat (length ws) = n → Forall (worker_ok ghbn n) ws →
  rs ≡ₚ seqZ 0 n → Forall2 reports rs ds →
  ∃ tree parent ring pend t h p,
    accept_slaves recursion_limit ghbn ((conn_of <$> ws) ++ ds ++ rest) (trk_init n) = Some (Ok (), t) ∧
    link_map_ok n tree parent ring ∧
    wait_conn t = ∅ ∧ shutdown t = list_to_set (seqZ 0 n) ∧ pend.*1 = greeting_of ghbn <$> ws ∧
    (∀ i sc, sort_hosts pend !! i = Some sc → h (Z.of_nat i) = host sc.1 ∧ greeted sc (p (Z.of_nat i))) ∧
    informed_all n tree parent h p 0 (sort_hosts pend) (assigned t).
Proof.
  intros Hn Hlim Hlen Hws Hrs Hds.
  destruct (link_map_spec recursion_limit n) as (tree & parent & ring & El & Hok); [lia|].
  destruct (collect_ok recursion_limit ghbn n tree parent ring Hn Hok El ws [] None (ds ++ rest))
    as (t & pend & E & (Hns & Hsh & Hwc & Hst & Hlk & h & p & Hhp & Hinf) & Hp);
    [by intros ->; simpl in Hlen; lia|simpl; lia|done|done|by left|].
  pose proof (shutdown_ok recursion_limit ghbn n tree parent ring Hn Hok El rs ds ∅ t rest) as Es.
  exists tree, parent, ring, pend, (with_shutdown (list_to_set rs ∪ ∅) t), h, p. split_and!; try done.
  - change (trk_init n) with (collecting n [] None). rewrite E. apply Es; try done.
    + rewrite Hrs. apply NoDup_seqZ.
    + intros r. rewrite Hrs, elem_of_seqZ. intros Hr. split; [lia|set_solver].
    + rewrite size_empty, Hrs, length_seqZ. lia.
  - cbn [shutdown with_shutdown]. rewrite union_empty_r_L. by rewrite Hrs.
Qed.

(** Three workers on two hosts; the greetings arrive in one piece. *)
Module RunDemo.
Import RabitDemo.

Definition w (addr : string) (port : Z) : worker :=
  Worker addr (Conn [enc (hello (-1) (-1) "NULL" "start" ++ joins port)] []) "NULL" (-1) port.
Definition over (r : Z) : string * conn := ("", Conn [enc (hello r (-1) "NULL" "shutdown")] []).

Lemma one_segment l : l ≠ [] → delivers (Conn [l] []) l [].
Proof. intros Hl. split_and!; [by apply Forall_singleton|apply app_nil_r|done]. Qed.

Lemma tracker_completes_witness :
  ∃ t, accept_slaves 3 id ((conn_of <$> [w "b" 10; w "a" 11; w "b" 12]) ++ [over 2; over 0; over 1] ++ [])
         (trk_init 3) = Some (Ok (), t) ∧ wait_conn t = ∅ ∧
    (λ '(r, s, _), (r, host s)) <$> assigned t = [(0, "a"); (1, "b"); (2, "b")].
Proof.
  destruct (tracker_completes 3 id 3 [w "b" 10; w "a" 11; w "b" 12] [2; 0; 1] [over 2; over 0; over 1] [])
    as (tree & parent & ring & pend & t & h & p & E & _ & Hwc & _).
  - lia.
  - simpl; lia.
  - reflexivity.
  - repeat (apply Forall_cons; split); [..|apply Forall_nil; exact I];
      (split_and!; [apply one_segment; vm_compute; discriminate|by left|by vm_compute..]).
  - apply (bool_decide_unpack _). vm_compute. exact I.
  - repeat (apply Forall2_cons; split); [..|by apply Forall2_nil];
      (exists (-1), "NULL", []; split_and!; [apply one_segment; vm_compute; discriminate|by vm_compute..]).
  - exists t. split; [exact E|]. split; [exact Hwc|]. vm_compute in E. injection E as <-. reflexivity.
Defined.
End RunDemo.
End TrackerRun.
