(* ===== verification/DmlcSubmit.v ===== *)
(** * Starting a job with the tracker, [3rdparty/ps-lite/tracker]

    [tracker.py]: the choice of the root's address and port, the scheduler process
    of a parameter-server job, and [submit]; [dmlc_local.py], [dmlc_ssh.py] and
    [dmlc_mpi.py]: the functions that start the workers and servers. The state is
    the list of processes that have been started, each with its command and its
    environment. *)

From S2P Require Import Prelude PyStr.

Module Dmlc.

(** What the operating system answers: whether the [n]-th attempt to bind a port
    succeeds, the [n]-th random number in a range, names and addresses. *)
Class Host : Type := {
  bind_ok : nat → Z → bool;
  randint : nat → Z → Z → Z;
  getfqdn : string;
  gethostname : string;
  gethostbyname : string → option string;
  outbound_ip : string;
  os_environ : env
}.
Class HostLaws `{Host} : Prop := {
  randint_range n lo hi : lo ≤ hi → lo ≤ randint n lo hi ≤ hi
}.

Record proc : Type := Proc { p_cmd : string; p_env : env }.

Section submit.
Context `{Host}.

Definition launch (p : proc) : M (list proc) () := modify (λ ps, ps ++ [p]).

(** ** The port of the root *)

(** [RabitTracker.__init__]: the ports from [port] to [port_end - 1] in order;
    without a free one [self.port] is not set. *)
Fixpoint scan_ports (n : nat) (attempt : nat) (port : Z) : option Z :=
  match n with
  | O => None
  | S n' => if bind_ok attempt port then Some port else scan_ports n' (S attempt) (port + 1)
  end.
Definition RabitTracker_init (port port_end : Z) : res Z :=
  or_raise AttributeError (scan_ports (Z.to_nat (port_end - port)) 0 port).

(** [PSTracker.__init__]: random ports; the lower bound of the range is the last
    port that was tried. [left] is [max_retry - i]. *)
Fixpoint try_ports (left : nat) (i : nat) (port port_end : Z) : res Z :=
  match left with
  | O => Raise AttributeError
  | S O => Raise Exception_
  | S left' =>
      let port := randint i port port_end in
      if bind_ok i port then Ok port else try_ports left' (S i) port port_end
  end.

Definition update_env (e : env) (kvs : odict string string) : env :=
  foldl (λ e '(k, v), <[k := v]> e) e kvs.

(** The scheduler, which is started in a thread of its own. *)
Definition scheduler_proc (hostIP cmd : string) (port : Z) (envs : odict string string) : proc :=
  Proc cmd (update_env (<["DMLC_PS_ROOT_PORT" := py_str port]> (<["DMLC_PS_ROOT_URI" := hostIP]>
              (<["DMLC_ROLE" := "scheduler"]> os_environ))) envs).
Definition PSTracker_init (hostIP : string) (cmd : option string) (envs : odict string string) :
    M (list proc) (option Z) :=
  match cmd with
  | None => mret None
  | Some c =>
      port ← lift (try_ports 100 0 9091 9999);
      launch (scheduler_proc hostIP c port envs);;
      mret (Some port)
  end.

Definition rabit_slave_envs (hostIP : string) (port : Z) : odict string string :=
  [("DMLC_TRACKER_URI", hostIP); ("DMLC_TRACKER_PORT", py_str port)].
Definition ps_slave_envs (hostIP : string) (port : option Z) : odict string string :=
  match port with
  | None => []
  | Some p => [("DMLC_PS_ROOT_URI", hostIP); ("DMLC_PS_ROOT_PORT", py_str p)]
  end.

(** The address of the root; [gethostbyname] may fail. *)
Definition root_ip (hostIP : string) : res string :=
  let hostIP := if decide (hostIP = "auto") then "ip" else hostIP in
  if decide (hostIP = "dns") then Ok getfqdn
  else if decide (hostIP = "ip") then
    ip ← (match gethostbyname getfqdn with
          | Some ip => Ok ip
          | None => or_raise OSError (gethostbyname gethostname)
          end);
    Ok (if py_startswith "127." ip then outbound_ip else ip)
  else Ok hostIP.

(** A number, or [None]. *)
Definition str_opt (n : option Z) : string := match n with Some n => py_str n | None => "None" end.

(** [submit]: the root, then the workers and servers. Values are written into the
    environment with [str]. *)
Definition submit (nworker : Z) (nserver : option Z)
    (fun_submit : Z → option Z → odict string string → M (list proc) ()) (hostIP : string)
    (pscmd : option string) : M (list proc) () :=
  ip ← lift (root_ip hostIP);
  let envs := [("DMLC_NUM_WORKER", py_str nworker); ("DMLC_NUM_SERVER", str_opt nserver)] in
  slave_envs ← (if decide (nserver = Some 0) then
                  port ← lift (RabitTracker_init 9091 9999);
                  mret (rabit_slave_envs ip port)
                else
                  port ← PSTracker_init ip pscmd envs;
                  mret (ps_slave_envs ip port));
  fun_submit nworker nserver (envs ++ slave_envs).

(** ** [dmlc_local.py] *)

(** The command, restarted as long as it exits with 254. *)
Definition newline : string := String (Ascii.ascii_of_nat 10) "".
Definition keepalive (cmd : string) : string :=
  py_join newline ["" ; "nrep=0"; "rc=254"; "while [ $rc -eq 254 ];"; "do";
    "    export DMLC_NUM_ATTEMPT=$nrep"; "    " +:+ cmd; "    rc=$?;"; "    nrep=$((nrep+1));"; "done"; ""].

(** The process [exec_cmd] starts, on a system that is not Windows. *)
Definition exec_proc (cmd role : string) (pass_env : odict string string) : proc :=
  Proc (keepalive cmd) (<["DMLC_ROLE" := role]> (update_env os_environ pass_env)).

(** What [exec_cmd] does with the exit code. *)
Definition exec_result (ret : Z) : res () := if decide (ret = 0) then Ok () else Raise Exception_.

Definition total (nworker : Z) (nserver : option Z) : res nat :=
  m ← or_raise TypeError nserver; Ok (Z.to_nat (nworker + m)).

Definition mthread_submit (cmd : string) (nworker : Z) (nserver : option Z) (envs : odict string string) :
    M (list proc) () :=
  n ← lift (total nworker nserver);
  for_each (λ i : nat, launch (exec_proc cmd (if decide (Z.of_nat i < nworker) then "worker" else "server") envs))
    (seq 0 n).

Definition local_run (cmd : string) (num_workers : Z) (num_servers : option Z) : M (list proc) () :=
  submit num_workers num_servers (mthread_submit cmd) "auto" (Some cmd).

(** ** [dmlc_ssh.py] *)

Definition read_hosts (lines : list string) : res (list string) :=
  py_assert (bool_decide (lines ≠ []));;
  Ok (filter (λ h, h ≠ "") (py_strip <$> lines)).

Definition export (k v : string) : string := "export " +:+ k +:+ "=" +:+ v +:+ ";".

Definition get_env (pass_envs : odict string string) : string :=
  let keys := ["LD_LIBRARY_PATH"; "AWS_ACCESS_KEY_ID"; "AWS_SECRET_ACCESS_KEY"] in
  py_join " " (omap (λ k, export k <$> os_environ !! k) keys ++ ((λ '(k, v), export k v) <$> pass_envs)).

Definition ssh_prog (cmd working_dir node : string) (pass_envs : odict string string) : string :=
  let prog := get_env pass_envs +:+ " cd " +:+ working_dir +:+ "; " +:+ cmd in
  "ssh -o StrictHostKeyChecking=no " +:+ node +:+ " '" +:+ prog +:+ "'".

Definition ssh_submit (hosts : list string) (cmd working_dir : string) (nworker : Z) (nserver : option Z)
    (pass_envs : odict string string) : M (list proc) () :=
  n ← lift (total nworker nserver);
  for_each (λ i : nat,
    let role := if decide (Z.of_nat i < default 0 nserver) then "server" else "worker" in
    node ← lift (if decide (hosts = []) then Raise ZeroDivisionError
                 else or_raise IndexError (hosts !! (i mod length hosts)%nat));
    launch (Proc (ssh_prog cmd working_dir node (od_set "DMLC_ROLE" role pass_envs)) os_environ)) (seq 0 n).

(** ** [dmlc_mpi.py] *)

(** [mpi_ver] is what [mpirun] prints. *)
Definition contains (sub s : string) : bool := match py_find sub s with Some _ => true | None => false end.
Definition get_mpi_env (mpi_ver : string) (envs : odict string string) : res string :=
  if contains "Open MPI" mpi_ver then
    Ok (String.concat "" ((λ '(k, v), " -x " +:+ k +:+ "=" +:+ v) <$> envs))
  else if contains "mpich" mpi_ver then
    Ok (String.concat "" ((λ '(k, v), " -env " +:+ k +:+ " " +:+ v) <$> envs))
  else Raise Exception_.

Definition mpirun (mpi_ver cmd : string) (n : Z) (role : string) (envs : odict string string) :
    M (list proc) () :=
  if decide (0 < n) then
    e ← lift (get_mpi_env mpi_ver (od_set "DMLC_ROLE" role envs));
    launch (Proc ("mpirun -n " +:+ py_str n +:+ " " +:+ e +:+ " " +:+ cmd) os_environ)
  else mret ().

Definition mpi_submit (mpi_ver : string) (hostfile : option string) (command : string)
    (nworker nserver : Z) (pass_envs : odict string string) : M (list proc) () :=
  let cmd := match hostfile with Some h => "--hostfile " +:+ h | None => "" end +:+ " " +:+ command in
  mpirun mpi_ver cmd nserver "server" pass_envs;;
  mpirun mpi_ver cmd nworker "worker" (if decide (0 < nserver) then od_set "DMLC_ROLE" "server" pass_envs else pass_envs).

(** ** Properties *)

Lemma try_ports_ok `{!HostLaws} left i port port_end p :
  port ≤ port_end → try_ports left i port port_end = Ok p →
  port ≤ p ≤ port_end ∧ ∃ j, (i ≤ j < i + left)%nat ∧ bind_ok j p = true.
Proof.
  revert i port. induction left as [|left IH]; intros i port Hle E; [done|].
  destruct left as [|left]; [done|]. cbn [try_ports] in E. pose proof (randint_range i port port_end Hle) as Hr.
  destruct (bind_ok i (randint i port port_end)) eqn:Hb.
  - simplify_eq. split; [lia|]. exists i. split; [lia|done].
  - destruct (IH (S i) (randint i port port_end) (proj2 Hr) E) as (H1 & j & Hj & Hb'). split; [lia|]. exists j. split; [lia|done].
Qed.

(** What every process of the job is told. *)
Definition told (ip : string) (port nworker nserver : Z) (role : string) (p : proc) : Prop :=
  p_env p !! "DMLC_ROLE" = Some role ∧ p_env p !! "DMLC_PS_ROOT_URI" = Some ip ∧
  p_env p !! "DMLC_PS_ROOT_PORT" = Some (py_str port) ∧
  p_env p !! "DMLC_NUM_WORKER" = Some (py_str nworker) ∧ p_env p !! "DMLC_NUM_SERVER" = Some (py_str nserver).

Definition job_envs (ip : string) (port nworker nserver : Z) : odict string string :=
  [("DMLC_NUM_WORKER", py_str nworker); ("DMLC_NUM_SERVER", py_str nserver);
   ("DMLC_PS_ROOT_URI", ip); ("DMLC_PS_ROOT_PORT", py_str port)].

Lemma exec_told ip port n m cmd role : told ip port n m role (exec_proc cmd role (job_envs ip port n m)).
Proof. unfold told, exec_proc, job_envs, update_env. cbn [p_env foldl]. by split_and!; simplify_map_eq. Qed.

Lemma sched_told ip port n m cmd :
  told ip port n m "scheduler" (scheduler_proc ip cmd port
    [("DMLC_NUM_WORKER", py_str n); ("DMLC_NUM_SERVER", py_str m)]).
Proof. unfold told, scheduler_proc, update_env. cbn [p_env foldl]. by split_and!; simplify_map_eq. Qed.

Lemma launch_all {A} (f : A → proc) (l : list A) ps :
  for_each (λ x, launch (f x)) l ps = (Ok (), ps ++ (f <$> l)).
Proof.
  revert ps. induction l as [|x l IH]; intros ps; cbn [for_each]; [by rewrite app_nil_r|].
  erewrite bind_Ok by reflexivity. rewrite IH. cbn. by rewrite <-app_assoc.
Qed.

(** A local parameter-server job. If the address of the root is found and one
    of the attempts to bind a port succeeds, the scheduler is started first, then
    all workers and then all servers, with the numbers asked for; the port is in
    the range 9091 to 9999 and could be bound; and all processes, the scheduler
    included, are told the same address, port and numbers, and each its own role. *)
Theorem local_job_rendezvous `{!HostLaws} cmd (n m : nat) ip port :
  root_ip "auto" = Ok ip → try_ports 100 0 9091 9999 = Ok port → (0 < m)%nat →
  ∃ sched workers servers,
    local_run cmd (Z.of_nat n) (Some (Z.of_nat m)) [] = (Ok (), sched :: workers ++ servers) ∧
    length workers = n ∧ length servers = m ∧ p_cmd sched = cmd ∧
    told ip port (Z.of_nat n) (Z.of_nat m) "scheduler" sched ∧
    Forall (λ p, told ip port (Z.of_nat n) (Z.of_nat m) "worker" p ∧ p_cmd p = keepalive cmd) workers ∧
    Forall (λ p, told ip port (Z.of_nat n) (Z.of_nat m) "server" p ∧ p_cmd p = keepalive cmd) servers ∧
    9091 ≤ port ≤ 9999 ∧ ∃ j, bind_ok j port = true.
Proof.
  intros Hip Hport Hm. destruct (try_ports_ok 100 0 9091 9999 port ltac:(lia) Hport) as (Hr & j & _ & Hb).
  set (worker := λ _ : nat, exec_proc cmd "worker" (job_envs ip port (Z.of_nat n) (Z.of_nat m))).
  set (server := λ _ : nat, exec_proc cmd "server" (job_envs ip port (Z.of_nat n) (Z.of_nat m))).
  eexists _, (worker <$> seq 0 n), (server <$> seq n m). split.
  { unfold local_run, submit. erewrite bind_Ok by (unfold lift; rewrite Hip; reflexivity).
    rewrite decide_False by (intros [= ?]; lia). cbn [str_opt]. erewrite bind_Ok.
    2: { unfold PSTracker_init. erewrite bind_Ok; [reflexivity|].
      erewrite bind_Ok by (unfold lift; rewrite Hport; reflexivity). by erewrite bind_Ok by reflexivity. }
    cbn [app ps_slave_envs]. fold (job_envs ip port (Z.of_nat n) (Z.of_nat m)).
    unfold mthread_submit. erewrite bind_Ok by reflexivity.
    rewrite <-Nat2Z.inj_add, Nat2Z.id. rewrite launch_all, seq_app, fmap_app. cbn [Nat.add].
    cbn. do 2 f_equal. f_equal.
    - apply list_fmap_ext. intros ? i [_ Hi]%list_elem_of_lookup_2%elem_of_seq. unfold worker.
      by rewrite decide_True by lia.
    - apply list_fmap_ext. intros ? i [Hi _]%list_elem_of_lookup_2%elem_of_seq. unfold server.
      by rewrite decide_False by lia. }
  split_and!; [by rewrite length_fmap, length_seq..|done| | | |lia|lia|by exists j].
  - apply sched_told.
  - apply Forall_fmap, Forall_forall. intros i _. split; [apply exec_told|done].
  - apply Forall_fmap, Forall_forall. intros i _. split; [apply exec_told|done].
Qed.
End submit.

(** ** Concrete instance *)
Module DmlcDemo.
(** The first two ports that are tried are taken. *)
#[export] Instance host : Host := {|
  bind_ok n p := (2 <=? n)%nat;
  randint n lo hi := (lo + hi) / 2;
  getfqdn := "node0";
  gethostname := "node0";
  gethostbyname h := Some "10.0.0.5";
  outbound_ip := "10.0.0.5";
  os_environ := {["PATH" := "/bin"]}
|}.
#[export] Instance host_laws : HostLaws.
Proof. split. intros n lo hi Hle. cbn. split; [apply Z.div_le_lower_bound; lia|apply Z.div_le_upper_bound; lia]. Qed.

Lemma local_job_rendezvous_witness : ∃ procs,
  local_run "train" 2 (Some 1) [] = (Ok (), procs) ∧ length procs = 4%nat.
Proof.
  destruct (local_job_rendezvous "train" 2 1 "10.0.0.5" 9885) as (sc & ws & ss & E & H1 & H2 & _).
  - reflexivity.
  - reflexivity.
  - lia.
  - exists (sc :: ws ++ ss). split; [exact E|]. cbn [length]. by rewrite length_app, H1, H2.
Defined.
End DmlcDemo.
End Dmlc.
