(* ===== verification/Training.v ===== *)
(** * Data-parallel training, one worker

    The training loop of a client of [byteps/torch/__init__.py]: a backward pass,
    in which every gradient is computed and its hook runs, and then [step], which
    exchanges the gradients and lets the wrapped optimizer update the parameters.
    The wrapped optimizer is a parameter; here it keeps no state of its own (plain
    SGD), and [upd p w g] is its new value for a parameter with value [w] and
    gradient [g]. *)

From S2P Require Import Prelude PyStr Tensor TorchOps TorchCompression DistOptim DistOptimProofs DistSync.
From S2P Require Import DistDemo CrossBarrierOpt.

Module Training.
Section worker.
Context {R : Type} `{Scalar R, !Extension R, !TorchLib R, !Backend R}.
Implicit Types (s : optim (R := R)) (p q : param).

Notation o_ s := (d_world s).1 (only parsing).
Notation heap_ s := (o_heap (d_world s).1) (only parsing).
Notation last_handle s := (c_last_handle (o_clib (d_world s).1)) (only parsing).

(** One iteration. [g p] is the gradient of [p] (after [zero_grad]) and [order]
    the order in which the backward pass reaches the parameters. *)
Definition accumulate (cf : config) (g : param → list R) (p : param) : M (optim (R := R)) () :=
  l ← grad_of p;
  t ← in_ops (read_t l);
  in_ops (write_t l (with_data (g p) t));;
  hook cf false p.
Definition iteration (cf : config) (nw wid : nat) (super_step : M (optim (R := R)) ())
    (g : param → list R) (order : list param) : M (optim (R := R)) () :=
  for_each (accumulate cf g) order;;
  dist_step cf nw wid super_step.

(** ** One worker *)

(** The worker's parameters: where gradients and data are, tensors of their type
    and shape, and the names. *)
Context (cf : config) (ps : list param) (G D : param → loc) (TG TD : param → tensor R) (N : param → string).

(** The worker between two iterations, with the values [w] of the parameters. *)
Record between (w : param → list R) s : Prop := {
  bt_inv : ops_inv (o_ s);
  bt_init : c_initialized (o_clib (o_ s)) = true;
  bt_grad p : p ∈ ps → d_grad s !! p = Some (G p);
  bt_data p : p ∈ ps → d_data s !! p = Some (D p);
  bt_gheap p : p ∈ ps → ∃ x, heap_ s !! G p = Some (with_data x (TG p));
  bt_dheap p : p ∈ ps → heap_ s !! D p = Some (with_data (w p) (TD p));
  bt_handles : _handles s = [];
  bt_delay p : p ∈ ps → od_get (NPTensor p) (_push_pull_delay s) = Some 1;
  bt_bpps : backward_passes_per_step s = 1;
  bt_sync : _should_sync s = true
}.

(** What does not change during training. *)
Record setting : Prop := {
  se_none : _compression cf = CNone;
  se_async : _enable_async cf = false;
  se_nodup : NoDup ps;
  se_ne : ps ≠ [];
  se_req p : p ∈ _requires_update cf → p ∈ ps;
  se_name p : p ∈ ps → name_of cf p = Some (N p);
  se_sup p x : p ∈ ps → supported (with_data x (TG p));
  se_ginj p q : p ∈ ps → q ∈ ps → G p = G q → p = q;
  se_dinj p q : p ∈ ps → q ∈ ps → D p = D q → p = q;
  se_gd p q : p ∈ ps → q ∈ ps → G p ≠ D q
}.

(** The wrapped optimizer sets every parameter from its value and its gradient,
    and changes nothing else. *)
Definition step_law (super_step : M (optim (R := R)) ()) (upd : param → list R → list R → list R) : Prop :=
  ∀ s (x w : param → list R),
    (∀ p, p ∈ ps → d_grad s !! p = Some (G p) ∧ d_data s !! p = Some (D p) ∧
                    heap_ s !! G p = Some (with_data (x p) (TG p)) ∧
                    heap_ s !! D p = Some (with_data (w p) (TD p))) →
    ∃ h, super_step s = (Ok (), set_world (set_heap h (o_ s), (d_world s).2) s) ∧
      (∀ p, p ∈ ps → h !! D p = Some (with_data (upd p (w p) (x p)) (TD p))) ∧
      (∀ l, (∀ p, p ∈ ps → l ≠ D p) → h !! l = heap_ s !! l).

(** *** The backward pass *)

Lemma hook_eq p s g d :
  (∀ h c, od_get p (_handles s) ≠ Some (Some h, c)) → d_grad s !! p = Some g →
  od_get (NPTensor p) (_push_pull_delay s) = Some d → 0 < d →
  hook cf false p s =
    note_next (name_of cf p) (set_handles (od_set p (None, CtxNone) (_handles s))
      (set_delay (od_set (NPTensor p) (d - 1) (_push_pull_delay s)) (backward_passes_per_step s) s)).
Proof.
  intros Hno Hg Hd Hpos. unfold hook. erewrite bind_Ok by reflexivity.
  erewrite (bind_Ok _ _ _ () s)
    by (destruct (od_get p (_handles s)) as [[[h|] c]|] eqn:E; [by destruct (Hno h c)|done..]).
  erewrite bind_Ok by (by apply grad_of_ok). erewrite bind_Ok by reflexivity. rewrite Hd.
  unfold m_assert. rewrite bool_decide_eq_true_2 by done. by erewrite bind_Ok by reflexivity.
Qed.

Record passed (g : param → list R) s0 (dn : list param) s : Prop := {
  pa_heap : ∀ p, p ∈ dn → heap_ s !! G p = Some (with_data (g p) (TG p));
  pa_rest l : (∀ p, p ∈ dn → l ≠ G p) → heap_ s !! l = heap_ s0 !! l;
  pa_inv : ops_inv (o_ s);
  pa_clib : o_clib (o_ s) = o_clib (o_ s0);
  pa_grad : d_grad s = d_grad s0;
  pa_keys : od_keys (_handles s) = dn;
  pa_frame : rest_of s = rest_of s0;
  pa_bpps : backward_passes_per_step s = backward_passes_per_step s0;
  pa_delay p : p ∈ ps → p ∉ dn → od_get (NPTensor p) (_push_pull_delay s) = Some 1
}.

Lemma backward_ok w g order s :
  setting → between w s → order ≡ₚ ps →
  ∃ s', for_each (accumulate cf g) order s = (Ok (), s') ∧ passed g s order s'.
Proof.
  intros Hse Hb Ho. apply (for_each_inv _ (passed g s)).
  { destruct Hb as [B1 B2 B3 B4 B5 B6 B7 B8 B9 B10]. split; try done; [set_solver|by rewrite B7|by auto]. }
  intros dn p rest s1 Eo [P1 P2 P3 P4 P5 P6 P7 P8 P9].
  assert (NoDup order) as Hnd by (rewrite Ho; apply Hse).
  assert (∀ q, q ∈ order → q ∈ ps) as Hin by (intros q; by rewrite Ho).
  assert (p ∈ ps) as Hp by (apply Hin; rewrite Eo; set_solver).
  assert (p ∉ dn) as Hpd.
  { rewrite Eo in Hnd. apply NoDup_app in Hnd as (_ & Hdis & _). intros Hi. apply (Hdis p Hi). left. }
  assert (∀ q, q ∈ dn → G p ≠ G q) as Hg.
  { intros q Hq E. apply Hpd. rewrite (se_ginj Hse p q); [done|done| |done]. apply Hin. rewrite Eo. set_solver. }
  destruct (bt_gheap _ _ Hb p Hp) as [x Hx].
  assert (heap_ s1 !! G p = Some (with_data x (TG p))) as Hx1 by (rewrite P2; [done|by intros q Hq; apply Hg]).
  assert (d_grad s1 !! p = Some (G p)) as Hg1 by (rewrite P5; by apply Hb).
  unfold accumulate. erewrite bind_Ok by (by apply grad_of_ok).
  erewrite bind_Ok by (by apply in_ops_read). erewrite bind_Ok by (apply in_ops_eq; reflexivity).
  rewrite (hook_eq _ _ (G p) 1); [|simpl|done|by apply P9|done].
  2: { intros h c E. apply Hpd. rewrite <-P6. apply od_get_is_Some. by eexists. }
  eexists. split; [reflexivity|]. split; simpl.
  - intros q. rewrite elem_of_app, list_elem_of_singleton. intros [Hq| ->].
    + rewrite lookup_insert_ne by (by apply Hg). by apply P1.
    + by rewrite lookup_insert_eq.
  - intros l Hl. rewrite lookup_insert_ne by (apply not_eq_sym, Hl; set_solver). apply P2. set_solver.
  - apply ops_inv_write; [done|]. rewrite Hx1. by eexists.
  - done.
  - done.
  - rewrite od_keys_set_new by (by rewrite P6). by rewrite P6.
  - done.
  - done.
  - intros q Hq Hqd. rewrite od_get_set_ne by (intros [=]; set_solver). apply P9; [done|set_solver].
Qed.

(** The exchange handles the parameters in the order of the backward pass. *)
Lemma sync_order_all `{!BackendLaws R} s order :
  setting → order ≡ₚ ps → od_keys (_handles s) = order → sync_order cf s = order.
Proof.
  intros Hse Ho Hk. unfold sync_order. rewrite Hk.
  assert (_requires_update cf ∖ list_to_set order = ∅) as ->.
  { apply set_eq. intros p. rewrite elem_of_difference, elem_of_list_to_set, Ho. split; [|set_solver].
    intros [Hp%(se_req Hse) Hn]. done. }
  assert (set_order (R := R) ∅ = []) as ->; [|by rewrite app_nil_r].
  apply Permutation_nil_r. by rewrite (set_order_perm (R := R)), elements_empty.
Qed.

Lemma passed_ready w g order s s1 :
  setting → between w s → order ≡ₚ ps → (∀ p, p ∈ ps → g p ≠ []) → passed g s order s1 →
  each_ready cf G (λ p, with_data (g p) (TG p)) N s1 order.
Proof.
  intros Hse Hb Ho Hg [P1 P2 P3 P4 P5 P6 P7 P8 P9].
  assert (∀ q, q ∈ order → q ∈ ps) as Hin by (intros q; by rewrite Ho).
  split; try done.
  - rewrite P4. apply Hb.
  - rewrite Ho. apply Hse.
  - intros E. apply (se_ne Hse). by rewrite E, Permutation_nil_l in Ho.
  - intros p Hp. rewrite P5. by apply Hb, Hin.
  - intros p Hp. by apply Hse, Hin.
  - intros p Hp. by apply Hg, Hin.
  - intros p Hp. by apply Hse, Hin.
  - intros p q Hp Hq. by apply Hse; apply Hin.
Qed.

(** The servers' reply [avg p] to the operation on each gradient, whichever of the
    iteration's handles it has. *)
Definition replies (g avg : param → list R) (h0 : Z) : Prop := ∀ h p,
  p ∈ ps → h0 < h ≤ h0 + Z.of_nat (length ps) →
  reduce h (GetOpName ("Gradient." +:+ N p)) true (_compressor_name cf) (g p) = avg p.

(** The exchange: the gradients are the replies, everything else is as before. *)
Lemma exchange_ok `{!BackendLaws R} nw wid w g avg order s s1 :
  setting → between w s → order ≡ₚ ps → (∀ p, p ∈ ps → g p ≠ []) → replies g avg (last_handle s) →
  passed g s order s1 →
  ∃ s2, dist_synchronize cf nw wid s1 = (Ok (), s2) ∧ between w s2 ∧
    last_handle s2 = last_handle s + Z.of_nat (length ps) ∧
    (∀ p, p ∈ ps → heap_ s2 !! G p = Some (with_data (avg p) (TG p))).
Proof.
  intros Hse Hb Ho Hg Hrep Hpa. pose proof (passed_ready w g order s s1 Hse Hb Ho Hg Hpa) as Hready.
  destruct Hpa as [P1 P2 P3 P4 P5 P6 P7 P8 P9].
  pose proof (sync_order_all s1 order Hse Ho P6) as Hso.
  destruct (dist_synchronize_ok cf G (λ p, with_data (g p) (TG p)) N (se_none Hse) (se_async Hse) nw wid s1)
    as (s2 & E2 & Hred & Hrest & Hgr & Hh & _ & _ & Hi & Hf & Hbp & Hin & Hl); [by rewrite Hso|].
  rewrite Hso, P4, P8, (bt_bpps _ _ Hb) in *. rewrite P7 in Hf. injection Hf as Hd Hs.
  assert (length order = length ps) as Hlen by (by rewrite Ho).
  assert (∀ p, p ∈ ps → heap_ s2 !! G p = Some (with_data (avg p) (TG p)) ∧
            od_get (NPTensor p) (_push_pull_delay s2) = Some 1) as Hdone.
  { intros p Hp. assert (p ∈ order) as Hpo by (by rewrite Ho).
    apply list_elem_of_lookup in Hpo as [i Hi']. destruct (Hred i p Hi') as [Hr ->]. split; [|done].
    rewrite Hr. unfold reduced_grad. simpl. unfold grad_name. rewrite Hrep; [done|done|].
    apply lookup_lt_Some in Hi'. lia. }
  exists s2. split_and!; [done| |by rewrite Hl, Hlen|by intros p Hp; apply Hdone].
  destruct Hb as [B1 B2 B3 B4 B5 B6 B7 B8 B9 B10].
  split; rewrite ?Hgr, ?P5, ?Hd, ?Hs; auto.
  - intros p Hp. eexists. by apply Hdone.
  - intros p Hp. rewrite Hrest, P2; [by auto|..]; intros q Hq; apply not_eq_sym, (se_gd Hse); by rewrite ?Ho in *.
  - intros p Hp. by apply Hdone.
Qed.

(** The wrapped optimizer's step. *)
Lemma update_ok super upd w avg s :
  setting → step_law super upd → between w s →
  (∀ p, p ∈ ps → heap_ s !! G p = Some (with_data (avg p) (TG p))) →
  ∃ s', super s = (Ok (), s') ∧ between (λ p, upd p (w p) (avg p)) s' ∧ last_handle s' = last_handle s ∧
    (∀ p, p ∈ ps → heap_ s' !! G p = Some (with_data (avg p) (TG p))).
Proof.
  intros Hse Hlaw [B1 B2 B3 B4 B5 B6 B7 B8 B9 B10] Hav.
  destruct (Hlaw s avg w) as (h & E & Hup & Hkeep); [by auto|].
  assert (∀ p, p ∈ ps → h !! G p = Some (with_data (avg p) (TG p))) as Hgh.
  { intros p Hp. rewrite Hkeep; [by auto|]. intros q Hq. by apply (se_gd Hse). }
  eexists. split; [exact E|]. split_and!; [|done|done]. split; simpl; try done.
  - apply ops_inv_heap; [done|]. intros l. destruct (decide (l ∈ map D ps)) as [Hl|Hl].
    + apply list_elem_of_fmap in Hl as (p & -> & Hp). rewrite Hup, B6 by done. split; by eexists.
    + rewrite Hkeep; [done|]. intros p Hp ->. apply Hl, list_elem_of_fmap. by exists p.
  - intros p Hp. eexists. by apply Hgh.
Qed.

Lemma iteration_ok `{!BackendLaws R} nw wid super upd w g avg order s :
  setting → step_law super upd → between w s → order ≡ₚ ps → (∀ p, p ∈ ps → g p ≠ []) →
  replies g avg (last_handle s) →
  ∃ s', iteration cf nw wid super g order s = (Ok (), s') ∧
    between (λ p, upd p (w p) (avg p)) s' ∧
    last_handle s' = last_handle s + Z.of_nat (length ps) ∧
    (∀ p, p ∈ ps → heap_ s' !! G p = Some (with_data (avg p) (TG p))).
Proof.
  intros Hse Hlaw Hb Ho Hg Hrep. destruct (backward_ok w g order s Hse Hb Ho) as (s1 & E1 & Hpa).
  destruct (exchange_ok nw wid w g avg order s s1 Hse Hb Ho Hg Hrep Hpa) as (s2 & E2 & Hb2 & Hl & Hav).
  destruct (update_ok super upd w avg s2 Hse Hlaw Hb2 Hav) as (s3 & E3 & Hb3 & Hl3 & Hav3).
  exists s3. split_and!; [|done|congruence|done].
  unfold iteration. erewrite bind_Ok by exact E1. unfold dist_step. rewrite (se_async Hse).
  erewrite bind_Ok by reflexivity. pose proof (pa_frame _ _ _ _ Hpa) as [= _ ->]. rewrite (bt_sync _ _ Hb).
  by erewrite bind_Ok by exact E2.
Qed.
End worker.

(** ** All workers *)

Section cluster.
Context {R : Type} `{Scalar R, !TorchLib R, !Backend R, !BackendLaws R}.

(** [W] workers with the same parameters and names. Each has its own connection
    to the servers, its own tensors and its own wrapped optimizer. *)
Context (W : nat) (E : nat → Extension R) (cf : config) (ps : list param) (N : param → string).
Context (G D : nat → param → loc) (TG TD : nat → param → tensor R).
Context (super : nat → M (optim (R := R)) ()) (upd : param → list R → list R → list R).

(** One iteration of all workers: the gradient each computes for each parameter,
    and the order in which its backward pass reaches them. *)
Record round : Type := Round {
  r_grad : nat → param → list R;
  r_order : nat → list param
}.

Definition train (i : nat) (rounds : list round) : M (optim (R := R)) () :=
  for_each (λ r, iteration (Extension0 := E i) cf W i (super i) (r_grad r i) (r_order r i)) rounds.

(** The specification: one machine that holds the parameters and updates them
    with the average of the workers' gradients. *)
Definition average (r : round) (p : param) : list R :=
  map (λ x, s_div x (s_of_Z (Z.of_nat W)))
    (vsum (length (r_grad r 0 p)) (map (λ j, r_grad r j p) (seq 0 W))).
Definition central_step (w : param → list R) (r : round) : param → list R :=
  λ p, upd p (w p) (average r p).
Definition central (w : param → list R) (rounds : list round) : param → list R :=
  foldl central_step w rounds.

(** What the servers promise to worker [i], whose last handle is [h0]: the
    operations of the [k]-th iteration get the average of what all workers send
    in that iteration. *)
Definition servers_average (i : nat) (h0 : Z) (rounds : list round) : Prop := ∀ k r,
  rounds !! k = Some r →
  replies (Extension0 := E i) cf ps N (r_grad r i) (average r) (h0 + Z.of_nat k * Z.of_nat (length ps)).

Definition round_ok (i : nat) (r : round) : Prop :=
  r_order r i ≡ₚ ps ∧ ∀ p, p ∈ ps → r_grad r i p ≠ [].

Lemma train_ok i rounds w s :
  setting (Extension0 := E i) cf ps (G i) (D i) (TG i) N →
  step_law ps (G i) (D i) (TG i) (TD i) (super i) upd →
  Forall (round_ok i) rounds → between ps (G i) (D i) (TG i) (TD i) w s →
  servers_average i (c_last_handle (o_clib (d_world s).1)) rounds →
  ∃ s', train i rounds s = (Ok (), s') ∧ between ps (G i) (D i) (TG i) (TD i) (central w rounds) s'.
Proof.
  intros Hse Hlaw. revert w s. induction rounds as [|r rounds IH]; intros w s Hok Hb Hsv; [by exists s|].
  apply Forall_cons in Hok as [[Ho Hg] Hok]. cbn [train for_each].
  pose proof (Hsv 0%nat r eq_refl) as Hrep. rewrite Z.mul_0_l, Z.add_0_r in Hrep.
  destruct (iteration_ok (Extension0 := E i) cf ps (G i) (D i) (TG i) (TD i) N W i (super i) upd w
    (r_grad r i) (average r) (r_order r i) s Hse Hlaw Hb Ho Hg Hrep) as (s1 & E1 & Hb1 & Hl & _).
  unfold train. cbn [for_each]. erewrite bind_Ok by exact E1. apply IH; [done|done|].
  intros k r' Hk. pose proof (Hsv (S k) r' Hk) as Hr.
  replace (c_last_handle (o_clib (d_world s1).1) + Z.of_nat k * Z.of_nat (length ps)) with
    (c_last_handle (o_clib (d_world s).1) + Z.of_nat (S k) * Z.of_nat (length ps)) by lia. done.
Qed.

(** C10: Data-parallel training is training on one machine with averaged
    gradients. If all workers start with the same parameters and the servers
    answer every operation with the average of what the workers send, then after
    any number of iterations no worker has raised an error, whatever the order in
    which its backward passes reach the parameters, every worker holds exactly
    the parameters of the single machine, so that they all agree, and it is ready
    for the next iteration with no operation pending in its table. *)
Theorem data_parallel_refines (rounds : list round) (w : param → list R) (s : nat → optim (R := R)) :
  (∀ i, (i < W)%nat → setting (Extension0 := E i) cf ps (G i) (D i) (TG i) N ∧
     step_law ps (G i) (D i) (TG i) (TD i) (super i) upd ∧ Forall (round_ok i) rounds ∧
     between ps (G i) (D i) (TG i) (TD i) w (s i) ∧
     servers_average i (c_last_handle (o_clib (d_world (s i)).1)) rounds) →
  ∀ i, (i < W)%nat → ∃ s', train i rounds (s i) = (Ok (), s') ∧
    (∀ p, p ∈ ps → d_data s' !! p = Some (D i p) ∧
       o_heap (d_world s').1 !! D i p = Some (with_data (central w rounds p) (TD i p))) ∧
    between ps (G i) (D i) (TG i) (TD i) (central w rounds) s'.
Proof.
  intros Hall i Hi. destruct (Hall i Hi) as (Hse & Hlaw & Hok & Hb & Hsv).
  destruct (train_ok i rounds w (s i) Hse Hlaw Hok Hb Hsv) as (s' & Et & Hb').
  exists s'. split_and!; [done| |done]. intros p Hp. split; [by apply Hb'|by apply Hb'].
Qed.
End cluster.

(** ** Plain SGD as the wrapped optimizer *)
Section sgd.
Context {R : Type} `{Scalar R, !Extension R, !TorchLib R, !Backend R}.
Context (cf : config) (ps : list param) (G D : param → loc) (TG TD : param → tensor R) (N : param → string).

Definition sgd_step (lr : R) : M (optim (R := R)) () := for_each (λ p,
  g ← grad_of p; tg ← in_ops (read_t g);
  d ← data_of p; td ← in_ops (read_t d);
  in_ops (write_t d (with_data (v_axpy (s_neg lr) (t_data td) (t_data tg)) td))) ps.

Lemma sgd_step_law lr :
  setting cf ps G D TG N → step_law ps G D TG TD (sgd_step lr) (λ _ w x, v_axpy (s_neg lr) w x).
Proof.
  intros Hse s x w Hp. unfold sgd_step.
  destruct (for_each_inv (S := optim (R := R)) (λ p,
    g ← grad_of p; tg ← in_ops (read_t g); d ← data_of p; td ← in_ops (read_t d);
    in_ops (write_t d (with_data (v_axpy (s_neg lr) (t_data td) (t_data tg)) td)))
    (λ dn s', ∃ h, s' = set_world (set_heap h (d_world s).1, (d_world s).2) s ∧
       (∀ p, p ∈ dn → h !! D p = Some (with_data (v_axpy (s_neg lr) (w p) (x p)) (TD p))) ∧
       (∀ l, (∀ p, p ∈ dn → l ≠ D p) → h !! l = o_heap (d_world s).1 !! l)) ps s) as (s' & Es & h & -> & Hd & Hr).
  - exists (o_heap (d_world s).1). split_and!; [|set_solver|done].
    by destruct s as [[[]]].
  - intros dn p rest s1 Eps (h & -> & Hd & Hr). assert (p ∈ ps) as Hpp by (rewrite Eps; set_solver).
    assert (∀ q, q ∈ dn → q ∈ ps ∧ p ≠ q) as Hdn.
    { intros q Hq. split; [rewrite Eps; set_solver|]. intros ->. pose proof (se_nodup _ _ _ _ _ _ Hse) as Hnd.
      rewrite Eps in Hnd. apply NoDup_app in Hnd as (_ & Hdis & _). apply (Hdis q Hq). left. }
    destruct (Hp p Hpp) as (H1 & H2 & H3 & H4).
    erewrite bind_Ok by (by apply grad_of_ok).
    erewrite bind_Ok by (apply in_ops_read; simpl; rewrite Hr; [exact H3|];
      intros q Hq; apply (se_gd _ _ _ _ _ _ Hse); [done|by apply Hdn]).
    erewrite bind_Ok by (by apply data_of_ok).
    erewrite bind_Ok by (apply in_ops_read; simpl; rewrite Hr; [exact H4|];
      intros q Hq ?; destruct (Hdn q Hq); by eapply (se_dinj _ _ _ _ _ _ Hse p q) in Hpp).
    eexists. split; [by apply in_ops_eq|]. exists (<[D p := with_data (v_axpy (s_neg lr) (w p) (x p)) (TD p)]> h).
    split_and!; [done| |].
    + intros q. rewrite elem_of_app, list_elem_of_singleton. intros [Hq| ->]; [|by rewrite lookup_insert_eq].
      destruct (Hdn q Hq) as [Hq1 Hq2]. rewrite lookup_insert_ne; [by apply Hd|].
      intros ED. by apply Hq2, (se_dinj _ _ _ _ _ _ Hse).
    + intros l Hl. rewrite lookup_insert_ne by (apply not_eq_sym, Hl; set_solver). apply Hr. set_solver.
  - exists h. by split_and!.
Qed.
End sgd.
End Training.
