(* ===== verification/TrainingDemo.v ===== *)
(** * A concrete data-parallel run

    Two workers, two parameters and two iterations; the second worker's backward
    pass reaches the parameters in the opposite order. *)

From S2P Require Import Prelude PyStr Tensor TorchOps TorchCompression DistOptim DistOptimProofs DistSync.
From S2P Require Import DistDemo CrossBarrierOpt Training.
Import CompressionDemo Training.

Module TrainingDemo.
Definition ps : list param := [0%nat; 1%nat].
Definition name (p : param) : string := match p with O => "w" | _ => "b" end.
Definition init (p : param) : list Z := match p with O => [10; 20] | _ => [30; 40] end.

Definition rounds : list round :=
  [Round (λ i p, match i with O => [2; 4] | _ => [4; -2] end)
         (λ i, match i with O => [0%nat; 1%nat] | _ => [1%nat; 0%nat] end);
   Round (λ i p, match p with O => [1; 3] | _ => [-3; 5] end)
         (λ i, match i with O => [1%nat; 0%nat] | _ => [1%nat; 0%nat] end)].

(** The servers: two operations per iteration. *)
Definition servers : Extension Z := Ext Z
  (λ h n _ _ l, match rounds !! Z.to_nat ((h - 1) / 2) with
     | Some r => average 2 r (if decide (n = "byteps.Gradient.w") then 0%nat else 1%nat)
     | None => l
     end)
  (λ f, bool_decide (f ∈ OpsDemo.exported)) (λ n, replicate n 7).

Definition cf : config :=
  Config CNone "none" true false true [(NPTensor 0, "w"); (NPTensor 1, "b")] {[0%nat; 1%nat]}.
Definition T (p : param) : tensor Z := Tensor float32 [2%nat] [0; 0] true true.
Definition heap0 : heap Z :=
  {[0%nat := with_data (init 0) (T 0); 1%nat := with_data (init 1) (T 1); 2%nat := T 0; 3%nat := T 1]}.
Definition worker : optim :=
  Optim (Ops heap0 4 OpsDemo.lib ∅ ∅ 0 ∅, ∅) {[0%nat := 2%nat; 1%nat := 3%nat]}
    {[0%nat := 0%nat; 1%nat := 1%nat]} [] [(NPTensor 0, 1); (NPTensor 1, 1)] 1 None ∅ None true None None None.
Definition G (p : param) : loc := (2 + p)%nat.
Definition D (p : param) : loc := p.

Lemma demo_setting : setting (Extension0 := servers) cf ps G D T name.
Proof.
  split; try done.
  - apply (bool_decide_unpack _). by vm_compute.
  - intros p Hp. unfold ps. set_solver.
  - intros p Hp. unfold ps in Hp. set_unfold in Hp. by destruct Hp as [->|[->|[]]].
  - intros p q Hp Hq. unfold G. lia.
  - intros p q Hp Hq. unfold ps, G, D in *. set_unfold in Hp. set_unfold in Hq. lia.
Qed.

Lemma demo_between : between ps G D T T init worker.
Proof.
  split; try done.
  - split; simpl; [done|intros; simplify_map_eq|intros h [? E]; simplify_map_eq|intros h k E; simplify_map_eq|].
    intros l. unfold heap0. rewrite !lookup_insert_is_Some', lookup_singleton_is_Some. lia.
  - intros p Hp. unfold ps in Hp. set_unfold in Hp. by destruct Hp as [->|[->|[]]].
  - intros p Hp. unfold ps in Hp. set_unfold in Hp. by destruct Hp as [->|[->|[]]].
  - intros p Hp. unfold ps in Hp. set_unfold in Hp. destruct Hp as [->|[->|[]]]; by exists [0; 0].
  - intros p Hp. unfold ps in Hp. set_unfold in Hp. by destruct Hp as [->|[->|[]]].
  - intros p Hp. unfold ps in Hp. set_unfold in Hp. by destruct Hp as [->|[->|[]]].
Qed.

Lemma demo_servers i : servers_average 2 (λ _, servers) cf ps name i 0 rounds.
Proof.
  intros k r Hk h p Hp Hh. simpl in Hh.
  assert (Z.to_nat ((h - 1) / 2) = k) as Ek.
  { assert ((h - 1) / 2 = Z.of_nat k) as ->; [|lia]. symmetry. apply (Z.div_unique_pos _ _ _ (h - 1 - 2 * Z.of_nat k)); lia. }
  cbn [reduce servers]. rewrite Ek, Hk. unfold ps in Hp. set_unfold in Hp. by destruct Hp as [->|[->|[]]].
Qed.

(** 10 - (2 + 4)/2 - (1 + 1)/2 = 6. *)
Lemma data_parallel_refines_witness : ∃ s0 s1,
  train 2 (λ _, servers) cf (λ _, sgd_step ps 1) 0 rounds worker = (Ok (), s0) ∧
  train 2 (λ _, servers) cf (λ _, sgd_step ps 1) 1 rounds worker = (Ok (), s1) ∧
  o_heap (d_world s0).1 !! 0%nat = Some (with_data [6; 16] (T 0)) ∧
  o_heap (d_world s1).1 !! 0%nat = Some (with_data [6; 16] (T 0)).
Proof.
  pose proof (data_parallel_refines 2 (λ _, servers) cf ps name (λ _, G) (λ _, D) (λ _, T) (λ _, T)
    (λ _, sgd_step ps 1) (λ _ w x, v_axpy (s_neg 1) w x) rounds init (λ _, worker)) as Hall.
  assert (∀ i, (i < 2)%nat → Forall (round_ok ps i) rounds) as Hr.
  { intros i Hi. destruct i as [|[|i]]; [| |lia]; (apply Forall_cons_2; [|apply Forall_cons_2; [|apply Forall_nil_2]]);
      (split; [first [reflexivity|apply perm_swap]|]); intros p Hp; by destruct p. }
  destruct (Hall ltac:(intros i Hi; split_and!; [apply demo_setting
      |apply (sgd_step_law (Extension0 := servers) cf ps G D T T name 1 demo_setting)|by apply Hr
      |apply demo_between|apply demo_servers]) 0%nat ltac:(lia)) as (s0 & E0 & H0 & _).
  destruct (Hall ltac:(intros i Hi; split_and!; [apply demo_setting
      |apply (sgd_step_law (Extension0 := servers) cf ps G D T T name 1 demo_setting)|by apply Hr
      |apply demo_between|apply demo_servers]) 1%nat ltac:(lia)) as (s1 & E1 & H1 & _).
  exists s0, s1. split_and!; [exact E0|exact E1|apply (H0 0%nat ltac:(left))|apply (H1 0%nat ltac:(left))].
Defined.
End TrainingDemo.
