(* ===== verification/IncaVariant.v ===== *)
(** * The earlier optimizer and the current one

    The methods of [byteps/torch/inca_init.py] that [IncaInit] takes from
    [torch/__init__.py], where their text is the same or differs in the name of the
    compressor, which this class does not hand to the extension; and its broadcasts.

    Unless gradients are compressed in a batch, the two optimizers do the same in every
    state: what is proved of [DistOptim] holds of this one too. *)

From S2P Require Import Prelude PyStr Tensor TorchOps TorchCompression DistOptim DistOptimProofs IncaInit Broadcast.

Module IncaVariant.
Import Inca.
Section variant.
Context {R : Type} `{Scalar R, !Extension R, !TorchLib R, !Backend R}.
Implicit Types (s : optim (R := R)) (p : param) (cf : config).

(** ** Methods with the same text *)

Definition inca_find_duplicates : list string → list string := find_duplicates.
Definition inca_set_backward_passes_per_step : Z → M (optim (R := R)) () := set_backward_passes_per_step.
Definition inca_register_hooks : (param → bool) → list (list param) → M (optim (R := R)) () := _register_hooks.
Definition inca_batch_push_pull_info : list R → M optim R := batch_push_pull_info.
Definition inca_push_pull_info : list param → M optim R := _push_pull_info.
Definition inca_hook : config → bool → param → M (optim (R := R)) () := hook.
Definition inca_skip_synchronize {A} : config → M (optim (R := R)) A → M optim A := skip_synchronize.

(** ** Push-pull without a compressor's name *)

Definition inca_afterbatch_push_pull_grad_async cf p : M optim (option Z) :=
  let name := name_of cf p in
  if _enable_async cf then mret None
  else
    g ← grad_of p;
    tensor ← to_dtype uint8 g;
    full ← lift (prefixed "Gradient." name);
    h ← byteps_push_pull tensor true full "";
    mret (Some h).

Definition inca_push_pull_grad_async cf p : M optim (option Z * ctx) :=
  let name := name_of cf p in
  if _enable_async cf then mret (None, CtxNone)
  else
    tensor ← grad_of p;
    s ← get;
    '(tensor_compressed, cx) ← in_world (compress (_compression cf) tensor name (_compression_info s));
    full ← lift (prefixed "Gradient." name);
    h ← byteps_push_pull tensor_compressed true full "";
    mret (Some h, cx).

(** ** The same optimizer *)

(** The constructor leaves the name empty. *)
Lemma inca_init_name e groups rg named c bpps W s cf s' :
  Inca.dist_init e groups rg named c bpps W s = (Ok cf, s') → _compressor_name cf = "" ∧ _compression cf = c.
Proof.
  unfold Inca.dist_init, mbind, M_bind, lift. destruct (enable_async e); [|done].
  destruct (check_named named groups) as [[[inst names] pairs]|]; [|done].
  cbn [modify]. destruct (_register_hooks _ _ _) as [[[]|] s1]; [|done].
  cbn [modify]. destruct (in_ops _ _) as [[l|] s2]; [|done].
  cbn [modify]. destruct (declare_all _ _) as [[[]|] s3]; [|done]. by intros [= <- _].
Qed.

Lemma afterbatch_same cf p : _compressor_name cf = "" →
  inca_afterbatch_push_pull_grad_async cf p = _afterbatch_push_pull_grad_async cf p.
Proof. unfold inca_afterbatch_push_pull_grad_async, _afterbatch_push_pull_grad_async. by intros ->. Qed.
Lemma push_pull_same cf p : _compressor_name cf = "" → inca_push_pull_grad_async cf p = _push_pull_grad_async cf p.
Proof. unfold inca_push_pull_grad_async, _push_pull_grad_async. by intros ->. Qed.

(** Compressors whose gradients are exchanged one by one. *)
Definition one_by_one (c : compression) : bool :=
  match c with NewINCA _ _ | OldINCA _ _ | CTopK _ => false | _ => true end.

(** With a compressor that takes gradients one by one, [synchronize] and [step] of the
    earlier optimizer are those of the current one in every state, whatever [step] the
    wrapped optimizer has. *)
Theorem variants_agree cf W me : one_by_one (_compression cf) = true →
  Inca.dist_synchronize (R := R) cf W me = DistOptim.dist_synchronize cf W me ∧
  ∀ L (super_step : M optim L), Inca.dist_step cf W me super_step = DistOptim.dist_step cf W me super_step.
Proof.
  intros Hc. assert (Inca.dist_synchronize (R := R) cf W me = DistOptim.dist_synchronize cf W me) as E.
  { unfold Inca.dist_synchronize, DistOptim.dist_synchronize. by destruct (_compression cf). }
  split; [done|]. intros L super_step. unfold Inca.dist_step, DistOptim.dist_step. by rewrite E.
Qed.
End variant.

(** ** Broadcasts, with the same text *)
Section broadcasts.
Context {R : Type} `{Scalar R, !Extension R}.

Definition inca_broadcast_parameters : Z → Z → string → bc_params → M (ops R) () := broadcast_parameters.
Definition inca_broadcast_object {O : Type} (dump : O → list R) (load : list R → option O) (type_name_of : O → string) :
  Z → Z → O → option string → M (ops R) O := broadcast_object dump load type_name_of.
Definition inca_broadcast_optimizer_state {V : Type} : (odict string V → list R) → (list R → option (odict string V)) →
  (V → bool) → bool → Z → Z → string → M (ops R) (state_dict (V := V)) → state_dict (V := V) → M (ops R) (state_dict (V := V)) :=
  broadcast_optimizer_state.
End broadcasts.
End IncaVariant.
