(* ===== verification/HalfOpt.v ===== *)
(** * The mixed-precision optimizer, [byteps/misc/imagenet18/__init__.py]

    [_HalfPrecisionDistributedOptimizer]: the model computes with 16-bit
    parameters, each of which has a 32-bit master copy that the optimizer
    updates. The gradients of the 16-bit parameters are summed by push-pull as
    soon as the backward pass has made them; when a reply is there, the master
    copy's gradient is set from it, one SGD step is made on the master copy, and
    the result is copied to the 16-bit parameter. A forward hook makes a layer
    wait for the updates of its own parameters only.

    16-bit and master parameters are object identities of the same kind. The
    state extends that of the package's distributed optimizer. When an operation
    is ready depends on the servers: [polls n h] is the answer to the [n]-th call
    of [poll]. The lock and the sleep of the forward hook are left out: forward
    and backward passes run in one thread. *)

From S2P Require Import Prelude PyStr Tensor TorchOps TorchCompression DistOptim CrossBarrierOpt.

Module Half.
Section half.
Context {R : Type} `{Scalar R, !Extension R, !TorchLib R, !Backend R}.
Context (polls : nat → Z → bool).

(** The attributes [__init__] fixes. *)
Record hconfig : Type := HConfig {
  compression_ : compression;
  names_ : odict np_value string;
  _fp32_to_fp16_map : gmap param param;
  _fp16_to_fp32_map : gmap param param;
  param_groups : list (sgd_group (R := R) * list param);
  loss_scale : R;
  size_ : Z;
  requires_update_ : gset param;
  hooked : list module
}.

(** The attributes that change; [self.state[p]['momentum_buffer']] is [momentum]. *)
Record half : Type := HalfState {
  h_opt : optim (R := R);
  priorities : odict param Z;
  gradient_count : Z;
  momentum : gmap param (list R);
  n_polls : nat
}.

Definition set_opt o (s : half) : half :=
  HalfState o (priorities s) (gradient_count s) (momentum s) (n_polls s).
Definition in_opt {A} : M (optim (R := R)) A → M half A := zoom h_opt set_opt.

(** ** Tensors *)

(** [src.expand(dst)]: a dimension of size one is repeated; missing leading
    dimensions count as one. *)
Fixpoint expand_dims (src dst : list nat) (data : list R) : option (list R) :=
  match src, dst with
  | [], [] => Some data
  | a :: src', b :: dst' =>
      if decide (a = b) then
        (λ l, concat l) <$> mapM (λ i, expand_dims src' dst' (take (numel src') (drop (i * numel src') data))) (seq 0 a)
      else if decide (a = 1%nat) then
        (λ l, concat (replicate b l)) <$> expand_dims src' dst' data
      else None
  | _, _ => None
  end.
Definition expand (src dst : list nat) (data : list R) : option (list R) :=
  if decide (src = dst) then Some data
  else expand_dims (replicate (length dst - length src) 1%nat ++ src) dst data.

Definition convert (from to : dtype) (data : list R) : list R :=
  if decide (from = to) then data else map (cast to) data.

(** [dst.copy_(src)] *)
Definition copy_ (dst src : loc) : M optim () :=
  td ← in_ops (read_t dst);
  ts ← in_ops (read_t src);
  data ← lift (or_raise RuntimeError (expand (t_shape ts) (t_shape td) (t_data ts)));
  in_ops (write_t dst (with_data (convert (t_dtype ts) (t_dtype td) data) td)).

(** [t.data = t.data / k] *)
Definition div_data (l : loc) (k : R) : M optim () :=
  t ← in_ops (read_t l);
  in_ops (write_t l (with_data (map (λ x, s_div x k) (t_data t)) t)).

(** ** Construction *)

Definition fp16_of (cf : hconfig) (p : param) : option param := _fp32_to_fp16_map cf !! p.

(** The two tables; a later pair replaces an earlier one. *)
Definition pair_maps (fp16_params fp32_params : list param) : gmap param param * gmap param param :=
  foldl (λ '(to16, to32) '(fp16_p, fp32_p), (<[fp32_p := fp16_p]> to16, <[fp16_p := fp32_p]> to32))
    (∅, ∅) (zip fp16_params fp32_params).

(** A gradient accumulator exists for 16-bit parameters that require gradients. *)
Definition register_backward (to16 : gmap param param) (requires_grad : param → bool) (p : param) :
    M optim () :=
  if requires_grad p then
    register_param requires_grad p;;
    fp16_p ← lift (or_raise AttributeError (to16 !! p));
    if requires_grad fp16_p then mret () else raise AttributeError
  else mret ().

Definition _register_forward_hooks (model : option module) : M (optim (R := R)) (list module) :=
  m ← lift (or_raise AttributeError model);
  lift (or_raise RuntimeError (hooked_modules m)).

Definition _register_backward_hooks (to16 : gmap param param) (requires_grad : param → bool)
    (groups : list (sgd_group (R := R) * list param)) : M optim () :=
  for_each (for_each (register_backward to16 requires_grad)) groups.*2.

(** [__init__] *)
Definition half_init (groups : list (sgd_group (R := R) * list param)) (requires_grad : param → bool)
    (named : option (list np_item)) (model : option module)
    (fp16_params fp32_params : option (list param))
    (scale : R) (c : compression) (size : Z) (bpps : Z) : M half hconfig :=
  '(_, names, pairs) ← lift (check_named named groups.*2);
  fp16s ← lift (or_raise TypeError fp16_params);
  fp32s ← lift (or_raise TypeError fp32_params);
  let '(to16, to32) := pair_maps fp16s fp32s in
  in_opt (modify (set_delay (foldl (λ d '(_, v), od_set v bpps d) [] (sorted_pairs pairs)) bpps));;
  in_opt (modify (set_handles []));;
  mods ← (if decide (1 < size) then
            ms ← in_opt (_register_forward_hooks model);
            in_opt (_register_backward_hooks to16 requires_grad groups);;
            mret ms
          else mret []);
  in_opt (declare_all names.*2);;
  modify (λ s, HalfState (h_opt s) [] 0 (momentum s) (n_polls s));;
  mret (HConfig c names to16 to32 groups scale size
          (if decide (1 < size) then list_to_set (filter (λ p, requires_grad p = true) (concat groups.*2))
           else ∅) mods).

(** [DistributedOptimizer]: the class is chosen by [half]. *)
Definition make_optimizer (half_ : bool) (e : env) (groups : list (sgd_group (R := R) * list param))
    (requires_grad : param → bool) (named : option (list np_item)) (model : option module)
    (fp16_params fp32_params : option (list param)) (scale : R) (c : compression) (size : Z) (bpps : Z) :
    M half (hconfig + config) :=
  if half_ then
    cf ← half_init groups requires_grad named model fp16_params fp32_params scale c size bpps;
    mret (inl cf)
  else
    cf ← in_opt (dist_init e groups.*2 requires_grad named c bpps);
    mret (inr cf).

Definition set_backward_passes_per_step (passes : Z) : M half () :=
  in_opt (DistOptim.set_backward_passes_per_step passes).

(** ** Push-pull of one gradient *)

(** [self._compression.compress(tensor)]: the top-k compressor has no default
    for [name]; a gradient may be [None]. *)
Definition compress_ (c : compression) (tensor : option loc) : M world (option loc * ctx) :=
  match c with
  | CTopK _ => raise TypeError
  | CNone => mret (tensor, CtxNone)
  | _ =>
      tl ← lift (or_raise AttributeError tensor);
      '(out, cx) ← compress c tl None None;
      mret (Some out, cx)
  end.

(** A 16-bit parameter keeps the priority of its first gradient: they are
    numbered in the order in which the backward pass makes them. *)
Definition note_priority (fp16_p : param) : M half Z :=
  s ← get;
  match od_get fp16_p (priorities s) with
  | Some k => mret k
  | None =>
      modify (λ s, HalfState (h_opt s) (od_set fp16_p (gradient_count s) (priorities s))
                     (gradient_count s + 1) (momentum s) (n_polls s));;
      mret (gradient_count s)
  end.

Definition _push_pull_grad_async (cf : hconfig) (p : param) : M half (option Z * ctx) :=
  let name := od_get (NPTensor p) (names_ cf) in
  fp16_p ← lift (or_raise AttributeError (fp16_of cf p));
  tensor ← in_opt (gets (λ o, d_grad o !! fp16_p));
  '(tensor_compressed, cx) ← in_opt (in_world (compress_ (compression_ cf) tensor));
  note_priority fp16_p;;
  full ← lift (prefixed "Gradient." name);
  tl ← lift (or_raise AttributeError tensor_compressed);
  h ← in_opt (byteps_push_pull tl false full "");
  mret (Some h, cx).

Definition set_handle (p : param) (hc : option Z * ctx) : M half () :=
  in_opt (modify (λ o, set_handles (od_set p hc (_handles o)) o)).

(** [hook] of [_make_hook]: [grad_requires_grad] is [p.grad.requires_grad]. *)
Definition hook (cf : hconfig) (grad_requires_grad : bool) (p : param) : M half () :=
  s ← get;
  (match od_get p (_handles (h_opt s)) with
   | Some (Some _, _) =>
       match od_get (NPTensor p) (_push_pull_delay (h_opt s)) with
       | None => raise KeyError
       | Some d => if decide (d ≤ 0) then raise AssertionError else mret ()
       end
   | _ => mret ()
   end);;
  in_opt (grad_of p);;
  m_assert (negb grad_requires_grad);;
  d ← lift (or_raise KeyError (od_get (NPTensor p) (_push_pull_delay (h_opt s))));
  m_assert (bool_decide (0 < d));;
  in_opt (modify (λ o, set_delay (od_set (NPTensor p) (d - 1) (_push_pull_delay o))
                         (backward_passes_per_step o) o));;
  hc ← (if decide (d - 1 = 0) then _push_pull_grad_async cf p else mret (None, CtxNone));
  set_handle p hc.

(** The second loop of [_sync_missing_gradients], for one entry. *)
Definition push_none (cf : hconfig) (p : param) : M half () :=
  s ← get;
  match od_get p (_handles (h_opt s)) with
  | Some (None, _) => hc ← _push_pull_grad_async cf p; set_handle p hc
  | _ => mret ()
  end.

Definition _sync_missing_gradients (cf : hconfig) : M half () :=
  s ← get;
  let missing_p := requires_update_ cf ∖ list_to_set (od_keys (_handles (h_opt s))) in
  for_each (λ p, hc ← _push_pull_grad_async cf p; set_handle p hc) (set_order missing_p);;
  s ← get;
  for_each (push_none cf) (od_keys (_handles (h_opt s))).

(** ** The update of one parameter *)

(** SGD on one parameter: data, gradient and momentum buffer after it. The first
    buffer is a copy of the gradient; weight decay changes the gradient. *)
Definition sgd_one (G : sgd_group (R := R)) (data grad : list R) (buf : option (list R)) :
    list R * list R * option (list R) :=
  let d_p := if nonzero (sgd_weight_decay G) then v_axpy (sgd_weight_decay G) grad data else grad in
  if nonzero (sgd_momentum G) then
    let buf' := match buf with
      | None => d_p
      | Some b => v_axpy (s_sub (s_of_Z 1) (sgd_dampening G)) (v_scale (sgd_momentum G) b) d_p
      end in
    let step := if sgd_nesterov G then v_axpy (sgd_momentum G) d_p buf' else buf' in
    (v_axpy (s_neg (sgd_lr G)) data step, d_p, Some buf')
  else (v_axpy (s_neg (sgd_lr G)) data d_p, d_p, buf).

Definition set_buf (p : param) (b : option (list R)) : M half () :=
  modify (λ s, HalfState (h_opt s) (priorities s) (gradient_count s)
                 (match b with Some b => <[p := b]> (momentum s) | None => momentum s end) (n_polls s)).

(** The body of the loop over a group's parameters. *)
Definition step_one (G : sgd_group (R := R)) (target p : param) : M half () :=
  if decide (p ≠ target) then mret () else
  s ← get;
  match d_grad (h_opt s) !! p with
  | None => mret ()
  | Some g =>
      tg ← in_opt (in_ops (read_t g));
      d ← in_opt (data_of p);
      td ← in_opt (in_ops (read_t d));
      let '(data, grad, buf) := sgd_one G (t_data td) (t_data tg) (momentum s !! p) in
      in_opt (in_ops (write_t g (with_data grad tg)));;
      set_buf p buf;;
      in_opt (in_ops (write_t d (with_data data td)))
  end.

Definition _step_one_param (cf : hconfig) (target : param) : M half () :=
  for_each (λ '(G, ps), for_each (step_one G target) ps) (param_groups cf).

Definition _zero_one_grad (p : param) : M half () :=
  s ← get;
  match d_grad (h_opt s) !! p with
  | None => mret ()
  | Some g =>
      t ← in_opt (in_ops (read_t g));
      in_opt (in_ops (write_t g (with_data (vzero (length (t_data t))) t)))
  end.

(** ** Waiting *)

(** The call of [poll]: the handle [None] is no integer. *)
Definition poll_ (handle : option Z) : M half bool :=
  h ← lift (or_raise TypeError handle);
  s ← get;
  modify (λ s, HalfState (h_opt s) (priorities s) (gradient_count s) (momentum s) (S (n_polls s)));;
  in_opt (in_ops (poll (polls (n_polls s)) h)).

(** What [_try_to_synchronize] does with a reply. *)
Definition receive (cf : hconfig) (p : param) (handle : option Z) (cx : ctx) : M half () :=
  output ← in_opt (ops_synchronize handle);
  in_opt (reset_delay p);;
  fp16_p ← lift (or_raise AttributeError (fp16_of cf p));
  g16 ← in_opt (grad_of fp16_p);
  o ← lift (or_raise TypeError output);
  '(d, _) ← in_opt (in_world (decompress (compression_ cf) o cx));
  in_opt (tensor_set g16 d);;
  g ← in_opt (grad_of p);
  in_opt (copy_ g g16);;
  in_opt (div_data g (s_mul (loss_scale cf) (s_of_Z (size_ cf))));;
  _step_one_param cf p;;
  d16 ← in_opt (data_of fp16_p);
  d32 ← in_opt (data_of p);
  in_opt (copy_ d16 d32);;
  in_opt (modify (λ o, set_handles (od_del p (_handles o)) o)).

Definition _try_to_synchronize (cf : hconfig) (p : param) : M half bool :=
  s ← get;
  '(handle, cx) ← lift (or_raise KeyError (od_get p (_handles (h_opt s))));
  ready ← poll_ handle;
  if ready : bool then receive cf p handle cx;; mret true else mret false.

(** Every turn of the loop polls all pending operations once. *)
Fixpoint _wait_for_all (fuel : nat) (cf : hconfig) : D half () :=
  s ← run get;
  match od_keys (_handles (h_opt s)) with
  | [] => mret ()
  | ps =>
      match fuel with
      | O => never
      | S fuel' =>
          run (for_each (λ p, _try_to_synchronize cf p;; mret ()) ps);;
          _wait_for_all fuel' cf
      end
  end.

(** ** Forward hooks *)

(** The loop over the other pending parameters, up to the first success. *)
Fixpoint try_others (cf : hconfig) (p : param) (others : list param) : M half () :=
  match others with
  | [] => mret ()
  | q :: others' =>
      if decide (q = p) then try_others cf p others' else
      b ← _try_to_synchronize cf q;
      if b : bool then mret () else try_others cf p others'
  end.

(** The loop [while True] for one parameter. *)
Fixpoint block_on (fuel : nat) (cf : hconfig) (p : param) : D half () :=
  match fuel with
  | O => never
  | S fuel' =>
      s ← run get;
      if negb (od_mem p (_handles (h_opt s))) then mret () else
      b ← run (_try_to_synchronize cf p);
      if b : bool then mret () else
      s ← run get;
      run (try_others cf p (od_keys (_handles (h_opt s))));;
      block_on fuel' cf p
  end.

Definition pre_forward_hook (fuel : nat) (cf : hconfig) (ps : list param) : D half () :=
  for_eachD (λ p,
    fp32_p ← run (lift (or_raise KeyError (_fp16_to_fp32_map cf !! p)));
    s ← run get;
    if od_mem fp32_p (_handles (h_opt s)) then block_on fuel cf fp32_p else mret ()) ps.

Definition after_forward_hook (ps : list param) : M half () := for_each _zero_one_grad ps.

(** ** [step] *)

(** [super_step] is the [step] of the wrapped optimizer, which only runs when
    there is one worker; the closure is the caller's. *)
Definition step {L} (fuel : nat) (cf : hconfig) (closure : option (M half L)) (wait_for_finish : bool)
    (super_step : M half ()) : D half (option L) :=
  if decide (1 < size_ cf) then
    run (_sync_missing_gradients cf);;
    (if wait_for_finish then _wait_for_all fuel cf else mret ());;
    match closure with
    | Some c => loss ← run c; mret (Some loss)
    | None => mret None
    end
  else run super_step;; mret None.
End half.
End Half.
