(* ===== verification/HalfProofs.v ===== *)
(** * The mixed-precision optimizer: waiting, updates and forward hooks

    Every pending parameter is either as it was when its gradient was sent, or
    has been updated exactly once from the servers' reply; the loops that wait
    end when the servers answer every operation. *)

From S2P Require Import Prelude PyStr Tensor TorchOps TorchCompression DistOptim DistOptimProofs.
From S2P Require Import CrossBarrierOpt HalfOpt.

Module HalfProofs.
Import Half.

Section proofs.
Context {R : Type} `{Scalar R, !Extension R, !TorchLib R, !Backend R}.
Implicit Types (s : half (R := R)) (o : optim (R := R)) (p q : param) (l : loc).

Notation ops_ o := (d_world o).1 (only parsing).
Notation heap_ o := (o_heap (d_world o).1) (only parsing).
Notation tasks o := (c_results (o_clib (d_world o).1)) (only parsing).
Notation table o := (TorchOps._handle_map (d_world o).1) (only parsing).
Notation keys s := (od_keys (_handles (h_opt s))) (only parsing).

Lemma in_opt_eq {A} (m : M optim A) s r o : m (h_opt s) = (r, o) → in_opt m s = (r, set_opt o s).
Proof. unfold in_opt, zoom. intros E. by rewrite E. Qed.

Lemma set_opt_id s : set_opt (h_opt s) s = s.
Proof. by destruct s. Qed.

Lemma in_opt_id {A} (m : M optim A) s a : m (h_opt s) = (Ok a, h_opt s) → in_opt m s = (Ok a, s).
Proof. intros E. rewrite (in_opt_eq _ _ _ _ E). by rewrite set_opt_id. Qed.

(** ** Writing tensors *)

Definition wr l (t : tensor R) o : optim := set_world (set_heap (<[l := t]> (heap_ o)) (ops_ o), (d_world o).2) o.

Lemma write_ok l t o : in_ops (write_t l t) o = (Ok (), wr l t o).
Proof. by apply in_ops_eq. Qed.

Lemma expand_same sh (data : list R) : expand sh sh data = Some data.
Proof. unfold expand. by rewrite decide_True. Qed.

Lemma copy_ok dst src o td ts :
  heap_ o !! dst = Some td → heap_ o !! src = Some ts → t_shape ts = t_shape td →
  copy_ dst src o = (Ok (), wr dst (with_data (convert (t_dtype ts) (t_dtype td) (t_data ts)) td) o).
Proof.
  intros Hd Hs E. unfold copy_. erewrite bind_Ok by (by apply in_ops_read).
  erewrite bind_Ok by (by apply in_ops_read). rewrite E, expand_same. apply write_ok.
Qed.

Lemma div_ok l k o t :
  heap_ o !! l = Some t →
  div_data l k o = (Ok (), wr l (with_data (map (λ x, s_div x k) (t_data t)) t) o).
Proof. intros E. unfold div_data. erewrite bind_Ok by (by apply in_ops_read). apply write_ok. Qed.

Lemma tensor_set_same l o t :
  heap_ o !! l = Some t → tensor_set l l o = (Ok (), wr l t o).
Proof.
  intros E. unfold tensor_set. do 2 (erewrite bind_Ok by (by apply in_ops_read)).
  rewrite decide_True by done. apply write_ok.
Qed.

(** ** The search for a parameter's group *)

Definition members (groups : list (sgd_group (R := R) * list param)) : list (sgd_group (R := R) * param) :=
  groups ≫= λ '(G, ps), pair G <$> ps.

Definition step_member target (x : sgd_group (R := R) * param) : M (half (R := R)) () :=
  step_one x.1 target x.2.

Lemma for_each_map {S A B} (f : A → B) (body : B → M S ()) (xs : list A) st :
  for_each body (f <$> xs) st = for_each (λ x, body (f x)) xs st.
Proof.
  revert st. induction xs as [|x xs IH]; intros st; simpl; [done|].
  unfold mbind, M_bind. destruct (body (f x) st) as [[[]|] st']; [apply IH|done].
Qed.

Lemma step_members cf target s :
  _step_one_param cf target s = for_each (step_member target) (members (param_groups cf)) s.
Proof.
  unfold _step_one_param, members. generalize (param_groups cf) as gs. intros gs. revert s.
  induction gs as [|[G ps] gs IH]; intros s; [done|].
  rewrite bind_cons, for_each_app_eq. cbn [for_each].
  assert (for_each (step_member target) (pair G <$> ps) s = for_each (step_one G target) ps s) as E2
    by (by rewrite for_each_map).
  destruct (for_each (step_one G target) ps s) as [[[]|e] s'] eqn:E.
  - by rewrite (bind_Ok _ _ _ _ _ E), (bind_Ok _ _ _ _ _ E2), IH.
  - by rewrite (bind_Raise _ _ _ _ _ E), (bind_Raise _ _ _ _ _ E2).
Qed.

Lemma step_others target xs s :
  Forall (λ x, x.2 ≠ target) xs → for_each (step_member target) xs s = (Ok (), s).
Proof.
  induction 1 as [|[G p] xs Hp _ IH]; simpl in *; [done|].
  erewrite bind_Ok; [exact IH|]. unfold step_member, step_one. cbn. by rewrite decide_True.
Qed.

(** A parameter that occurs once gets one step, with its group's options. *)
Lemma step_single cf target pre G post s :
  members (param_groups cf) = pre ++ (G, target) :: post →
  Forall (λ x, x.2 ≠ target) pre → Forall (λ x, x.2 ≠ target) post →
  _step_one_param cf target s = step_one G target target s.
Proof.
  intros E Hpre Hpost. rewrite step_members, E, for_each_app_eq.
  erewrite bind_Ok by (by apply step_others). simpl. unfold mbind, M_bind.
  change (step_member target (G, target)) with (step_one G target target).
  destruct (step_one G target target s) as [[[]|] s1]; [by apply step_others|done].
Qed.

(** ** One update *)

(** What belongs to a master parameter: its 16-bit parameter, the four tensors
    (the 16-bit gradient, the master's gradient and data, the 16-bit data) with
    their contents when the gradient is sent, its name, its group's options and
    its momentum buffer. *)
Record slot : Type := Slot {
  fp16_p : param;
  lg16 : loc; lg32 : loc; ld32 : loc; ld16 : loc;
  tg16 : tensor R; tg32 : tensor R; td32 : tensor R; td16 : tensor R;
  sname : string; sgroup : sgd_group (R := R); sbuf : option (list R)
}.

Context (polls : nat → Z → bool) (cf : hconfig (R := R)) (L : param → slot) (ps : list param).

Definition locs_of p : list loc := [lg16 (L p); lg32 (L p); ld32 (L p); ld16 (L p)].

Record layout : Prop := {
  ly_none : compression_ cf = CNone;
  ly_nodup : NoDup ps;
  ly_locs : NoDup (ps ≫= locs_of);
  ly_fp16 p : p ∈ ps → fp16_of cf p = Some (fp16_p (L p));
  ly_name p : p ∈ ps → od_get (NPTensor p) (names_ cf) = Some (sname (L p));
  ly_sup p : p ∈ ps → supported (tg16 (L p));
  ly_shape p : p ∈ ps → t_shape (tg16 (L p)) = t_shape (tg32 (L p)) ∧
                         t_shape (td32 (L p)) = t_shape (td16 (L p));
  ly_group p : p ∈ ps → ∃ pre post, members (param_groups cf) = pre ++ (sgroup (L p), p) :: post ∧
                 Forall (λ x, x.2 ≠ p) pre ∧ Forall (λ x, x.2 ≠ p) post
}.

Record refs o : Prop := {
  rf_g16 p : p ∈ ps → d_grad o !! fp16_p (L p) = Some (lg16 (L p));
  rf_g32 p : p ∈ ps → d_grad o !! p = Some (lg32 (L p));
  rf_d32 p : p ∈ ps → d_data o !! p = Some (ld32 (L p));
  rf_d16 p : p ∈ ps → d_data o !! fp16_p (L p) = Some (ld16 (L p))
}.

Definition gname p : string := "Gradient." +:+ sname (L p).

(** The reply to the operation with handle [h], the gradient the step is made
    with, and the step: the master's data, gradient and momentum buffer. *)
Definition reply p (h : Z) : list R :=
  reduce h (GetOpName (gname p)) false "" (t_data (tg16 (L p))).
Definition scaled p (h : Z) : list R :=
  map (λ x, s_div x (s_mul (loss_scale cf) (s_of_Z (size_ cf))))
    (convert (t_dtype (tg16 (L p))) (t_dtype (tg32 (L p))) (reply p h)).
Definition stepped p (h : Z) : list R * list R * option (list R) :=
  sgd_one (sgroup (L p)) (t_data (td32 (L p))) (scaled p h) (sbuf (L p)).

Record untouched s p : Prop := {
  un_g16 : heap_ (h_opt s) !! lg16 (L p) = Some (tg16 (L p));
  un_g32 : heap_ (h_opt s) !! lg32 (L p) = Some (tg32 (L p));
  un_d32 : heap_ (h_opt s) !! ld32 (L p) = Some (td32 (L p));
  un_d16 : heap_ (h_opt s) !! ld16 (L p) = Some (td16 (L p));
  un_buf : momentum s !! p = sbuf (L p)
}.

(** The operation on the gradient of [p] has been submitted with handle [h]. *)
Record sent s p (h : Z) : Prop := {
  se_entry : od_get p (_handles (h_opt s)) = Some (Some h, CtxNone);
  se_table : table (h_opt s) !! h = Some (lg16 (L p), lg16 (L p), Some (gname p));
  se_task : ∃ norm, tasks (h_opt s) !! h =
              Some (Task (t_data (tg16 (L p))) (lg16 (L p)) false (GetOpName (gname p)) norm "")
}.

(** The parameter has been updated from the reply: its 16-bit gradient holds the
    reply, the master's gradient the scaled reply (with weight decay added), the
    master's data has made one step, and the 16-bit data is a copy of it. *)
Record updated s p (h : Z) : Prop := {
  up_g16 : heap_ (h_opt s) !! lg16 (L p) = Some (with_data (reply p h) (tg16 (L p)));
  up_g32 : heap_ (h_opt s) !! lg32 (L p) = Some (with_data (stepped p h).1.2 (tg32 (L p)));
  up_d32 : heap_ (h_opt s) !! ld32 (L p) = Some (with_data (stepped p h).1.1 (td32 (L p)));
  up_d16 : heap_ (h_opt s) !! ld16 (L p) = Some (with_data
    (convert (t_dtype (td32 (L p))) (t_dtype (td16 (L p))) (stepped p h).1.1) (td16 (L p)));
  up_buf : momentum s !! p = (stepped p h).2;
  up_delay : od_get (NPTensor p) (_push_pull_delay (h_opt s)) = Some (backward_passes_per_step (h_opt s))
}.

(** The effect of receiving a reply. *)
Record received s p (h : Z) s' : Prop := {
  re_inv : ops_inv (ops_ (h_opt s'));
  re_init : c_initialized (o_clib (ops_ (h_opt s'))) = c_initialized (o_clib (ops_ (h_opt s)));
  re_upd : updated s' p h;
  re_heap l : l ∉ locs_of p → heap_ (h_opt s') !! l = heap_ (h_opt s) !! l;
  re_tasks : tasks (h_opt s') = delete h (tasks (h_opt s));
  re_table : table (h_opt s') = delete h (table (h_opt s));
  re_grad : d_grad (h_opt s') = d_grad (h_opt s);
  re_data : d_data (h_opt s') = d_data (h_opt s);
  re_handles : _handles (h_opt s') = od_del p (_handles (h_opt s));
  re_delay q : q ≠ p → od_get (NPTensor q) (_push_pull_delay (h_opt s')) =
                        od_get (NPTensor q) (_push_pull_delay (h_opt s));
  re_bpps : backward_passes_per_step (h_opt s') = backward_passes_per_step (h_opt s);
  re_mom q : q ≠ p → momentum s' !! q = momentum s !! q;
  re_polls : n_polls s' = n_polls s
}.

Lemma locs_NoDup p : layout → p ∈ ps → NoDup (locs_of p).
Proof.
  intros Hly Hp. pose proof (ly_locs Hly) as Hnd. apply list_elem_of_split in Hp as (a & b & ->).
  rewrite bind_app, bind_cons in Hnd.
  apply NoDup_app in Hnd as (_ & _ & Hnd). by apply NoDup_app in Hnd as (Hnd & _).
Qed.

Lemma locs_ne p : layout → p ∈ ps →
  lg16 (L p) ≠ lg32 (L p) ∧ lg16 (L p) ≠ ld32 (L p) ∧ lg16 (L p) ≠ ld16 (L p) ∧
  lg32 (L p) ≠ ld32 (L p) ∧ lg32 (L p) ≠ ld16 (L p) ∧ ld32 (L p) ≠ ld16 (L p).
Proof.
  intros Hly Hp. pose proof (locs_NoDup p Hly Hp) as Hl. unfold locs_of in Hl.
  rewrite !NoDup_cons in Hl. set_solver.
Qed.

(** Without momentum no buffer is made. *)
Lemma sgd_one_None G (data grad : list R) buf data' grad' :
  sgd_one G data grad buf = (data', grad', None) → buf = None.
Proof. unfold sgd_one. destruct (nonzero (sgd_momentum G)); congruence. Qed.

Lemma locs_disjoint p q l : layout → p ∈ ps → q ∈ ps → l ∈ locs_of p → l ∈ locs_of q → p = q.
Proof.
  intros Hly Hp Hq Hlp Hlq. destruct (decide (p = q)) as [|Hne]; [done|]. exfalso.
  pose proof (ly_locs Hly) as Hnd. apply list_elem_of_split in Hp as (a & b & Eps). rewrite Eps in *.
  rewrite bind_app, bind_cons in Hnd. apply NoDup_app in Hnd as (_ & Ha & Hnd).
  apply NoDup_app in Hnd as (_ & Hb & _).
  apply elem_of_app in Hq as [Hq|[->|Hq]%elem_of_cons]; [|done|].
  - apply (Ha l); [apply list_elem_of_bind; by exists q|]. apply elem_of_app. by left.
  - apply (Hb l Hlp). apply list_elem_of_bind. by exists q.
Qed.

Lemma wr_inv l t o : ops_inv (ops_ o) → is_Some (heap_ o !! l) → ops_inv (ops_ (wr l t o)).
Proof.
  intros Hi Hl. by apply ops_inv_write.
Qed.

(** [step_one] on the parameter it looks for. *)
Lemma step_one_ok G p s g d (gt dt : tensor R) data grad buf :
  d_grad (h_opt s) !! p = Some g → d_data (h_opt s) !! p = Some d →
  heap_ (h_opt s) !! g = Some gt → heap_ (h_opt s) !! d = Some dt →
  sgd_one G (t_data dt) (t_data gt) (momentum s !! p) = (data, grad, buf) →
  step_one G p p s =
    (Ok (), HalfState (wr d (with_data data dt) (wr g (with_data grad gt) (h_opt s))) (priorities s)
              (gradient_count s) (match buf with Some b => <[p := b]> (momentum s) | None => momentum s end)
              (n_polls s)).
Proof.
  intros Hg Hd Hgt Hdt E. unfold step_one. rewrite decide_False by auto.
  erewrite bind_Ok by reflexivity. rewrite Hg.
  erewrite bind_Ok by (apply in_opt_id; by apply in_ops_read).
  erewrite bind_Ok by (apply in_opt_id; by apply data_of_ok).
  erewrite bind_Ok by (apply in_opt_id; by apply in_ops_read).
  rewrite E. erewrite bind_Ok by (apply in_opt_eq; apply write_ok).
  erewrite bind_Ok by reflexivity. by erewrite in_opt_eq by apply write_ok.
Qed.

Lemma completed_heap (o : ops R) h k t :
  o_heap (completed o h k t) =
    <[k_output k := with_data (reduce h (k_name k) (k_average k) (k_compressor k) (k_input k)) t]> (o_heap o).
Proof. done. Qed.

(** The state after receiving, as the writes leave it. *)
Lemma received_final s p h k t1 t2 data grad buf s' :
  layout → p ∈ ps → ops_inv (ops_ (h_opt s)) → untouched s p →
  tasks (h_opt s) !! h = Some k →
  k = Task (t_data (tg16 (L p))) (lg16 (L p)) false (GetOpName (gname p)) (k_norm k) "" →
  stepped p h = (data, grad, buf) →
  h_opt s' = set_handles (od_del p (_handles (h_opt s)))
    (wr (ld16 (L p)) (with_data (convert (t_dtype (td32 (L p))) (t_dtype (td16 (L p))) data) (td16 (L p)))
    (wr (ld32 (L p)) (with_data data (td32 (L p))) (wr (lg32 (L p)) (with_data grad (tg32 (L p)))
    (wr (lg32 (L p)) t2 (wr (lg32 (L p)) t1 (wr (lg16 (L p)) (with_data (reply p h) (tg16 (L p)))
    (set_world (completed (ops_ (h_opt s)) h k (tg16 (L p)), (d_world (h_opt s)).2)
    (set_delay (od_set (NPTensor p) (backward_passes_per_step (h_opt s)) (_push_pull_delay (h_opt s)))
      (backward_passes_per_step (h_opt s)) (h_opt s))))))))) →
  momentum s' = (match buf with Some b => <[p := b]> (momentum s) | None => momentum s end) →
  n_polls s' = n_polls s → received s p h s'.
Proof.
  intros Hly Hp Hinv [U1 U2 U3 U4 U5] E3 Ek Est Eo Em En.
  destruct (locs_ne p Hly Hp) as (N1 & N2 & N3 & N4 & N5 & N6).
  assert (ops_inv (completed (ops_ (h_opt s)) h k (tg16 (L p)))) as Hci
    by (apply completed_inv; [done..|by rewrite Ek]).
  assert (k_output k = lg16 (L p)) as Eout by (by rewrite Ek).
  assert (ops_inv (ops_ (h_opt s'))) as Hi.
  { rewrite Eo. unfold set_handles at 1. cbn [d_world].
    repeat apply wr_inv; [exact Hci|..]; simpl; rewrite ?Eout, ?lookup_insert_is_Some'; eauto 10. }
  split; try exact Hi; rewrite ?Eo; simpl; rewrite ?Eout; try done.
  - split; rewrite ?Eo, ?Em, ?Est; simpl; rewrite ?Eout.
    + rewrite !lookup_insert_ne by done. by rewrite lookup_insert_eq.
    + rewrite !lookup_insert_ne by done. by rewrite lookup_insert_eq.
    + rewrite !lookup_insert_ne by done. by rewrite lookup_insert_eq.
    + by rewrite lookup_insert_eq.
    + destruct buf; [by rewrite lookup_insert_eq|]. rewrite U5. by eapply sgd_one_None.
    + by rewrite od_get_set_eq.
  - intros l Hn. unfold locs_of in Hn. rewrite !lookup_insert_ne by set_solver. done.
  - intros q Hq. rewrite od_get_set_ne; [done|congruence].
  - intros q Hq. rewrite Em. destruct buf; [by rewrite lookup_insert_ne|done].
Qed.

Lemma receive_ok s p h :
  layout → p ∈ ps → refs (h_opt s) → ops_inv (ops_ (h_opt s)) → NoDup (keys s) →
  untouched s p → sent s p h →
  ∃ s', receive cf p (Some h) CtxNone s = (Ok (), s') ∧ received s p h s'.
Proof.
  intros Hly Hp Hrf Hinv Hnd [U1 U2 U3 U4 U5] [E1 E2 [norm E3]].
  destruct (locs_ne p Hly Hp) as (N1 & N2 & N3 & N4 & N5 & N6).
  destruct (ly_shape Hly p Hp) as [Sh1 Sh2]. destruct (ly_group Hly p Hp) as (pre & post & Em & Hpre & Hpost).
  destruct (stepped p h) as [[data grad] buf] eqn:Est.
  pose proof (completed_inv _ _ _ _ Hinv E3 U1) as Hci.
  unfold receive. erewrite bind_Ok by (apply in_opt_eq, in_ops_eq; exact (synchronize_ok _ _ _ _ _ _ _ E2 E3 U1)).
  erewrite bind_Ok by reflexivity. rewrite (ly_fp16 Hly), (ly_none Hly) by done.
  erewrite bind_Ok by reflexivity.
  erewrite bind_Ok by (apply in_opt_id, grad_of_ok; simpl; by apply (rf_g16 _ Hrf)).
  erewrite bind_Ok by reflexivity. erewrite bind_Ok by reflexivity. cbv beta iota.
  erewrite bind_Ok by (apply in_opt_eq, tensor_set_same; simpl; by rewrite lookup_insert_eq).
  erewrite bind_Ok by (apply in_opt_id, grad_of_ok; simpl; by apply (rf_g32 _ Hrf)).
  erewrite bind_Ok by (apply in_opt_eq, copy_ok; simpl;
    [by rewrite !lookup_insert_ne, U2|by rewrite lookup_insert_eq|done]).
  erewrite bind_Ok by (apply in_opt_eq, div_ok; simpl; by rewrite lookup_insert_eq).
  erewrite bind_Ok.
  2: { rewrite (step_single cf p pre _ post _ Em Hpre Hpost). eapply step_one_ok; simpl.
    - by apply (rf_g32 _ Hrf).
    - by apply (rf_d32 _ Hrf).
    - by rewrite lookup_insert_eq.
    - by rewrite !lookup_insert_ne, U3.
    - rewrite U5. exact Est. }
  erewrite bind_Ok by (apply in_opt_id, data_of_ok; simpl; by apply (rf_d16 _ Hrf)).
  erewrite bind_Ok by (apply in_opt_id, data_of_ok; simpl; by apply (rf_d32 _ Hrf)).
  erewrite bind_Ok by (apply in_opt_eq, copy_ok; simpl;
    [by rewrite !lookup_insert_ne, U4|by rewrite lookup_insert_eq|done]).
  eexists. split; [reflexivity|].
  eapply received_final; [done|done|done|by split|exact E3|reflexivity|exact Est|reflexivity..].
Qed.

(** ** Progress *)

(** [hdl p] is the handle of the operation on the gradient of [p]; [s0] is the
    state in which the waiting began. *)
Record progress (hdl : param → Z) s0 s : Prop := {
  pg_inv : ops_inv (ops_ (h_opt s));
  pg_refs : refs (h_opt s);
  pg_nodup : NoDup (keys s);
  pg_keys p : p ∈ keys s → p ∈ ps;
  pg_todo p : p ∈ keys s → untouched s p ∧ sent s p (hdl p);
  pg_done p : p ∈ ps → p ∉ keys s → updated s p (hdl p);
  pg_heap l : l ∉ (ps ≫= locs_of) → heap_ (h_opt s) !! l = heap_ (h_opt s0) !! l;
  pg_bpps : backward_passes_per_step (h_opt s) = backward_passes_per_step (h_opt s0);
  pg_inj p q : p ∈ ps → q ∈ ps → hdl p = hdl q → p = q
}.

Section frame.
Context (Hly : layout) (s s' : half (R := R)) (p q : param) (h : Z).
Context (Hp : p ∈ ps) (Hq : q ∈ ps) (Hne : q ≠ p) (Hre : received s p h s').

Lemma received_heap l : l ∈ locs_of q → heap_ (h_opt s') !! l = heap_ (h_opt s) !! l.
Proof. intros Hl. apply (re_heap _ _ _ _ Hre). intros Hl'. by apply Hne, (locs_disjoint q p l). Qed.

Lemma untouched_frame : untouched s q → untouched s' q.
Proof.
  intros [U1 U2 U3 U4 U5].
  split; rewrite ?received_heap by (unfold locs_of; set_solver); try done. by rewrite (re_mom _ _ _ _ Hre).
Qed.

Lemma updated_frame h' : updated s q h' → updated s' q h'.
Proof.
  intros [U1 U2 U3 U4 U5 U6].
  split; rewrite ?received_heap by (unfold locs_of; set_solver); try done.
  - by rewrite (re_mom _ _ _ _ Hre).
  - by rewrite (re_delay _ _ _ _ Hre), (re_bpps _ _ _ _ Hre).
Qed.

Lemma sent_frame h' : h' ≠ h → sent s q h' → sent s' q h'.
Proof.
  intros Hh [S1 S2 S3]. split.
  - by rewrite (re_handles _ _ _ _ Hre), od_get_del_ne.
  - by rewrite (re_table _ _ _ _ Hre), lookup_delete_ne.
  - by rewrite (re_tasks _ _ _ _ Hre), lookup_delete_ne.
Qed.
End frame.

Lemma od_keys_del {V} (k : param) (d : odict param V) :
  NoDup (od_keys d) → od_keys (od_del k d) = filter (λ q, q ≠ k) (od_keys d).
Proof.
  unfold od_keys. induction d as [|[k' v] d IH]; simpl; [done|]. intros [Hk Hnd]%NoDup_cons.
  rewrite filter_cons. case_decide as E.
  - subst. rewrite decide_False by auto. symmetry. apply filter_all. intros x Hx ->. by apply Hk.
  - rewrite decide_True by auto. cbn. f_equal. by apply IH.
Qed.

Lemma received_progress hdl s0 s p s' :
  layout → progress hdl s0 s → p ∈ keys s → received s p (hdl p) s' → progress hdl s0 s'.
Proof.
  intros Hly Hpg Hpk Hre. pose proof (pg_keys _ _ _ Hpg p Hpk) as Hp.
  pose proof (pg_nodup _ _ _ Hpg) as Hnd.
  assert (keys s' = filter (λ q, q ≠ p) (keys s)) as Hk
    by (rewrite (re_handles _ _ _ _ Hre); by apply od_keys_del).
  split.
  - apply Hre.
  - destruct (pg_refs _ _ _ Hpg). split; rewrite ?(re_grad _ _ _ _ Hre), ?(re_data _ _ _ _ Hre); auto.
  - rewrite Hk. by apply NoDup_filter.
  - intros q. rewrite Hk, list_elem_of_filter. intros [_ Hq]. by apply Hpg.
  - intros q. rewrite Hk, list_elem_of_filter. intros [Hne Hq].
    destruct (pg_todo _ _ _ Hpg q Hq) as [Hu Hs]. pose proof (pg_keys _ _ _ Hpg q Hq) as Hqp. split.
    + by apply (untouched_frame Hly s s' p q (hdl p)).
    + apply (sent_frame s s' p q (hdl p) Hne Hre); [|done]. intros E. by apply Hne, (pg_inj _ _ _ Hpg).
  - intros q Hq. rewrite Hk, list_elem_of_filter. intros Hn. destruct (decide (q = p)) as [->|Hne].
    + apply Hre.
    + apply (updated_frame Hly s s' p q (hdl p)); [done..|]. apply Hpg; [done|]. intros Hqk. by apply Hn.
  - intros l Hl. rewrite (re_heap _ _ _ _ Hre); [by apply Hpg|]. intros Hl'. apply Hl.
    apply list_elem_of_bind. by exists p.
  - rewrite (re_bpps _ _ _ _ Hre). by apply Hpg.
  - apply Hpg.
Qed.

(** Only the tensors, the tables and the momentum buffers matter. *)
Lemma progress_same hdl s0 s s1 :
  h_opt s1 = h_opt s → momentum s1 = momentum s → progress hdl s0 s → progress hdl s0 s1.
Proof.
  intros Eo Em Hpg.
  assert (∀ q, untouched s q → untouched s1 q) as Hun by (intros q []; split; by rewrite ?Eo, ?Em).
  assert (∀ q h, sent s q h → sent s1 q h) as Hse by (intros q h []; split; by rewrite ?Eo, ?Em).
  assert (∀ q h, updated s q h → updated s1 q h) as Hup by (intros q h []; split; by rewrite ?Eo, ?Em).
  destruct Hpg as [A1 A2 A3 A4 A5 A6 A7 A8 A9]. split; rewrite ?Eo; auto.
  intros q Hq. destruct (A5 q Hq). auto.
Qed.

(** One poll: the answer decides whether the parameter is updated. *)
Lemma try_ok hdl s0 s p :
  layout → progress hdl s0 s → p ∈ keys s →
  ∃ s', _try_to_synchronize polls cf p s = (Ok (polls (n_polls s) (hdl p)), s') ∧
    progress hdl s0 s' ∧ n_polls s' = S (n_polls s) ∧
    keys s' = if polls (n_polls s) (hdl p) then filter (λ q, q ≠ p) (keys s) else keys s.
Proof.
  intros Hly Hpg Hpk. destruct (pg_todo _ _ _ Hpg p Hpk) as [Hu Hs].
  destruct Hs as [S1 S2 [norm S3]]. unfold _try_to_synchronize.
  erewrite bind_Ok by reflexivity. rewrite S1. erewrite bind_Ok by reflexivity. cbv beta iota.
  set (s1 := HalfState (h_opt s) (priorities s) (gradient_count s) (momentum s) (S (n_polls s))).
  erewrite (bind_Ok _ _ _ (polls (n_polls s) (hdl p)) s1).
  2: { unfold poll_. erewrite bind_Ok by reflexivity. erewrite bind_Ok by reflexivity.
    erewrite bind_Ok by reflexivity. apply in_opt_id. erewrite in_ops_eq.
    2: { unfold poll, mbind, M_bind, get. simpl. rewrite S3. reflexivity. }
    by rewrite set_world_id. }
  assert (progress hdl s0 s1) as Hpg1 by (by apply (progress_same hdl s0 s)).
  destruct (polls (n_polls s) (hdl p)); [|by exists s1].
  destruct (receive_ok s1 p (hdl p)) as (s2 & E & Hre); try done.
  - by apply Hpg.
  - apply Hpg1.
  - apply Hpg1.
  - apply Hpg1.
  - by apply (pg_todo _ _ _ Hpg1).
  - by apply (pg_todo _ _ _ Hpg1).
  - erewrite bind_Ok by exact E. exists s2. split_and!.
    + done.
    + by apply (received_progress hdl s0 s1 p).
    + by rewrite (re_polls _ _ _ _ Hre).
    + rewrite (re_handles _ _ _ _ Hre). apply od_keys_del, Hpg.
Qed.

(** ** Loops *)

(** From poll number [N] on, every operation is ready. *)
Definition ready_from (hdl : param → Z) (N : nat) : Prop :=
  ∀ n p, (N ≤ n)%nat → p ∈ ps → polls n (hdl p) = true.

(** The servers finish every operation, and a finished operation stays so. *)
Definition fair : Prop := ∀ h, ∃ N, ∀ n, (N ≤ n)%nat → polls n h = true.

Lemma fair_ready hdl : fair → ∃ N, ready_from hdl N.
Proof.
  intros Hf. unfold ready_from. induction ps as [|p qs [N IH]]; [exists 0%nat; set_solver|].
  destruct (Hf (hdl p)) as [N' HN']. exists (N `max` N')%nat. intros n q Hn.
  rewrite elem_of_cons. intros [->|Hq]; [apply HN'; lia|]. apply IH; [lia|done].
Qed.

(** A round over all pending parameters: when everything is ready, none is left. *)
Lemma poll_round_ok hdl N s0 s :
  layout → ready_from hdl N → progress hdl s0 s →
  ∃ s', for_each (λ p, _try_to_synchronize polls cf p;; mret ()) (keys s) s = (Ok (), s') ∧
    progress hdl s0 s' ∧ n_polls s' = (n_polls s + length (keys s))%nat ∧
    ((N ≤ n_polls s)%nat → keys s' = []).
Proof.
  intros Hly HN Hpg. destruct (for_each_inv (λ p, _try_to_synchronize polls cf p;; mret ())
    (λ dn s', progress hdl s0 s' ∧ n_polls s' = (n_polls s + length dn)%nat ∧
       (∀ q, q ∈ keys s → q ∉ dn → q ∈ keys s') ∧ (∀ q, q ∈ keys s' → q ∈ keys s) ∧
       ((N ≤ n_polls s)%nat → ∀ q, q ∈ dn → q ∉ keys s')) (keys s) s)
    as (s' & E & Hpg' & Hn & _ & Hsub & Hgone).
  - split_and!; try done; simpl; try lia; set_solver.
  - intros dn p rest s1 Hks (Hpg1 & Hn1 & Hin & Hsub & Hgone).
    assert (p ∉ dn) as Hpd.
    { pose proof (pg_nodup _ _ _ Hpg) as Hnd. rewrite Hks in Hnd.
      apply NoDup_app in Hnd as (_ & Hdis & _). intros Hd. apply (Hdis p Hd). left. }
    assert (p ∈ keys s) as Hp by (rewrite Hks; set_solver).
    destruct (try_ok hdl s0 s1 p Hly Hpg1 (Hin p Hp Hpd)) as (s2 & E & Hpg2 & Hn2 & Hk2).
    exists s2. split; [by erewrite bind_Ok by exact E|]. rewrite length_app. simpl.
    assert (∀ q, q ∈ keys s2 → q ∈ keys s1) as Hsub2.
    { rewrite Hk2. intros q. destruct (polls _ _); [|done]. rewrite list_elem_of_filter. by intros []. }
    split_and!; [done|lia| |by auto|].
    + intros q Hq Hqn. rewrite Hk2.
      assert (q ∈ keys s1) by (apply Hin; [done|set_solver]).
      destruct (polls _ _); [|done]. apply list_elem_of_filter. set_solver.
    + intros HNn q. rewrite elem_of_app, list_elem_of_singleton. intros [Hq| ->] Hqk.
      * by apply (Hgone HNn q Hq), Hsub2.
      * rewrite Hk2, HN in Hqk by (try lia; by apply Hpg). apply list_elem_of_filter in Hqk. naive_solver.
  - exists s'. split_and!; try done. intros HNn. destruct (keys s') as [|q qs] eqn:Ek; [done|].
    destruct (Hgone HNn q); [apply Hsub|]; left.
Qed.

Lemma wait_none fuel s : keys s = [] → _wait_for_all polls fuel cf s = Some (Ok (), s).
Proof.
  intros Ek. destruct fuel; cbn [_wait_for_all]; erewrite D_bind_Ok by reflexivity; by rewrite Ek.
Qed.

Lemma wait_ok hdl N s0 fuel s :
  layout → ready_from hdl N → progress hdl s0 s → (keys s ≠ [] → 0 < fuel ∧ N < n_polls s + fuel)%nat →
  ∃ s', (∀ more, _wait_for_all polls (fuel + more) cf s = Some (Ok (), s')) ∧
    progress hdl s0 s' ∧ keys s' = [].
Proof.
  intros Hly HN. revert s. induction fuel as [|fuel IH]; intros s Hpg Hf.
  all: destruct (keys s) as [|k ks] eqn:Ek.
  1, 3: exists s; split_and!; [|done..]; intros more; by apply wait_none.
  - destruct Hf as [? _]; [done|lia].
  - destruct (poll_round_ok hdl N s0 s Hly HN Hpg) as (s1 & E & Hpg1 & Hn & Hend).
    destruct Hf as [_ Hf]; [done|]. rewrite Ek in Hn. simpl in Hn.
    destruct (IH s1 Hpg1) as (s' & E' & Hpg' & Hk').
    { intros Hk1. destruct (decide (N ≤ n_polls s)%nat) as [Hle|]; [by destruct Hk1, (Hend Hle)|lia]. }
    exists s'. split_and!; [|done..]. intros more. cbn [_wait_for_all Nat.add].
    erewrite D_bind_Ok by reflexivity. rewrite Ek in E |- *.
    erewrite D_bind_Ok by (unfold run; by rewrite E). apply E'.
Qed.

Lemma try_others_ok hdl s0 p others s :
  layout → progress hdl s0 s → (∀ q, q ∈ others → q ∈ keys s) →
  ∃ s', try_others polls cf p others s = (Ok (), s') ∧ progress hdl s0 s' ∧
    (n_polls s ≤ n_polls s')%nat ∧ (∀ q, q ∈ keys s' → q ∈ keys s).
Proof.
  intros Hly. revert s. induction others as [|q others IH]; intros s Hpg Hin; simpl.
  { by exists s. }
  case_decide; [apply IH; [done|]; intros; apply Hin; by right|].
  destruct (try_ok hdl s0 s q Hly Hpg) as (s1 & E & Hpg1 & Hn1 & Hk1); [apply Hin; left|].
  erewrite bind_Ok by exact E. destruct (polls _ _).
  - exists s1. split_and!; [done|done|lia|]. intros q'. rewrite Hk1, list_elem_of_filter. by intros [].
  - destruct (IH s1 Hpg1) as (s2 & E2 & Hpg2 & Hn2 & Hk2).
    { intros q' Hq'. rewrite Hk1. apply Hin. by right. }
    exists s2. split_and!; [done|done|lia|]. intros q' Hq'. rewrite <-Hk1. by apply Hk2.
Qed.

Lemma block_ok hdl N s0 p fuel s :
  layout → ready_from hdl N → progress hdl s0 s → (0 < fuel)%nat → (N < n_polls s + fuel)%nat →
  ∃ s', (∀ more, block_on polls (fuel + more) cf p s = Some (Ok (), s')) ∧ progress hdl s0 s' ∧
    p ∉ keys s' ∧ (∀ q, q ∈ keys s' → q ∈ keys s).
Proof.
  intros Hly HN. revert s. induction fuel as [|fuel IH]; intros s Hpg Hpos Hf; [lia|].
  cbn [block_on Nat.add]. unfold od_mem. destruct (decide (p ∈ keys s)) as [Hp|Hp].
  2: { exists s. split_and!; [|done..]. intros more. erewrite D_bind_Ok by reflexivity.
    by rewrite bool_decide_eq_false_2. }
  destruct (try_ok hdl s0 s p Hly Hpg Hp) as (s1 & E & Hpg1 & Hn1 & Hk1).
  destruct (polls (n_polls s) (hdl p)) eqn:Eb.
  - exists s1. split_and!; [|done|by rewrite Hk1, list_elem_of_filter; intros [[] _]|].
    2: { intros q. rewrite Hk1, list_elem_of_filter. by intros []. }
    intros more. erewrite D_bind_Ok by reflexivity. rewrite bool_decide_eq_true_2 by done. cbn [negb].
    by erewrite D_bind_Ok by (unfold run; by rewrite E).
  - assert (n_polls s < N)%nat as HlN.
    { destruct (decide (N ≤ n_polls s)%nat) as [Hle|]; [|lia].
      rewrite HN in Eb; [done|done|by apply Hpg]. }
    destruct (try_others_ok hdl s0 p (keys s1) s1) as (s2 & E2 & Hpg2 & Hn2 & Hk2); [done..|].
    destruct (IH s2 Hpg2) as (s' & E' & Hpg' & Hp' & Hk'); [lia|lia|].
    exists s'. split_and!; [|done|done|]. 2: { intros q Hq. rewrite <-Hk1. by apply Hk2, Hk'. }
    intros more. erewrite D_bind_Ok by reflexivity. rewrite bool_decide_eq_true_2 by done. cbn [negb].
    erewrite D_bind_Ok by (unfold run; by rewrite E). cbv beta iota. erewrite D_bind_Ok by reflexivity.
    erewrite D_bind_Ok by (unfold run; by rewrite E2). apply E'.
Qed.

(** Every parameter of the layer has been updated when the hook returns. *)
Lemma pre_forward_ok hdl N s0 qs s :
  layout → ready_from hdl N → progress hdl s0 s →
  (∀ q, q ∈ qs → is_Some (_fp16_to_fp32_map cf !! q)) →
  ∃ s', (∀ more, pre_forward_hook polls (S N + more) cf qs s = Some (Ok (), s')) ∧ progress hdl s0 s' ∧
    (∀ q p, q ∈ qs → _fp16_to_fp32_map cf !! q = Some p → p ∉ keys s') ∧
    (∀ q, q ∈ keys s' → q ∈ keys s).
Proof.
  intros Hly HN. unfold pre_forward_hook. revert s. induction qs as [|q qs IH]; intros s Hpg Hm.
  { exists s. split_and!; [done|done|set_solver|done]. }
  destruct (Hm q) as [p Hqp]; [left|].
  assert (∃ s1, (∀ more, (if od_mem p (_handles (h_opt s)) then block_on polls (S N + more) cf p else mret ()) s
      = Some (Ok (), s1)) ∧ progress hdl s0 s1 ∧ p ∉ keys s1 ∧ (∀ x, x ∈ keys s1 → x ∈ keys s))
    as (s1 & E1 & Hpg1 & Hp1 & Hk1).
  { unfold od_mem. destruct (decide (p ∈ keys s)) as [Hp|Hp].
    - destruct (block_ok hdl N s0 p (S N) s) as (s1 & E & H1 & H2 & H3); [done..|lia|lia|].
      exists s1. split_and!; [|done..]. intros more. rewrite bool_decide_eq_true_2 by done. apply E.
    - exists s. split_and!; [|done..]. intros more. by rewrite bool_decide_eq_false_2. }
  destruct (IH s1 Hpg1) as (s2 & E2 & Hpg2 & Hd2 & Hk2); [intros; apply Hm; by right|].
  exists s2. split_and!; [|done| |by auto].
  - intros more. cbn [for_eachD]. erewrite D_bind_Ok; [apply E2|].
    erewrite D_bind_Ok by (unfold run, lift; rewrite Hqp; reflexivity).
    erewrite D_bind_Ok by reflexivity. apply E1.
  - intros q' p' [->|Hq']%elem_of_cons Hp'; [|by eapply Hd2]. simplify_eq. auto.
Qed.
End proofs.

(** ** The two SGD updates

    The class of [cross_barrier.py] starts with a momentum buffer of zeros, this
    one with a copy of the first gradient. *)
Section sgd_equiv.
Context {R : Type} `{ScalarLaws R} (Hmul : ∀ a : R, s_mul s_zero a = s_zero).

(** The data and the buffer after a sequence of gradients. *)
Definition updates (upd : sgd_group (R := R) → list R → list R → option (list R) → list R * list R * option (list R))
    (G : sgd_group (R := R)) (data : list R) (buf : option (list R)) (grads : list (list R)) :
    list R * option (list R) :=
  foldl (λ '(d, b) g, let '(d', _, b') := upd G d g b in (d', b')) (data, buf) grads.

Lemma v_scale_zero a n : v_scale a (vzero n) = vzero (R := R) n.
Proof. unfold v_scale, vzero. induction n as [|n IH]; cbn; [done|]. by rewrite Hmul, IH. Qed.

Lemma sgd_one_eq G (data grad : list R) buf :
  length grad = length data → sgd_one G data grad buf = sgd_update G data grad buf.
Proof.
  intros Hl. unfold sgd_one, sgd_update. destruct (nonzero (sgd_momentum G)); [|done].
  destruct buf as [b|]; [done|]. rewrite v_scale_zero.
  set (d_p := if nonzero _ then _ else _).
  assert (vadd (vzero (length data)) d_p = d_p) as ->; [|done].
  assert (length data = length d_p) as ->; [|apply vadd_zero_l].
  unfold d_p. destruct (nonzero (sgd_weight_decay G)); [|done]. by rewrite length_v_axpy.
Qed.

(** C34: The SGD update of the mixed-precision optimizer and the one of the
    cross-barrier optimizer are the same function of the gradients: in exact
    arithmetic a buffer that starts as a copy of the first gradient and one that
    starts with zeros and decays lead to the same parameters and the same buffer
    over any sequence of gradients, with any weight decay, momentum, dampening and
    with or without Nesterov's rule. *)
Theorem sgd_updates_equivalent G (data : list R) buf grads :
  Forall (λ g, length g = length data) grads → opt_len (length data) buf →
  updates sgd_one G data buf grads = updates sgd_update G data buf grads.
Proof.
  unfold updates. intros Hg. revert data buf Hg. induction grads as [|g grads IH]; intros data buf Hg Hb; [done|].
  apply Forall_cons in Hg as [Hl Hg]. cbn [foldl]. rewrite sgd_one_eq by done.
  pose proof (sgd_update_len G data g buf Hl Hb) as Hwf.
  destruct (sgd_update G data g buf) as [[d' g'] b']. destruct Hwf as (Hd & Hb').
  apply IH; rewrite Hd; done.
Qed.
End sgd_equiv.
End HalfProofs.
