(* ===== verification/HalfStep.v ===== *)
(** * The mixed-precision optimizer: sending the gradients, and [step]

    [_sync_missing_gradients] submits every gradient that is not under way;
    [step] waits for all of them or leaves that to the forward hooks. *)

From S2P Require Import Prelude PyStr Tensor TorchOps TorchCompression DistOptim DistOptimProofs.
From S2P Require Import CrossBarrierOpt HalfOpt HalfProofs.

Module HalfStep.
Import Half HalfProofs.

Section step.
Context {R : Type} `{Scalar R, !Extension R, !TorchLib R, !Backend R}.
Implicit Types (s : half (R := R)) (p q : param).
Context (polls : nat → Z → bool) (cf : hconfig (R := R)) (L : param → slot (R := R)) (ps : list param).

Notation ops_ o := (d_world o).1 (only parsing).
Notation heap_ o := (o_heap (d_world o).1) (only parsing).
Notation keys s := (od_keys (_handles (h_opt s))) (only parsing).
Notation last_handle s := (c_last_handle (o_clib (d_world (h_opt s)).1)) (only parsing).
Notation entry s p := (od_get p (_handles (h_opt s))) (only parsing).

(** Every entry of [self._handles] with a handle is a submitted operation on the
    parameter's gradient; the tensors are those of [s0]. *)
Record queued s0 s : Prop := {
  qu_inv : ops_inv (ops_ (h_opt s));
  qu_init : c_initialized (o_clib (ops_ (h_opt s))) = true;
  qu_heap : heap_ (h_opt s) = heap_ (h_opt s0);
  qu_grad : d_grad (h_opt s) = d_grad (h_opt s0);
  qu_data : d_data (h_opt s) = d_data (h_opt s0);
  qu_mom : momentum s = momentum s0;
  qu_bpps : backward_passes_per_step (h_opt s) = backward_passes_per_step (h_opt s0);
  qu_nodup : NoDup (keys s);
  qu_keys p : p ∈ keys s → p ∈ ps;
  qu_sent p h c : entry s p = Some (Some h, c) → sent L s p h;
  qu_inj p q h c c' : entry s p = Some (Some h, c) → entry s q = Some (Some h, c') → p = q
}.

Definition send (p : param) : M (half (R := R)) () := hc ← _push_pull_grad_async cf p; set_handle p hc.

Lemma compress_none x s : in_opt (in_world (compress_ CNone x)) s = (Ok (x, CtxNone), s).
Proof. by destruct s as [[] ? ? ? ?]. Qed.

Lemma gets_ok {A} (f : optim (R := R) → A) s : in_opt (gets f) s = (Ok (f (h_opt s)), s).
Proof. by destruct s. Qed.

Lemma note_priority_ok (x : param) s :
  ∃ k s1, note_priority x s = (Ok k, s1) ∧ h_opt s1 = h_opt s ∧ momentum s1 = momentum s ∧
    n_polls s1 = n_polls s.
Proof.
  unfold note_priority. erewrite bind_Ok by reflexivity.
  destruct (od_get x (priorities s)); do 2 eexists; by split_and!.
Qed.

Lemma push_ok p s :
  layout cf L ps → p ∈ ps → refs L ps (h_opt s) → heap_ (h_opt s) !! lg16 (L p) = Some (tg16 (L p)) →
  c_initialized (o_clib (ops_ (h_opt s))) = true →
  ∃ s', send p s = (Ok (), s') ∧
    h_opt s' = set_handles (od_set p (Some (last_handle s + 1), CtxNone) (_handles (h_opt s)))
      (set_world (submitted (ops_ (h_opt s)) (lg16 (L p)) (lg16 (L p)) false (Some (gname L p))
                    (_max_norm (ops_ (h_opt s))) "" (tg16 (L p)), (d_world (h_opt s)).2) (h_opt s)) ∧
    momentum s' = momentum s ∧ n_polls s' = n_polls s.
Proof.
  intros Hly Hp Hrf Ht Hi. unfold send, _push_pull_grad_async.
  rewrite (ly_fp16 _ _ _ Hly), (ly_none _ _ _ Hly), (ly_name _ _ _ Hly) by done.
  destruct (note_priority_ok (fp16_p (L p)) s) as (k & s1 & E & Eo & Em & En).
  erewrite bind_Ok.
  2: { erewrite bind_Ok by reflexivity. erewrite bind_Ok by apply gets_ok.
    erewrite bind_Ok by apply compress_none. cbv beta iota. erewrite bind_Ok by exact E.
    erewrite bind_Ok by reflexivity. rewrite (rf_g16 _ _ _ Hrf) by done.
    erewrite bind_Ok by reflexivity. erewrite bind_Ok; [reflexivity|].
    apply in_opt_eq. rewrite Eo. unfold byteps_push_pull. apply in_ops_eq.
    unfold push_pull_async_inplace, mbind, M_bind, get.
    apply (do_push_pull_async_ok _ _ _ _ _ _ _ (tg16 (L p))); [done| |done]. by apply (ly_sup _ _ _ Hly). }
  eexists. split; [reflexivity|]. by rewrite <-Em, <-En.
Qed.

Lemma send_ok p s0 s :
  layout cf L ps → p ∈ ps → refs L ps (h_opt s0) →
  heap_ (h_opt s0) !! lg16 (L p) = Some (tg16 (L p)) → queued s0 s →
  (∀ h c, entry s p ≠ Some (Some h, c)) →
  ∃ s', send p s = (Ok (), s') ∧ queued s0 s' ∧ n_polls s' = n_polls s ∧
    (∃ h, entry s' p = Some (Some h, CtxNone)) ∧ (∀ q, q ≠ p → entry s' q = entry s q) ∧
    (∀ q, q ∈ keys s' ↔ q = p ∨ q ∈ keys s) ∧ (p ∈ keys s → keys s' = keys s).
Proof.
  intros Hly Hp Hrf Ht [Q1 Q2 Q3 Q4 Q5 Q6 Q7 Q8 Q9 Q10 Q11] Hno.
  destruct (push_ok p s) as (s' & E & Eo & Em & En); [done|done| |by rewrite Q3|done|].
  { destruct Hrf. by split; rewrite ?Q4, ?Q5. }
  assert (∀ q h c, entry s q = Some (Some h, c) → h ≤ last_handle s) as Hle.
  { intros q h c Hq. destruct (Q10 q h c Hq) as [_ _ [norm Hk]]. apply (inv_bound _ Q1). by eexists. }
  exists s'. split_and!; [done| |done|..]; rewrite ?Eo; simpl.
  - split; rewrite ?Eo, ?Em; simpl; try done.
    + apply submitted_inv; [done|]. rewrite Q3, Ht. by eexists.
    + by apply od_keys_set_NoDup.
    + intros q [->|Hq]%od_keys_set_elem; [done|by apply Q9].
    + intros q h c. destruct (decide (q = p)) as [->|Hne].
      * rewrite od_get_set_eq. intros [= <- <-]. split; rewrite Eo; simpl.
        -- by rewrite od_get_set_eq.
        -- by rewrite lookup_insert_eq.
        -- rewrite lookup_insert_eq. by eexists.
      * rewrite od_get_set_ne by done. intros Hq. pose proof (Hle q h c Hq).
        destruct (Q10 q h c Hq) as [A1 A2 A3]. split; rewrite Eo; simpl.
        -- by rewrite od_get_set_ne.
        -- by rewrite lookup_insert_ne by lia.
        -- by rewrite lookup_insert_ne by lia.
    + intros q1 q2 h c c'. destruct (decide (q1 = p)) as [->|N1], (decide (q2 = p)) as [->|N2];
        rewrite ?od_get_set_eq, ?od_get_set_ne by done; try done.
      * intros [= <- <-] Hq. apply Hle in Hq. lia.
      * intros Hq [= <- <-]. apply Hle in Hq. lia.
      * intros A1 A2. by eapply Q11.
  - exists (last_handle s + 1). by rewrite od_get_set_eq.
  - intros q Hq. by rewrite od_get_set_ne.
  - intros q. by rewrite od_keys_set_elem.
  - intros Hin. by rewrite od_keys_set_in.
Qed.

(** Operations that are under way stay so. *)
Definition kept s s' : Prop := ∀ p h c, entry s p = Some (Some h, c) → entry s' p = Some (Some h, c).

(** The first loop: the parameters without an entry. *)
Lemma send_missing_ok ms s0 :
  layout cf L ps → refs L ps (h_opt s0) → (∀ p, p ∈ ps → heap_ (h_opt s0) !! lg16 (L p) = Some (tg16 (L p))) →
  queued s0 s0 → NoDup ms → (∀ p, p ∈ ms → p ∈ ps ∧ p ∉ keys s0) →
  ∃ s', for_each send ms s0 = (Ok (), s') ∧ queued s0 s' ∧ n_polls s' = n_polls s0 ∧ kept s0 s' ∧
    (∀ p, p ∈ ms → ∃ h, entry s' p = Some (Some h, CtxNone)) ∧
    (∀ p, p ∈ keys s' ↔ p ∈ ms ∨ p ∈ keys s0).
Proof.
  intros Hly Hrf Ht Hq Hnd Hms.
  destruct (for_each_inv send (λ dn s, queued s0 s ∧ n_polls s = n_polls s0 ∧ kept s0 s ∧
      (∀ p, p ∈ dn → ∃ h, entry s p = Some (Some h, CtxNone)) ∧
      (∀ p, p ∈ keys s ↔ p ∈ dn ∨ p ∈ keys s0)) ms s0) as (s' & E & Hs'); [| |by exists s'].
  { split_and!; try done; try (by intros ? ? ? ?); set_solver. }
  intros dn p rest s Hms' (Hqs & Hn & Hkp & Hdn & Hk).
  assert (p ∈ ms) as Hp by (rewrite Hms'; set_solver). destruct (Hms p Hp) as [Hpp Hpk].
  assert (p ∉ dn) as Hpd.
  { rewrite Hms' in Hnd. apply NoDup_app in Hnd as (_ & Hdis & _). intros Hin. apply (Hdis p Hin). left. }
  destruct (send_ok p s0 s) as (s1 & E & Q1 & N1 & He & Ho & Hk1 & _); [done|done|done|by apply Ht|done| |].
  { intros h c Hc. assert (p ∈ keys s) as Hin by (apply od_get_is_Some; by eexists).
    apply Hk in Hin as [|]; done. }
  exists s1. split_and!; [done|done|congruence| | |].
  - intros q h c Hc. rewrite Ho; [by apply Hkp|]. intros ->. apply Hpk, od_get_is_Some. by eexists.
  - intros q. rewrite elem_of_app, list_elem_of_singleton. intros [Hq'| ->]; [|done].
    rewrite Ho by (by intros ->). by apply Hdn.
  - intros q. rewrite Hk1, Hk, elem_of_app, list_elem_of_singleton. naive_solver.
Qed.

(** The second loop: the entries without a handle. *)
Lemma push_none_ok s0 s :
  layout cf L ps → refs L ps (h_opt s0) → (∀ p, p ∈ ps → heap_ (h_opt s0) !! lg16 (L p) = Some (tg16 (L p))) →
  queued s0 s →
  ∃ s', for_each (push_none cf) (keys s) s = (Ok (), s') ∧ queued s0 s' ∧ n_polls s' = n_polls s ∧ kept s s' ∧
    keys s' = keys s ∧ (∀ p, p ∈ keys s → ∃ h, entry s' p = Some (Some h, CtxNone)).
Proof.
  intros Hly Hrf Ht Hq.
  destruct (for_each_inv (push_none cf) (λ dn s', queued s0 s' ∧ n_polls s' = n_polls s ∧ kept s s' ∧
      keys s' = keys s ∧
      (∀ p, p ∈ dn → ∃ h, entry s' p = Some (Some h, CtxNone))) (keys s) s) as (s' & E & Hs'); [| |by exists s'].
  { split_and!; try done; try (by intros ? ? ? ?). set_solver. }
  intros dn p rest s1 Hks (Hqs & Hn & Hkp & Hk & Hdn).
  assert (p ∈ keys s1) as Hp by (rewrite Hk, Hks; set_solver).
  assert (is_Some (entry s1 p)) as [[h c] He] by (by apply od_get_is_Some).
  unfold push_none. erewrite bind_Ok by reflexivity. rewrite He. destruct h as [h|].
  - exists s1. split_and!; [done..|]. intros q. rewrite elem_of_app, list_elem_of_singleton.
    intros [Hq'| ->]; [by apply Hdn|]. exists h. apply (qu_sent _ _ Hqs p h c He).
  - destruct (send_ok p s0 s1) as (s2 & E & Q2 & N2 & He2 & Ho & _ & Hk2); [done| |done| |done|congruence|].
    + by apply Hqs.
    + by apply Ht, Hqs.
    + exists s2. split_and!; [exact E|done|congruence| |by rewrite Hk2|].
      { intros q h c' Hc. apply Hkp in Hc. rewrite Ho; [done|]. intros ->. congruence. }
      intros q. rewrite elem_of_app, list_elem_of_singleton. intros [Hq'| ->]; [|done].
      destruct (decide (q = p)) as [->|]; [done|]. rewrite Ho by done. by apply Hdn.
Qed.

(** ** Properties *)

(** The state before [step]: the operations the hooks have started are under way,
    and [ps] are the parameters that have an entry or require an update. *)
Record half_ready s : Prop := {
  hr_layout : layout cf L ps;
  hr_queued : queued s s;
  hr_refs : refs L ps (h_opt s);
  hr_un p : p ∈ ps → untouched L s p;
  hr_all p : p ∈ ps ↔ p ∈ keys s ∨ p ∈ requires_update_ cf
}.

Definition handle_of s p : Z := match entry s p with Some (Some h, _) => h | _ => 0 end.

Lemma sync_missing_ok `{!BackendLaws R} s :
  half_ready s →
  ∃ s1, _sync_missing_gradients cf s = (Ok (), s1) ∧ progress cf L ps (handle_of s1) s s1 ∧
    kept s s1 ∧ n_polls s1 = n_polls s ∧ (∀ p, p ∈ keys s1 ↔ p ∈ ps).
Proof.
  intros [Hly Hq Hrf Hun Hall]. unfold _sync_missing_gradients. erewrite bind_Ok by reflexivity.
  assert (∀ p, p ∈ ps → heap_ (h_opt s) !! lg16 (L p) = Some (tg16 (L p))) as Ht by (intros; by apply Hun).
  set (ms := set_order _).
  assert (∀ p, p ∈ ms ↔ p ∈ requires_update_ cf ∧ p ∉ keys s) as Hms.
  { intros p. unfold ms. rewrite (set_order_perm (R := R)), elem_of_elements, elem_of_difference. set_solver. }
  destruct (send_missing_ok ms s) as (s1 & E1 & Q1 & N1 & K1 & _ & Hk1); try done.
  { unfold ms. rewrite (set_order_perm (R := R)). apply NoDup_elements. }
  { intros p [Hr Hn]%Hms. split; [|done]. apply Hall. by right. }
  destruct (push_none_ok s s1) as (s2 & E2 & Q2 & N2 & K2 & Hk2 & He2); [done..|].
  assert (∀ p, p ∈ keys s2 ↔ p ∈ ps) as Hk.
  { intros p. rewrite Hk2, Hk1, Hms, Hall. destruct (decide (p ∈ keys s)); tauto. }
  exists s2. split_and!; [|idtac|by intros p h c ?%K1%K2|congruence|done].
  { erewrite bind_Ok by exact E1. by erewrite bind_Ok by reflexivity. }
  rewrite Hk2 in Hk. pose proof Q2 as [A1 A2 A3 A4 A5 A6 A7 A8 A9 A10 A11].
  assert (∀ p, p ∈ ps → sent L s2 p (handle_of s2 p)) as Hsent.
  { intros p Hp. destruct (He2 p) as [h Hh]; [by apply Hk|]. unfold handle_of. rewrite Hh. by eapply A10. }
  split; try done.
  - destruct Hrf. by split; rewrite ?A4, ?A5.
  - intros p Hp. split; [|by apply Hsent, A9]. destruct (Hun p (A9 p Hp)). by split; rewrite ?A3, ?A6.
  - intros p Hp Hn. destruct Hn. rewrite Hk2. by apply Hk.
  - intros l _. by rewrite A3.
  - intros p q Hp Hq' Epq. destruct (Hsent p Hp) as [B1 _ _], (Hsent q Hq') as [B2 _ _].
    rewrite Epq in B1. by eapply A11.
Qed.

(** C14: With several workers [step] returns once the servers have answered, and
    when it does every parameter that had a gradient under way or requires an
    update has been updated exactly once: operations the hooks started are the
    ones that are waited for, and the others are started first; the 16-bit
    gradient holds the servers' sum, the master copy has made one SGD step with
    the sum divided by the loss scale and the number of workers, the 16-bit
    parameter is its copy, and the pass counter is reset. No operation is left,
    and no other tensor is written. *)
Theorem half_step_spec `{!BackendLaws R} {A} (super_step : M half ()) s :
  half_ready s → fair polls → 1 < size_ cf →
  ∃ fuel hdl s', (∀ more, step (L := A) polls (fuel + more) cf None true super_step s = Some (Ok None, s')) ∧
    _handles (h_opt s') = [] ∧ (∀ p, p ∈ ps → updated cf L s' p (hdl p)) ∧
    (∀ p h c, entry s p = Some (Some h, c) → hdl p = h) ∧
    (∀ p q, p ∈ ps → q ∈ ps → hdl p = hdl q → p = q) ∧
    (∀ l, l ∉ (ps ≫= locs_of L) → heap_ (h_opt s') !! l = heap_ (h_opt s) !! l) ∧
    ops_inv (ops_ (h_opt s')).
Proof.
  intros Hr Hf Hs. destruct (sync_missing_ok s Hr) as (s1 & E1 & Hpg & Hkept & Hn & Hk).
  destruct (fair_ready polls ps (handle_of s1) Hf) as [N HN].
  destruct (wait_ok polls cf L ps _ N s (S N) s1 (hr_layout _ Hr) HN Hpg) as (s2 & E2 & Hpg2 & Hk2); [lia|].
  exists (S N), (handle_of s1), s2. split_and!.
  - intros more. unfold step. rewrite decide_True by done.
    erewrite D_bind_Ok by (unfold run; by rewrite E1). by erewrite D_bind_Ok by apply E2.
  - destruct (_handles (h_opt s2)); [done|discriminate Hk2].
  - intros p Hp. apply (pg_done _ _ _ _ _ _ Hpg2 p Hp). rewrite Hk2. set_solver.
  - intros p h c Hc. unfold handle_of. by rewrite (Hkept _ _ _ Hc).
  - apply (pg_inj _ _ _ _ _ _ Hpg).
  - apply (pg_heap _ _ _ _ _ _ Hpg2).
  - apply Hpg2.
Qed.

(** With [wait_for_finish=False] [step] returns without polling, and a layer's
    forward hook then waits only for what the layer needs: it returns once the
    servers have answered, the masters of all the layer's parameters have been
    updated by then, and every other parameter is either updated too or as it was
    when its gradient was sent, with its operation still under way. *)
Theorem forward_hook_waits `{!BackendLaws R} {A} (super_step : M half ()) s fuel0 (qs : list param) :
  half_ready s → fair polls → 1 < size_ cf →
  (∀ q, q ∈ qs → ∃ p, _fp16_to_fp32_map cf !! q = Some p ∧ p ∈ ps) →
  ∃ s1 hdl, step (L := A) polls fuel0 cf None false super_step s = Some (Ok None, s1) ∧
    n_polls s1 = n_polls s ∧ (∀ p, p ∈ ps → untouched L s1 p ∧ sent L s1 p (hdl p)) ∧
    ∃ fuel s2, (∀ more, pre_forward_hook polls (fuel + more) cf qs s1 = Some (Ok (), s2)) ∧
      (∀ q p, q ∈ qs → _fp16_to_fp32_map cf !! q = Some p → updated cf L s2 p (hdl p)) ∧
      (∀ p, p ∈ ps → updated cf L s2 p (hdl p) ∨ untouched L s2 p ∧ sent L s2 p (hdl p)).
Proof.
  intros Hr Hf Hs Hqs. destruct (sync_missing_ok s Hr) as (s1 & E1 & Hpg & Hkept & Hn & Hk).
  destruct (fair_ready polls ps (handle_of s1) Hf) as [N HN].
  exists s1, (handle_of s1). split_and!.
  - unfold step. rewrite decide_True by done. by erewrite D_bind_Ok by (unfold run; by rewrite E1).
  - done.
  - intros p Hp. apply (pg_todo _ _ _ _ _ _ Hpg). by apply Hk.
  - destruct (pre_forward_ok polls cf L ps (handle_of s1) N s qs s1 (hr_layout _ Hr) HN Hpg)
      as (s2 & E2 & Hpg2 & Hd & Hsub).
    { intros q Hq. destruct (Hqs q Hq) as (p & E & _). by eexists. }
    exists (S N), s2. split_and!; [done| |].
    + intros q p Hq E. apply (pg_done _ _ _ _ _ _ Hpg2); [|by eapply Hd].
      destruct (Hqs q Hq) as (p' & E' & Hp'). congruence.
    + intros p Hp. destruct (decide (p ∈ keys s2)) as [Hin|Hout].
      * right. by apply (pg_todo _ _ _ _ _ _ Hpg2).
      * left. by apply (pg_done _ _ _ _ _ _ Hpg2).
Qed.

Lemma hook_unfold p s d g :
  (∀ h c, entry s p ≠ Some (Some h, c)) → d_grad (h_opt s) !! p = Some g →
  od_get (NPTensor p) (_push_pull_delay (h_opt s)) = Some d →
  hook cf false p s = (m_assert (bool_decide (0 < d));;
    in_opt (modify (λ o, set_delay (od_set (NPTensor p) (d - 1) (_push_pull_delay o))
                           (backward_passes_per_step o) o));;
    hc ← (if decide (d - 1 = 0) then _push_pull_grad_async cf p else mret (None, CtxNone));
    set_handle p hc) s.
Proof.
  intros Hno Hg Hd. unfold hook. erewrite bind_Ok by reflexivity. erewrite (bind_Ok _ _ _ () s).
  2: { destruct (entry s p) as [[[h|] c]|] eqn:E; [by destruct (Hno h c)|done..]. }
  erewrite bind_Ok by (apply in_opt_id, grad_of_ok; exact Hg). erewrite bind_Ok by reflexivity.
  by erewrite bind_Ok by (unfold lift; rewrite Hd; reflexivity).
Qed.

(** The last pass: the gradient is sent, and a further pass is refused. *)
Lemma hook_last p s :
  layout cf L ps → p ∈ ps → refs L ps (h_opt s) → queued s s → untouched L s p →
  (∀ h c, entry s p ≠ Some (Some h, c)) →
  ∃ s1 h, (m_assert (bool_decide (0 < 1));;
      in_opt (modify (λ o, set_delay (od_set (NPTensor p) (1 - 1) (_push_pull_delay o))
                             (backward_passes_per_step o) o));;
      hc ← (if decide (1 - 1 = 0) then _push_pull_grad_async cf p else mret (None, CtxNone));
      set_handle p hc) s = (Ok (), s1) ∧ queued s s1 ∧ sent L s1 p h ∧
    od_get (NPTensor p) (_push_pull_delay (h_opt s1)) = Some 0 ∧
    hook cf false p s1 = (Raise AssertionError, s1).
Proof.
  intros Hly Hp Hrf Hq Hun Hno. erewrite bind_Ok by reflexivity. erewrite bind_Ok by reflexivity.
  rewrite decide_True by lia.
  match goal with |- context [(_ ≫= _) ?x = _] => set (s1 := x) end.
  assert (queued s s1) as Hq1.
  { destruct Hq as [Q1 Q2 Q3 Q4 Q5 Q6 Q7 Q8 Q9 Q10 Q11]. split; try done.
    intros q h c Hc. by destruct (Q10 q h c Hc). }
  destruct (send_ok p s s1) as (s2 & E & Q2 & _ & [h He] & _); try done; [apply Hun|].
  destruct (push_ok p s1) as (s2' & E' & Eo & _); try done; [by destruct Hrf|apply Hun|apply Hq1|].
  rewrite E in E'. simplify_eq. exists s2', h.
  assert (od_get (NPTensor p) (_push_pull_delay (h_opt s2')) = Some 0) as Hd
    by (rewrite Eo; simpl; by rewrite od_get_set_eq).
  split_and!; [exact E|done|by eapply qu_sent|done|].
  unfold hook. erewrite bind_Ok by reflexivity. apply bind_Raise. rewrite He, Hd. by rewrite decide_True by lia.
Qed.

(** A parameter whose entry has no handle cannot be waited for. *)
Lemma block_none p s fuel c :
  entry s p = Some (None, c) →
  (if od_mem p (_handles (h_opt s)) then block_on polls (S fuel) cf p else mret ()) s = Some (Raise TypeError, s).
Proof.
  intros E. assert (od_mem p (_handles (h_opt s)) = true) as Em.
  { apply bool_decide_eq_true_2, od_get_is_Some. by eexists. }
  rewrite Em. cbn [block_on]. erewrite D_bind_Ok by reflexivity. rewrite Em. cbn [negb].
  apply D_bind_Raise. unfold run, _try_to_synchronize. f_equal.
  erewrite bind_Ok by reflexivity. rewrite E. by erewrite bind_Ok by reflexivity.
Qed.

(** How often a gradient may be computed before [step], by the parameter's
    pass counter when its operation is not under way. With one pass left the
    16-bit gradient is submitted at once and the counter is zero; another pass
    raises an [AssertionError]. With more passes left nothing is sent and the
    entry has no handle, so that a forward pass of the parameter's layer before
    the next [step] raises a [TypeError]: accumulating gradients over several
    passes cannot work with the forward hooks. *)
Theorem half_hook_passes p s d fuel (q : param) (qs : list param) :
  layout cf L ps → p ∈ ps → refs L ps (h_opt s) → queued s s → untouched L s p →
  (∀ h c, entry s p ≠ Some (Some h, c)) → od_get (NPTensor p) (_push_pull_delay (h_opt s)) = Some d →
  _fp16_to_fp32_map cf !! q = Some p →
  (d ≤ 0 → hook cf false p s = (Raise AssertionError, s)) ∧
  (d = 1 → ∃ s1 h, hook cf false p s = (Ok (), s1) ∧ queued s s1 ∧ sent L s1 p h ∧
     od_get (NPTensor p) (_push_pull_delay (h_opt s1)) = Some 0 ∧
     hook cf false p s1 = (Raise AssertionError, s1)) ∧
  (1 < d → ∃ s1, hook cf false p s = (Ok (), s1) ∧ d_world (h_opt s1) = d_world (h_opt s) ∧
     od_get (NPTensor p) (_push_pull_delay (h_opt s1)) = Some (d - 1) ∧
     pre_forward_hook polls (S fuel) cf (q :: qs) s1 = Some (Raise TypeError, s1)).
Proof.
  intros Hly Hp Hrf Hq Hun Hno Hd Hmap. rewrite (hook_unfold p s d _ Hno (rf_g32 _ _ _ Hrf p Hp) Hd).
  split_and!; intros Hdd.
  - apply bind_Raise. unfold m_assert. by rewrite bool_decide_eq_false_2 by lia.
  - subst d. by apply hook_last.
  - unfold m_assert. rewrite bool_decide_eq_true_2 by lia. erewrite bind_Ok by reflexivity.
    erewrite bind_Ok by reflexivity. rewrite decide_False by lia. erewrite bind_Ok by reflexivity.
    eexists. split; [reflexivity|]. split_and!; [done|cbn; by rewrite od_get_set_eq|].
    unfold pre_forward_hook. cbn [for_eachD]. apply D_bind_Raise.
    erewrite D_bind_Ok by (unfold run, lift; rewrite Hmap; reflexivity).
    erewrite D_bind_Ok by reflexivity. apply block_none with CtxNone. cbn. by rewrite od_get_set_eq.
Qed.
End step.
End HalfStep.
