(* ===== verification/HalfDemo.v ===== *)
(** * Concrete runs of the mixed-precision optimizer

    Two master parameters (0 and 1) with 16-bit copies (2 and 3), before the
    first [step]; no hook has run yet, or only the one of parameter 0. *)

From S2P Require Import Prelude PyStr Tensor TorchOps TorchCompression DistOptim DistDemo.
From S2P Require Import CrossBarrierOpt HalfOpt HalfProofs HalfStep.
Import OpsDemo CompressionDemo Half HalfProofs HalfStep.

Module HalfDemo.
Definition t16 (l : list Z) : tensor Z := Tensor float16 [2%nat] l true true.
Definition t32 (l : list Z) : tensor Z := Tensor float32 [2%nat] l true true.
Definition G0 : sgd_group := SGD 1 0 1 0 false.
Definition G1 : sgd_group := SGD 2 1 0 0 false.

Definition slots (p : param) : slot :=
  match p with
  | O => Slot 2 0 1 2 3 (t16 [8; 16]) (t32 [0; 0]) (t32 [10; 20]) (t16 [10; 20]) "w" G0 None
  | _ => Slot 3 4 5 6 7 (t16 [24; -8]) (t32 [0; 0]) (t32 [30; 40]) (t16 [30; 40]) "b" G1 None
  end.
Definition conf : hconfig :=
  HConfig CNone [(NPTensor 0, "w"); (NPTensor 1, "b")] {[0%nat := 2%nat; 1%nat := 3%nat]}
    {[2%nat := 0%nat; 3%nat := 1%nat]} [(G0, [0%nat]); (G1, [1%nat])] 4 2 {[0%nat; 1%nat]} [].
Definition ps : list param := [0%nat; 1%nat].
Definition heap0 : heap Z :=
  {[0%nat := t16 [8; 16]; 1%nat := t32 [0; 0]; 2%nat := t32 [10; 20]; 3%nat := t16 [10; 20];
    4%nat := t16 [24; -8]; 5%nat := t32 [0; 0]; 6%nat := t32 [30; 40]; 7%nat := t16 [30; 40]]}.
Definition opt0 (passes : Z) : optim :=
  Optim (Ops heap0 8 OpsDemo.lib ∅ ∅ 0 ∅, ∅)
    {[0%nat := 1%nat; 1%nat := 5%nat; 2%nat := 0%nat; 3%nat := 4%nat]}
    {[0%nat := 2%nat; 1%nat := 6%nat; 2%nat := 3%nat; 3%nat := 7%nat]}
    [] [(NPTensor 0, passes); (NPTensor 1, passes)] passes None ∅ None true None None None.
Definition start (passes : Z) : half := HalfState (opt0 passes) [] 0 ∅ 0.
(** The servers answer from the fourth poll on. *)
Definition late (n : nat) (h : Z) : bool := (3 <=? n)%nat.

Lemma late_fair : fair late.
Proof. intros h. exists 3%nat. intros n Hn. by apply Nat.leb_le. Qed.

Ltac each_param := intros p Hp; unfold ps in Hp; set_unfold in Hp; destruct Hp as [->|[->|[]]].

Lemma demo_layout : layout conf slots ps.
Proof.
  split; [done|..].
  - apply (bool_decide_unpack _). by vm_compute.
  - apply (bool_decide_unpack _). by vm_compute.
  - by each_param.
  - by each_param.
  - by each_param.
  - by each_param.
  - each_param.
    + exists [], [(G1, 1%nat)]. by repeat constructor.
    + exists [(G0, 0%nat)], []. by repeat constructor.
Qed.

Lemma demo_ready passes : half_ready conf slots ps (start passes).
Proof.
  split.
  - apply demo_layout.
  - split; try done; [|by constructor|set_solver]. split; simpl; [done|intros; simplify_map_eq
      |intros h [? E]; simplify_map_eq|intros h k E; simplify_map_eq|].
    intros l. unfold heap0. rewrite !lookup_insert_is_Some', lookup_singleton_is_Some. lia.
  - by split; each_param.
  - by each_param.
  - intros p. simpl. unfold ps. set_solver.
Qed.

(** The first parameter makes a step with a momentum buffer, the second one with
    weight decay: (2·8)/(4·2) = 2 is subtracted from 10. *)
Lemma half_step_spec_witness : ∃ fuel s',
  step (L := ()) late fuel conf None true (mret ()) (start 1) = Some (Ok None, s') ∧
  _handles (h_opt s') = [] ∧ o_heap (d_world (h_opt s')).1 !! 2%nat = Some (t32 [8; 16]).
Proof.
  destruct (half_step_spec late conf slots ps (A := ()) (mret ()) (start 1) (demo_ready 1) late_fair eq_refl)
    as (fuel & hdl & s' & E & Hh & Hup & _).
  exists fuel, s'. split; [|split; [exact Hh|]].
  - rewrite <-(E 0%nat). by rewrite Nat.add_0_r.
  - apply (up_d32 _ _ _ _ _ (Hup 0%nat ltac:(left))).
Defined.

Lemma forward_hook_waits_witness : ∃ s1 fuel s2,
  step (L := ()) late 0 conf None false (mret ()) (start 1) = Some (Ok None, s1) ∧
  pre_forward_hook late fuel conf [2%nat] s1 = Some (Ok (), s2) ∧
  o_heap (d_world (h_opt s2)).1 !! 2%nat = Some (t32 [8; 16]).
Proof.
  destruct (forward_hook_waits late conf slots ps (A := ()) (mret ()) (start 1) 0 [2%nat] (demo_ready 1)
    late_fair eq_refl) as (s1 & hdl & E & _ & _ & fuel & s2 & E2 & Hup & _).
  - intros q Hq%list_elem_of_singleton. subst. exists 0%nat. split; [reflexivity|left].
  - exists s1, (fuel + 0)%nat, s2. split; [exact E|]. split; [apply E2|].
    apply (up_d32 _ _ _ _ _ (Hup 2%nat 0%nat ltac:(left) eq_refl)).
Defined.

Lemma half_hook_passes_witness :
  (hook conf false 0%nat (start 0)).1 = Raise AssertionError ∧
  (∃ s1, pre_forward_hook late 1 conf [2%nat] (hook conf false 0%nat (start 2)).2 = Some (Raise TypeError, s1)).
Proof.
  split.
  - destruct (half_hook_passes late conf slots ps 0%nat (start 0) 0 0 2%nat []) as [E _].
    + apply demo_layout.
    + left.
    + apply (demo_ready 0).
    + apply (demo_ready 0).
    + apply (demo_ready 0). left.
    + done.
    + reflexivity.
    + reflexivity.
    + rewrite E; [reflexivity|done].
  - destruct (half_hook_passes late conf slots ps 0%nat (start 2) 2 0 2%nat []) as (_ & _ & E).
    + apply demo_layout.
    + left.
    + apply (demo_ready 2).
    + apply (demo_ready 2).
    + apply (demo_ready 2). left.
    + done.
    + reflexivity.
    + reflexivity.
    + destruct E as (s1 & E & _ & _ & Ef); [lia|]. exists s1. rewrite E. exact Ef.
Defined.

Lemma sgd_updates_equivalent_witness :
  updates sgd_one (SGD 1 2 3 0 true) [10; 20] None [[1; 2]; [3; -4]] =
  updates sgd_update (SGD 1 2 3 0 true) [10; 20] None [[1; 2]; [3; -4]].
Proof.
  apply sgd_updates_equivalent; [intros a; exact (Z.mul_0_l a)|repeat constructor|exact I].
Defined.
End HalfDemo.
