(* ===== verification/HalfInit.v ===== *)
(** * Construction of the mixed-precision optimizer

    What [_HalfPrecisionDistributedOptimizer.__init__] of
    [misc/imagenet18/__init__.py] sets up when it is given named master
    parameters and their 16-bit copies. *)

From S2P Require Import Prelude PyStr Tensor TorchOps TorchCompression DistOptim DistOptimProofs CrossBarrierOpt.
From S2P Require Import HalfOpt HalfProofs HalfDemo.

Module HalfInit.
Import Half HalfProofs.
Section init.
Context {R : Type} `{Scalar R, !Extension R, !TorchLib R, !Backend R}.
Implicit Types (s : half (R := R)) (p q : param).

(** ** The tables of 16-bit and master parameters *)

Lemma pair_maps_snoc fp16s fp32s a b :
  length fp16s = length fp32s →
  pair_maps (fp16s ++ [a]) (fp32s ++ [b]) =
    (<[b := a]> (pair_maps fp16s fp32s).1, <[a := b]> (pair_maps fp16s fp32s).2).
Proof.
  intros Hl. unfold pair_maps. rewrite zip_with_app by done. rewrite foldl_app. simpl.
  by destruct (foldl _ _ _).
Qed.

Lemma pair_maps_lookup fp16s fp32s i a b :
  NoDup fp16s → NoDup fp32s → length fp16s = length fp32s →
  fp16s !! i = Some a → fp32s !! i = Some b →
  (pair_maps fp16s fp32s).1 !! b = Some a ∧ (pair_maps fp16s fp32s).2 !! a = Some b.
Proof.
  revert fp32s. induction fp16s as [|x xs IH] using rev_ind; intros ys Hx Hy Hl Ha Hb; [done|].
  destruct ys as [|y ys _] using rev_ind; [rewrite length_app in Hl; simpl in Hl; lia|].
  rewrite !length_app in Hl. simpl in Hl. rewrite pair_maps_snoc by lia. simpl.
  apply NoDup_app in Hx as (Hx & Hx' & _). apply NoDup_app in Hy as (Hy & Hy' & _).
  destruct (decide (i = length xs)) as [->|Hi].
  - rewrite lookup_app_r, Nat.sub_diag in Ha by lia. injection Ha as <-.
    replace (length xs) with (length ys) in Hb by lia.
    rewrite lookup_app_r, Nat.sub_diag in Hb by lia. injection Hb as <-.
    by rewrite !lookup_insert_eq.
  - assert (i < length xs)%nat.
    { apply lookup_lt_Some in Ha. rewrite length_app in Ha. simpl in Ha. lia. }
    rewrite lookup_app_l in Ha by lia. rewrite lookup_app_l in Hb by lia.
    rewrite !lookup_insert_ne; [by apply IH; [..|lia| |]| |].
    + intros ->. eapply Hx'; [by eapply list_elem_of_lookup_2|left].
    + intros ->. eapply Hy'; [by eapply list_elem_of_lookup_2|left].
Qed.

(** ** Hooks *)

(** With a 16-bit copy for every parameter that requires a gradient, the
    registration is the one of the plain optimizer. *)
Lemma register_backward_plain (to16 : gmap param param) rg groups (o : optim (R := R)) :
  (∀ p, p ∈ concat groups.*2 → rg p = true → ∃ q, to16 !! p = Some q ∧ rg q = true) →
  _register_backward_hooks to16 rg groups o = _register_hooks rg groups.*2 o.
Proof.
  intros Hq. unfold _register_backward_hooks, _register_hooks. rewrite !for_each_concat.
  apply for_each_ext. intros p o1 Hp. unfold register_backward.
  destruct (rg p) eqn:Hrg; [|unfold register_param; by rewrite Hrg].
  destruct (Hq p Hp Hrg) as (q & Eq & Hrq). unfold mbind at 1, M_bind at 1.
  destruct (register_param rg p o1) as [[[]|e] o2]; [|done].
  erewrite bind_Ok by (unfold lift; by rewrite Eq). by rewrite Hrq.
Qed.

(** ** The names *)

Lemma sorted_pairs_fst {A} (l : list (string * A)) : (sorted_pairs l).*1 = sorted_str l.*1.
Proof.
  unfold sorted_str. apply (StronglySorted_unique String.le).
  - assert (Transitive (@pair_le A)) by (intros ???; unfold pair_le; apply transitivity).
    assert (Total (@pair_le A)) by (intros ??; unfold pair_le; apply total, _).
    assert (StronglySorted pair_le (sorted_pairs l)) as Hs by apply (StronglySorted_merge_sort pair_le).
    induction Hs as [|x l' Hl' IH Hx]; simpl; constructor; [done|].
    apply Forall_fmap. eapply Forall_impl; [exact Hx|]. done.
  - apply (StronglySorted_merge_sort String.le).
  - rewrite merge_sort_Permutation. by rewrite (sorted_pairs_perm l).
Qed.
(** ** Construction *)

Section spec.
Context (groups : list (sgd_group (R := R) * list param)) (rg : param → bool).
Context (nps : list (string * param)) (fp16s fp32s : list param) (scale : R) (c : compression) (size bpps : Z).

(** The arguments: different names and tensors, a 16-bit copy that requires a
    gradient for every master parameter, a master for every parameter of the
    groups that requires a gradient. *)
Record args_ok : Prop := {
  ar_size : 1 < size;
  ar_ne : nps ≠ [];
  ar_names : NoDup nps.*1;
  ar_params : NoDup nps.*2;
  ar_len : length fp16s = length fp32s;
  ar_fp16 : NoDup fp16s;
  ar_fp32 : NoDup fp32s;
  ar_master p : p ∈ concat groups.*2 → rg p = true → p ∈ fp32s;
  ar_copy q : q ∈ fp16s → rg q = true
}.

Lemma copies p : args_ok → p ∈ concat groups.*2 → rg p = true →
  ∃ q, (pair_maps fp16s fp32s).1 !! p = Some q ∧ rg q = true.
Proof.
  intros [A1 A2 A3 A4 A5 A6 A7 A8 A9] Hp Hrg.
  destruct (list_elem_of_lookup_1 _ _ (A8 p Hp Hrg)) as [i Hi].
  destruct (lookup_lt_is_Some_2 fp16s i) as [q Hq]; [rewrite A5; by eapply lookup_lt_Some|].
  exists q. split; [by eapply (pair_maps_lookup fp16s fp32s i)|]. apply A9. by eapply list_elem_of_lookup_2.
Qed.

(** What construction leaves in the state and in the configuration. *)
Record built (own : list param) (cs : list module) s (cf : hconfig (R := R)) s' : Prop := {
  bu_named n p : (n, p) ∈ nps → od_get (NPTensor p) (names_ cf) = Some n ∧
                                od_get (NPTensor p) (_push_pull_delay (h_opt s')) = Some bpps;
  bu_pair i p q : fp32s !! i = Some p → fp16s !! i = Some q →
    fp16_of cf p = Some q ∧ _fp16_to_fp32_map cf !! q = Some p;
  bu_zero p : p ∈ concat groups.*2 → rg p = true →
    p ∈ requires_update_ cf ∧ zero_grad (h_opt s) (h_opt s') p;
  bu_none : _handles (h_opt s') = [] ∧ priorities s' = [] ∧ gradient_count s' = 0;
  bu_hooked : hooked cf ≡ₚ leaves_all cs;
  bu_declared : c_declared (o_clib (d_world (h_opt s')).1) =
    foldl declared_add (c_declared (o_clib (d_world (h_opt s)).1))
      (map (String.append "Gradient.") (sorted_str nps.*1) ++
       map (String.append "Parameter.") (sorted_str nps.*1))
}.

Lemma half_init_ok own cs s :
  args_ok → params_ok (h_opt s) (concat groups.*2) →
  ∃ cf s', half_init groups rg (Some (named_tensors nps)) (Some (Module_ own cs)) (Some fp16s) (Some fp32s)
             scale c size bpps s = (Ok cf, s') ∧ built own cs s cf s'.
Proof.
  intros Ha Hok. pose proof Ha as [A1 A2 A3 A4 A5 A6 A7 A8 A9].
  pose proof (tensor_pairs_NoDup nps A4) as Hnd. unfold half_init.
  rewrite (check_named_ok nps groups.*2 A2 A3). set (sp := sorted_pairs (tensor_pairs nps)) in *.
  erewrite bind_Ok by reflexivity. cbv beta iota. do 2 (erewrite bind_Ok by reflexivity).
  destruct (pair_maps fp16s fp32s) as [to16 to32] eqn:Epm.
  do 2 (erewrite bind_Ok by (apply in_opt_eq; reflexivity)).
  destruct (hooked_modules_leaves own cs) as (ms & Ems & Hms).
  match goal with |- context [(_ ≫= _) ?st] => set (s1 := st) end.
  destruct (register_hooks_ok rg groups.*2 (h_opt s1)) as (o2 & E2 & [R1 R2 R3 R4 R5 R6 R7]).
  { destruct Hok. by split. }
  erewrite bind_Ok.
  2: { rewrite decide_True by done. erewrite bind_Ok by (apply in_opt_id; unfold _register_forward_hooks;
         erewrite bind_Ok by reflexivity; unfold lift; by rewrite Ems).
       erewrite bind_Ok; [reflexivity|]. apply in_opt_eq. rewrite register_backward_plain; [exact E2|].
       intros p Hp Hrg. pose proof (copies p Ha Hp Hrg) as Hc. by rewrite Epm in Hc. }
  rewrite names_dict_eq by done.
  destruct (declare_all_ok (((λ '(k, v), (v, k)) <$> sp).*2) o2) as (o3 & E3 & D1 & D2 & D3 & D4 & D5).
  erewrite bind_Ok by (apply in_opt_eq; exact E3). erewrite bind_Ok by reflexivity.
  do 2 eexists. split; [reflexivity|]. split; simpl.
  - intros n p Hin. assert ((n, NPTensor p) ∈ sp) as Hsp.
    { unfold sp. rewrite (sorted_pairs_perm (tensor_pairs nps)). apply list_elem_of_fmap. by exists (n, p). }
    split; [|rewrite D5, R3; simpl; rewrite delay_dict_eq by done]; apply od_get_elem_NoDup.
    + unfold od_keys. by rewrite keys_swap.
    + apply list_elem_of_fmap. by exists (n, NPTensor p).
    + unfold od_keys. by rewrite keys_const.
    + apply list_elem_of_fmap. by exists (n, NPTensor p).
  - intros i p q Hp Hq. pose proof (pair_maps_lookup fp16s fp32s i q p A6 A7 A5 Hq Hp) as Hl.
    by rewrite Epm in Hl.
  - intros p Hp Hrg. rewrite decide_True by done. split.
    { apply elem_of_list_to_set, list_elem_of_filter. done. }
    destruct (R7 p Hp Hrg) as (l & t & g & Hl & Ht & Hg & Hz). exists l, t, g. by rewrite D3, D2.
  - by rewrite D4, R4.
  - done.
  - rewrite D1, R1, vals_swap. unfold sp. by rewrite sorted_pairs_fst, tensor_pairs_fst.
Qed.

(** Construction with named master parameters and their 16-bit copies
    succeeds: names and pass counters are set, the two tables of copies and masters
    are each other's inverse, every parameter that requires a gradient has one of
    zeros, forward hooks are on exactly the modules without children, nothing is
    under way, and the operations are declared in the order of the names, which is
    the same on all workers. Without lists of parameters, their default in the
    factory, it raises a [TypeError] and changes nothing; without a model an
    [AttributeError]. *)
Theorem half_init_spec own cs s :
  args_ok → params_ok (h_opt s) (concat groups.*2) →
  (∃ cf s', half_init groups rg (Some (named_tensors nps)) (Some (Module_ own cs)) (Some fp16s) (Some fp32s)
              scale c size bpps s = (Ok cf, s') ∧ built own cs s cf s') ∧
  (∀ fp32, half_init groups rg (Some (named_tensors nps)) (Some (Module_ own cs)) None fp32
             scale c size bpps s = (Raise TypeError, s)) ∧
  (half_init groups rg (Some (named_tensors nps)) None (Some fp16s) (Some fp32s)
     scale c size bpps s).1 = Raise AttributeError.
Proof.
  intros Ha Hok. split_and!; [by apply half_init_ok| |]; destruct Ha as [A1 A2 A3 A4 A5 A6 A7 A8 A9].
  - intros fp32. unfold half_init. by rewrite (check_named_ok nps groups.*2 A2 A3).
  - unfold half_init. rewrite (check_named_ok nps groups.*2 A2 A3).
    erewrite bind_Ok by reflexivity. cbv beta iota. do 2 (erewrite bind_Ok by reflexivity).
    destruct (pair_maps fp16s fp32s) as [to16 to32].
    do 2 (erewrite bind_Ok by (apply in_opt_eq; reflexivity)).
    erewrite bind_Raise; [reflexivity|]. by rewrite decide_True.
Qed.
End spec.
End init.

(** ** Witness: the two parameters of [HalfDemo], one leaf module for both *)
Module HalfInitDemo.
Import OpsDemo CompressionDemo HalfDemo.

Definition groups : list (sgd_group * list param) := [(G0, [0%nat]); (G1, [1%nat])].
Definition nps : list (string * param) := [("w", 0%nat); ("b", 1%nat)].
Definition leaf : module := Module_ [2%nat; 3%nat] [].

Lemma demo_args : args_ok groups (λ _, true) nps [2%nat; 3%nat] [0%nat; 1%nat] 2.
Proof.
  split; try done; try (apply (bool_decide_unpack _); by vm_compute).
Qed.

Lemma half_init_spec_witness : ∃ cf s',
  half_init groups (λ _, true) (Some (named_tensors nps)) (Some (Module_ [] [leaf]))
    (Some [2%nat; 3%nat]) (Some [0%nat; 1%nat]) 4 CNone 2 1 (start 0) = (Ok cf, s') ∧
  hooked cf = [leaf] ∧ _fp16_to_fp32_map cf !! 3%nat = Some 1%nat.
Proof.
  destruct (half_init_spec groups (λ _, true) nps [2%nat; 3%nat] [0%nat; 1%nat] 4 CNone 2 1 [] [leaf] (start 0)
    demo_args) as ((cf & s' & E & B) & _).
  - split.
    + by each_param; do 2 eexists.
    + intros l. simpl. unfold heap0. rewrite !lookup_insert_is_Some', lookup_singleton_is_Some. lia.
  - exists cf, s'. split; [exact E|]. split.
    + apply Permutation_singleton_r. exact (bu_hooked _ _ _ _ _ _ _ _ _ _ _ B).
    + apply (bu_pair _ _ _ _ _ _ _ _ _ _ _ B 1%nat 1%nat 3%nat); reflexivity.
Defined.
End HalfInitDemo.
End HalfInit.
