(* ===== verification/HalfBroadcast.v ===== *)
(** * Broadcast of optimizer state, [misc/imagenet18/__init__.py]

    [broadcast_parameters] and [broadcast_optimizer_state] of the mixed-precision
    package. Unlike [byteps/torch/__init__.py] it sends numbers as well as tensors
    through the servers: every option of the optimizer and every number in its state
    is wrapped in a tensor of 32-bit floats, broadcast, and converted back to the
    type it had. *)

From S2P Require Import Prelude PyStr Tensor TorchOps TorchCompression DistOptim Broadcast.

Module HalfBc.

(** ** Values

    The options of a parameter group: numbers, and tuples or lists of them. The
    values in a parameter's state that are not tensors are numbers. *)
Section values.
Context {R : Type} `{Scalar R, !TorchLib R}.

Inductive scalar := SBool (b : bool) | SInt (n : Z) | SFloat (x : R) | SNone.
Inductive seq_kind := KTuple | KList.
Inductive pyval := VScalar (s : scalar) | VSeq (k : seq_kind) (vs : list pyval).

Inductive stype := TBool | TInt | TFloat | TNone.
Inductive pytype := TScalar (t : stype) | TSeq (k : seq_kind) (ts : list pytype).

Definition type_of (s : scalar) : stype :=
  match s with SBool _ => TBool | SInt _ => TInt | SFloat _ => TFloat | SNone => TNone end.

Fixpoint _get_types (x : pyval) : pytype :=
  match x with
  | VScalar s => TScalar (type_of s)
  | VSeq k vs => TSeq k (map _get_types vs)
  end.

(** [torch.Tensor([x])]: the shape is read off the first elements, and every
    element must fit it. *)
Fixpoint sizes (x : pyval) : list nat :=
  match x with
  | VScalar _ => []
  | VSeq _ vs => length vs :: match vs with [] => [] | v :: _ => sizes v end
  end.

Definition number (s : scalar) : res R :=
  match s with
  | SBool b => Ok (s_of_Z (if b then 1 else 0))
  | SInt n => Ok (s_of_Z n)
  | SFloat x => Ok x
  | SNone => Raise TypeError
  end.

Fixpoint store (shape : list nat) (x : pyval) : res (list R) :=
  match shape, x with
  | [], VScalar s => r ← number s; Ok [r]
  | [], VSeq _ _ => Raise TypeError
  | n :: sh, VSeq _ vs =>
      if decide (length vs = n) then ds ← mapM (store sh) vs; Ok (concat ds) else Raise ValueError
  | _ :: _, VScalar _ => Raise TypeError
  end.

Definition torch_Tensor (x : pyval) : res (tensor R) :=
  d ← store (sizes x) x;
  Ok (Tensor float32 (1%nat :: sizes x) (map (cast float32) d) false true).

(** [t.numpy()]: an array of arrays down to numbers. *)
Inductive npval := NFloat (x : R) | NArr (xs : list npval).

Definition numel (shape : list nat) : nat := foldr Nat.mul 1%nat shape.

Fixpoint numpy (shape : list nat) (data : list R) : npval :=
  match shape with
  | [] => NFloat (default s_zero (head data))
  | n :: sh => NArr ((λ i, numpy sh (take (numel sh) (drop (i * numel sh) data))) <$> seq 0 n)
  end.

(** [t.numpy()[0]] *)
Definition numpy_0 (t : tensor R) : res npval :=
  match numpy (t_shape t) (t_data t) with
  | NArr (x :: _) => Ok x
  | _ => Raise IndexError
  end.

(** The constructors [bool], [int] and [float]; [NoneType] takes no argument. *)
Definition cast_scalar (t : stype) (x : R) : res scalar :=
  match t with
  | TBool => Ok (SBool (negb (s_eqb x s_zero)))
  | TInt => Ok (SInt (s_to_Z x))
  | TFloat => Ok (SFloat x)
  | TNone => Raise TypeError
  end.

(** [[_recursive_cast(x[i], dtypes[i]) for i in range(len(x))]] *)
Definition cast_items {X T V} (f : X → T → res V) : list T → list X → res (list V) :=
  fix go dtypes xs :=
    match xs, dtypes with
    | [], _ => Ok []
    | x :: xs', d :: ds' => v ← f x d; vs ← go ds' xs'; Ok (v :: vs)
    | _ :: _, [] => Raise IndexError
    end.

(** An array has the shape of the value whose types are asked for, so that a
    number never meets the type of a sequence or the other way round. *)
Fixpoint _recursive_cast (x : npval) (dtype : pytype) {struct dtype} : res pyval :=
  match dtype, x with
  | TSeq k dtypes, NArr xs => vs ← cast_items _recursive_cast dtypes xs; Ok (VSeq k vs)
  | TScalar t, NFloat x => s ← cast_scalar t x; Ok (VScalar s)
  | _, _ => Raise TypeError
  end.
End values.
Arguments scalar : clear implicits.
Arguments pyval : clear implicits.
Arguments npval : clear implicits.

(** ** The optimizer *)
Section state.
Context {R : Type} `{Scalar R, !Extension R, !TorchLib R}.

Inductive sentry := STensor (p : loc) | SScalar (v : scalar R).

(** The options and parameter ids of every group, and the named entries of every
    parameter that has a state. *)
Record opt_state : Type := OptState {
  os_state : odict nat (odict string sentry);
  os_groups : list (odict string (pyval R) * list nat)
}.

Definition set_option (index : nat) (key : string) (v : pyval R) (st : opt_state) : opt_state :=
  OptState (os_state st) (alter (λ '(opts, pids), (od_set key v opts, pids)) index (os_groups st)).
Definition set_entry (pid : nat) (name : string) (v : scalar R) (st : opt_state) : opt_state :=
  OptState (match od_get pid (os_state st) with
            | Some es => od_set pid (od_set name (SScalar v) es) (os_state st)
            | None => os_state st
            end) (os_groups st).

(** The closures [_create_callback] and [_create_option_callback] make. *)
Inductive callback :=
  | CbState (pid : nat) (name : string) (t : stype) (p : loc)
  | CbOption (index : nat) (option_key : string) (option_tensor : loc) (dtypes : pytype).

Definition run_callback (cb : callback) (st : opt_state) : M (ops R) opt_state :=
  match cb with
  | CbState pid name t p =>
      tp ← read_t p;
      x ← lift (or_raise IndexError (head (t_data tp)));
      v ← lift (cast_scalar t x);
      mret (set_entry pid name v st)
  | CbOption index key p dtypes =>
      tp ← read_t p;
      x ← lift (numpy_0 tp);
      v ← lift (_recursive_cast x dtypes);
      mret (set_option index key v st)
  end.

(** [params] and [callbacks]. *)
Record gathered : Type := Gathered { g_params : list (string * loc); g_callbacks : odict string callback }.
Definition add_param (key : string) (p : loc) (cb : option callback) (g : gathered) : gathered :=
  Gathered (g_params g ++ [(key, p)])
    (match cb with Some cb => od_set key cb (g_callbacks g) | None => g_callbacks g end).

Definition gather_option (index : nat) (g : gathered) (kv : string * pyval R) : M (ops R) gathered :=
  let '(option_key, option_value) := kv in
  if decide (option_key = "params") then mret g else
  let key := indexed option_key (Z.of_nat index) in
  t ← lift (torch_Tensor option_value);
  p ← alloc_t t;
  mret (add_param key p (Some (CbOption index option_key p (_get_types option_value))) g).

Definition gather_entry (pid : nat) (go : gathered * gmap string Z) (ne : string * sentry) :
    M (ops R) (gathered * gmap string Z) :=
  let '(g, occurrences) := go in
  let '(name, e) := ne in
  let n := default 0 (occurrences !! name) + 1 in
  let key := indexed name n in
  match e with
  | STensor p => mret (add_param key p None g, <[name := n]> occurrences)
  | SScalar v =>
      t ← lift (torch_Tensor (VScalar v));
      p ← alloc_t t;
      mret (add_param key p (Some (CbState pid name (type_of v) p)) g, <[name := n]> occurrences)
  end.

Definition gather_pid (st : opt_state) (go : gathered * gmap string Z) (pid : nat) :
    M (ops R) (gathered * gmap string Z) :=
  es ← lift (or_raise KeyError (od_get pid (os_state st)));
  foldM (gather_entry pid) go es.

Definition gather_group (st : opt_state) (go : gathered * gmap string Z)
    (ig : nat * (odict string (pyval R) * list nat)) : M (ops R) (gathered * gmap string Z) :=
  let '(index, (opts, pids)) := ig in
  let '(g, occurrences) := go in
  g ← foldM (gather_option index) g opts;
  foldM (gather_pid st) (g, occurrences) pids.

Definition gather_all (st : opt_state) : M (ops R) gathered :=
  go ← foldM (gather_group st) (Gathered [] [], ∅) (imap (λ i g, (i, g)) (os_groups st));
  mret go.1.

(** ** Broadcasts *)

(** The name is appended to the prefix whatever it is: a parameter without a name
    is a [TypeError], after it has been filled with zeros. *)
Definition hb_broadcast_one (rank root_rank : Z) (np : option string * loc) : M (ops R) () :=
  let '(name, p) := np in
  (if decide (rank ≠ root_rank) then fill_zero p else mret ());;
  n ← lift (or_raise TypeError name);
  handle ← push_pull_async_inplace p false (Some ("Parameter." +:+ n)) "";
  synchronize (Some handle);;
  mret ().

Definition hb_broadcast_parameters (rank root_rank : Z) (params : bc_params) : M (ops R) () :=
  ps ← lift (bc_normal params);
  for_each (hb_broadcast_one rank root_rank) ps.

Definition call_back (g : gathered) (st : opt_state) (kp : string * loc) : M (ops R) opt_state :=
  match od_get kp.1 (g_callbacks g) with
  | Some cb => run_callback cb st
  | None => mret st
  end.

(** [init_state] is the initialisation of an optimizer without state: zero
    gradients and one step of the wrapped optimizer. *)
Definition hb_broadcast_optimizer_state (is_lbfgs : bool) (rank root_rank : Z)
    (init_state : M (ops R) opt_state) (st : opt_state) : M (ops R) opt_state :=
  if is_lbfgs then raise ValueError else
  st ← (match os_state st with [] => init_state | _ => mret st end);
  match os_state st with
  | [] => mret st
  | _ =>
      g ← gather_all st;
      hb_broadcast_parameters rank root_rank (BCList ((λ '(k, p), BCPair (Some k) p) <$> g_params g));;
      foldM (call_back g) st (g_params g)
  end.
End state.
End HalfBc.
