(* ===== verification/HalfBcProofs.v ===== *)
(** * The broadcast of optimizer state makes workers agree

    Theorems about [HalfBroadcast]: a value goes through a tensor of 32-bit
    floats and back with nothing but rounding, and after the broadcast every worker,
    the root included, holds the root's options and state, rounded. *)

From S2P Require Import Prelude PyStr Tensor TorchOps TorchCompression DistOptim Broadcast HalfBroadcast.

Module HalfBcProofs.
Import HalfBc.

(** ** Values *)
Section values.
Context {R : Type} `{Scalar R, !TorchLib R}.

(** What is left of a value after the conversion to a 32-bit float and back. *)
Definition round_scalar (s : scalar R) : scalar R :=
  match s with
  | SBool b => SBool (negb (s_eqb (cast float32 (s_of_Z (if b then 1 else 0))) s_zero))
  | SInt n => SInt (s_to_Z (cast float32 (s_of_Z n)))
  | SFloat x => SFloat (cast float32 x)
  | SNone => SNone
  end.
Fixpoint rounded (x : pyval R) : pyval R :=
  match x with
  | VScalar s => VScalar (round_scalar s)
  | VSeq k vs => VSeq k (map rounded vs)
  end.

Lemma mapM_res_Forall2 {A B} (f : A → res B) l ys :
  mapM f l = Ok ys → Forall2 (λ x y, f x = Ok y) l ys.
Proof.
  revert ys. induction l as [|x l IH]; intros ys; simpl; [intros [= <-]; constructor|].
  destruct (f x) as [y|] eqn:E; simpl; [|done]. destruct (mapM f l) as [zs|]; simpl; [|done].
  intros [= <-]. constructor; [done|]. by apply IH.
Qed.

Lemma rows_concat {A} (k : nat) (ds : list (list A)) :
  Forall (λ d, length d = k) ds →
  (λ i, take k (drop (i * k) (concat ds))) <$> seq 0 (length ds) = ds.
Proof.
  induction 1 as [|d ds Hd Hds IH]; [done|]. cbn [length seq fmap list_fmap concat]. f_equal.
  - rewrite Nat.mul_0_l, drop_0, take_app_le by lia. by rewrite take_ge by lia.
  - etrans; [|exact IH]. rewrite <-fmap_S_seq, <-list_fmap_compose. apply list_fmap_ext. intros i j _.
    simpl. rewrite drop_app_ge by lia. do 2 f_equal. lia.
Qed.

Lemma number_cast s r :
  number s = Ok r → cast_scalar (type_of s) (cast float32 r) = Ok (round_scalar s).
Proof. destruct s; simpl; [intros [= <-]; done..|done]. Qed.

Lemma cast_items_ok {X T V A} (f : X → T → res V) (ty : A → T) (el : list R → X) (out : A → V) vs ds :
  Forall2 (λ v d, f (el d) (ty v) = Ok (out v)) vs ds →
  cast_items f (map ty vs) (el <$> ds) = Ok (map out vs).
Proof.
  induction 1 as [|v d vs ds Hv _ IH]; [done|].
  change (cast_items f (map ty (v :: vs)) (el <$> d :: ds)) with
    (w ← f (el d) (ty v); ws ← cast_items f (map ty vs) (el <$> ds); Ok (w :: ws)).
  by rewrite Hv, IH.
Qed.

Lemma numpy_rows sh ds (g : R → R) :
  Forall (λ d, length d = numel sh) ds →
  numpy (length ds :: sh) (map g (concat ds)) = NArr ((λ d, numpy sh (map g d)) <$> ds).
Proof.
  intros Hlen. cbn [numpy]. f_equal. rewrite concat_map.
  assert (Forall (λ d, length d = numel sh) (map (map g) ds)) as Hlen'.
  { apply Forall_fmap. eapply Forall_impl; [exact Hlen|]. intros d Hd. simpl. by rewrite length_map. }
  apply rows_concat in Hlen'. rewrite length_map in Hlen'.
  etrans; [|etrans; [exact (f_equal (fmap (numpy sh)) Hlen')|]].
  - symmetry. etrans; [symmetry; apply list_fmap_compose|]. by apply list_fmap_ext.
  - symmetry. exact (list_fmap_compose (map g) (numpy sh) ds).
Qed.

Lemma store_cast sh x d :
  store sh x = Ok d →
  length d = numel sh ∧ _recursive_cast (numpy sh (map (cast float32) d)) (_get_types x) = Ok (rounded x).
Proof.
  revert x d. induction sh as [|n sh IH]; intros x d.
  - destruct x as [s|k vs]; simpl; [|done]. destruct (number s) as [r|] eqn:E; simpl; [|done].
    intros [= <-]. split; [done|]. simpl. by rewrite (number_cast _ _ E).
  - destruct x as [s|k vs]; cbn [store]; [done|]. case_decide as Hn; [|done].
    destruct (mapM (store sh) vs) as [ds|] eqn:E; cbn [mbind res_bind]; [|done]. intros [= <-].
    apply mapM_res_Forall2 in E. pose proof (Forall2_length _ _ _ E) as Hl.
    assert (Forall2 (λ v d, length d = numel sh ∧
      _recursive_cast (numpy sh (map (cast float32) d)) (_get_types v) = Ok (rounded v)) vs ds) as HF.
    { eapply Forall2_impl; [exact E|]. apply IH. }
    assert (Forall (λ d, length d = numel sh) ds) as Hlen.
    { eapply Forall2_Forall_r; [exact HF|]. apply Forall_true. by intros v d' []. }
    split.
    + rewrite <-Hn, Hl. clear -Hlen. induction Hlen as [|d ds Hd _ IH]; [done|].
      simpl. rewrite length_app, IH, Hd. simpl. lia.
    + rewrite <-Hn, Hl, numpy_rows by done. cbn [_get_types _recursive_cast rounded].
      rewrite (cast_items_ok _ _ (λ d, numpy sh (map (cast float32) d)) rounded vs ds); [done|].
      eapply Forall2_impl; [exact HF|]. by intros v d [].
Qed.
End values.

(** Where an item of the optimizer's state is kept. *)
Inductive target := TgOption (index : nat) (key : string) | TgState (pid : nat) (name : string).
#[export] Instance target_eq_dec : EqDecision target.
Proof. solve_decision. Defined.

(** ** What is sent

    The state flattened in the order in which it is sent, each item with its key. *)
Section agree.
Context {R : Type} `{Scalar R, !Extension R, !TorchLib R}.
Implicit Types (st : opt_state (R := R)) (s : ops R) (g : gathered).

Inductive item :=
  | IOption (index : nat) (key : string) (v : pyval R)
  | INumber (pid : nat) (name : string) (v : scalar R)
  | ITensor (pid : nat) (name : string) (p : loc).

Definition plan_option (index : nat) (kv : string * pyval R) : list (string * item) :=
  if decide (kv.1 = "params") then []
  else [(indexed kv.1 (Z.of_nat index), IOption index kv.1 kv.2)].

Definition entry_item (pid : nat) (name : string) (e : sentry) : item :=
  match e with STensor p => ITensor pid name p | SScalar v => INumber pid name v end.

Fixpoint plan_entries (pid : nat) (es : list (string * sentry)) (occ : gmap string Z) :
    list (string * item) * gmap string Z :=
  match es with
  | [] => ([], occ)
  | (name, e) :: es' =>
      let n := default 0 (occ !! name) + 1 in
      let '(items, occ') := plan_entries pid es' (<[name := n]> occ) in
      ((indexed name n, entry_item pid name e) :: items, occ')
  end.

Fixpoint plan_pids st (pids : list nat) (occ : gmap string Z) : option (list (string * item) * gmap string Z) :=
  match pids with
  | [] => Some ([], occ)
  | pid :: pids' =>
      es ← od_get pid (os_state st);
      let '(items, occ1) := plan_entries pid es occ in
      '(rest, occ2) ← plan_pids st pids' occ1;
      Some (items ++ rest, occ2)
  end.

Fixpoint plan_groups st (igs : list (nat * (odict string (pyval R) * list nat))) (occ : gmap string Z) :
    option (list (string * item) * gmap string Z) :=
  match igs with
  | [] => Some ([], occ)
  | (index, (opts, pids)) :: igs' =>
      '(items, occ1) ← plan_pids st pids occ;
      '(rest, occ2) ← plan_groups st igs' occ1;
      Some (concat (plan_option index <$> opts) ++ items ++ rest, occ2)
  end.

Definition plan st : option (list (string * item)) :=
  fst <$> plan_groups st (imap (λ i x, (i, x)) (os_groups st)) ∅.

(** One item is gathered. *)
Definition number_of (it : item) : option (pyval R) :=
  match it with IOption _ _ v => Some v | INumber _ _ v => Some (VScalar v) | ITensor _ _ _ => None end.
Definition cb_of (it : item) (p : loc) : option callback :=
  match it with
  | IOption i k v => Some (CbOption i k p (_get_types v))
  | INumber pid name v => Some (CbState pid name (type_of v) p)
  | ITensor _ _ _ => None
  end.
Definition gather_item g (ki : string * item) : M (ops R) gathered :=
  match ki.2 with
  | ITensor _ _ p => mret (add_param ki.1 p None g)
  | it => t ← lift (or_raise TypeError (number_of it) ≫= torch_Tensor);
          p ← alloc_t t; mret (add_param ki.1 p (cb_of it p) g)
  end.

Lemma gather_option_plan index kv g s :
  gather_option index g kv s = foldM gather_item g (plan_option index kv) s.
Proof.
  destruct kv as [k v]. unfold plan_option, gather_option. simpl. case_decide; [done|].
  cbn [foldM]. unfold gather_item, mbind, M_bind, mret, M_ret, lift. simpl. by destruct (torch_Tensor v).
Qed.

Lemma gather_options_plan index opts g s :
  foldM (gather_option index) g opts s = foldM gather_item g (concat (plan_option index <$> opts)) s.
Proof.
  revert g s. induction opts as [|kv opts IH]; intros g s; [done|].
  cbn [foldM fmap list_fmap concat]. rewrite foldM_app. unfold mbind, M_bind. rewrite gather_option_plan.
  destruct (foldM gather_item g (plan_option index kv) s) as [[g1|e] s1]; [apply IH|done].
Qed.

Lemma gather_entry_plan pid g occ name e s :
  let n := default 0 (occ !! name) + 1 in
  gather_entry pid (g, occ) (name, e) s =
    (g' ← gather_item g (indexed name n, entry_item pid name e); mret (g', <[name := n]> occ)) s.
Proof.
  destruct e as [p|v]; [done|]. unfold gather_entry, gather_item, mbind, M_bind, mret, M_ret, lift.
  cbn [entry_item number_of or_raise mbind res_bind fst snd]. by destruct (torch_Tensor (VScalar v)).
Qed.

Lemma gather_entries_plan pid es occ g s items occ' :
  plan_entries pid es occ = (items, occ') →
  foldM (gather_entry pid) (g, occ) es s = (g' ← foldM gather_item g items; mret (g', occ')) s.
Proof.
  revert occ g s items. induction es as [|[name e] es IH]; intros occ g s items; cbn [plan_entries];
    [by intros [= <- <-]|].
  destruct (plan_entries pid es _) as [its o'] eqn:E. intros [= <- <-]. cbn [foldM].
  unfold mbind at 1, M_bind at 1. rewrite gather_entry_plan. unfold mbind, M_bind, mret, M_ret.
  destruct (gather_item g _ s) as [[g1|x] s1]; [|done]. by rewrite (IH _ _ _ _ E).
Qed.

Lemma gather_pids_plan st pids occ g s items occ' :
  plan_pids st pids occ = Some (items, occ') →
  foldM (gather_pid st) (g, occ) pids s = (g' ← foldM gather_item g items; mret (g', occ')) s.
Proof.
  revert occ g s items. induction pids as [|pid pids IH]; intros occ g s items; cbn [plan_pids];
    [by intros [= <- <-]|].
  destruct (od_get pid (os_state st)) as [es|] eqn:Ees; simpl; [|done].
  destruct (plan_entries pid es occ) as [its o1] eqn:E.
  destruct (plan_pids st pids o1) as [[rest o2]|] eqn:E2; simpl; [|done]. intros [= <- <-].
  cbn [foldM]. unfold mbind at 1, M_bind at 1, gather_pid at 1.
  erewrite bind_Ok by (unfold lift; by rewrite Ees). rewrite (gather_entries_plan _ _ _ _ _ _ _ E).
  unfold mbind, M_bind, mret, M_ret. rewrite foldM_app. unfold mbind, M_bind.
  destruct (foldM gather_item g its s) as [[g1|e] s1]; [|done].
  rewrite (IH _ _ _ _ E2). reflexivity.
Qed.

Lemma gather_groups_plan st igs occ g s items occ' :
  plan_groups st igs occ = Some (items, occ') →
  foldM (gather_group st) (g, occ) igs s = (g' ← foldM gather_item g items; mret (g', occ')) s.
Proof.
  revert occ g s items. induction igs as [|[index [opts pids]] igs IH]; intros occ g s items; cbn [plan_groups];
    [by intros [= <- <-]|].
  destruct (plan_pids st pids occ) as [[its o1]|] eqn:E; simpl; [|done].
  destruct (plan_groups st igs o1) as [[rest o2]|] eqn:E2; simpl; [|done]. intros [= <- <-].
  cbn [foldM]. unfold gather_group at 1, mbind, M_bind. rewrite gather_options_plan.
  rewrite foldM_app. unfold mbind, M_bind.
  destruct (foldM gather_item g (concat _) s) as [[g1|e] s1]; [|done].
  rewrite (gather_pids_plan _ _ _ _ _ _ _ E). rewrite foldM_app. unfold mbind, M_bind, mret, M_ret.
  destruct (foldM gather_item g1 its s1) as [[g2|e] s2]; [|done].
  rewrite (IH _ _ _ _ E2). reflexivity.
Qed.

Lemma gather_all_plan st items s :
  plan st = Some items → gather_all st s = foldM gather_item (Gathered [] []) items s.
Proof.
  unfold plan, gather_all. destruct (plan_groups st _ ∅) as [[its occ]|] eqn:E; simpl; [|done].
  intros [= <-]. unfold mbind, M_bind. rewrite (gather_groups_plan _ _ _ _ _ _ _ E).
  unfold mbind, M_bind, mret, M_ret. by destruct (foldM gather_item _ its s) as [[]].
Qed.

(** ** Where an item is kept *)

Definition target_of (it : item) : target :=
  match it with IOption i k _ => TgOption i k | INumber pid n _ | ITensor pid n _ => TgState pid n end.

Definition option_at st (index : nat) (key : string) : option (pyval R) :=
  '(opts, _) ← os_groups st !! index; od_get key opts.
Definition entry_at st (pid : nat) (name : string) : option sentry :=
  es ← od_get pid (os_state st); od_get name es.
Definition slot_at st (tg : target) : option (pyval R + sentry) :=
  match tg with TgOption i k => inl <$> option_at st i k | TgState pid n => inr <$> entry_at st pid n end.
Definition content (it : item) : pyval R + sentry :=
  match it with IOption _ _ v => inl v | INumber _ _ v => inr (SScalar v) | ITensor _ _ p => inr (STensor p) end.

(** Dictionaries have no key twice. *)
Record opt_wf st : Prop := {
  ow_groups i opts pids : os_groups st !! i = Some (opts, pids) → NoDup (od_keys opts);
  ow_state pid es : od_get pid (os_state st) = Some es → NoDup (od_keys es)
}.

Lemma plan_entries_elem pid es occ ki :
  ki ∈ (plan_entries pid es occ).1 → ∃ name e, (name, e) ∈ es ∧ ki.2 = entry_item pid name e.
Proof.
  revert occ. induction es as [|[name e] es IH]; intros occ; cbn [plan_entries]; [set_solver|].
  destruct (plan_entries pid es _) as [its o'] eqn:E. simpl. rewrite elem_of_cons. intros [->|Hin].
  - exists name, e. split; [left|done].
  - destruct (IH (<[name:=default 0 (occ !! name) + 1]> occ)) as (n' & e' & Hin' & Eq); [by rewrite E|].
    exists n', e'. split; [by right|done].
Qed.

Lemma plan_pids_elem st pids occ items occ' ki :
  plan_pids st pids occ = Some (items, occ') → ki ∈ items →
  ∃ pid es name e, od_get pid (os_state st) = Some es ∧ (name, e) ∈ es ∧ ki.2 = entry_item pid name e.
Proof.
  revert occ items. induction pids as [|pid pids IH]; intros occ items; cbn [plan_pids];
    [intros [= <- <-]; set_solver|].
  destruct (od_get pid (os_state st)) as [es|] eqn:Ees; simpl; [|done].
  destruct (plan_entries pid es occ) as [its o1] eqn:E.
  destruct (plan_pids st pids o1) as [[rest o2]|] eqn:E2; simpl; [|done]. intros [= <- <-].
  rewrite elem_of_app. intros [Hin|Hin]; [|by eapply IH].
  destruct (plan_entries_elem pid es occ ki) as (name & e & Hin' & Eq); [by rewrite E|]. by exists pid, es, name, e.
Qed.

Lemma plan_groups_elem st igs occ items occ' ki :
  plan_groups st igs occ = Some (items, occ') → ki ∈ items →
  (∃ i opts pids k v, (i, (opts, pids)) ∈ igs ∧ (k, v) ∈ opts ∧ ki.2 = IOption i k v) ∨
  ∃ pid es name e, od_get pid (os_state st) = Some es ∧ (name, e) ∈ es ∧ ki.2 = entry_item pid name e.
Proof.
  revert occ items. induction igs as [|[i [opts pids]] igs IH]; intros occ items; cbn [plan_groups];
    [intros [= <- <-]; set_solver|].
  destruct (plan_pids st pids occ) as [[its o1]|] eqn:E; simpl; [|done].
  destruct (plan_groups st igs o1) as [[rest o2]|] eqn:E2; simpl; [|done]. intros [= <- <-].
  rewrite !elem_of_app. intros [Hin|[Hin|Hin]].
  - left. apply list_elem_of_In, in_concat in Hin as (l & Hl%list_elem_of_In & Hin%list_elem_of_In).
    apply list_elem_of_fmap in Hl as ([k v] & -> & Hkv). unfold plan_option in Hin. simpl in Hin.
    case_decide; [set_solver|]. apply list_elem_of_singleton in Hin as ->.
    exists i, opts, pids, k, v. split; [left|done].
  - right. by eapply plan_pids_elem.
  - destruct (IH _ _ E2 Hin) as [(j & o & ps & k & v & Hj & Hk & Eq)|]; [|by right].
    left. exists j, o, ps, k, v. split; [by right|done].
Qed.

Lemma plan_sound st items ki :
  opt_wf st → plan st = Some items → ki ∈ items → slot_at st (target_of ki.2) = Some (content ki.2).
Proof.
  intros [Hg Hs]. unfold plan. destruct (plan_groups st _ ∅) as [[its occ]|] eqn:E; simpl; [|done].
  intros [= <-] Hin. destruct (plan_groups_elem _ _ _ _ _ _ E Hin)
    as [(i & opts & pids & k & v & Hi & Hk & ->)|(pid & es & name & e & He & Hn & ->)].
  - apply elem_of_lookup_imap in Hi as (j & x & [= <- <-] & Hl). simpl. unfold option_at. rewrite Hl. simpl.
    by rewrite (od_get_elem_NoDup _ _ _ (Hg _ _ _ Hl) Hk).
  - assert (entry_at st pid name = Some e) as Hat.
    { unfold entry_at. rewrite He. simpl. apply od_get_elem_NoDup; [by eapply Hs|done]. }
    destruct e; simpl; by rewrite Hat.
Qed.

(** Writing one place. *)
Lemma slot_set_option st i k v tg :
  is_Some (slot_at st (TgOption i k)) →
  slot_at (set_option i k v st) tg = if decide (tg = TgOption i k) then Some (inl v) else slot_at st tg.
Proof.
  intros Hx. destruct tg as [j k'|pid n]; [|by rewrite decide_False by done].
  cbn [slot_at] in *. unfold option_at in *. cbn [set_option os_groups]. destruct (decide (j = i)) as [->|Hj].
  - rewrite list_lookup_alter_eq. destruct (os_groups st !! i) as [[opts pids]|];
      cbn [mbind option_bind fmap option_fmap option_map] in *; [|by destruct Hx].
    case_decide as E; [injection E as ->; by rewrite od_get_set_eq|].
    rewrite od_get_set_ne; [done|]. congruence.
  - rewrite list_lookup_alter_ne by done. rewrite decide_False by congruence. done.
Qed.

Lemma slot_set_entry st pid n v tg :
  is_Some (slot_at st (TgState pid n)) →
  slot_at (set_entry pid n v st) tg =
    if decide (tg = TgState pid n) then Some (inr (SScalar v)) else slot_at st tg.
Proof.
  intros Hx. destruct tg as [j k'|pid' n']; [by rewrite decide_False by done|].
  cbn [slot_at] in *. unfold entry_at in *. cbn [set_entry os_state].
  destruct (od_get pid (os_state st)) as [es|] eqn:E; cbn [mbind option_bind fmap option_fmap option_map] in *; [|done].
  destruct (decide (pid' = pid)) as [->|Hp].
  - rewrite od_get_set_eq. cbn [mbind option_bind]. case_decide as En; [injection En as ->; by rewrite od_get_set_eq|].
    rewrite od_get_set_ne by congruence. by rewrite E.
  - rewrite od_get_set_ne by done. rewrite decide_False by congruence. done.
Qed.

(** ** Gathering *)

Definition tensor_loc (it : item) : option loc := match it with ITensor _ _ p => Some p | _ => None end.

(** A number is in a new tensor, a tensor is sent itself. *)
Definition at_place s0 s (ki : string * item) (kp : string * loc) : Prop :=
  kp.1 = ki.1 ∧
  match number_of ki.2 with
  | Some v => ∃ t, torch_Tensor v = Ok t ∧ o_heap s !! kp.2 = Some t ∧ (o_next s0 ≤ kp.2)%nat
  | None => tensor_loc ki.2 = Some kp.2
  end.

Record placed s0 (dn : list (string * item)) g s : Prop := {
  pd_inv : ops_inv s;
  pd_clib : o_clib s = o_clib s0;
  pd_map : TorchOps._handle_map s = TorchOps._handle_map s0;
  pd_old l t : o_heap s0 !! l = Some t → o_heap s !! l = Some t;
  pd_next : (o_next s0 ≤ o_next s)%nat;
  pd_at : Forall2 (at_place s0 s) dn (g_params g);
  pd_cb i ki kp : dn !! i = Some ki → g_params g !! i = Some kp → od_get ki.1 (g_callbacks g) = cb_of ki.2 kp.2;
  pd_keys key : is_Some (od_get key (g_callbacks g)) → key ∈ dn.*1;
  pd_locs : NoDup (g_params g).*2
}.

(** What can be gathered: different keys, numbers that fit a tensor, different
    tensors that exist. *)
Record sendable s (items : list (string * item)) : Prop := {
  sd_keys : NoDup items.*1;
  sd_number ki v : ki ∈ items → number_of ki.2 = Some v → ∃ t, torch_Tensor v = Ok t;
  sd_tensor ki p : ki ∈ items → tensor_loc ki.2 = Some p → is_Some (o_heap s !! p);
  sd_tensors : NoDup (omap tensor_loc items.*2)
}.

Lemma placed_old s0 dn g s p :
  ops_inv s0 → placed s0 dn g s → p ∈ (g_params g).*2 →
  (∀ ki q, ki ∈ dn → tensor_loc ki.2 = Some q → is_Some (o_heap s0 !! q)) →
  is_Some (o_heap s !! p) ∧ ((p < o_next s0)%nat → p ∈ omap tensor_loc dn.*2).
Proof.
  intros Hinv Hpd Hp Ht. apply list_elem_of_fmap in Hp as (kp & -> & Hkp).
  destruct (list_elem_of_lookup_1 _ _ Hkp) as [i Hi].
  destruct (Forall2_lookup_r _ _ _ _ _ (pd_at _ _ _ _ Hpd) Hi) as (ki & Hki & _ & Hv).
  apply list_elem_of_lookup_2 in Hki.
  destruct (number_of ki.2) as [v|] eqn:En.
  - destruct Hv as (t & _ & Hh & Hle). split; [by rewrite Hh|lia].
  - destruct (Ht ki _ Hki Hv) as [t Hh]. split; [by rewrite (pd_old _ _ _ _ Hpd _ _ Hh)|].
    intros _. apply list_elem_of_omap. exists ki.2. split; [|done]. by apply list_elem_of_fmap_2.
Qed.

(** Adding the place [p] of the next item to a state that differs in the heap. *)
Lemma placed_add s0 dn g s key it p s' :
  placed s0 dn g s → ops_inv s' → o_clib s' = o_clib s → TorchOps._handle_map s' = TorchOps._handle_map s →
  (∀ l t, o_heap s !! l = Some t → o_heap s' !! l = Some t) → (o_next s ≤ o_next s')%nat →
  at_place s0 s' (key, it) (key, p) → key ∉ dn.*1 → p ∉ (g_params g).*2 →
  placed s0 (dn ++ [(key, it)]) (add_param key p (cb_of it p) g) s'.
Proof.
  intros [P1 P2 P3 P4 P5 P6 P7 P8 P9] Hinv Hc Hm Hold Hn Hat Hk Hp.
  assert (od_get key (g_callbacks g) = None) as Hnone.
  { apply eq_None_not_Some. by intros Hs%P8. }
  split; simpl; try done; try (by etrans); try congruence.
  - auto.
  - apply Forall2_app; [|by constructor]. eapply Forall2_impl; [exact P6|].
    intros ki kp (E & Hv). split; [done|]. destruct (number_of ki.2) as [v|]; [|done].
    destruct Hv as (t & Et & Hh & Hle). exists t. auto.
  - pose proof (Forall2_length _ _ _ P6) as Hl. intros i ki kp Hi Hkp.
    destruct (decide (i = length dn)) as [->|Hne].
    + rewrite list_lookup_middle in Hi by done. rewrite Hl, list_lookup_middle in Hkp by done.
      simplify_eq. simpl. destruct (cb_of it p); [apply od_get_set_eq|done].
    + pose proof (lookup_lt_Some _ _ _ Hi) as Hlt. rewrite length_app in Hlt. simpl in Hlt.
      rewrite lookup_app_l in Hi by lia. rewrite lookup_app_l in Hkp by lia.
      rewrite <-(P7 i ki kp Hi Hkp). destruct (cb_of it p); [|done]. apply od_get_set_ne. intros ->.
      apply Hk. by apply list_elem_of_fmap_2, (list_elem_of_lookup_2 _ i).
  - intros key' Hs. rewrite fmap_app, elem_of_app. cbn [fmap list_fmap fst]. rewrite list_elem_of_singleton.
    destruct (decide (key' = key)) as [->|Hne]; [by right|]. left. apply P8.
    destruct (cb_of it p); [|done]. by rewrite od_get_set_ne in Hs.
  - rewrite fmap_app. apply NoDup_app. split_and!; [done| |apply NoDup_singleton].
    intros l Hl ->%list_elem_of_singleton. by apply Hp.
Qed.

Lemma gather_items_ok items s0 :
  ops_inv s0 → sendable s0 items →
  ∃ g s, foldM gather_item (Gathered [] []) items s0 = (Ok g, s) ∧ placed s0 items g s.
Proof.
  intros Hinv [S1 S2 S3 S4]. apply (foldM_inv gather_item (placed s0)).
  { by split; simpl; try done; try constructor; intros key [? [=]]. }
  intros dn [key it] rest g s El Hpd.
  assert (key ∉ dn.*1) as Hk.
  { rewrite El, fmap_app in S1. apply NoDup_app in S1 as (_ & Hd & _). intros Hin. apply (Hd _ Hin). left. }
  assert ((key, it) ∈ items) as Hin by (rewrite El; set_solver).
  assert (∀ p, p ∈ (g_params g).*2 → is_Some (o_heap s !! p) ∧ ((p < o_next s0)%nat → p ∈ omap tensor_loc dn.*2))
    as Hpl.
  { intros p Hp. eapply placed_old; [done..|]. intros ki q Hki. apply S3. rewrite El. set_solver. }
  unfold gather_item. destruct (number_of it) as [v|] eqn:En.
  - destruct (S2 _ v Hin En) as [t Et].
    destruct (alloc_inv s t (pd_inv _ _ _ _ Hpd)) as [Hi' Hh'].
    exists (add_param key (o_next s) (cb_of it (o_next s)) g), (alloc_t t s).2. split.
    { destruct it; try done; simpl in En; simplify_eq; cbn [snd fst number_of or_raise mbind res_bind];
        (erewrite bind_Ok by (unfold lift; by rewrite Et)); reflexivity. }
    apply (placed_add s0 dn g s); try done.
    + intros l t' Hl. simpl. rewrite lookup_insert_ne; [done|]. intros <-.
      assert (o_next s < o_next s)%nat; [|lia]. apply (pd_inv _ _ _ _ Hpd). by rewrite Hl.
    + simpl. lia.
    + split; [done|]. simpl. rewrite En. exists t. split; [done|]. split; [done|apply Hpd].
    + intros [Hs _]%Hpl. assert (o_next s < o_next s)%nat; [|lia]. by apply (pd_inv _ _ _ _ Hpd).
  - destruct it as [| |pid name p]; try done. exists (add_param key p None g), s. split; [done|].
    apply (placed_add s0 dn g s); try done; try apply Hpd.
    intros [_ Hp]%Hpl. rewrite El, fmap_app, omap_app in S4. apply NoDup_app in S4 as (_ & Hd & _).
    apply (Hd p); [|simpl; left]. apply Hp, (inv_fresh _ Hinv). by eapply S3.
Qed.
End agree.
End HalfBcProofs.
