(* ===== verification/HalfBcAgree.v ===== *)
(** * After the broadcast all workers have the root's optimizer state

    [broadcast_optimizer_state] of [misc/imagenet18/__init__.py] from end to end:
    what is gathered, the exchange, and the callbacks that write it back. *)

From S2P Require Import Prelude PyStr Tensor TorchOps TorchCompression DistOptim Broadcast HalfBroadcast HalfBcProofs.

Module HalfBcAgree.
Import HalfBc HalfBcProofs.
Section agree.
Context {R : Type} `{Scalar R, !Extension R, !TorchLib R}.
Implicit Types (st : opt_state (R := R)) (s : ops R) (g : gathered) (e : sentry (R := R)).

(** ** The plan is complete *)

Lemma plan_entries_complete pid es occ name e :
  (name, e) ∈ es → ∃ key, (key, entry_item pid name e) ∈ (plan_entries pid es occ).1.
Proof.
  revert occ. induction es as [|[name' e'] es IH]; intros occ; cbn [plan_entries]; [set_solver|].
  destruct (plan_entries pid es _) as [its o'] eqn:E. simpl. rewrite elem_of_cons. intros [[= <- <-]|Hin].
  - eexists. left.
  - destruct (IH (<[name':=default 0 (occ !! name') + 1]> occ) Hin) as [key Hk]. rewrite E in Hk.
    exists key. by right.
Qed.

Lemma plan_pids_complete st pids occ items occ' pid es name e :
  plan_pids st pids occ = Some (items, occ') → pid ∈ pids → od_get pid (os_state st) = Some es →
  (name, e) ∈ es → ∃ key, (key, entry_item pid name e) ∈ items.
Proof.
  revert occ items. induction pids as [|pid' pids IH]; intros occ items; cbn [plan_pids]; [set_solver|].
  destruct (od_get pid' (os_state st)) as [es'|] eqn:Ees; simpl; [|done].
  destruct (plan_entries pid' es' occ) as [its o1] eqn:E.
  destruct (plan_pids st pids o1) as [[rest o2]|] eqn:E2; simpl; [|done]. intros [= <- <-].
  rewrite elem_of_cons. intros [->|Hin] Hes Hn.
  - simplify_eq. destruct (plan_entries_complete pid' es' occ name e Hn) as [key Hk]. rewrite E in Hk.
    exists key. set_solver.
  - destruct (IH _ _ E2 Hin Hes Hn) as [key Hk]. exists key. set_solver.
Qed.

Lemma plan_groups_complete st igs occ items occ' i opts pids :
  plan_groups st igs occ = Some (items, occ') → (i, (opts, pids)) ∈ igs →
  (∀ k v, (k, v) ∈ opts → k ≠ "params" → ∃ key, (key, IOption i k v) ∈ items) ∧
  ∀ pid es name e, pid ∈ pids → od_get pid (os_state st) = Some es → (name, e) ∈ es →
    ∃ key, (key, entry_item pid name e) ∈ items.
Proof.
  revert occ items. induction igs as [|[i' [opts' pids']] igs IH]; intros occ items; cbn [plan_groups]; [set_solver|].
  destruct (plan_pids st pids' occ) as [[its o1]|] eqn:E; simpl; [|done].
  destruct (plan_groups st igs o1) as [[rest o2]|] eqn:E2; simpl; [|done]. intros [= <- <-].
  rewrite elem_of_cons. intros [[= <- <- <-]|Hin].
  - split.
    + intros k v Hkv Hk. exists (indexed k (Z.of_nat i)). rewrite !elem_of_app. left.
      apply list_elem_of_In, in_concat. eexists. split.
      * apply list_elem_of_In, list_elem_of_fmap. exists (k, v). split; [reflexivity|done].
      * unfold plan_option. simpl. rewrite decide_False by done. by left.
    + intros pid es name e Hp Hes Hn. destruct (plan_pids_complete _ _ _ _ _ _ _ _ _ E Hp Hes Hn) as [key Hk].
      exists key. set_solver.
  - destruct (IH _ _ E2 Hin) as [H1 H2]. split.
    + intros k v Hkv Hk. destruct (H1 k v Hkv Hk) as [key Hi]. exists key. set_solver.
    + intros pid es name e Hp Hes Hn. destruct (H2 pid es name e Hp Hes Hn) as [key Hi]. exists key. set_solver.
Qed.

Lemma plan_complete st items i opts pids :
  plan st = Some items → os_groups st !! i = Some (opts, pids) →
  (∀ k v, od_get k opts = Some v → k ≠ "params" → ∃ key, (key, IOption i k v) ∈ items) ∧
  ∀ pid name e, pid ∈ pids → entry_at st pid name = Some e → ∃ key, (key, entry_item pid name e) ∈ items.
Proof.
  unfold plan. destruct (plan_groups st _ ∅) as [[its occ]|] eqn:E; simpl; [|done]. intros [= <-] Hi.
  destruct (plan_groups_complete _ _ _ _ _ i opts pids E) as [H1 H2].
  { apply elem_of_lookup_imap. by exists i, (opts, pids). }
  split.
  - intros k v Hk. by apply H1, od_get_Some_elem.
  - intros pid name e Hp He. unfold entry_at in He. destruct (od_get pid (os_state st)) as [es|] eqn:Es; [|done].
    eapply H2; [done..|]. by apply od_get_Some_elem.
Qed.

(** ** Callbacks *)

(** Two workers' items at one position. *)
Definition alike (ki kr : string * item (R := R)) : Prop :=
  ki.1 = kr.1 ∧
  match ki.2, kr.2 with
  | IOption i k v, IOption j l w => i = j ∧ k = l ∧ sizes v = sizes w ∧ _get_types v = _get_types w
  | INumber pid n v, INumber qid m w => pid = qid ∧ n = m ∧ type_of v = type_of w
  | ITensor pid n _, ITensor qid m _ => pid = qid ∧ n = m
  | _, _ => False
  end.

(** What the item's place holds in the end, given the root's item. *)
Definition result (it ir : item (R := R)) : pyval R + sentry :=
  match ir with
  | IOption _ _ w => inl (rounded w)
  | INumber _ _ w => inr (SScalar (round_scalar w))
  | ITensor _ _ _ => content it
  end.

Definition write (tg : target) (c : pyval R + sentry (R := R)) st : opt_state :=
  match tg, c with
  | TgOption i k, inl v => set_option i k v st
  | TgState pid n, inr (SScalar v) => set_entry pid n v st
  | _, _ => st
  end.

(** One callback, after the root's numbers have been received. *)
Lemma callback_ok s st ki kr p t d w :
  alike ki kr → number_of kr.2 = Some w → store (sizes w) w = Ok d →
  o_heap s !! p = Some (with_data (map (cast float32) d) t) →
  (∃ v, number_of ki.2 = Some v ∧ torch_Tensor v = Ok t) →
  ∃ cb, cb_of ki.2 p = Some cb ∧
    run_callback cb st s = (Ok (write (target_of ki.2) (result ki.2 kr.2) st), s).
Proof.
  intros [_ Ha] Hw Hd Hp (v & Hv & Ht). destruct (store_cast _ _ _ Hd) as [Hl Hc].
  assert (t_shape t = 1%nat :: sizes v) as Hsh.
  { unfold torch_Tensor in Ht. destruct (store (sizes v) v); simpl in Ht; by simplify_eq. }
  destruct ki as [key [i k v'|pid n v'|]], kr as [key' [j l w'|qid m w'|]]; simpl in *; simplify_eq; try done.
  - destruct Ha as (-> & -> & Hsz & Hty). eexists. split; [reflexivity|]. unfold run_callback.
    erewrite bind_Ok by (unfold read_t, mbind, M_bind, get, lift; by rewrite Hp).
    assert (numpy_0 (with_data (map (cast float32) d) t) = Ok (numpy (sizes w) (map (cast float32) d))) as E.
    { unfold numpy_0. cbn [t_shape t_data with_data]. rewrite Hsh, Hsz. simpl.
      by rewrite drop_0, take_ge by (rewrite length_map; lia). }
    erewrite bind_Ok by (unfold lift; by rewrite E). rewrite Hty.
    erewrite bind_Ok by (unfold lift; by rewrite Hc). done.
  - destruct Ha as (-> & -> & Hty). eexists. split; [reflexivity|]. unfold run_callback.
    erewrite bind_Ok by (unfold read_t, mbind, M_bind, get, lift; by rewrite Hp).
    simpl in Hd. destruct (number w') as [r|] eqn:En; simpl in Hd; [|done]. injection Hd as <-.
    erewrite bind_Ok by reflexivity. rewrite Hty.
    erewrite bind_Ok by (unfold lift; by rewrite (number_cast _ _ En)). done.
Qed.

(** Writing an item of the plan changes its place only. *)
Lemma write_slot st ki kr tg :
  alike ki kr → is_Some (number_of kr.2) → is_Some (slot_at st (target_of ki.2)) →
  slot_at (write (target_of ki.2) (result ki.2 kr.2) st) tg =
    if decide (tg = target_of ki.2) then Some (result ki.2 kr.2) else slot_at st tg.
Proof.
  intros [_ Ha] [w Hw] Hs.
  destruct ki as [key [i k v|pid n v|]], kr as [key' [j l w'|qid m w'|]]; simpl in Ha, Hw; try done.
  - destruct Ha as (-> & -> & _). by apply slot_set_option.
  - destruct Ha as (-> & -> & _). by apply slot_set_entry.
Qed.

(** The callback of one item, if it has one, writes the item's place. *)
Lemma write_item s st ki kr kp g :
  alike ki kr → slot_at st (target_of ki.2) = Some (content ki.2) →
  od_get kp.1 (g_callbacks g) = cb_of ki.2 kp.2 →
  (∀ w, number_of kr.2 = Some w → ∃ d t v, store (sizes w) w = Ok d ∧
     o_heap s !! kp.2 = Some (with_data (map (cast float32) d) t) ∧ number_of ki.2 = Some v ∧ torch_Tensor v = Ok t) →
  ∃ st', call_back g st kp s = (Ok st', s) ∧
    ∀ tg, slot_at st' tg = if decide (tg = target_of ki.2) then Some (result ki.2 kr.2) else slot_at st tg.
Proof.
  intros Ha Hs Hcb Hnum. unfold call_back. rewrite Hcb. destruct (number_of kr.2) as [w|] eqn:Ew.
  - destruct (Hnum w eq_refl) as (d & t & v & Hd & Hh & Hv).
    destruct (callback_ok s st ki kr kp.2 t d w) as (cb & -> & E); [done..|by exists v|].
    eexists. split; [exact E|]. intros tg. apply write_slot; [done|by rewrite Ew|by rewrite Hs].
  - destruct Ha as [_ Ha]. destruct ki as [key [| |pid n p]], kr as [key' [| |qid m q]]; try done.
    exists st. split; [done|]. intros tg. case_decide as E; [|done]. by subst tg.
Qed.

(** The loop over the gathered parameters, the tensors holding what the root sent. *)
Lemma callbacks_ok st items items_r g s :
  Forall2 alike items items_r → NoDup (target_of <$> items.*2) →
  (∀ ki, ki ∈ items → slot_at st (target_of ki.2) = Some (content ki.2)) →
  length (g_params g) = length items →
  (∀ i ki kp, items !! i = Some ki → g_params g !! i = Some kp → od_get kp.1 (g_callbacks g) = cb_of ki.2 kp.2) →
  (∀ i ki kr kp w, items !! i = Some ki → items_r !! i = Some kr → g_params g !! i = Some kp →
     number_of kr.2 = Some w → ∃ d t v, store (sizes w) w = Ok d ∧
       o_heap s !! kp.2 = Some (with_data (map (cast float32) d) t) ∧ number_of ki.2 = Some v ∧ torch_Tensor v = Ok t) →
  ∃ st', foldM (call_back g) st (g_params g) s = (Ok st', s) ∧
    ∀ i ki kr, items !! i = Some ki → items_r !! i = Some kr →
      slot_at st' (target_of ki.2) = Some (result ki.2 kr.2).
Proof.
  intros Hal Hnd Hst Hlen Hcb Hnum.
  destruct (foldM_inv (call_back g) (λ dn st1 s1, s1 = s ∧
      ∀ i ki kr, items !! i = Some ki → items_r !! i = Some kr →
        slot_at st1 (target_of ki.2) =
          Some (if decide (i < length dn)%nat then result ki.2 kr.2 else content ki.2)) (g_params g) st s)
    as (st' & s' & E & -> & HI).
  - split; [done|]. intros i ki kr Hi _. apply Hst. by eapply list_elem_of_lookup_2.
  - intros dn kp rest st1 s1 El [-> HI].
    assert (g_params g !! length dn = Some kp) as Hkp by (rewrite El; by apply list_lookup_middle).
    assert (length dn < length items)%nat as Hlt by (rewrite <-Hlen; by eapply lookup_lt_Some).
    destruct (lookup_lt_is_Some_2 items _ Hlt) as [ki Hki].
    destruct (Forall2_lookup_l _ _ _ _ _ Hal Hki) as (kr & Hkr & Ha).
    pose proof (HI _ _ _ Hki Hkr) as Hslot. rewrite decide_False in Hslot by lia.
    destruct (write_item s st1 ki kr kp g) as (st2 & E2 & Hst2); [done|exact Hslot|by eapply Hcb| |].
    { intros w Hw. by apply (Hnum (length dn) ki kr kp w). }
    exists st2, s. split; [exact E2|]. split; [done|]. intros i k r Hi Hr. rewrite Hst2, (HI _ _ _ Hi Hr), length_app.
    simpl. case_decide as Et.
    + assert (i = length dn) as ->; [|simplify_eq; by rewrite decide_True by lia].
      apply (NoDup_lookup _ _ _ (target_of ki.2) Hnd); rewrite !list_lookup_fmap, ?Hi, ?Hki; simpl; congruence.
    + assert (i ≠ length dn) by congruence. case_decide; case_decide; first [done|lia].
  - exists st'. split; [exact E|]. intros i ki kr Hi Hr. rewrite (HI _ _ _ Hi Hr), decide_True; [done|].
    rewrite Hlen. by eapply lookup_lt_Some.
Qed.

(** ** The exchange *)

Lemma indexed_nonempty name i : indexed name i ≠ "".
Proof. unfold indexed. by destruct name. Qed.

Lemma plan_entries_named pid (es : list (string * sentry (R := R))) occ : Forall (λ ki, ki.1 ≠ "") (plan_entries pid es occ).1.
Proof.
  revert occ. induction es as [|[name e] es IH]; intros occ; cbn [plan_entries]; [constructor|].
  pose proof (IH (<[name:=default 0 (occ !! name) + 1]> occ)) as HF.
  destruct (plan_entries pid es _) as [its o']. constructor; [apply indexed_nonempty|done].
Qed.

Lemma plan_pids_named st pids occ items occ' :
  plan_pids st pids occ = Some (items, occ') → Forall (λ ki, ki.1 ≠ "") items.
Proof.
  revert occ items. induction pids as [|pid pids IH]; intros occ items; cbn [plan_pids];
    [intros [= <- <-]; constructor|].
  destruct (od_get pid (os_state st)) as [es|]; simpl; [|done].
  pose proof (plan_entries_named pid es occ) as HF. destruct (plan_entries pid es occ) as [its o1].
  destruct (plan_pids st pids o1) as [[rest o2]|] eqn:E2; simpl; [|done]. intros [= <- <-].
  apply Forall_app. split; [done|]. by eapply IH.
Qed.

Lemma plan_named st items : plan st = Some items → Forall (λ ki, ki.1 ≠ "") items.
Proof.
  unfold plan. generalize (imap (λ i x, (i, x)) (os_groups st)) as igs. intros igs.
  destruct (plan_groups st igs ∅) as [[its occ]|] eqn:E; simpl; [|done]. intros [= <-]. revert its E.
  generalize (∅ : gmap string Z) as o.
  induction igs as [|[i [opts pids]] igs IH]; intros o its; cbn [plan_groups]; [intros [= <- _]; constructor|].
  destruct (plan_pids st pids o) as [[its' o1]|] eqn:E; simpl; [|done].
  destruct (plan_groups st igs o1) as [[rest o2]|] eqn:E2; simpl; [|done]. intros [= <- <-].
  rewrite !Forall_app. split_and!; [|by eapply plan_pids_named|by eapply IH].
  apply Forall_concat, Forall_fmap, Forall_true. intros kv. unfold compose, plan_option.
  case_decide; constructor; [apply indexed_nonempty|constructor].
Qed.

Lemma hb_broadcast_one_eq rank root n p s :
  n ≠ "" → hb_broadcast_one rank root (Some n, p) s = broadcast_one rank root "Parameter." (Some n, p) s.
Proof.
  intros Hn. unfold hb_broadcast_one, broadcast_one, bc_name. rewrite (decide_False (P := n = "")) by done.
  unfold mbind, M_bind. generalize (if decide (rank ≠ root) then fill_zero p else mret ()). intros m.
  by destruct (m s) as [[]].
Qed.

(** The parameters to broadcast. *)
Definition sent g : list (option string * loc) := (λ '(k, p), (Some k, p)) <$> g_params g.

Lemma hb_broadcast_sent rank root g s :
  Forall (λ kp, kp.1 ≠ "") (g_params g) →
  hb_broadcast_parameters rank root (BCList ((λ '(k, p), BCPair (Some k) p) <$> g_params g)) s =
    for_each (broadcast_one rank root "Parameter.") (sent g) s.
Proof.
  intros HF. unfold hb_broadcast_parameters. cbn [bc_normal]. rewrite <-list_fmap_compose.
  change (lift (Ok ?x) ≫= ?f) with (f x).
  rewrite (list_fmap_ext _ (λ '(k, p), (Some k, p)) (g_params g)) by (by intros i [k p]).
  apply for_each_ext. intros [k p] s' Hin. unfold sent in Hin.
  apply list_elem_of_fmap in Hin as ([k' p'] & [= -> ->] & Hin).
  apply hb_broadcast_one_eq. rewrite Forall_forall in HF. exact (HF _ Hin).
Qed.

(** ** The call

    Worker [me] holds [st], the root [str], with the same options and entries of
    the same types; [V i j] are the elements that worker [j] has for the [i]-th
    parameter sent. *)
Record bc_state_ready (W root me : nat) st str (items items_r : list (string * item (R := R)))
    (V : nat → nat → list R) s : Prop := {
  br_inv : ops_inv s;
  br_init : c_initialized (o_clib s) = true;
  br_root : (root < W)%nat;
  br_me : (me < W)%nat;
  br_some : os_state st ≠ [];
  br_wf : opt_wf st;
  br_plan : plan st = Some items;
  br_plan_r : plan str = Some items_r;
  br_alike : Forall2 alike items items_r;
  br_keys : NoDup items.*1;
  br_slots : NoDup (target_of <$> items.*2);
  br_tensors : NoDup (omap tensor_loc items.*2);
  br_float : c_attrs (Extension := _) "byteps_torch_push_pull_async_torch_FloatTensor" = true;
  br_tensor i ki p : items !! i = Some ki → tensor_loc ki.2 = Some p →
    ∃ t, o_heap s !! p = Some t ∧ supported t ∧ t_data t = V i me;
  br_number i ki v : items !! i = Some ki → number_of ki.2 = Some v →
    ∃ d, store (sizes v) v = Ok d ∧ V i me = map (cast float32) d;
  br_number_r i ki v : items_r !! i = Some ki → number_of ki.2 = Some v →
    ∃ d, store (sizes v) v = Ok d ∧ V i root = map (cast float32) d;
  br_same i ki j : items !! i = Some ki → (j < W)%nat → length (V i j) = length (V i root);
  br_reply i ki : items !! i = Some ki →
    reduce (c_last_handle (o_clib s) + 1 + Z.of_nat i) (GetOpName ("Parameter." +:+ ki.1)) false ""
      (contribution (Z.of_nat me) (Z.of_nat root) (V i me))
    = vsum (length (V i root)) (contributions W root (V i))
}.

Section ready.
Context {W root me : nat} {st str : opt_state (R := R)} {items items_r : list (string * item (R := R))}
  {V : nat → nat → list R} {s : ops R} (Hr : bc_state_ready W root me st str items items_r V s).

Lemma ready_sendable : sendable s items.
Proof.
  split; [apply Hr| | |apply Hr].
  - intros ki v [i Hi]%list_elem_of_lookup_1 Hv. destruct (br_number _ _ _ _ _ _ _ _ _ Hr i ki v Hi Hv) as (d & Hd & _).
    unfold torch_Tensor. rewrite Hd. by eexists.
  - intros ki p [i Hi]%list_elem_of_lookup_1 Hp.
    destruct (br_tensor _ _ _ _ _ _ _ _ _ Hr i ki p Hi Hp) as (t & -> & _). by eexists.
Qed.

(** What the [i]-th place holds before the exchange. *)
Lemma placed_tensor g s1 i ki kp :
  placed s items g s1 → items !! i = Some ki → g_params g !! i = Some kp →
  kp.1 = ki.1 ∧ ∃ t, o_heap s1 !! kp.2 = Some t ∧ supported t ∧ t_data t = V i me ∧
    match number_of ki.2 with
    | Some v => torch_Tensor v = Ok t
    | None => tensor_loc ki.2 = Some kp.2 ∧ o_heap s !! kp.2 = Some t
    end.
Proof.
  intros Hpd Hi Hkp. destruct (Forall2_lookup_lr _ _ _ _ _ _ (pd_at _ _ _ _ Hpd) Hi Hkp) as [Hk Hv].
  split; [done|]. destruct (number_of ki.2) as [v|] eqn:En.
  - destruct Hv as (t & Et & Hh & _). exists t. split; [done|].
    destruct (br_number _ _ _ _ _ _ _ _ _ Hr i ki v Hi En) as (d & Hd & HV).
    unfold torch_Tensor in Et. rewrite Hd in Et. simpl in Et. injection Et as <-.
    split_and!; [split; [apply Hr|done]|done|]. unfold torch_Tensor. by rewrite Hd.
  - destruct (br_tensor _ _ _ _ _ _ _ _ _ Hr i ki _ Hi Hv) as (t & Ht & Hs & HV).
    exists t. split_and!; try done. by apply (pd_old _ _ _ _ Hpd).
Qed.

Lemma ready_exchange g s1 :
  placed s items g s1 → bc_ready W root me "Parameter." (sent g) V s1.
Proof.
  intros Hpd. pose proof (Forall2_length _ _ _ (pd_at _ _ _ _ Hpd)) as Hl.
  assert (∀ i np, sent g !! i = Some np → ∃ ki kp, items !! i = Some ki ∧ g_params g !! i = Some kp ∧
    np = (Some kp.1, kp.2)) as Hat.
  { intros i np Hnp. unfold sent in Hnp. rewrite list_lookup_fmap in Hnp.
    destruct (g_params g !! i) as [[k p]|] eqn:Ek; [|done]. injection Hnp as <-.
    destruct (lookup_lt_is_Some_2 items i) as [ki Hki].
    { rewrite Hl. by eapply lookup_lt_Some. }
    by exists ki, (k, p). }
  split; try apply Hr; try apply Hpd.
  - rewrite (pd_clib _ _ _ _ Hpd). apply Hr.
  - unfold sent. rewrite <-list_fmap_compose. rewrite (list_fmap_ext _ snd) by (by intros i [k p]). apply Hpd.
  - intros i np (ki & kp & Hi & Hkp & ->)%Hat.
    destruct (placed_tensor g s1 i ki kp Hpd Hi Hkp) as (_ & t & Ht & Hs & HV & _). by exists t.
  - intros i np j (ki & kp & Hi & _)%Hat. by apply Hr with ki.
  - intros i np (ki & kp & Hi & Hkp & ->)%Hat.
    destruct (placed_tensor g s1 i ki kp Hpd Hi Hkp) as [Hk _]. rewrite (pd_clib _ _ _ _ Hpd). cbn [fst].
    rewrite Hk. pose proof (plan_named _ _ (br_plan _ _ _ _ _ _ _ _ _ Hr)) as HF. rewrite Forall_forall in HF.
    unfold bc_name. rewrite decide_False by (apply HF; by eapply list_elem_of_lookup_2). cbn [encode].
    by apply Hr.
Qed.

(** The optimizer's places hold the root's values, rounded; the tensors hold the
    root's elements. *)
Lemma ready_agrees `{!ScalarLaws R} init_state :
  ∃ st' s', hb_broadcast_optimizer_state false (Z.of_nat me) (Z.of_nat root) init_state st s = (Ok st', s') ∧
    (∀ i ki kr, items !! i = Some ki → items_r !! i = Some kr →
       slot_at st' (target_of ki.2) = Some (result ki.2 kr.2)) ∧
    (∀ i ki p t, items !! i = Some ki → tensor_loc ki.2 = Some p → o_heap s !! p = Some t →
       o_heap s' !! p = Some (with_data (V i root) t)) ∧
    ops_inv s' ∧ TorchOps._handle_map s' = TorchOps._handle_map s ∧
    c_results (o_clib s') = c_results (o_clib s).
Proof.
  destruct (gather_items_ok items s (br_inv _ _ _ _ _ _ _ _ _ Hr) ready_sendable) as (g & s1 & Eg & Hpd).
  pose proof (ready_exchange g s1 Hpd) as Hx.
  destruct (broadcast_loop W root me "Parameter." (sent g) V s1 Hx) as (s2 & Eb & [D1 D2 D3 D4 D5 D6 D7 D8]).
  pose proof (Forall2_length _ _ _ (pd_at _ _ _ _ Hpd)) as Hl.
  assert (∀ i ki kp, items !! i = Some ki → g_params g !! i = Some kp → ∃ t,
    o_heap s2 !! kp.2 = Some (with_data (V i root) t) ∧
    match number_of ki.2 with
    | Some v => torch_Tensor v = Ok t
    | None => tensor_loc ki.2 = Some kp.2 ∧ o_heap s !! kp.2 = Some t
    end) as Hval.
  { intros i ki kp Hi Hkp. destruct (placed_tensor g s1 i ki kp Hpd Hi Hkp) as (_ & t & Ht & _ & _ & Hc).
    exists t. split; [|done]. apply (D5 i (Some kp.1, kp.2) t); [|done].
    unfold sent. rewrite list_lookup_fmap, Hkp. by destruct kp. }
  destruct (callbacks_ok st items items_r g s2) as (st' & Ec & Hst').
  - apply Hr.
  - apply Hr.
  - intros ki Hki. eapply plan_sound; [apply Hr..|done].
  - done.
  - intros i ki kp Hi Hkp. destruct (placed_tensor g s1 i ki kp Hpd Hi Hkp) as [-> _]. by eapply (pd_cb _ _ _ _ Hpd).
  - intros i ki kr kp w Hi Hkr Hkp Hw.
    destruct (br_number_r _ _ _ _ _ _ _ _ _ Hr i kr w Hkr Hw) as (d & Hd & HV).
    destruct (Forall2_lookup_lr _ _ _ _ _ _ (br_alike _ _ _ _ _ _ _ _ _ Hr) Hi Hkr) as [_ Ha].
    destruct (Hval i ki kp Hi Hkp) as (t & Ht & Hc). rewrite HV in Ht.
    destruct (number_of ki.2) as [v|] eqn:Ev.
    + by exists d, t, v.
    + exfalso. destruct ki as [? []], kr as [? []]; done.
  - exists st', s2. split_and!; try done.
    + unfold hb_broadcast_optimizer_state. pose proof (br_some _ _ _ _ _ _ _ _ _ Hr) as Hne.
      destruct (os_state st) as [|e es] eqn:Es; [done|]. erewrite bind_Ok by reflexivity. rewrite Es.
      erewrite bind_Ok by (rewrite (gather_all_plan _ _ _ (br_plan _ _ _ _ _ _ _ _ _ Hr)); exact Eg).
      erewrite bind_Ok; [exact Ec|]. rewrite hb_broadcast_sent; [exact Eb|].
      pose proof (plan_named _ _ (br_plan _ _ _ _ _ _ _ _ _ Hr)) as HF. rewrite Forall_forall in HF.
      apply Forall_forall. intros kp [i Hi]%list_elem_of_lookup_1.
      destruct (Forall2_lookup_r _ _ _ _ _ (pd_at _ _ _ _ Hpd) Hi) as (ki & Hki & Hat).
      destruct Hat as [-> _]. apply HF. by eapply list_elem_of_lookup_2.
    + intros i ki p t Hi Hp Ht. destruct (lookup_lt_is_Some_2 (g_params g) i) as [kp Hkp].
      { rewrite <-Hl. by eapply lookup_lt_Some. }
      destruct (Hval i ki kp Hi Hkp) as (t' & Ht' & Hc). destruct ki as [? []]; try done. simpl in *.
      destruct Hc as [E Hs]. by simplify_eq.
    + rewrite D7. apply Hpd.
    + rewrite D8, (pd_clib _ _ _ _ Hpd). done.
Qed.
End ready.

(** C35: [broadcast_optimizer_state] succeeds on every worker, the root included: the
    worker then has the root's options and the root's numbers, each as what is
    left of it after the conversion to a 32-bit float, and its tensors hold the
    root's elements; the operations it began are completed. *)
Theorem optimizer_state_agrees `{!ScalarLaws R} W root me st str items items_r V s init_state :
  bc_state_ready W root me st str items items_r V s →
  ∃ st' s', hb_broadcast_optimizer_state false (Z.of_nat me) (Z.of_nat root) init_state st s = (Ok st', s') ∧
    (∀ i opts pids, os_groups str !! i = Some (opts, pids) →
       (∀ k v, od_get k opts = Some v → k ≠ "params" → option_at st' i k = Some (rounded v)) ∧
       ∀ pid name e, pid ∈ pids → entry_at str pid name = Some e →
         match e with
         | SScalar v => entry_at st' pid name = Some (SScalar (round_scalar v))
         | STensor q => ∃ j key p t, items_r !! j = Some (key, ITensor pid name q) ∧
             entry_at st' pid name = Some (STensor p) ∧ o_heap s' !! p = Some (with_data (V j root) t)
         end) ∧
    ops_inv s' ∧ TorchOps._handle_map s' = TorchOps._handle_map s ∧
    c_results (o_clib s') = c_results (o_clib s).
Proof.
  intros Hr. destruct (ready_agrees Hr init_state) as (st' & s' & E & Hst & Ht & Hfin).
  exists st', s'. split; [exact E|]. split; [|exact Hfin]. intros i opts pids Hi.
  destruct (plan_complete _ _ _ _ _ (br_plan_r _ _ _ _ _ _ _ _ _ Hr) Hi) as [Ho He].
  assert (∀ key ir, (key, ir) ∈ items_r → ∃ j ki, items_r !! j = Some (key, ir) ∧ items !! j = Some ki ∧
    alike ki (key, ir) ∧ slot_at st' (target_of ki.2) = Some (result ki.2 ir)) as Hplace.
  { intros key ir [j Hj]%list_elem_of_lookup_1.
    destruct (Forall2_lookup_r _ _ _ _ _ (br_alike _ _ _ _ _ _ _ _ _ Hr) Hj) as (ki & Hki & Ha).
    exists j, ki. split_and!; [done..|]. by apply (Hst j ki (key, ir)). }
  split.
  - intros k v Hk Hne. destruct (Ho k v Hk Hne) as [key Hin].
    destruct (Hplace _ _ Hin) as (j & [key' it] & _ & _ & [_ Ha] & Hs). destruct it; try done. simpl in *.
    destruct Ha as (-> & -> & _). by destruct (option_at st' i k); simplify_eq/=.
  - intros pid name e Hp He'. destruct (He pid name e Hp He') as [key Hin].
    destruct (Hplace _ _ Hin) as (j & [key' it] & Hj & Hit & [_ Ha] & Hs).
    destruct e as [q|v]; cbn [entry_item] in *; destruct it as [| |pid' n' p]; try done; simpl in *.
    + destruct Ha as [-> ->]. destruct (br_tensor _ _ _ _ _ _ _ _ _ Hr j _ p Hit eq_refl) as (t & Hh & _).
      exists j, key, p, t. split_and!; [done| |by apply (Ht j _ p t Hit)].
      by destruct (entry_at st' pid name); simplify_eq/=.
    + destruct Ha as (-> & -> & _). by destruct (entry_at st' pid name); simplify_eq/=.
Qed.
End agree.

(** ** Witness: worker 1 of two

    The root, worker 0, has another learning rate, pair of betas, step count and
    buffer. Floats of 32 bits are the even integers here, so that the root's
    learning rate 7 arrives as 6. *)
Module HalfBcDemo.
Import CompressionDemo.

#[export] Instance lib : TorchLib Z := {|
  argsort_desc l := merge_sort (desc l) (seq 0 (length l));
  cast d x := match d with float32 => 2 * (x / 2) | _ => x end
|}.

Definition keys : list string := ["lr.0"; "betas.0"; "step.1"; "buf.1"].
Definition vals (i j : nat) : list Z :=
  match i, j with
  | 0%nat, 0%nat => [6] | 0%nat, _ => [4]
  | 1%nat, 0%nat => [8; 8] | 1%nat, _ => [2; 2]
  | 2%nat, 0%nat => [4] | 2%nat, _ => [0]
  | _, 0%nat => [5; 6] | _, _ => [1; 2]
  end.
Definition other (key : string) : list Z :=
  from_option (λ '(i, _), vals i 0) [] (list_find (λ k, key = "byteps.Parameter." +:+ k) keys).
#[export] Instance ext : Extension Z := {|
  reduce _ key _ _ l := take (length l) (vadd l (other key) ++ l);
  c_attrs := @c_attrs Z OpsDemo.ext;
  uninit n := replicate n 7
|}.

Definition state (lr b1 b2 step : Z) : opt_state (R := Z) :=
  OptState [(0%nat, [("step", SScalar (SInt step)); ("buf", STensor 0)])]
    [([("lr", VScalar (SFloat lr)); ("betas", VSeq KTuple [VScalar (SFloat b1); VScalar (SFloat b2)])], [0%nat])].
Definition mine := state 5 2 3 1.
Definition roots := state 7 8 9 4.
Definition items_of (lr b1 b2 step : Z) : list (string * item (R := Z)) :=
  zip keys [IOption 0 "lr" (VScalar (SFloat lr));
            IOption 0 "betas" (VSeq KTuple [VScalar (SFloat b1); VScalar (SFloat b2)]);
            INumber 0 "step" (SInt step); ITensor 0 "buf" 0].

Lemma ready : bc_state_ready 2 0 1 mine roots (items_of 5 2 3 1) (items_of 7 8 9 4) vals OpsDemo.start.
Proof.
  split; try done; try lia.
  - destruct OpsDemo.start_inv as [A1 A2 A3 A4 A5]. by split.
  - split.
    + intros i opts pids Hi. destruct i as [|i]; [|by destruct i]. injection Hi as <- <-.
      apply (bool_decide_unpack _). by vm_compute.
    + intros pid es He. apply od_get_Some_elem, list_elem_of_singleton in He as [= -> ->].
      apply (bool_decide_unpack _). by vm_compute.
  - repeat constructor.
  - apply (bool_decide_unpack _). by vm_compute.
  - apply (bool_decide_unpack _). by vm_compute.
  - apply (bool_decide_unpack _). by vm_compute.
  - intros i ki p Hi Hp. destruct i as [|[|[|[|i]]]]; simplify_eq/=.
    exists OpsDemo.t0. by split_and!.
  - intros i ki v Hi Hv. destruct i as [|[|[|[|i]]]]; simplify_eq/=; by eexists.
  - intros i ki v Hi Hv. destruct i as [|[|[|[|i]]]]; simplify_eq/=; by eexists.
  - intros i ki j Hi Hj. destruct i as [|[|[|[|i]]]]; try done; by destruct j.
  - intros i ki Hi. destruct i as [|[|[|[|i]]]]; try done; injection Hi as <-; by vm_compute.
Qed.

Lemma optimizer_state_agrees_witness : ∃ st s,
  hb_broadcast_optimizer_state false 1 0 (mret mine) mine OpsDemo.start = (Ok st, s) ∧
  option_at st 0 "lr" = Some (VScalar (SFloat 6)) ∧ entry_at st 0 "step" = Some (SScalar (SInt 4)).
Proof.
  destruct (optimizer_state_agrees 2 0 1 mine roots (items_of 5 2 3 1) (items_of 7 8 9 4) vals OpsDemo.start
    (mret mine) ready) as (st & s & E & Ha & _).
  exists st, s. split; [exact E|]. destruct (Ha 0%nat _ _ eq_refl) as [Ho He]. split.
  - by apply (Ho "lr" (VScalar (SFloat 7))).
  - apply (He 0%nat "step" (SScalar (SInt 4))); [left|done].
Defined.
End HalfBcDemo.
End HalfBcAgree.
