(* ===== verification/CompressorProofs.v ===== *)
(** * Theorems about the compressors *)

From S2P Require Import Prelude Tensor BitIO Compressors.

Module CompProofs.
Import BitIO Comp.

(** ** Loops over buffers *)
Section loops.
Context {A : Type}.

Lemma load_ok (l : list A) i x : l !! i = Some x → load l i = Done x.
Proof. unfold load. by intros ->. Qed.

Lemma store_at_ok (l : list A) i x : (i < length l)%nat → store_at l i x = Done (<[i := x]> l).
Proof. intros Hi. unfold store_at. by rewrite decide_True. Qed.

Lemma mapM_load (l : list A) from n :
  (from + n ≤ length l)%nat → mapM (load l) (seq from n) = Done (take n (drop from l)).
Proof.
  revert from. induction n as [|n IH]; intros from Hl; [done|]. cbn [seq mapM].
  destruct (lookup_lt_is_Some_2 l from) as [x Hx]; [lia|]. rewrite (load_ok _ _ _ Hx). cbn [mbind cres_bind].
  rewrite IH by lia. cbn [mbind cres_bind mret cres_ret].
  by rewrite (drop_S l x from Hx).
Qed.

Lemma fold_c_app {B} (f : B → A → cres B) b l1 l2 :
  fold_c f b (l1 ++ l2) = (b' ← fold_c f b l1; fold_c f b' l2).
Proof. revert b. induction l1 as [|x l1 IH]; intros b; [done|]. simpl. destruct (f b x); [apply IH|done..]. Qed.

Lemma mapM_done {B} (f : A → cres B) (g : A → B) l :
  (∀ x, x ∈ l → f x = Done (g x)) → mapM f l = Done (g <$> l).
Proof.
  induction l as [|x l IH]; intros Hf; [done|]. cbn [mapM]. rewrite Hf by left. cbn [mbind cres_bind].
  rewrite IH; [done|]. intros y Hy. apply Hf. by right.
Qed.
End loops.

(** A loop that updates one element after the other. *)
Lemma update_loop {A} (step : list A → nat → cres (list A)) (g : A → A → A) n (dst src : list A) :
  (∀ dst i x y, dst !! i = Some x → src !! i = Some y → step dst i = store_at dst i (g x y)) →
  (n ≤ length dst)%nat → (n ≤ length src)%nat →
  ∃ dst', fold_c step dst (seq 0 n) = Done dst' ∧ length dst' = length dst ∧
    (∀ i x y, (i < n)%nat → dst !! i = Some x → src !! i = Some y → dst' !! i = Some (g x y)) ∧
    ∀ i, (n ≤ i)%nat → dst' !! i = dst !! i.
Proof.
  intros Hstep. induction n as [|n IH]; intros Hd Hs; [exists dst; split_and!; try done; intros; lia|].
  destruct IH as (dst1 & E & L1 & V1 & N1); [lia..|]. rewrite seq_S, Nat.add_0_l, fold_c_app, E.
  cbn [mbind cres_bind fold_c]. destruct (lookup_lt_is_Some_2 dst n) as [x Hx]; [lia|].
  destruct (lookup_lt_is_Some_2 src n) as [y Hy]; [lia|].
  rewrite (Hstep dst1 n x y) by (rewrite ?N1; done). rewrite store_at_ok by lia. cbn [mbind cres_bind].
  eexists. split; [done|]. rewrite length_insert. split_and!; [done| |].
  - intros i x' y' Hi Hx' Hy'. destruct (decide (i = n)) as [->|Hne].
    + rewrite list_lookup_insert_eq by lia. congruence.
    + rewrite list_lookup_insert_ne by done. apply V1; [lia|done..].
  - intros i Hi. rewrite list_lookup_insert_ne by lia. apply N1. lia.
Qed.

Section proofs.
Context {R : Type} `{Scalar R, !Native R}.
Context (d : dtype) (sz : nat) (_size : nat) (Hsz : (0 < sz)%nat).
Notation w := (sz * 8)%nat.

(** ** One bit per element *)

Lemma pack_word_val l : l ≠ [] → pack_word sz l = wrap w (val l).
Proof.
  induction l as [|b l IH] using rev_ind; [done|]. intros _. destruct l as [|b0 l].
  - simpl. symmetry. apply wrap_small. unfold val. simpl.
    assert (2 ^ 1 ≤ 2 ^ Z.of_nat w) by (apply Z.pow_le_mono_r; lia). destruct b; simpl; lia.
  - specialize (IH ltac:(done)). unfold pack_word in *. cbn [app]. rewrite foldl_app. cbn [foldl].
    rewrite IH, wrap_put by lia. by rewrite <-val_snoc.
Qed.

(** The signs packed into words are unpacked in their order. *)
Section unpack.
Context (f : nat → Z → cres R) (v : nat → R).

Lemma unpack_word_loop i l x n (dst : list R) :
  length l = w → x = wrap w (val l) → (n ≤ w)%nat → (i * w + n ≤ length dst)%nat →
  (∀ j b, l !! j = Some b → f (i * w + j)%nat (Z.b2z b) = Done (v (i * w + j)%nat)) →
  ∃ dst', fold_c (λ '(dst, x) j,
      v ← f (i * w + j)%nat (Z.land x 1);
      dst ← store_at dst (i * w + j) v;
      mret (dst, Z.shiftr x 1)) (dst, Z.shiftr x (Z.of_nat (w - n))) (down n)
    = Done (dst', Z.shiftr x (Z.of_nat w)) ∧ length dst' = length dst ∧
    ∀ m, dst' !! m = if decide (i * w ≤ m < i * w + n)%nat then Some (v m) else dst !! m.
Proof.
  intros Hl Hx. revert dst. induction n as [|n IH]; intros dst Hn Hd Hf.
  - exists dst. split_and!; [by rewrite Nat.sub_0_r|done|]. intros m. case_decide; [lia|done].
  - rewrite down_S. cbn [fold_c].
    destruct (lookup_lt_is_Some_2 l n) as [b Hb]; [lia|].
    assert (Z.land (Z.shiftr x (Z.of_nat (w - S n))) 1 = Z.b2z b) as ->.
    { change 1 with (Z.ones 1). rewrite Z.land_ones by lia. change (2 ^ 1) with 2.
      rewrite Z.shiftr_div_pow2 by lia. rewrite <-Z.testbit_spec' by lia. f_equal.
      rewrite Hx, wrap_testbit by lia. replace (w - S n)%nat with (length l - S n)%nat by lia. by apply val_bit. }
    rewrite (Hf _ _ Hb). cbn [mbind cres_bind]. rewrite store_at_ok by lia.
    cbn [mbind cres_bind mret cres_ret]. rewrite Z.shiftr_shiftr by lia.
    replace (Z.of_nat (w - S n) + 1) with (Z.of_nat (w - n)) by lia.
    destruct (IH (<[(i * w + n)%nat := v (i * w + n)%nat]> dst)) as (dst' & E & Hlen & Hv);
      [lia|rewrite length_insert; lia|done|].
    exists dst'. split; [exact E|]. rewrite length_insert in Hlen. split; [done|]. intros m. rewrite Hv.
    destruct (decide (m = i * w + n)%nat) as [->|Hne].
    + rewrite decide_False by lia. rewrite decide_True by lia. by rewrite list_lookup_insert_eq by lia.
    + rewrite list_lookup_insert_ne by done. repeat case_decide; done || lia.
Qed.

Lemma unpack_word_ok i l (dst : list R) :
  length l = w → (i * w + w ≤ length dst)%nat →
  (∀ j b, l !! j = Some b → f (i * w + j)%nat (Z.b2z b) = Done (v (i * w + j)%nat)) →
  ∃ dst', unpack_word sz f i (pack_word sz l) dst = Done dst' ∧ length dst' = length dst ∧
    ∀ m, dst' !! m = if decide (i * w ≤ m < i * w + w)%nat then Some (v m) else dst !! m.
Proof.
  intros Hl Hd Hf. assert (l ≠ []) by (intros ->; simpl in Hl; lia).
  destruct (unpack_word_loop i l (pack_word sz l) w dst) as (dst' & E & Hlen & Hv); [done|by apply pack_word_val|lia|lia|done|].
  rewrite Nat.sub_diag, Z.shiftr_0_r in E. exists dst'. unfold unpack_word. rewrite E. done.
Qed.

(** [signs] are the bits of [n] words. *)
Lemma unpack_ok (signs : nat → bool) n words (dst : list R) :
  words = (λ i, pack_word sz ((λ j, signs (i * w + j)%nat) <$> seq 0 w)) <$> seq 0 n →
  (n * w ≤ length dst)%nat →
  (∀ m, (m < n * w)%nat → f m (Z.b2z (signs m)) = Done (v m)) →
  ∃ dst', unpack sz f words dst = Done dst' ∧ length dst' = length dst ∧
    ∀ m, dst' !! m = if decide (m < n * w)%nat then Some (v m) else dst !! m.
Proof.
  intros Hw Hd Hf. unfold unpack.
  assert (length words = n) as -> by (by rewrite Hw, length_fmap, length_seq).
  assert (∀ k (dst : list R), (k ≤ n)%nat → (n * w ≤ length dst)%nat →
    ∃ dst', fold_c (λ dst i, x ← load words i; unpack_word sz f i x dst) dst (down k) = Done dst' ∧
      length dst' = length dst ∧ ∀ m, dst' !! m = if decide (m < k * w)%nat then Some (v m) else dst !! m) as Hloop.
  { induction k as [|k IH]; intros dst1 Hk Hd1; [by exists dst1|]. rewrite down_S. cbn [fold_c].
    rewrite (load_ok words k (pack_word sz ((λ j, signs (k * w + j)%nat) <$> seq 0 w))).
    2: { by rewrite Hw, list_lookup_fmap, lookup_seq_lt by lia. }
    cbn [mbind cres_bind].
    destruct (unpack_word_ok k ((λ j, signs (k * w + j)%nat) <$> seq 0 w) dst1) as (dst2 & E & Hl2 & Hv2);
      [by rewrite length_fmap, length_seq|nia| |].
    { intros j b Hj. rewrite list_lookup_fmap in Hj. destruct (seq 0 w !! j) as [j'|] eqn:Ej; [|done].
      apply lookup_seq in Ej as [-> Hlt]. injection Hj as <-. apply Hf. nia. }
    rewrite E. destruct (IH dst2) as (dst3 & E3 & Hl3 & Hv3); [lia|lia|].
    exists dst3. split; [exact E3|]. split; [congruence|]. intros m. rewrite Hv3, Hv2.
    repeat case_decide; done || nia. }
  by apply Hloop.
Qed.
End unpack.

(** Buffers of the aligned size hold whole words, so that the padding is inside them. *)
Lemma pad_up m n : (0 < m)%nat → ∃ k, (n + (m - n mod m) mod m = k * m)%nat ∧ (k = (n + m - 1) / m)%nat.
Proof.
  intros Hm. pose proof (Nat.div_mod_eq n m). pose proof (Nat.mod_upper_bound n m ltac:(lia)).
  destruct (decide (n mod m = 0)%nat) as [E|E].
  - rewrite E, Nat.sub_0_r, Nat.Div0.mod_same. exists (n / m)%nat. split; [lia|].
    apply (Nat.div_unique _ _ _ (m - 1)); lia.
  - rewrite (Nat.mod_small (m - n mod m)) by lia. exists (S (n / m)). split; [simpl; lia|].
    apply (Nat.div_unique _ _ _ (n mod m - 1)); simpl; lia.
Qed.

Lemma chunk_len_words len : (len ≤ chunk_len sz len * w)%nat ∧ (Align sz (len * sz) = chunk_len sz len * w * sz)%nat.
Proof.
  unfold chunk_len, Align. destruct (pad_up w len) as (k & E & _); [lia|]. cbv zeta. rewrite E.
  rewrite Nat.div_mul by lia. split; [lia|].
  replace (sz * sz * 8)%nat with (w * sz)%nat by lia. rewrite Nat.Div0.mul_mod_distr_r.
  rewrite <-Nat.mul_sub_distr_r, Nat.Div0.mul_mod_distr_r. nia.
Qed.

Lemma onebit_words (src : list R) n :
  (n * w ≤ length src)%nat →
  mapM (λ i, xs ← mapM (λ j, load src (i * w + j)) (seq 0 w); mret (pack_word sz (is_neg <$> xs))) (seq 0 n) =
    Done ((λ i, pack_word sz ((λ j, is_neg (default s_zero (src !! (i * w + j)%nat))) <$> seq 0 w)) <$> seq 0 n).
Proof.
  intros Hl. apply mapM_done. intros i [_ Hi]%elem_of_seq.
  rewrite (mapM_done _ (λ j, default s_zero (src !! (i * w + j)%nat))).
  - cbn [mbind cres_bind mret cres_ret]. by rewrite <-list_fmap_compose.
  - intros j [_ Hj]%elem_of_seq. destruct (lookup_lt_is_Some_2 src (i * w + j)) as [x Hx]; [nia|].
    by rewrite Hx, (load_ok _ _ _ Hx).
Qed.

(** What [Compress] scales by. *)
Definition onebit_scale (use_scale : bool) (xs : list R) : R :=
  if use_scale then conv float32 (s_div (abs_sum xs) (s_of_Z (Z.of_nat (length xs)))) else s_of_Z 1.
Definition sign_of (x : R) : R := s_of_Z (if is_neg x then -1 else 1).
Definition opposite_sign (x : R) : R := s_of_Z (if is_neg x then 1 else -1).

(** C22: The 1-bit compressor keeps the sign of every element and the mean of the
    absolute values: decompression gives the sign times the mean, the error of
    error feedback is the element minus that. With buffers of the aligned size,
    which are longer than the tensor, no access is outside a buffer, and the
    compressed tensor fits the buffer. *)
Theorem onebit_spec use_scale (src : list R) len :
  (0 < len)%nat → _size = Align sz (len * sz) → (_size ≤ length src * sz)%nat →
  let scale := onebit_scale use_scale (take len src) in
  ∃ words, onebit_compress sz _size use_scale src len = Done (Signs words scale) ∧
    (∀ dst, (_size ≤ length dst * sz)%nat → ∃ dst', onebit_decompress d sz words scale dst = Done dst' ∧
       length dst' = length dst ∧
       ∀ i x, (i < len)%nat → src !! i = Some x → dst' !! i = Some (conv d (s_mul (sign_of x) scale))) ∧
    (∀ err, (_size ≤ length err * sz)%nat → ∃ err', onebit_update_error d sz words scale err src = Done err' ∧
       length err' = length err ∧
       ∀ i x, (i < len)%nat → src !! i = Some x →
         err' !! i = Some (conv d (s_add x (s_mul (opposite_sign x) scale)))).
Proof.
  intros Hlen -> Hsrc scale. destruct (chunk_len_words len) as [Hc Ha]. rewrite Ha in *.
  set (n := chunk_len sz len) in *. assert (0 < n)%nat by nia.
  assert (n * w ≤ length src)%nat by nia. assert (length (take len src) = len) as Ht by (rewrite length_take; lia).
  set (signs m := is_neg (default s_zero (src !! m))).
  eexists. split.
  { unfold onebit_compress. fold n. rewrite onebit_words by done.
    assert ((if use_scale then xs ← mapM (load src) (seq 0 len);
      mret (conv float32 (s_div (abs_sum xs) (s_of_Z (Z.of_nat len)))) else mret (s_of_Z 1)) = Done scale) as ->.
    { unfold scale, onebit_scale. rewrite Ht. destruct use_scale; [|done]. rewrite mapM_load by lia. by rewrite drop_0. }
    cbn [mbind cres_bind]. unfold in_buf. rewrite decide_True; [reflexivity|].
    unfold compressed_size. rewrite length_fmap, length_seq. nia. }
  split.
  - intros dst Hd. destruct (unpack_ok (λ _ b, let sign := 1 - Z.shiftl b 1 in Done (conv d (s_mul (s_of_Z sign) scale)))
      (λ m, conv d (s_mul (s_of_Z (if signs m then -1 else 1)) scale)) signs n _ dst eq_refl) as (dst' & E & Hl & Hv).
    + nia.
    + intros m _. by destruct (signs m).
    + exists dst'. split; [exact E|]. split; [done|]. intros i x Hi Hx. rewrite Hv, decide_True by lia.
      unfold signs, sign_of. by rewrite Hx.
  - intros err He. destruct (unpack_ok (λ i b, let sign := Z.shiftl b 1 - 1 in
      x ← load src i; Done (conv d (s_add x (s_mul (s_of_Z sign) scale))))
      (λ m, conv d (s_add (default s_zero (src !! m)) (s_mul (s_of_Z (if signs m then 1 else -1)) scale)))
      signs n _ err eq_refl) as (err' & E & Hl & Hv).
    + nia.
    + intros m Hm. destruct (lookup_lt_is_Some_2 src m) as [x Hx]; [lia|]. rewrite (load_ok _ _ _ Hx), Hx.
      by destruct (signs m).
    + exists err'. split; [exact E|]. split; [done|]. intros i x Hi Hx. rewrite Hv, decide_True by lia.
      unfold signs, opposite_sign. by rewrite Hx.
Qed.

(** ** Selected elements *)

(** What the standard library says of its heaps: adding the last element and
    removing the first permute the range and leave a heap, whose first element
    is the least here, as the comparison is reversed. *)
Record heap_laws (push_heap pop_heap : list (nat * R) → list (nat * R)) (is_heap : list (nat * R) → Prop) : Prop := {
  hl_nil : is_heap [];
  hl_push l x : is_heap l → push_heap (l ++ [x]) ≡ₚ l ++ [x] ∧ is_heap (push_heap (l ++ [x]));
  hl_pop x l : is_heap (x :: l) → ∃ l', pop_heap (x :: l) = l' ++ [x] ∧ l' ≡ₚ l ∧ is_heap l';
  hl_top x l y : is_heap (x :: l) → y ∈ l → s_leb (s_abs x.2) (s_abs y.2) = true
}.

(** Indices that fit a word are stored as they are. *)
Lemma index_t_small i : Z.of_nat i < 2 ^ Z.of_nat w → index_t sz i = i.
Proof. intros Hi. unfold index_t. rewrite wrap_small by lia. lia. Qed.

(** The pairs come from the tensor. *)
Definition pairs_of (src : list R) (n : nat) (l : list (nat * R)) : Prop :=
  ∀ i x, (i, x) ∈ l → (i < n)%nat ∧ src !! i = Some x.

Section topk.
Context (push_heap pop_heap : list (nat * R) → list (nat * R)) (is_heap : list (nat * R) → Prop)
  (HL : heap_laws push_heap pop_heap is_heap) `{!ScalarLaws R}.

(** The [k] largest of the first [n] elements, or all of them. *)
Record chosen (k : nat) (src : list R) (n : nat) (beg : list (nat * R)) : Prop := {
  ch_length : length beg = min n k;
  ch_nodup : NoDup beg.*1;
  ch_pairs : pairs_of src n beg;
  ch_all i : (n ≤ k)%nat → (i < n)%nat → i ∈ beg.*1;
  ch_rest i x p : (i < n)%nat → src !! i = Some x → i ∉ beg.*1 → p ∈ beg → s_leb (s_abs x) (s_abs p.2) = true
}.

Lemma gtb_spec x y : gtb x y = true → s_leb y x = true.
Proof. unfold gtb. by intros [? _]%andb_true_iff. Qed.

Lemma gtb_false x y : gtb x y = false → s_leb x y = true.
Proof.
  unfold gtb. intros Hf. destruct (s_leb y x) eqn:E; [|destruct (s_leb_total x y); congruence].
  simpl in Hf. apply negb_false_iff, s_eqb_eq in Hf as ->. done.
Qed.

Lemma chosen_perm k src n l l' : l ≡ₚ l' → chosen k src n l' → chosen k src n l.
Proof.
  intros Hp [T1 T2 T3 T4 T5]. split.
  - by rewrite Hp.
  - by rewrite Hp.
  - intros i x. rewrite Hp. apply T3.
  - intros i. rewrite Hp. apply T4.
  - intros i x p. rewrite Hp. apply T5.
Qed.

Lemma chosen_new k src n beg : chosen k src n beg → n ∉ beg.*1.
Proof. intros [_ _ T _ _] ([i y] & -> & Hin)%list_elem_of_fmap. destruct (T i y Hin). simpl in *. lia. Qed.

(** The next element joins, the elements of [out] leave. *)
Lemma chosen_add k src n out l x :
  chosen k src n (out ++ l) → src !! n = Some x → length (l ++ [(n, x)]) = min (S n) k →
  (∀ o p, o ∈ out → p ∈ l ++ [(n, x)] → s_leb (s_abs o.2) (s_abs p.2) = true) → (out = [] ∨ k ≤ n)%nat →
  (out = [] → S n ≤ k)%nat →
  chosen k src (S n) (l ++ [(n, x)]).
Proof.
  intros HC Hx Hl Ho Hout Hfull. pose proof (chosen_new _ _ _ _ HC) as Hnew. destruct HC as [T1 T2 T3 T4 T5].
  rewrite fmap_app in Hnew, T2. apply NoDup_app in T2 as (_ & _ & T2).
  assert ((l ++ [(n, x)]).*1 = l.*1 ++ [n]) as Hf by (by rewrite fmap_app). split.
  - done.
  - rewrite Hf. apply NoDup_app. split_and!; [done| |apply NoDup_singleton].
    intros i Hi ->%list_elem_of_singleton. set_solver.
  - intros i y [Hin|[= -> ->]%list_elem_of_singleton]%elem_of_app; [|split; [lia|done]].
    destruct (T3 i y); [set_solver|split; [lia|done]].
  - intros i Hk Hi. rewrite Hf, elem_of_app, list_elem_of_singleton.
    destruct (decide (i = n)) as [->|]; [by right|left]. destruct Hout as [->|]; [|lia].
    apply T4; lia.
  - intros i y p Hi Hy Hn Hp. rewrite Hf, elem_of_app, list_elem_of_singleton in Hn.
    assert (i ≠ n ∧ i ∉ l.*1) as [Hne Hnl] by tauto.
    destruct (decide (i ∈ out.*1)) as [Hio|Hio].
    + apply list_elem_of_fmap in Hio as ([i' y'] & -> & Hin). simpl in *.
      destruct (T3 i' y') as [_ E]; [set_solver|]. simplify_eq. by apply (Ho (i', y)).
    + assert (i ∉ (out ++ l).*1) as Hno by (rewrite fmap_app; set_solver).
      destruct out as [|o out].
      * exfalso. apply Hno. apply T4; [|lia]. specialize (Hfull eq_refl). lia.
      * eapply s_leb_trans; [apply (T5 i y o); [lia|done|done|left]|]. apply Ho; [left|done].
Qed.

Lemma topk_visit_ok k src n beg x :
  (0 < k)%nat → Z.of_nat n < 2 ^ Z.of_nat w → is_heap beg → chosen k src n beg → src !! n = Some x →
  ∃ beg', topk_visit sz push_heap pop_heap k src beg n = Done beg' ∧ is_heap beg' ∧ chosen k src (S n) beg'.
Proof.
  intros Hk Hw Hh HC Hx. unfold topk_visit. rewrite (index_t_small n Hw), (load_ok _ _ _ Hx). cbn [mbind cres_bind].
  pose proof (ch_length _ _ _ _ HC) as Hl. case_decide as Hn.
  - destruct (hl_push _ _ _ HL beg (n, x) Hh) as [Hp Hh']. eexists. split; [reflexivity|]. split; [done|].
    eapply chosen_perm; [exact Hp|]. apply (chosen_add k src n [] beg x); try done.
    + rewrite length_app. change (length [(n, x)]) with 1%nat. lia.
    + set_solver.
    + by left.
  - destruct beg as [|top l]; [simpl in Hl; lia|]. cbn [load lookup list_lookup mbind cres_bind].
    pose proof (λ y, hl_top _ _ _ HL top l y Hh) as Htop. case_match eqn:Hg.
    + apply gtb_spec in Hg. destruct (hl_pop _ _ _ HL top l Hh) as (l' & -> & Hp & Hh'). simpl in Hl.
      rewrite length_app. simpl. rewrite store_at_ok by (rewrite length_app; simpl; lia). cbn [mbind cres_bind].
      replace (length l' + 1 - 1)%nat with (length l' + 0)%nat by lia. rewrite insert_app_r. simpl.
      destruct (hl_push _ _ _ HL l' (n, x) Hh') as [Hp2 Hh2]. eexists. split; [reflexivity|]. split; [done|].
      eapply chosen_perm; [rewrite Hp2, Hp; reflexivity|]. apply (chosen_add k src n [top] l x); try done.
      * rewrite length_app. change (length [(n, x)]) with 1%nat. lia.
      * intros o p ->%list_elem_of_singleton [Hin| ->%list_elem_of_singleton]%elem_of_app; [by apply Htop|done].
      * right. lia.
    + apply gtb_false in Hg. eexists. split; [reflexivity|]. split; [done|].
      pose proof (chosen_new _ _ _ _ HC) as Hnew. destruct HC as [T1 T2 T3 T4 T5]. split.
      * clear -T1 Hn. lia.
      * done.
      * intros i y Hin. destruct (T3 i y Hin). split; [lia|done].
      * intros; lia.
      * intros i y p Hi Hy Hni Hp. destruct (decide (i = n)) as [->|]; [|apply (T5 i); [lia|done..]]. simplify_eq.
        apply elem_of_cons in Hp as [->|Hp]; [done|]. eapply s_leb_trans; [exact Hg|]. by apply Htop.
Qed.

(** C31: The top-k compressor keeps exactly [k] elements, each with its own index
    and its value, and no element it leaves out has a larger absolute value than one
    it keeps, as long as the indices fit a word of the size of an element. A tensor
    with fewer than [2 * k] elements aborts the process. *)
Theorem topk_compress_spec k (src : list R) len :
  (0 < k)%nat → Z.of_nat len ≤ 2 ^ Z.of_nat w → (len ≤ length src)%nat → (len * sz ≤ _size)%nat →
  ((k ≤ len / 2)%nat → ∃ l, topk_compress sz _size push_heap pop_heap k src len = Done (Pairs l) ∧
     length l = k ∧ NoDup l.*1 ∧ pairs_of src len l ∧
     ∀ i x p, (i < len)%nat → src !! i = Some x → i ∉ l.*1 → p ∈ l → s_leb (s_abs x) (s_abs p.2) = true) ∧
  ((len / 2 < k)%nat → topk_compress sz _size push_heap pop_heap k src len = Fatal).
Proof.
  intros Hk Hmax Hlen Hsize. unfold topk_compress. split; intros Hle.
  - rewrite bool_decide_true by done. cbn [bps_check mbind cres_bind].
    assert (∀ n, (n ≤ len)%nat → ∃ beg, fold_c (topk_visit sz push_heap pop_heap k src) [] (seq 0 n) = Done beg ∧
      is_heap beg ∧ chosen k src n beg) as Hloop.
    { induction n as [|n IH]; intros Hn.
      - exists []. split_and!; [done|apply HL|]. split; [done|constructor|intros i x []%elem_of_nil|intros; lia..].
      - destruct IH as (beg & E & Hh & HC); [lia|]. destruct (lookup_lt_is_Some_2 src n) as [x Hx]; [lia|].
        destruct (topk_visit_ok k src n beg x Hk ltac:(lia) Hh HC Hx) as (beg' & E' & Hh' & HC').
        exists beg'. rewrite seq_S, Nat.add_0_l, fold_c_app, E. cbn [mbind cres_bind fold_c]. rewrite E'. done. }
    destruct (Hloop len (le_n _)) as (beg & -> & _ & [T1 T2 T3 T4 T5]). cbn [mbind cres_bind].
    pose proof (Nat.div_mul_le len 2 2 ltac:(lia)) as Hm. pose proof (Nat.Div0.mul_div_le len 2).
    rewrite take_ge by lia. exists beg. split_and!; try done; [|lia]. unfold in_buf. rewrite decide_True; [done|].
    simpl. nia.
  - rewrite bool_decide_false by lia. done.
Qed.
End topk.

(** A loop that stores [v i] at the indices of [l]. *)
Lemma scatter_ok (f : list R → nat * R → cres (list R)) (v : nat → R) l (dst : list R) :
  (∀ dst p, p ∈ l → f dst p = store_at dst p.1 (v p.1)) → Forall (λ p, p.1 < length dst)%nat l →
  ∃ dst', fold_c f dst l = Done dst' ∧ length dst' = length dst ∧
    ∀ i, dst' !! i = if decide (i ∈ l.*1) then Some (v i) else dst !! i.
Proof.
  revert dst. induction l as [|p l IH]; intros dst Hf Hl; [by exists dst|]. apply Forall_cons in Hl as [Hp Hl].
  cbn [fold_c]. rewrite Hf by left. rewrite store_at_ok by done. cbn [mbind cres_bind].
  destruct (IH (<[p.1 := v p.1]> dst)) as (dst' & E & Hlen & Hv).
  - intros dst1 q Hq. apply Hf. by right.
  - by rewrite length_insert.
  - exists dst'. split; [exact E|]. rewrite length_insert in Hlen. split; [done|]. intros i. rewrite Hv, fmap_cons.
    destruct (decide (i ∈ l.*1)) as [Hi|Hi]; [by rewrite decide_True by (by right)|].
    destruct (decide (i = p.1)) as [->|Hne].
    + rewrite decide_True by left. by rewrite list_lookup_insert_eq.
    + rewrite list_lookup_insert_ne by done. rewrite decide_False; [done|]. by intros [|]%elem_of_cons.
Qed.

Notation cap := (capacity sz _size).

(** Decompression puts the pairs into a tensor of zeros; the error is the tensor
    without their elements. *)
Lemma pairs_ok (src : list R) l :
  pairs_of src cap l → (cap ≤ length src)%nat →
  (∀ dst, (cap ≤ length dst)%nat → ∃ dst', pairs_decompress sz _size l dst = Done dst' ∧ length dst' = length dst ∧
     ∀ i, (i < cap)%nat → dst' !! i = if decide (i ∈ l.*1) then src !! i else Some s_zero) ∧
  (∀ err, (cap ≤ length err)%nat → ∃ err', pairs_update_error sz _size l err src = Done err' ∧ length err' = length err ∧
     ∀ i, (i < cap)%nat → err' !! i = if decide (i ∈ l.*1) then Some s_zero else src !! i).
Proof.
  intros Hp Hsrc. assert (∀ i, i ∈ l.*1 → (i < cap)%nat ∧ src !! i = Some (default s_zero (src !! i))) as Hin.
  { intros i ([j x] & -> & Hj)%list_elem_of_fmap. destruct (Hp j x Hj) as [Hlt E]. simpl. by rewrite E. }
  split; intros dst Hd.
  - unfold pairs_decompress, memset0. rewrite decide_True by done. cbn [mbind cres_bind].
    assert (length (replicate cap s_zero ++ drop cap dst) = length dst) as Hlen
      by (rewrite length_app, length_replicate, length_drop; lia).
    destruct (scatter_ok (λ dst '(i, x), store_at dst i x) (λ i, default s_zero (src !! i)) l
      (replicate cap s_zero ++ drop cap dst)) as (dst' & E & Hl' & Hv).
    + intros dst1 [i x] Hi. destruct (Hp i x Hi) as [_ Hx]. simpl. by rewrite Hx.
    + rewrite Hlen. apply Forall_forall. intros q Hq. destruct (Hin q.1) as [Hlt _]; [by apply list_elem_of_fmap_2|lia].
    + exists dst'. split; [exact E|]. split; [congruence|]. intros i Hi. rewrite Hv. case_decide as Hil.
      * symmetry. by apply Hin.
      * rewrite lookup_app_l by (by rewrite length_replicate). by apply lookup_replicate_2.
  - unfold pairs_update_error, memcpy. rewrite decide_True by done. cbn [mbind cres_bind].
    assert (length (take cap src ++ drop cap dst) = length dst) as Hlen
      by (rewrite length_app, length_take, length_drop; lia).
    destruct (scatter_ok (λ error '(i, _), store_at error i s_zero) (λ _, s_zero) l
      (take cap src ++ drop cap dst)) as (dst' & E & Hl' & Hv).
    + by intros dst1 [i x] _.
    + rewrite Hlen. apply Forall_forall. intros q Hq. destruct (Hin q.1) as [Hlt _]; [by apply list_elem_of_fmap_2|lia].
    + exists dst'. split; [exact E|]. split; [congruence|]. intros i Hi. rewrite Hv. case_decide; [done|].
      rewrite lookup_app_l by (rewrite length_take; lia). by rewrite lookup_take_lt.
Qed.

Lemma Randint_bound n g : 0 < n < 2 ^ 64 → 0 ≤ (Randint 0 n g).1 < n.
Proof.
  intros Hn. unfold Randint. destruct (xorshift128p g) as [x g']. simpl. rewrite Z.sub_0_r, Z.add_0_r.
  pose proof (Z.mod_pos_bound x n ltac:(lia)). rewrite wrap_small; simpl Z.of_nat; lia.
Qed.

(** Random selection keeps [k] elements of the tensor, with their values; an
    index can be chosen more than once. *)
Lemma randomk_compress_ok k (src : list R) len g :
  (0 < len)%nat → Z.of_nat len < 2 ^ 64 → Z.of_nat len ≤ 2 ^ Z.of_nat w → (len ≤ length src)%nat → (len * sz ≤ _size)%nat → (k ≤ len / 2)%nat →
  ∃ l g', randomk_compress sz _size k src len g = Done (Pairs l, g') ∧ length l = k ∧ pairs_of src len l.
Proof.
  intros Hl0 Hmax Hword Hlen Hsize Hk. unfold randomk_compress. rewrite bool_decide_true by done. cbn [bps_check mbind cres_bind].
  assert (∃ l g', randomk_choose sz k src len g = Done (l, g') ∧ length l = k ∧ pairs_of src len l)
    as (l & g' & -> & Hlk & Hp).
  { clear Hk. revert g. induction k as [|k IH]; intros g.
    - exists [], g. split_and!; [done|done|]. by intros i x []%elem_of_nil.
    - cbn [randomk_choose]. pose proof (Randint_bound (Z.of_nat len) g ltac:(lia)) as Hr.
      destruct (Randint 0 (Z.of_nat len) g) as [index g1]. simpl in Hr.
      destruct (lookup_lt_is_Some_2 src (Z.to_nat index)) as [x Hx]; [lia|]. rewrite (load_ok _ _ _ Hx).
      cbn [mbind cres_bind]. rewrite index_t_small by lia. destruct (IH g1) as (l & g' & -> & Hll & Hpl). cbn [mbind cres_bind].
      do 2 eexists. split; [reflexivity|]. split; [simpl; lia|].
      intros i y [[= -> ->]|Hin]%elem_of_cons; [split; [lia|done]|by apply Hpl]. }
  cbn [mbind cres_bind]. exists l, g'. split_and!; try done. unfold in_buf. rewrite decide_True; [done|].
  simpl. rewrite Hlk. pose proof (Nat.Div0.mul_div_le len 2). nia.
Qed.
End proofs.
End CompProofs.
