(* ===== verification/Dithering.v ===== *)
(** * Stochastic quantisation, [impl/dithering.cc]

    Elements are scaled to a number of levels and rounded to one of the two next
    levels at random. Only the elements that are not zero are sent: the distance to
    the last one, the sign and the level, as bits in the Elias delta code.

    The theorem: what [Decompress] returns is the quantised tensor, element by
    element, and the error is the tensor minus that; the coding loses nothing. *)

From S2P Require Import Prelude Tensor BitIO Compressors CompressorProofs.

Module Dither.
Import BitIO Comp CompProofs.

Inductive PartitionType := LINEAR | NATURAL.
Inductive NomalizeType := MAX | L2.

Section dither.
Context {R : Type} `{Scalar R, !Native R}.
Context (flog2 : Z → Z) (d : dtype) (sz : nat) (_size : nat).
Notation w := (sz * 8)%nat.

(** [Bernoulli]: the probability is multiplied by four. *)
Definition Bernoulli (p : R) (g : rng) : bool * rng :=
  let '(x, g) := xorshift128p g in
  (gtb (s_mul (s_mul p (s_of_Z (2 ^ 64 - 1))) (s_of_Z 4)) (s_of_Z x), g).

(** The conversion of a floating-point number to [unsigned]. *)
Definition to_unsigned (z : Z) : cres Z := if decide (0 ≤ z < 2 ^ 32) then Done z else Undef.

(** [normalize]: [scale] is a [double], but the square of an element is computed in the
    type of the elements. *)
Definition scale_of (_ntype : NomalizeType) (xs : list R) : R :=
  match _ntype with
  | MAX => foldl (λ scale x, if gtb scale (s_abs x) then scale else s_abs x) s_zero xs
  | L2 => s_sqrt (foldl (λ scale x, s_add scale (conv d (s_mul x x))) s_zero xs)
  end.

(** [1 << (_s - 1)], where [_s] is an [unsigned int]. *)
Definition natural_level (_s : Z) : cres Z :=
  l ← one_shl (Z.to_nat (wrap 32 (_s - 1))); Done (wrap 32 l).

Definition quantize (_ptype : PartitionType) (_s : Z) (scale : R) (x : R) (g : rng) : cres (Z * rng) :=
  let abs_x := conv float32 (s_abs x) in
  match _ptype with
  | LINEAR =>
      let normalized := conv float32 (s_mul (s_div abs_x scale) (s_of_Z _s)) in
      let floor := f_floor normalized in
      let '(b, g) := Bernoulli (conv float32 (s_sub normalized (s_of_Z floor))) g in
      q ← to_unsigned (floor + Z.b2z b);
      mret (q, g)
  | NATURAL =>
      level ← natural_level _s;
      let normalized := s_mul (s_div abs_x scale) (s_of_Z level) in
      c ← to_unsigned (f_ceil normalized);
      let floor := Z.shiftr (RoundNextPow2 c) 1 in
      let length := if decide (floor ≠ 0) then floor else 1 in
      let '(b, g) := Bernoulli (s_div (s_sub normalized (s_of_Z floor)) (s_of_Z length)) g in
      mret (wrap 32 (floor + length * Z.b2z b), g)
  end.

(** One element of the loop; positions are of type [size_t]. *)
Definition encode_visit (_ptype : PartitionType) (_s : Z) (scale : R) (src : list R)
    (st : Z * bit_writer * rng) (i : nat) : cres (Z * bit_writer * rng) :=
  let '(last_non_zero_pos, bit_writer, g) := st in
  x ← load src i;
  '(quantized, g) ← quantize _ptype _s scale x g;
  if decide (quantized = 0) then mret (last_non_zero_pos, bit_writer, g)
  else
    let diff := wrap 64 (Z.of_nat i - last_non_zero_pos) in
    bit_writer ← EliasDeltaEncode w flog2 diff bit_writer;
    bit_writer ← Put w (f_signbit x) bit_writer;
    bit_writer ← EliasDeltaEncode w flog2 quantized bit_writer;
    mret (Z.of_nat i, bit_writer, g).

(** The number of bits is stored in a word; where the rounding of [blocks] to a
    [float] makes it smaller, that word takes the place of the last one. *)
Definition dithering_compress (_ptype : PartitionType) (_ntype : NomalizeType) (_s : Z) (src : list R)
    (len : nat) (g : rng) : cres (compressed R * rng) :=
  xs ← mapM (load src) (seq 0 len);
  let scale := scale_of _ntype xs in
  '(_, bit_writer, g) ← fold_c (encode_visit _ptype _s scale src)
    (wrap 64 (-1), BitWriter (replicate (capacity sz _size) 0) 0 0 0, g) (seq 0 len);
  bit_writer ← Flush w bit_writer;
  c ← in_buf _size sz (Codes (take (blocks w bit_writer) (_dptr bit_writer))
         (wrap w (Z.of_nat (bits w bit_writer))) (conv float32 scale));
  mret (c, g).

(** [while (bit_reader.bits() < bits)]: [f] stores one decoded element. *)
Fixpoint decode_each (f : list R → nat → bool → Z → cres (list R)) (fuel : nat) (mem : list Z) (bits : Z)
    (last_non_zero_pos : Z) (bit_reader : bit_reader) (dst : list R) : cres (list R) :=
  if decide (Z.of_nat (r_bits w bit_reader) < bits) then
    match fuel with
    | O => OutOfFuel
    | S fuel' =>
        '(diff, bit_reader) ← EliasDeltaDecode w mem bit_reader;
        let i := wrap 64 (last_non_zero_pos + diff) in
        '(signbit, bit_reader) ← Get w mem bit_reader;
        '(q, bit_reader) ← EliasDeltaDecode w mem bit_reader;
        dst ← f dst (Z.to_nat i) signbit (wrap 32 q);
        decode_each f fuel' mem bits i bit_reader dst
    end
  else mret dst.

Definition levels (_ptype : PartitionType) (_s : Z) : cres Z :=
  match _ptype with LINEAR => mret _s | NATURAL => natural_level _s end.

(** [(1 - (signbit << 1)) * num], with [num = quantized * scale / s] *)
Definition signed_num (s : Z) (scale : R) (signbit : bool) (quantized : Z) : R :=
  s_mul (s_of_Z (1 - Z.shiftl (Z.b2z signbit) 1))
    (conv float32 (s_div (conv float32 (s_mul (conv float32 (s_of_Z quantized)) scale)) (s_of_Z s))).

Definition dithering_decompress (_ptype : PartitionType) (_s : Z) (words : list Z) (bits : Z) (scale : R)
    (dst : list R) : cres (list R) :=
  dst ← memset0 sz _size dst;
  s ← levels _ptype _s;
  decode_each (λ dst i signbit q, store_at dst i (conv d (signed_num s scale signbit q)))
    (Z.to_nat bits) words bits (wrap 64 (-1)) reader0 dst.

Definition dithering_update_error (_ptype : PartitionType) (_s : Z) (words : list Z) (bits : Z) (scale : R)
    (error corrected : list R) : cres (list R) :=
  error ← memcpy sz _size error corrected;
  s ← levels _ptype _s;
  decode_each (λ error i signbit q,
      x ← load error i; store_at error i (conv d (s_sub x (signed_num s scale signbit q))))
    (Z.to_nat bits) words bits (wrap 64 (-1)) reader0 error.

(** ** The stream of bits *)

(** The levels of a sequence of elements: the reference, without the coding. *)
Fixpoint quantize_all (_ptype : PartitionType) (_s : Z) (scale : R) (xs : list R) (g : rng) : cres (list Z * rng) :=
  match xs with
  | [] => mret ([], g)
  | x :: xs' =>
      '(q, g) ← quantize _ptype _s scale x g;
      '(qs, g) ← quantize_all _ptype _s scale xs' g;
      mret (q :: qs, g)
  end.

(** Position, sign and level of the elements that are not zero. *)
Notation entry := (nat * (bool * Z))%type.
Fixpoint entries (i : nat) (xs : list R) (qs : list Z) : list entry :=
  match xs, qs with
  | x :: xs', q :: qs' =>
      if decide (q = 0) then entries (S i) xs' qs' else (i, (f_signbit x, q)) :: entries (S i) xs' qs'
  | _, _ => []
  end.

Definition code (last : Z) (e : entry) : list bool :=
  elias flog2 (Z.of_nat e.1 - last) ++ e.2.1 :: elias flog2 e.2.2.
Fixpoint codes (last : Z) (es : list entry) : list bool :=
  match es with [] => [] | e :: es' => code last e ++ codes (Z.of_nat e.1) es' end.

Lemma quantize_bound ptype s scale x g q g' :
  quantize ptype s scale x g = Done (q, g') → 0 ≤ q < 2 ^ 32.
Proof.
  destruct ptype; unfold quantize.
  - destruct (Bernoulli _ g) as [b g1]. unfold to_unsigned. case_decide; [|done]. by intros [= <- <-].
  - destruct (natural_level s) as [l| | |]; cbn [mbind cres_bind]; try done.
    destruct (to_unsigned _) as [c| | |]; cbn [mbind cres_bind]; try done. cbv zeta.
    destruct (Bernoulli _ g) as [b g1]. intros [= <- <-]. apply (wrap_bound 32).
Qed.

Lemma length_quantize_all ptype s scale xs g qs g' :
  quantize_all ptype s scale xs g = Done (qs, g') → length qs = length xs ∧ Forall (λ q, 0 ≤ q < 2 ^ 32) qs.
Proof.
  revert g qs. induction xs as [|x xs IH]; intros g qs; cbn [quantize_all]; [by intros [= <- <-]|].
  destruct (quantize _ _ _ _ _) as [[q g1]| | |] eqn:Eq; simpl; try done.
  destruct (quantize_all _ _ _ _ g1) as [[qs1 g2]| | |] eqn:E; simpl; try done. intros [= <- <-].
  destruct (IH _ _ E). simpl. split; [congruence|]. constructor; [by eapply quantize_bound|done].
Qed.

Lemma entries_elem i xs qs e :
  e ∈ entries i xs qs → (i ≤ e.1)%nat ∧ e.2.2 ≠ 0 ∧ ∃ x, xs !! (e.1 - i)%nat = Some x ∧ e.2.1 = f_signbit x ∧
    qs !! (e.1 - i)%nat = Some e.2.2.
Proof.
  revert e i qs. induction xs as [|x xs IH]; intros e i [|q qs]; cbn [entries]; try by intros []%elem_of_nil.
  assert (∀ e, e ∈ entries (S i) xs qs → (i ≤ e.1)%nat ∧ e.2.2 ≠ 0 ∧ ∃ y, (x :: xs) !! (e.1 - i)%nat = Some y ∧
    e.2.1 = f_signbit y ∧ (q :: qs) !! (e.1 - i)%nat = Some e.2.2) as Htail.
  { intros e' He. destruct (IH e' (S i) qs He) as (Hi & Hq & y & Hy & Hsg & Hqs).
    split; [lia|]. split; [done|]. exists y. replace (e'.1 - i)%nat with (S (e'.1 - S i)) by lia. done. }
  case_decide; [apply Htail|]. intros [->|He]%elem_of_cons; [|by apply Htail]. simpl.
  rewrite Nat.sub_diag. split; [lia|]. split; [done|]. by exists x.
Qed.

Lemma entries_in i xs qs k x q :
  xs !! k = Some x → qs !! k = Some q → q ≠ 0 → ((i + k)%nat, (f_signbit x, q)) ∈ entries i xs qs.
Proof.
  revert i k qs. induction xs as [|y xs IH]; intros i k [|r qs]; try done.
  destruct k as [|k]; cbn [lookup list_lookup entries].
  - intros [= ->] [= ->] Hq. rewrite decide_False by done. rewrite Nat.add_0_r. left.
  - intros Hx Hq Hne. rewrite <-Nat.add_succ_comm. case_decide; [|right]; by apply IH.
Qed.

Lemma entries_sorted i xs qs : NoDup (entries i xs qs).*1.
Proof.
  revert i qs. induction xs as [|x xs IH]; intros i [|q qs]; cbn [entries]; try constructor.
  case_decide; [apply IH|]. cbn [fmap list_fmap fst]. apply NoDup_cons. split; [|apply IH].
  intros ([j e] & E & He)%list_elem_of_fmap. apply entries_elem in He. simpl in *. lia.
Qed.

(** ** Encoding *)
Section coding.
Context (Hsz : (0 < sz ≤ 4)%nat) (Hlog : ∀ x, 0 < x < 2 ^ 32 → flog2 x = Z.log2 x).

Lemma encode_visit_ok ptype s scale src cap l last wr g i x q g' :
  src !! i = Some x → quantize ptype s scale x g = Done (q, g') → written w cap l wr →
  -1 ≤ last < Z.of_nat i → Z.of_nat i < 2 ^ 32 - 1 →
  let es := if decide (q = 0) then [] else [(i, (f_signbit x, q))] in
  (length l + length (codes last es) ≤ cap * w)%nat →
  ∃ wr', encode_visit ptype s scale src (wrap 64 last, wr, g) i =
      Done (wrap 64 (if decide (q = 0) then last else Z.of_nat i), wr', g') ∧
    written w cap (l ++ codes last es) wr'.
Proof.
  intros Hx Hq Hw Hlast Hi. unfold encode_visit. rewrite (load_ok _ _ _ Hx). cbn [mbind cres_bind].
  rewrite Hq. cbn [mbind cres_bind]. case_decide as Hz; intros Hl.
  { exists wr. split; [done|]. by rewrite app_nil_r. }
  assert (wrap 64 (Z.of_nat i - wrap 64 last) = Z.of_nat i - last) as ->.
  { unfold wrap at 1 2. rewrite Zminus_mod_idemp_r. apply Z.mod_small. simpl Z.of_nat. lia. }
  cbn [codes] in Hl |- *. rewrite app_nil_r in Hl |- *. unfold code in *. cbn [fst snd] in *.
  rewrite length_app in Hl. cbn [length] in Hl.
  destruct (puts_ok w ltac:(lia) cap l (elias flog2 (Z.of_nat i - last)) wr Hw) as (w1 & E1 & W1); [lia|].
  rewrite encode_puts, E1. cbn [mbind cres_bind].
  destruct (Put_ok w ltac:(lia) cap _ w1 (f_signbit x) W1) as (w2 & E2 & W2); [rewrite length_app; lia|].
  rewrite E2. cbn [mbind cres_bind].
  destruct (puts_ok w ltac:(lia) cap _ (elias flog2 q) w2 W2) as (w3 & E3 & W3); [rewrite !length_app; simpl; lia|].
  rewrite encode_puts, E3. cbn [mbind cres_bind]. exists w3. split.
  - unfold mret, cres_ret. do 3 f_equal. symmetry. apply wrap_small. simpl Z.of_nat. lia.
  - by rewrite <-!app_assoc in W3.
Qed.

Lemma encode_loop ptype s scale src cap xs l last wr g i qs g' :
  take (length xs) (drop i src) = xs → quantize_all ptype s scale xs g = Done (qs, g') →
  written w cap l wr → -1 ≤ last < Z.of_nat i → Z.of_nat (i + length xs) < 2 ^ 32 →
  (length l + length (codes last (entries i xs qs)) ≤ cap * w)%nat →
  ∃ last' wr', fold_c (encode_visit ptype s scale src) (wrap 64 last, wr, g) (seq i (length xs)) =
      Done (last', wr', g') ∧ written w cap (l ++ codes last (entries i xs qs)) wr'.
Proof.
  revert l last wr g i qs. induction xs as [|x xs IH]; intros l last wr g i qs Hxs Hq Hw Hlast Hi Hl;
    cbn [quantize_all] in Hq.
  - injection Hq as <- <-. exists (wrap 64 last), wr. simpl. by rewrite app_nil_r.
  - destruct (quantize ptype s scale x g) as [[q g1]| | |] eqn:Eq; cbn [mbind cres_bind] in Hq; try done.
    destruct (quantize_all ptype s scale xs g1) as [[qs1 g2]| | |] eqn:E; cbn [mbind cres_bind] in Hq; try done.
    injection Hq as <- <-. cbn [length] in *.
    assert (src !! i = Some x ∧ take (length xs) (drop (S i) src) = xs) as [Hx Hxs'].
    { destruct (drop i src) as [|y l'] eqn:Ed; [done|]. injection Hxs as -> Hxs.
      split; [by rewrite <-(Nat.add_0_r i), <-lookup_drop, Ed|].
      replace (S i) with (i + 1)%nat by lia. by rewrite <-drop_drop, Ed. }
    set (es := if decide (q = 0) then [] else [(i, (f_signbit x, q))]).
    set (last1 := if decide (q = 0) then last else Z.of_nat i).
    assert (codes last (entries i (x :: xs) (q :: qs1)) = codes last es ++ codes last1 (entries (S i) xs qs1)) as Ec.
    { unfold es, last1. cbn [entries]. case_decide; cbn [codes]; [done|]. by rewrite app_nil_r. }
    rewrite Ec, length_app in Hl. cbn [seq fold_c].
    destruct (encode_visit_ok ptype s scale src cap l last wr g i x q g1) as (w1 & E1 & W1); [done..|lia|fold es; lia|].
    rewrite E1. cbn [mbind cres_bind]. fold es last1 in W1 |- *.
    destruct (IH (l ++ codes last es) last1 w1 g1 (S i) qs1) as (last' & w2 & E2 & W2); [done..| | | |].
    + unfold last1. case_decide; lia.
    + lia.
    + rewrite length_app. lia.
    + exists last', w2. split; [exact E2|]. rewrite Ec, app_assoc. exact W2.
Qed.

(** ** Decoding *)

Lemma elias_length x : (0 < length (elias flog2 x))%nat.
Proof. unfold elias. rewrite !length_app, !length_fmap, !length_down. lia. Qed.

Lemma decode_each_ok f mem l fuel last es n s (dst : list R) :
  packs w mem l → reading w mem n s → next_bits l n (codes last es) → (length l = n + length (codes last es))%nat →
  (length l - n ≤ fuel)%nat → -1 ≤ last → Forall (λ e, 0 < e.2.2 < 2 ^ 32) es →
  (∀ i e, es !! i = Some e → Z.of_nat e.1 < 2 ^ 32 - 1 ∧ last < Z.of_nat e.1) →
  (∀ i j e e', es !! i = Some e → es !! j = Some e' → (i < j)%nat → (e.1 < e'.1)%nat) →
  decode_each f fuel mem (Z.of_nat (length l)) (wrap 64 last) s dst =
    fold_c (λ dst e, f dst e.1 e.2.1 e.2.2) dst es.
Proof.
  intros Hp. revert fuel last n s dst. induction es as [|[i [sg q]] es IH];
    intros fuel last n s dst Hr Hn Hlen Hf Hlast Hqs Hpos Hsorted.
  - simpl in Hlen. destruct fuel; simpl; rewrite decide_False; try done; rewrite (reading_bits w ltac:(lia) mem n s Hr); lia.
  - cbn [codes] in Hn, Hlen. unfold code in Hn, Hlen. cbn [fst snd] in Hn, Hlen.
    pose proof (elias_length (Z.of_nat i - last)) as Hel. rewrite !length_app in Hlen. cbn [length] in Hlen.
    destruct fuel as [|fuel]; [lia|]. cbn [decode_each fold_c fst snd].
    rewrite decide_True by (rewrite (reading_bits w ltac:(lia) mem n s Hr); lia).
    destruct (Hpos 0%nat _ eq_refl) as [Hi1 Hi2]. cbn [fst] in Hi1, Hi2.
    apply Forall_cons in Hqs as [Hq Hqs]. cbn [fst snd] in Hq.
    rewrite <-app_assoc in Hn.
    destruct (decode_ok w ltac:(lia) flog2 Hlog mem l Hp (Z.of_nat i - last) _ n s ltac:(lia) Hr Hn)
      as (s1 & E1 & R1 & N1). rewrite E1. cbn [mbind cres_bind]. cbn [app] in N1.
    destruct (next_Get w ltac:(lia) mem l Hp _ _ _ s1 R1 N1) as (s2 & E2 & R2 & N2). rewrite E2. cbn [mbind cres_bind].
    destruct (decode_ok w ltac:(lia) flog2 Hlog mem l Hp q _ _ s2 Hq R2 N2) as (s3 & E3 & R3 & N3). rewrite E3.
    cbn [mbind cres_bind].
    assert (wrap 64 (wrap 64 last + (Z.of_nat i - last)) = Z.of_nat i) as ->.
    { unfold wrap. rewrite Zplus_mod_idemp_l. replace (last + (Z.of_nat i - last)) with (Z.of_nat i) by lia.
      apply Z.mod_small. simpl Z.of_nat. lia. }
    rewrite Nat2Z.id. rewrite (wrap_small 32 q) by (simpl Z.of_nat; lia).
    destruct (f dst i sg q) as [dst1| | |]; cbn [mbind cres_bind]; try done.
    rewrite <-(wrap_small 64 (Z.of_nat i)) by (simpl Z.of_nat; lia).
    eapply IH; try done; [lia..| |].
    + intros j e He. split; [by apply (Hpos (S j))|]. specialize (Hsorted 0%nat (S j) _ e eq_refl He). simpl in Hsorted. lia.
    + intros j k e e' He He' Hjk. apply (Hsorted (S j) (S k)); [done..|lia].
Qed.

(** ** The whole tensor *)

Lemma entries_increasing i xs qs j k e e' :
  entries i xs qs !! j = Some e → entries i xs qs !! k = Some e' → (j < k)%nat → (e.1 < e'.1)%nat.
Proof.
  revert i qs j k. induction xs as [|x xs IH]; intros i [|q qs] j k; cbn [entries]; try done.
  case_decide; [apply IH|]. destruct j as [|j], k as [|k]; try lia; cbn [lookup list_lookup].
  - intros [= <-] He' _. apply list_elem_of_lookup_2, entries_elem in He'. simpl. lia.
  - intros He He' Hjk. eapply (IH (S i) qs j k); [done..|lia].
Qed.

(** A loop that replaces the element at the position of every entry, where the
    positions are different. *)
Lemma update_all (f : list R → nat → bool → Z → cres (list R)) (v : R → bool → Z → R) (es : list entry) (dst : list R) :
  (∀ dst i sg q x, dst !! i = Some x → f dst i sg q = Done (<[i := v x sg q]> dst)) →
  NoDup es.*1 → Forall (λ e, e.1 < length dst)%nat es →
  ∃ dst', fold_c (λ dst e, f dst e.1 e.2.1 e.2.2) dst es = Done dst' ∧ length dst' = length dst ∧
    (∀ e x, e ∈ es → dst !! e.1 = Some x → dst' !! e.1 = Some (v x e.2.1 e.2.2)) ∧
    ∀ i, i ∉ es.*1 → dst' !! i = dst !! i.
Proof.
  intros Hf. revert dst. induction es as [|[i [sg q]] es IH]; intros dst Hnd Hin.
  - exists dst. split_and!; try done. by intros e x []%elem_of_nil.
  - cbn [fmap list_fmap fst] in Hnd. apply NoDup_cons in Hnd as [Hi Hnd]. apply Forall_cons in Hin as [Hlt Hin].
    cbn [fst] in Hlt. destruct (lookup_lt_is_Some_2 dst i Hlt) as [x Hx]. cbn [fold_c fst snd].
    rewrite (Hf _ _ _ _ _ Hx). cbn [mbind cres_bind].
    destruct (IH (<[i := v x sg q]> dst)) as (dst' & E & Hl & Hv & Hr); [done|by rewrite length_insert|].
    rewrite length_insert in Hl. exists dst'. split; [exact E|]. split; [done|]. split.
    + intros e y [->|He]%elem_of_cons Hy; cbn [fst snd] in *.
      * simplify_eq. rewrite Hr by done. by rewrite list_lookup_insert_eq.
      * apply Hv; [done|]. rewrite list_lookup_insert_ne; [done|]. intros ->. apply Hi. by apply list_elem_of_fmap_2.
    + intros j Hj. cbn [fmap list_fmap fst] in Hj. apply not_elem_of_cons in Hj as [Hne Hj].
      rewrite Hr by done. by rewrite list_lookup_insert_ne.
Qed.

Notation cap := (capacity sz _size).

Lemma word_count_le n m : (n ≤ m * w)%nat → (word_count w n ≤ m)%nat.
Proof. intros Hn. unfold word_count. apply Nat.lt_succ_r, Nat.div_lt_upper_bound; nia. Qed.
Lemma le_word_count n : (n ≤ word_count w n * w)%nat.
Proof.
  unfold word_count. pose proof (Nat.div_mod_eq (n + w - 1) w). pose proof (Nat.mod_upper_bound (n + w - 1) w ltac:(lia)). nia.
Qed.

(** Every element of the tensor is either in an entry or zero. *)
Lemma entries_result xs qs (dst dst' : list R) (v : R → bool → Z → R) i x q :
  (∀ e y, e ∈ entries 0 xs qs → dst !! e.1 = Some y → dst' !! e.1 = Some (v y e.2.1 e.2.2)) →
  (∀ i, i ∉ (entries 0 xs qs).*1 → dst' !! i = dst !! i) →
  xs !! i = Some x → qs !! i = Some q → ∀ y, dst !! i = Some y →
  dst' !! i = Some (if decide (q = 0) then y else v y (f_signbit x) q).
Proof.
  intros Hv Hr Hx Hq y Hy. case_decide as Hz.
  - rewrite Hr; [done|]. intros (e & -> & He)%list_elem_of_fmap. apply entries_elem in He as (_ & Hne & z & _ & _ & Hq').
    rewrite Nat.sub_0_r in Hq'. simplify_eq.
  - apply (Hv (i, (f_signbit x, q)) y); [|done]. by apply (entries_in 0 xs qs i).
Qed.

Lemma decode_entries f xs qs mem dst n :
  packs w mem (codes (-1) (entries 0 xs qs)) → Forall (λ q, 0 ≤ q < 2 ^ 32) qs → Z.of_nat (length xs) < 2 ^ 32 →
  n = length (codes (-1) (entries 0 xs qs)) →
  decode_each f (Z.to_nat (Z.of_nat n)) mem (Z.of_nat n) (wrap 64 (-1)) reader0 dst =
    fold_c (λ dst e, f dst e.1 e.2.1 e.2.2) dst (entries 0 xs qs).
Proof.
  intros Hp Hqs Hlen ->. rewrite Nat2Z.id.
  apply (decode_each_ok f mem _ _ (-1) (entries 0 xs qs) 0 reader0 dst Hp); try done; try lia.
  - by apply reading_start; lia.
  - by intros i b Hb.
  - apply Forall_forall. intros e He. apply entries_elem in He as (_ & Hne & x & _ & _ & Hq).
    rewrite Forall_forall in Hqs. specialize (Hqs _ (list_elem_of_lookup_2 _ _ _ Hq)). simpl in Hqs. lia.
  - intros i e He. apply list_elem_of_lookup_2, entries_elem in He as (_ & _ & x & Hx%lookup_lt_Some & _). lia.
  - intros i j e e'. apply entries_increasing.
Qed.

Section received.
Context (ptype : PartitionType) (s lv : Z) (src : list R) (len : nat) (qs : list Z) (words : list Z) (scale : R).
Notation xs := (take len src).
Notation n := (length (codes (-1) (entries 0 xs qs))).
Context (Hlen : (len ≤ length src)%nat) (Hmax : Z.of_nat len < 2 ^ 32) (Hcap : (len ≤ cap)%nat)
  (Hqs : Forall (λ q, 0 ≤ q < 2 ^ 32) qs) (Hlv : levels ptype s = Done lv)
  (Hp : packs w words (codes (-1) (entries 0 xs qs))).

Lemma entries_position e : e ∈ entries 0 xs qs → (e.1 < len)%nat.
Proof. intros (_ & _ & x & Hx%lookup_lt_Some & _)%entries_elem. rewrite length_take in Hx. lia. Qed.

Lemma decompress_ok (dst : list R) :
  (cap ≤ length dst)%nat → ∃ dst',
    dithering_decompress ptype s words (Z.of_nat n) scale dst = Done dst' ∧
    length dst' = length dst ∧ ∀ i x q, xs !! i = Some x → qs !! i = Some q →
      dst' !! i = Some (if decide (q = 0) then s_zero else conv d (signed_num lv scale (f_signbit x) q)).
Proof.
  intros Hd. unfold dithering_decompress, memset0. rewrite decide_True by done. cbn [mbind cres_bind].
  rewrite Hlv. cbn [mbind cres_bind]. rewrite (decode_entries _ xs qs) by (done || rewrite ?length_take; lia).
  destruct (update_all (λ dst i signbit q, store_at dst i (conv d (signed_num lv scale signbit q)))
    (λ _ signbit q, conv d (signed_num lv scale signbit q)) (entries 0 xs qs)
    (replicate cap s_zero ++ drop cap dst)) as (dst' & Ed & Hld & Hv & Hr).
  - intros dst1 i sg q x Hx%lookup_lt_Some. by apply store_at_ok.
  - apply entries_sorted.
  - apply Forall_forall. intros e He%entries_position. rewrite length_app, length_replicate. lia.
  - exists dst'. split; [exact Ed|]. split; [rewrite Hld, length_app, length_replicate, length_drop; lia|].
    intros i x q Hx Hqi. pose proof (lookup_lt_Some _ _ _ Hx) as Hi. rewrite length_take in Hi.
    apply (entries_result xs qs (replicate cap s_zero ++ drop cap dst) dst'
      (λ _ sg q, conv d (signed_num lv scale sg q)) i x q); try done.
    rewrite lookup_app_l by (rewrite length_replicate; lia). apply lookup_replicate_2. lia.
Qed.

Lemma update_error_ok (err : list R) :
  (cap ≤ length err)%nat → (cap ≤ length src)%nat → ∃ err',
    dithering_update_error ptype s words (Z.of_nat n) scale err src = Done err' ∧
    length err' = length err ∧ ∀ i x q, xs !! i = Some x → qs !! i = Some q →
      err' !! i = Some (if decide (q = 0) then x else conv d (s_sub x (signed_num lv scale (f_signbit x) q))).
Proof.
  intros He Hs. unfold dithering_update_error, memcpy. rewrite decide_True by done. cbn [mbind cres_bind].
  rewrite Hlv. cbn [mbind cres_bind]. rewrite (decode_entries _ xs qs) by (done || rewrite ?length_take; lia).
  destruct (update_all (λ error i signbit q,
      x ← load error i; store_at error i (conv d (s_sub x (signed_num lv scale signbit q))))
    (λ x signbit q, conv d (s_sub x (signed_num lv scale signbit q))) (entries 0 xs qs)
    (take cap src ++ drop cap err)) as (err' & Ed & Hld & Hv & Hr).
  - intros dst1 i sg q x Hx. rewrite (load_ok _ _ _ Hx). cbn [mbind cres_bind]. apply store_at_ok.
    by eapply lookup_lt_Some.
  - apply entries_sorted.
  - apply Forall_forall. intros e He'%entries_position. rewrite length_app, length_take. lia.
  - exists err'. split; [exact Ed|]. split; [rewrite Hld, length_app, length_take, length_drop; lia|].
    intros i x q Hx Hqi. pose proof (lookup_lt_Some _ _ _ Hx) as Hi. rewrite length_take in Hi. pose proof Hx as Hx'.     apply lookup_take_Some in Hx' as [Hx' _].
    apply (entries_result xs qs (take cap src ++ drop cap err) err'
      (λ x sg q, conv d (s_sub x (signed_num lv scale sg q))) i x q); try done.
    rewrite lookup_app_l by (rewrite length_take; lia). by rewrite lookup_take_lt by lia.
Qed.
End received.

(** C29: Compression followed by decompression quantises the tensor and does nothing
    else: an element whose level is zero becomes zero, another one its sign times
    its level times the scale over the number of levels; the error of error
    feedback is the element minus that. The levels are those of [quantize_all], one
    element after the other with one generator. This is so while the words have at most 32
    bits ([sz <= 4]), the tensor has less than 2^32 elements, and the stream of codes has at
    most 2^24 bits, a number that fits a word, and fits the buffer with its trailer; a longer
    stream is not covered. *)
Theorem dithering_spec ptype ntype s (src : list R) len g qs g' lv :
  let xs := take len src in
  let scale := scale_of ntype xs in
  let n := length (codes (-1) (entries 0 xs qs)) in
  (len ≤ length src)%nat → Z.of_nat len < 2 ^ 32 → (len ≤ cap)%nat →
  quantize_all ptype s scale xs g = Done (qs, g') → levels ptype s = Done lv →
  Z.of_nat n ≤ 2 ^ 24 → Z.of_nat n < 2 ^ Z.of_nat w → (word_count w n * sz + sz + 4 ≤ _size)%nat →
  ∃ words, dithering_compress ptype ntype s src len g
      = Done (Codes words (Z.of_nat n) (conv float32 scale), g') ∧
    (∀ dst, (cap ≤ length dst)%nat → ∃ dst',
       dithering_decompress ptype s words (Z.of_nat n) (conv float32 scale) dst = Done dst' ∧
       length dst' = length dst ∧ ∀ i x q, xs !! i = Some x → qs !! i = Some q →
         dst' !! i = Some (if decide (q = 0) then s_zero
                           else conv d (signed_num lv (conv float32 scale) (f_signbit x) q))) ∧
    (∀ err, (cap ≤ length err)%nat → (cap ≤ length src)%nat → ∃ err',
       dithering_update_error ptype s words (Z.of_nat n) (conv float32 scale) err src = Done err' ∧
       length err' = length err ∧ ∀ i x q, xs !! i = Some x → qs !! i = Some q →
         err' !! i = Some (if decide (q = 0) then x
                           else conv d (s_sub x (signed_num lv (conv float32 scale) (f_signbit x) q)))).
Proof.
  intros xs scale n Hlen Hmax Hcap Hq Hlv H24 Hbits Hsize.
  assert (length xs = len) as Hxs by (unfold xs; rewrite length_take; lia).
  destruct (length_quantize_all _ _ _ _ _ _ _ Hq) as [Hlq Hqs].
  assert (word_count w n ≤ cap)%nat as Hwc by (apply Nat.div_le_lower_bound; lia).
  pose proof (le_word_count n) as Hn.
  assert (written w cap [] (BitWriter (replicate cap 0) 0 0 0)) as W0.
  { pose proof (written_start w ltac:(lia) (replicate cap 0)) as W. by rewrite length_replicate in W. }
  destruct (encode_loop ptype s scale src cap xs [] (-1) (BitWriter (replicate cap 0) 0 0 0) g 0 qs g') as (last' & wr & E & W); try done; try lia.
  { by rewrite Hxs, drop_0. }
  { simpl length. fold n. nia. }
  cbn [app] in W. destruct (Flush_ok w ltac:(lia) cap _ wr W) as (wr' & EF & Hp & Hb & Hl); [fold n; nia|]. fold n in Hb.
  assert (blocks w wr' = word_count w n) as Eb by (rewrite blocks_ok; [by rewrite Hb|lia|by rewrite Hb]).
  assert (packs w (take (word_count w n) (_dptr wr')) (codes (-1) (entries 0 xs qs))) as Hp'.
  { intros i b Hi. destruct (Hp i b Hi) as (x & Hx & Hr). exists x. split; [|done]. rewrite lookup_take_lt; [done|].
    apply lookup_lt_Some in Hi. fold n in Hi. apply Nat.Div0.div_lt_upper_bound. lia. }
  exists (take (word_count w n) (_dptr wr')). split_and!.
  - unfold dithering_compress. rewrite mapM_load, drop_0 by lia. fold xs. cbn [mbind cres_bind]. fold scale.
    rewrite <-Hxs at 1. rewrite E. cbn [mbind cres_bind]. rewrite EF. cbn [mbind cres_bind]. rewrite Eb, Hb.
    rewrite wrap_small by lia. unfold in_buf. rewrite decide_True; [done|].
    cbn [compressed_size]. rewrite length_take_le by lia. lia.
  - intros dst Hd. by apply decompress_ok.
  - intros err He Hs. by apply update_error_ok.
Qed.
End coding.
End dither.
End Dither.
