(* ===== verification/Drive.v ===== *)
(** * The DRIVE compressor, [impl/drive.cc]

    One bit per element after a Hadamard rotation. Theorems: the loop of
    [HadamardRotate] computes the recursively defined Hadamard transform of a
    vector whose length is a power of two, and rotating twice multiplies by the
    length, so that the rotation in [Decompress] inverts the one in [Compress]. *)

From Stdlib Require Import Ring_theory Ring.
From S2P Require Import Prelude Tensor BitIO Compressors CompressorProofs Dithering Exact.

Module Drive.
Import BitIO Comp CompProofs Dither.

(** Whether the library is compiled with [NDEBUG] defined, which the sources leave to
    the flags of the Python that builds it: [assert] then checks nothing. *)
Class Build := { NDEBUG : bool }.

Section drive.
Context {R : Type} `{Scalar R, !Native R} {build : Build}.
Context (d : dtype) (sz : nat) (_size : nat).
Notation w := (sz * 8)%nat.

(** ** [HadamardRotate], in place *)

Definition butterfly (h hf i : nat) (dst : list R) (j : nat) : cres (list R) :=
  x ← load dst (i * h + j);
  y ← load dst (i * h + hf + j);
  dst ← store_at dst (i * h + j) (conv d (s_add x y));
  x ← load dst (i * h + j);
  y ← load dst (i * h + hf + j);
  store_at dst (i * h + hf + j) (conv d (s_sub x (conv d (s_mul (s_of_Z 2) y)))).

Definition rotate_stage (h len : nat) (dst : list R) : cres (list R) :=
  let hf := (h / 2)%nat in
  fold_c (λ dst i, fold_c (butterfly h hf i) dst (seq 0 hf)) dst (seq 0 (len / h)).

(** [while (h <= len)]; [h] is doubled every time. *)
Fixpoint rotate_from (fuel : nat) (h len : nat) (dst : list R) : cres (list R) :=
  if decide (h ≤ len)%nat then
    match fuel with
    | O => OutOfFuel
    | S fuel' => dst ← rotate_stage h len dst; rotate_from fuel' (h * 2) len dst
    end
  else mret dst.

(** [assert(len & (len-1) == 0)], where [==] binds more tightly than [&]. *)
Definition rotate_assert (len : nat) : bool :=
  negb (Nat.land len (if decide (len - 1 = 0)%nat then 1 else 0) =? 0)%nat.
Definition HadamardRotate (dst : list R) (len : nat) : cres (list R) :=
  bps_check (NDEBUG || rotate_assert len);;
  rotate_from len 2 len dst.

(** ** [Compress] and [Decompress] *)

Definition sqrt_d (len : nat) : R := conv float32 (s_sqrt (s_of_Z (Z.of_nat len))).

(** The random signs, unless there is no seed. *)
Fixpoint flip_signs (_seed : Z) (xs : list R) (g : rng) : list R * rng :=
  match xs with
  | [] => ([], g)
  | x :: xs' =>
      if decide (_seed = 0) then let '(ys, g) := flip_signs _seed xs' g in (x :: ys, g)
      else
        let '(b, g) := Bernoulli (s_div (s_of_Z 1) (s_of_Z 2)) g in
        let '(ys, g) := flip_signs _seed xs' g in
        ((if b : bool then x else s_neg x) :: ys, g)
  end.

Definition drive_compress (_seed : Z) (src : list R) (len : nat) (g : rng) : cres (compressed R * rng) :=
  xs ← mapM (load src) (seq 0 len);
  let '(xs, g) := flip_signs _seed xs g in
  temp ← HadamardRotate ((λ x, conv d (s_div x (sqrt_d len))) <$> xs) len;
  let norm1 := abs_sum temp in
  let norm2 := foldl (λ sum x, s_add sum (conv d (s_mul x x))) s_zero temp in
  words ← mapM (λ i, xs ← mapM (λ j, load temp (i * w + j)) (seq 0 w); mret (pack_word sz (is_neg <$> xs)))
            (seq 0 (chunk_len sz len));
  c ← in_buf _size sz (Signs words (conv float32 (s_div norm2 norm1)));
  mret (c, g).

Definition drive_decompress (_seed : Z) (words : list Z) (scale : R) (dst : list R) (g : rng) :
    cres (list R * rng) :=
  let n := (length words * w)%nat in
  dst ← unpack sz (λ _ b, Done (s_of_Z (1 - Z.shiftl b 1))) words dst;
  dst ← HadamardRotate dst n;
  let '(ys, g) := flip_signs _seed (take n dst) g in
  mret (((λ y, conv d (s_mul (conv d (s_div y (sqrt_d n))) scale)) <$> ys) ++ drop n dst, g).

(** ** The transform, as a function of the index

    Stage [j] combines the elements whose indices differ in bit [j]. *)
Definition stage (j : nat) (x : nat → R) (m : nat) : R :=
  if Nat.testbit m j then s_sub (x (m - 2 ^ j)%nat) (x m) else s_add (x m) (x (m + 2 ^ j)%nat).
Fixpoint hadamard (k : nat) (x : nat → R) : nat → R :=
  match k with O => x | S k' => stage k' (hadamard k' x) end.

Lemma testbit_split j i r :
  (r < 2 ^ S j)%nat → Nat.testbit (i * 2 ^ S j + r) j = bool_decide (2 ^ j ≤ r)%nat.
Proof.
  intros Hr. rewrite Nat.testbit_odd, Nat.shiftr_div_pow2. rewrite Nat.pow_succ_r' in *.
  assert (2 ^ j ≠ 0)%nat by (by apply Nat.pow_nonzero).
  replace (i * (2 * 2 ^ j) + r)%nat with (r + (i * 2) * 2 ^ j)%nat by lia. rewrite Nat.div_add by done.
  case_bool_decide.
  - replace (r / 2 ^ j)%nat with 1%nat; [by rewrite Nat.odd_add_mul_2, Nat.mul_comm || (rewrite Nat.odd_add, Nat.odd_mul; by rewrite andb_false_r)|].
    apply (Nat.div_unique r (2 ^ j) 1 (r - 2 ^ j)); lia.
  - rewrite Nat.div_small by lia. simpl. rewrite Nat.odd_mul. by rewrite andb_false_r.
Qed.

Section exact.
Context `{!Exact R}.
Add Ring R_ring : (ex_ring (R := R)).

Lemma butterfly_ok h hf i dst j (x y : R) :
  (i * h + j < i * h + hf + j)%nat → dst !! (i * h + j)%nat = Some x → dst !! (i * h + hf + j)%nat = Some y →
  butterfly h hf i dst j =
    Done (<[(i * h + hf + j)%nat := s_sub x y]> (<[(i * h + j)%nat := s_add x y]> dst)).
Proof.
  intros Hne Hx Hy. unfold butterfly. rewrite (load_ok _ _ _ Hx). cbn [mbind cres_bind].
  rewrite (load_ok _ _ _ Hy). cbn [mbind cres_bind].
  pose proof (lookup_lt_Some _ _ _ Hx). pose proof (lookup_lt_Some _ _ _ Hy).
  rewrite store_at_ok by done. cbn [mbind cres_bind]. rewrite !ex_conv.
  rewrite (load_ok _ (i * h + j)%nat (s_add x y)) by (by apply list_lookup_insert_eq). cbn [mbind cres_bind].
  rewrite (load_ok _ (i * h + hf + j)%nat y) by (rewrite list_lookup_insert_ne by lia; done). cbn [mbind cres_bind].
  rewrite store_at_ok by (by rewrite length_insert). do 2 f_equal.
  rewrite !ex_conv. change 2 with (1 + 1). rewrite ex_of_Z_add. ring.
Qed.

(** [n] steps of the inner loop, in block [i]. *)
Lemma butterfly_block i j n dst :
  let h := (2 ^ S j)%nat in let hf := (2 ^ j)%nat in let x m := default s_zero (dst !! m) in
  (n ≤ hf)%nat → (i * h + h ≤ length dst)%nat →
  ∃ dst', fold_c (butterfly h hf i) dst (seq 0 n) = Done dst' ∧ length dst' = length dst ∧
    ∀ m, dst' !! m = if decide (i * h ≤ m < i * h + n ∨ i * h + hf ≤ m < i * h + hf + n)%nat
                     then Some (stage j x m) else dst !! m.
Proof.
  intros h hf x. assert (h = 2 * hf)%nat as Eh by (unfold h; by rewrite Nat.pow_succ_r').
  assert (0 < hf)%nat by (apply Nat.neq_0_lt_0, Nat.pow_nonzero; lia).
  induction n as [|n IH]; intros Hn Hl.
  - exists dst. split_and!; [done..|]. intros m. rewrite decide_False; [done|lia].
  - destruct IH as (dst1 & E & Hl1 & Hv); [lia|done|].
    destruct (lookup_lt_is_Some_2 dst (i * h + n)) as [a Ha]; [lia|].
    destruct (lookup_lt_is_Some_2 dst (i * h + hf + n)) as [b Hb]; [lia|].
    rewrite seq_S, Nat.add_0_l, fold_c_app, E. cbn [mbind cres_bind fold_c].
    rewrite (butterfly_ok h hf i dst1 n a b); [|lia|rewrite Hv, decide_False by lia; done..]. cbn [mbind cres_bind].
    eexists. split; [reflexivity|]. rewrite !length_insert. split; [done|]. intros m.
    destruct (decide (m = i * h + hf + n)%nat) as [->|Hne1].
    { rewrite list_lookup_insert_eq by (rewrite length_insert; lia). rewrite decide_True by lia. f_equal.
      unfold stage. assert (Nat.testbit (i * h + hf + n) j = true) as ->.
      { rewrite <-Nat.add_assoc. unfold h. rewrite testbit_split by (fold h; lia). apply bool_decide_true. fold hf. lia. }
      unfold x. rewrite Hb. fold hf.
      replace (i * h + hf + n - hf)%nat with (i * h + n)%nat by lia. by rewrite Ha. }
    rewrite list_lookup_insert_ne by done. destruct (decide (m = i * h + n)%nat) as [->|Hne2].
    { rewrite list_lookup_insert_eq by lia. rewrite decide_True by lia. f_equal.
      unfold stage. assert (Nat.testbit (i * h + n) j = false) as ->.
      { unfold h. rewrite testbit_split by (fold h; lia). apply bool_decide_false. fold hf. lia. }
      unfold x. rewrite Ha. fold hf.
      replace (i * h + n + hf)%nat with (i * h + hf + n)%nat by lia. by rewrite Hb. }
    rewrite list_lookup_insert_ne by done. rewrite Hv. repeat case_decide; done || lia.
Qed.

(** [dst] holds the vector [x] in its first [n] elements, and [rest] after them. *)
Definition holds (n : nat) (x : nat → R) (rest dst : list R) : Prop :=
  length dst = length rest ∧ ∀ m, dst !! m = if decide (m < n)%nat then Some (x m) else rest !! m.

Lemma stage_ok K j (x : nat → R) rest dst :
  (j < K)%nat → (2 ^ K ≤ length rest)%nat → holds (2 ^ K) x rest dst →
  ∃ dst', rotate_stage (2 ^ S j) (2 ^ K) dst = Done dst' ∧ holds (2 ^ K) (stage j x) rest dst'.
Proof.
  intros Hj Hlen [Hl Hx]. unfold rotate_stage.
  assert (2 ^ S j / 2 = 2 ^ j)%nat as -> by (rewrite Nat.pow_succ_r', Nat.mul_comm; by rewrite Nat.div_mul).
  set (h := (2 ^ S j)%nat). set (hf := (2 ^ j)%nat). assert (h = 2 * hf)%nat as Eh by (unfold h; by rewrite Nat.pow_succ_r').
  assert (0 < hf)%nat by (apply Nat.neq_0_lt_0, Nat.pow_nonzero; lia).
  assert (2 ^ K = 2 ^ K / h * h)%nat as EK.
  { replace K with ((K - S j) + S j)%nat by lia. rewrite Nat.pow_add_r. fold h. by rewrite Nat.div_mul by lia. }
  assert (∀ n, (n ≤ 2 ^ K / h)%nat → ∃ dst', fold_c (λ dst i, fold_c (butterfly h hf i) dst (seq 0 hf)) dst (seq 0 n)
      = Done dst' ∧ length dst' = length dst ∧
      ∀ m, dst' !! m = if decide (m < n * h)%nat then Some (stage j x m) else dst !! m) as Hloop.
  { induction n as [|n IH]; intros Hn; [exists dst; split_and!; [done..|]; intros m; by rewrite decide_False by lia|].
    destruct IH as (dst1 & E & Hl1 & Hv); [lia|]. assert (S n * h ≤ 2 ^ K)%nat by (rewrite EK; by apply Nat.mul_le_mono_r).
    destruct (butterfly_block n j hf dst1) as (dst2 & E2 & Hl2 & Hv2); [done|fold h; lia|]. fold h hf in E2, Hv2.
    exists dst2. rewrite seq_S, Nat.add_0_l, fold_c_app, E. cbn [mbind cres_bind fold_c]. rewrite E2. cbn [mbind cres_bind].
    split; [done|]. split; [congruence|]. intros m. rewrite Hv2.
    assert (∀ q, (n * h ≤ q < S n * h)%nat → default s_zero (dst1 !! q) = x q) as Hq.
    { intros q Hq. rewrite Hv, decide_False by lia. rewrite Hx, decide_True by lia. done. }
    case_decide as Hin.
    - rewrite decide_True by lia. f_equal. unfold stage. fold hf.
      assert (m = n * h + (m - n * h))%nat as Em by lia.
      assert (Nat.testbit m j = bool_decide (hf ≤ m - n * h)%nat) as ->.
      { rewrite Em at 1. unfold h at 1. apply testbit_split. fold h. lia. }
      case_bool_decide; rewrite !Hq by lia; done.
    - rewrite Hv. repeat case_decide; done || lia. }
  destruct (Hloop (2 ^ K / h)%nat (le_n _)) as (dst' & E & Hl' & Hv). exists dst'. split; [exact E|].
  split; [congruence|]. intros m. rewrite Hv, <-EK, Hx. by case_decide.
Qed.

Lemma rotate_from_ok K j fuel (x : nat → R) rest dst :
  (j ≤ K)%nat → (K - j ≤ fuel)%nat → (2 ^ K ≤ length rest)%nat → holds (2 ^ K) (hadamard j x) rest dst →
  ∃ dst', rotate_from fuel (2 ^ S j) (2 ^ K) dst = Done dst' ∧ holds (2 ^ K) (hadamard K x) rest dst'.
Proof.
  revert j dst. induction fuel as [|fuel IH]; intros j dst Hj Hf Hl Hd; cbn [rotate_from].
  - assert (j = K) as -> by lia. rewrite decide_False by (apply Nat.nle_gt, Nat.pow_lt_mono_r; lia). by exists dst.
  - destruct (decide (j = K)) as [->|Hne].
    { rewrite decide_False by (apply Nat.nle_gt, Nat.pow_lt_mono_r; lia). by exists dst. }
    rewrite decide_True by (apply Nat.pow_le_mono_r; lia).
    destruct (stage_ok K j (hadamard j x) rest dst) as (dst1 & E & Hd1); [lia|done..|]. rewrite E. cbn [mbind cres_bind].
    rewrite Nat.mul_comm, <-Nat.pow_succ_r'. apply IH; [lia..|done|done].
Qed.

(** The loop computes the transform. *)
Lemma HadamardRotate_ok K (x : nat → R) rest dst :
  NDEBUG = true → (2 ^ K ≤ length rest)%nat → holds (2 ^ K) x rest dst →
  ∃ dst', HadamardRotate dst (2 ^ K) = Done dst' ∧ holds (2 ^ K) (hadamard K x) rest dst'.
Proof.
  intros Hnd Hl Hd. unfold HadamardRotate. rewrite Hnd. cbn. apply (rotate_from_ok K 0); [lia| |done|done].
  pose proof (Nat.pow_gt_lin_r 2 K). lia.
Qed.

(** With the assertion compiled in, no vector of two or more elements can be rotated. *)
Lemma HadamardRotate_aborts (dst : list R) len : NDEBUG = false → (2 ≤ len)%nat → HadamardRotate dst len = Fatal.
Proof.
  intros Hnd Hl. unfold HadamardRotate, rotate_assert. rewrite Hnd, decide_False by lia. by rewrite Nat.land_0_r.
Qed.

(** ** Rotating twice *)

Lemma testbit_le m j : Nat.testbit m j = true → (2 ^ j ≤ m)%nat.
Proof.
  intros Hb. apply Nat.nlt_ge. intros Hlt. by rewrite Nat.testbit_odd, Nat.shiftr_div_pow2, Nat.div_small in Hb.
Qed.

Lemma add_bit m j : Nat.testbit m j = false → (m + 2 ^ j = Nat.setbit m j)%nat.
Proof.
  intros Hb. rewrite Nat.setbit_spec'. rewrite Nat.add_nocarry_lxor, Nat.lxor_lor; [done|..];
    (apply Nat.bits_inj_0; intros n; rewrite Nat.land_spec, Nat.pow2_bits_eqb;
     destruct (Nat.eqb_spec j n) as [<-|]; [by rewrite Hb|apply andb_false_r]).
Qed.

Lemma sub_bit m j : Nat.testbit m j = true → (m - 2 ^ j = Nat.clearbit m j)%nat.
Proof.
  intros Hb. rewrite Nat.clearbit_spec'. apply Nat.sub_nocarry_ldiff. apply Nat.bits_inj_0. intros n.
  rewrite Nat.ldiff_spec, Nat.pow2_bits_eqb. destruct (Nat.eqb_spec j n) as [<-|]; [by rewrite Hb|done].
Qed.

Lemma testbit_add m j k : Nat.testbit m j = false → Nat.testbit (m + 2 ^ j) k = (j =? k)%nat || Nat.testbit m k.
Proof. intros Hb. rewrite add_bit by done. apply Nat.setbit_eqb. Qed.
Lemma testbit_sub m j k : Nat.testbit m j = true → Nat.testbit (m - 2 ^ j) k = Nat.testbit m k && negb (j =? k)%nat.
Proof. intros Hb. rewrite sub_bit by done. apply Nat.clearbit_eqb. Qed.

Lemma stage_ext j (x y : nat → R) m : (∀ n, x n = y n) → stage j x m = stage j y m.
Proof. intros E. unfold stage. by rewrite !E. Qed.

Lemma stage_twice j (x : nat → R) m : stage j (stage j x) m = s_add (x m) (x m).
Proof.
  unfold stage. destruct (Nat.testbit m j) eqn:Hb.
  - rewrite testbit_sub, Nat.eqb_refl, andb_false_r by done. apply testbit_le in Hb.
    rewrite Nat.sub_add by done. ring.
  - rewrite testbit_add, Nat.eqb_refl by done. simpl. rewrite Nat.add_sub. ring.
Qed.

Lemma stage_comm j k (x : nat → R) m : j ≠ k → stage j (stage k x) m = stage k (stage j x) m.
Proof.
  intros Hne. assert ((j =? k)%nat = false ∧ (k =? j)%nat = false) as [E1 E2] by (split; by apply Nat.eqb_neq; auto).
  unfold stage. destruct (Nat.testbit m j) eqn:Hj, (Nat.testbit m k) eqn:Hk;
    rewrite ?(testbit_sub m j k), ?(testbit_sub m k j), ?(testbit_add m j k), ?(testbit_add m k j), ?E1, ?E2, ?Hj, ?Hk
      by done; cbn [negb orb andb]; try apply testbit_le in Hj; try apply testbit_le in Hk.
  - replace (m - 2 ^ j - 2 ^ k)%nat with (m - 2 ^ k - 2 ^ j)%nat by lia. ring.
  - replace (m - 2 ^ j + 2 ^ k)%nat with (m + 2 ^ k - 2 ^ j)%nat by lia. ring.
  - replace (m - 2 ^ k + 2 ^ j)%nat with (m + 2 ^ j - 2 ^ k)%nat by lia. ring.
  - replace (m + 2 ^ j + 2 ^ k)%nat with (m + 2 ^ k + 2 ^ j)%nat by lia. ring.
Qed.

Lemma hadamard_ext k (x y : nat → R) m : (∀ n, x n = y n) → hadamard k x m = hadamard k y m.
Proof. revert m. induction k as [|k IH]; intros m E; [apply E|]. apply stage_ext. intros n. by apply IH. Qed.

Lemma hadamard_stage k j (x : nat → R) m : (k ≤ j)%nat → hadamard k (stage j x) m = stage j (hadamard k x) m.
Proof.
  revert m. induction k as [|k IH]; intros m Hk; [done|]. cbn [hadamard].
  rewrite <-stage_comm by lia. apply stage_ext. intros n. apply IH. lia.
Qed.

(** The Hadamard transform is its own inverse, up to the length of the vector. *)
Lemma hadamard_twice k (x : nat → R) m : hadamard k (hadamard k x) m = s_mul (s_of_Z (2 ^ Z.of_nat k)) (x m).
Proof.
  revert m. induction k as [|k IH]; intros m; [change (2 ^ Z.of_nat 0) with 1; cbn [hadamard]; ring|]. cbn [hadamard].
  rewrite (stage_ext k _ (stage k (hadamard k (hadamard k x)))) by (intros n; by apply hadamard_stage).
  rewrite stage_twice, IH, Nat2Z.inj_succ, Z.pow_succ_r by lia.
  replace (2 * 2 ^ Z.of_nat k) with (2 ^ Z.of_nat k + 2 ^ Z.of_nat k) by lia. rewrite ex_of_Z_add. ring.
Qed.

(** [HadamardRotate] of a buffer whose first [2^K] elements are the tensor
    computes the Hadamard transform in place and leaves the rest of the buffer as
    it was; done twice, it multiplies every element by the length. *)
Theorem hadamard_rotate_spec K (dst : list R) :
  NDEBUG = true → (2 ^ K ≤ length dst)%nat →
  ∃ dst1 dst2, HadamardRotate dst (2 ^ K) = Done dst1 ∧ HadamardRotate dst1 (2 ^ K) = Done dst2 ∧
    (∀ m x, (m < 2 ^ K)%nat → dst !! m = Some x →
       dst1 !! m = Some (hadamard K (λ n, default s_zero (dst !! n)) m) ∧
       dst2 !! m = Some (s_mul (s_of_Z (2 ^ Z.of_nat K)) x)) ∧
    (∀ m, (2 ^ K ≤ m)%nat → dst1 !! m = dst !! m ∧ dst2 !! m = dst !! m).
Proof.
  intros Hnd Hl. set (x n := default s_zero (dst !! n)).
  destruct (HadamardRotate_ok K x dst dst) as (dst1 & E1 & Hd1); [done|done|..].
  { split; [done|]. intros m. case_decide; [|done]. unfold x.
    by destruct (lookup_lt_is_Some_2 dst m) as [y ->]; [lia|]. }
  destruct (HadamardRotate_ok K _ dst dst1 Hnd Hl Hd1) as (dst2 & E2 & Hd2). exists dst1, dst2.
  destruct Hd1 as [_ Hd1], Hd2 as [_ Hd2]. split_and!; [done..| |].
  - intros m y Hm Hy. rewrite Hd1, Hd2, !decide_True by done. split; [done|]. rewrite hadamard_twice.
    unfold x. by rewrite Hy.
  - intros m Hm. by rewrite Hd1, Hd2, !decide_False by lia.
Qed.
End exact.

(** ** The compressor *)
Section field.
Context `{!ExactField R}.
Add Ring R_ring : (ex_ring (R := R)).

(** [Bernoulli(0.5)] is always true: the bound is twice the largest number the
    generator returns. *)
Lemma Bernoulli_half g : (Bernoulli (s_div (s_of_Z 1) (s_of_Z (R := R) 2)) g).1 = true.
Proof.
  unfold Bernoulli. assert (0 ≤ (xorshift128p g).1 < 2 ^ 64) as Hx by apply (wrap_bound 64).
  destruct (xorshift128p g) as [x g']. simpl in Hx |- *.
  assert (s_mul (s_mul (s_div (s_of_Z 1) (s_of_Z 2)) (s_of_Z (2 ^ 64 - 1))) (s_of_Z 4) =
    s_of_Z (R := R) ((2 ^ 64 - 1) + (2 ^ 64 - 1))) as E.
  { pose proof (exf_div (s_of_Z 1) (s_of_Z (R := R) 2) (ex_nonzero 2 ltac:(lia))) as Hd.
    change 4 with (2 + 2). rewrite !ex_of_Z_add.
    transitivity (s_mul (s_add (s_mul (s_div (s_of_Z 1) (s_of_Z 2)) (s_of_Z 2))
      (s_mul (s_div (s_of_Z 1) (s_of_Z 2)) (s_of_Z (R := R) 2))) (s_of_Z (2 ^ 64 - 1))); [ring|]. rewrite Hd. ring. }
  replace (2 ^ 64 - 1) with 18446744073709551615 in E by done. change (18446744073709551615) with (2 ^ 64 - 1) in E.
  unfold gtb. rewrite E. destruct (exf_lt (R := R) x ((2 ^ 64 - 1) + (2 ^ 64 - 1))) as [H1 H2]; [lia|]. by rewrite H1, H2.
Qed.

(** The random signs of DRIVE are never random: whatever the seed, no element is
    negated. *)
Theorem signs_never_flip _seed (xs : list R) g : (flip_signs _seed xs g).1 = xs.
Proof.
  revert g. induction xs as [|x xs IH]; intros g; [done|]. cbn [flip_signs]. case_decide.
  - specialize (IH g). destruct (flip_signs _seed xs g). simpl in *. congruence.
  - pose proof (Bernoulli_half g) as Hb. destruct (Bernoulli _ g) as [b g1]. simpl in Hb. subst b.
    specialize (IH g1). destruct (flip_signs _seed xs g1). simpl in *. congruence.
Qed.

(** A vector rotated and scaled to its length. *)
Definition rotated (K : nat) (src : list R) : nat → R :=
  hadamard K (λ n, s_div (default s_zero (src !! n)) (sqrt_d (2 ^ K))).
Definition sign_at (y : nat → R) (n : nat) : R := s_of_Z (if is_neg (y n) then -1 else 1).

(** The scale that is sent: the square sum of the rotated vector over the sum of its
    absolute values. *)
Definition drive_scale (K : nat) (src : list R) : R :=
  let ys := rotated K src <$> seq 0 (2 ^ K) in
  s_div (foldl (λ sum y, s_add sum (s_mul y y)) s_zero ys) (abs_sum ys).

(** The words of the signs of [y]. *)
Definition sign_words (n : nat) (y : nat → R) : list Z :=
  (λ i, pack_word sz ((λ j, is_neg (y (i * w + j)%nat)) <$> seq 0 w)) <$> seq 0 n.

Section power.
Context (K n : nat) (Hsz : (0 < sz)%nat) (HK : (2 ^ K = n * w)%nat).

Lemma two_elements : (2 ≤ 2 ^ K)%nat.
Proof. destruct K as [|K']; [|rewrite Nat.pow_succ_r'; pose proof (Nat.pow_nonzero 2 K'); lia]. simpl in HK. destruct n; lia. Qed.

Lemma square_sum (ys : list R) a :
  foldl (λ sum x, s_add sum (conv d (s_mul x x))) a ys = foldl (λ sum x, s_add sum (s_mul x x)) a ys.
Proof. revert a. induction ys as [|y ys IH]; intros a; [done|]. cbn. rewrite ex_conv. apply IH. Qed.

Lemma drive_compress_ok _seed (src : list R) g :
  NDEBUG = true → (2 ^ K ≤ length src)%nat → (n * sz + 4 ≤ _size)%nat →
  ∃ g1, drive_compress _seed src (2 ^ K) g = Done (Signs (sign_words n (rotated K src)) (drive_scale K src), g1).
Proof.
  intros Hnd Hsrc Hsize. assert (chunk_len sz (2 ^ K) = n) as Ec.
  { unfold chunk_len. rewrite HK, Nat.Div0.mod_mul, Nat.sub_0_r, Nat.Div0.mod_same, Nat.add_0_r. apply Nat.div_mul. lia. }
  set (t := (λ x, conv d (s_div x (sqrt_d (2 ^ K)))) <$> take (2 ^ K) src).
  assert (length t = (2 ^ K)%nat) as Hlt by (unfold t; rewrite length_fmap, length_take; lia).
  destruct (HadamardRotate_ok K (λ n, s_div (default s_zero (src !! n)) (sqrt_d (2 ^ K))) t t) as (temp & E & Hl & Hv);
    [done|by rewrite Hlt|split; [done|]|].
  { intros m. case_decide as Hm; [|done]. unfold t. rewrite list_lookup_fmap, lookup_take_lt by done.
    destruct (lookup_lt_is_Some_2 src m) as [x ->]; [lia|]. simpl. by rewrite ex_conv. }
  assert (temp = rotated K src <$> seq 0 (2 ^ K)) as Etemp.
  { apply list_eq. intros m. rewrite Hv, list_lookup_fmap. case_decide.
    - by rewrite lookup_seq_lt by done.
    - rewrite lookup_seq_ge by lia. apply lookup_ge_None_2. lia. }
  unfold drive_compress. rewrite mapM_load, drop_0 by lia. cbn [mbind cres_bind].
  pose proof (signs_never_flip _seed (take (2 ^ K) src) g) as Es. destruct (flip_signs _ _ g) as [xs g1].
  simpl in Es. subst xs. fold t. rewrite E. cbn [mbind cres_bind]. rewrite Ec.
  rewrite (onebit_words sz Hsz temp n) by lia. cbn [mbind cres_bind]. unfold in_buf. rewrite decide_True.
  - eexists. cbn [mbind cres_bind]. unfold mret, cres_ret. do 3 f_equal.
    + unfold sign_words. apply list_fmap_ext. intros i i' Hi%lookup_seq. f_equal. apply list_fmap_ext.
      intros j j' Hj%lookup_seq. rewrite Hv, decide_True by nia. done.
    + rewrite ex_conv. unfold drive_scale. by rewrite <-Etemp, square_sum.
  - cbn [compressed_size]. rewrite length_fmap, length_seq. lia.
Qed.

Lemma drive_compress_aborts _seed (src : list R) g :
  NDEBUG = false → (2 ^ K ≤ length src)%nat → drive_compress _seed src (2 ^ K) g = Fatal.
Proof.
  intros Hnd Hsrc. unfold drive_compress. rewrite mapM_load, drop_0 by lia. cbn [mbind cres_bind].
  destruct (flip_signs _ _ g) as [xs g1]. by rewrite HadamardRotate_aborts by (done || apply two_elements).
Qed.

Lemma drive_decompress_ok _seed y scale (dst : list R) g :
  NDEBUG = true → (2 ^ K ≤ length dst)%nat →
  ∃ dst' g', drive_decompress _seed (sign_words n y) scale dst g = Done (dst', g') ∧
    ∀ m, (m < 2 ^ K)%nat → dst' !! m = Some (s_mul (s_div (hadamard K (sign_at y) m) (sqrt_d (2 ^ K))) scale).
Proof.
  intros Hnd Hd. destruct (unpack_ok sz Hsz (λ _ b, Done (s_of_Z (1 - Z.shiftl b 1))) (sign_at y)
    (λ m, is_neg (y m)) n (sign_words n y) dst eq_refl) as (dst1 & E1 & Hl1 & Hv1);
    [lia|intros m _; unfold sign_at; by destruct (is_neg (y m))|].
  destruct (HadamardRotate_ok K (sign_at y) dst dst1) as (dst2 & E2 & Hl2 & Hv2); [done..| |].
  { split; [done|]. intros m. by rewrite Hv1, <-HK. }
  unfold drive_decompress. rewrite E1. cbn [mbind cres_bind]. unfold sign_words.
  rewrite length_fmap, length_seq, <-HK, E2. cbn [mbind cres_bind].
  pose proof (signs_never_flip _seed (take (2 ^ K) dst2) g) as Es. destruct (flip_signs _ _ g) as [ys g3].
  simpl in Es. subst ys. do 2 eexists. split; [reflexivity|]. intros m Hm.
  rewrite lookup_app_l by (rewrite length_fmap, length_take; lia). rewrite list_lookup_fmap, lookup_take_lt by done.
  rewrite Hv2, decide_True by done. simpl. by rewrite !ex_conv.
Qed.
End power.

(** C30: DRIVE on a vector whose length is a power of two and a multiple of the bits of a
    word, with exact arithmetic. Compiled with [NDEBUG], the sender sends the signs of the
    Hadamard transform of the vector divided by the root of its length, and as scale its
    square sum over its sum of absolute values; the receiver rotates the signs back: element
    [m] of what it gets is the [m]-th of the rotated signs, divided by the root of
    the length and times the scale; the seed plays no role, and no access is outside a buffer.
    Compiled without [NDEBUG], the assertion in [HadamardRotate] makes every call abort. *)
Theorem drive_spec _seed (src : list R) K n g :
  (0 < sz)%nat → (2 ^ K = n * w)%nat → (2 ^ K ≤ length src)%nat → (n * sz + 4 ≤ _size)%nat →
  if NDEBUG then
    ∃ words g1, drive_compress _seed src (2 ^ K) g = Done (Signs words (drive_scale K src), g1) ∧
      ∀ dst g2, (2 ^ K ≤ length dst)%nat →
        ∃ dst' g3, drive_decompress _seed words (drive_scale K src) dst g2 = Done (dst', g3) ∧
          ∀ m, (m < 2 ^ K)%nat → dst' !! m = Some (s_mul
            (s_div (hadamard K (sign_at (rotated K src)) m) (sqrt_d (2 ^ K))) (drive_scale K src))
  else drive_compress _seed src (2 ^ K) g = Fatal.
Proof.
  intros Hsz HK Hsrc Hsize. destruct NDEBUG eqn:Hnd; [|by apply (drive_compress_aborts K n)].
  destruct (drive_compress_ok K n Hsz HK _seed src g Hnd Hsrc Hsize) as (g1 & E).
  exists (sign_words n (rotated K src)), g1. split; [done|]. intros dst g2 Hd.
  by apply drive_decompress_ok.
Qed.
End field.
End drive.
End Drive.
