(* ===== verification/ErrorFeedback.v ===== *)
(** * Error feedback and momentum

    What the decorators compute, for every compressor that accounts for its error: an
    interface that top-k, random-k and the 1-bit compressor satisfy. *)

From Stdlib Require Import Ring_theory Ring.
From S2P Require Import Prelude PyStr Tensor BitIO Compressors CompressorProofs Dithering Drive Exact CompObj.

Module EF.
Import BitIO Comp CompProofs Dither Drive CompObj.

Section ef.
Context {R : Type} `{Scalar R, !Native R, !ExactField R} {build : Build}.
Add Ring R_ring : (ex_ring (R := R)).
Context (flog2 : Z → Z) (push_heap pop_heap : list (nat * R) → list (nat * R)).
Context (d : dtype) (sz _size : nat) (Hsz : (0 < sz)%nat).
Notation cap := (capacity sz _size).
Notation Compress := (Compress flog2 push_heap pop_heap d sz _size).
Notation Decompress := (Decompress d sz _size).
Notation FastUpdateError := (FastUpdateError d sz _size).

(** ** The interface

    The objects [P] of one kind compress every tensor of [len] elements, and what
    is sent and the new error are together the tensor. *)
Class Accounts (len : nat) (P : cobj R → Prop) : Prop := {
  ac_step lr o (src : list R) : P o → (cap ≤ length src)%nat →
    ∃ c o', Compress lr o src len = Done (c, src, o') ∧ P o' ∧
      ∀ dst err, (cap ≤ length dst)%nat → (cap ≤ length err)%nat →
        ∃ dst' o2 err', Decompress o c dst = Done (dst', o2) ∧ FastUpdateError o' err src c = Done err' ∧
          length err' = length err ∧
          ∀ i x, (i < len)%nat → src !! i = Some x →
            ∃ y e, dst' !! i = Some y ∧ err' !! i = Some e ∧ s_add y e = x
}.

(** *** The compressors *)

Lemma pairs_account len l (src dst err : list R) :
  (len ≤ cap)%nat → pairs_of src len l → (cap ≤ length src)%nat → (cap ≤ length dst)%nat → (cap ≤ length err)%nat →
  ∃ dst' err', pairs_decompress sz _size l dst = Done dst' ∧ pairs_update_error sz _size l err src = Done err' ∧
    length err' = length err ∧
    ∀ i x, (i < len)%nat → src !! i = Some x → ∃ y e, dst' !! i = Some y ∧ err' !! i = Some e ∧ s_add y e = x.
Proof.
  intros Hlen Hp Hs Hd He. destruct (pairs_ok sz _size Hsz src l) as [H1 H2]; [|done|].
  { intros i x Hi. destruct (Hp i x Hi). split; [lia|done]. }
  destruct (H1 dst Hd) as (dst' & E1 & _ & V1). destruct (H2 err He) as (err' & E2 & L2 & V2).
  exists dst', err'. split_and!; [done..|]. intros i x Hi Hx. rewrite V1, V2 by lia.
  destruct (decide (i ∈ l.*1)); rewrite Hx; do 2 eexists; split_and!; try done; ring.
Qed.

#[export] Instance topk_accounts len k is_heap :
  heap_laws push_heap pop_heap is_heap → (0 < k ≤ len / 2)%nat → (len ≤ cap)%nat → Z.of_nat len ≤ 2 ^ Z.of_nat (sz * 8) →
  Accounts len (λ o, o = OTopk k).
Proof.
  intros HL Hk Hlen Hword. split. intros lr o src -> Hs.
  assert (cap * sz ≤ _size)%nat by (unfold capacity; rewrite Nat.mul_comm; apply Nat.Div0.mul_div_le).
  destruct (topk_compress_spec sz _size Hsz push_heap pop_heap is_heap HL k src len) as [Hok _]; [lia|done|lia|nia|].
  destruct Hok as (l & E & _ & _ & Hp & _); [lia|]. exists (Pairs l), (OTopk k). cbn [CompObj.Compress].
  rewrite E. split_and!; [done..|]. intros dst err Hd He.
  destruct (pairs_account len l src dst err) as (dst' & err' & E1 & E2 & L2 & Hv); [done..|].
  exists dst', (OTopk k), err'. cbn [CompObj.Decompress CompObj.FastUpdateError]. by rewrite E1, E2.
Qed.

#[export] Instance randomk_accounts len k :
  (k ≤ len / 2)%nat → (0 < len ≤ cap)%nat → Z.of_nat len < 2 ^ 64 → Z.of_nat len ≤ 2 ^ Z.of_nat (sz * 8) →
  Accounts len (λ o, ∃ g, o = ORandomk k g).
Proof.
  intros Hk Hlen Hmax Hword. split. intros lr o src [g ->] Hs.
  assert (cap * sz ≤ _size)%nat by (unfold capacity; rewrite Nat.mul_comm; apply Nat.Div0.mul_div_le).
  destruct (randomk_compress_ok sz _size Hsz k src len g) as (l & g' & E & _ & Hp); [lia|lia|done|lia|nia|lia|].
  exists (Pairs l), (ORandomk k g'). cbn [CompObj.Compress]. rewrite E. split_and!; [done|by exists g'|].
  intros dst err Hd He.
  destruct (pairs_account len l src dst err) as (dst' & err' & E1 & E2 & L2 & Hv); [lia|done..|].
  exists dst', (ORandomk k g), err'. cbn [CompObj.Decompress CompObj.FastUpdateError]. by rewrite E1, E2.
Qed.

#[export] Instance onebit_accounts len u :
  (0 < len)%nat → _size = Align sz (len * sz) → Accounts len (λ o, o = OOnebit u).
Proof.
  intros Hlen Hsize. split. intros lr o src -> Hs.
  assert (∀ n, (cap ≤ n)%nat → (_size ≤ n * sz)%nat) as Hcap.
  { intros n Hn. destruct (chunk_len_words sz Hsz len) as [_ Ha]. rewrite <-Hsize in Ha.
    unfold capacity in Hn. rewrite Ha, Nat.div_mul in Hn by lia. rewrite Ha. by apply Nat.mul_le_mono_r. }
  destruct (onebit_spec d sz _size Hsz u src len) as (words & E & HD & HE); [done..|by apply Hcap|].
  eexists _, (OOnebit u). cbn [CompObj.Compress]. rewrite E. split_and!; [done..|]. intros dst err Hd He.
  destruct (HD dst (Hcap _ Hd)) as (dst' & E1 & _ & V1). destruct (HE err (Hcap _ He)) as (err' & E2 & L2 & V2).
  exists dst', (OOnebit u), err'. cbn [CompObj.Decompress CompObj.FastUpdateError]. rewrite E1, E2.
  split_and!; [done..|]. intros i x Hi Hx. do 2 eexists. split_and!; [by apply V1|by apply V2|].
  rewrite !ex_conv. unfold sign_of, opposite_sign. destruct (is_neg x); rewrite ex_of_Z_neg1; ring.
Qed.

(** ** [CpuReducer::sum] *)

Lemma sum_into_ok n (dst src : list R) alpha :
  (n ≤ length dst)%nat → (n ≤ length src)%nat →
  ∃ dst', sum_into d n dst src alpha = Done dst' ∧ length dst' = length dst ∧
    (∀ i x y, (i < n)%nat → dst !! i = Some x → src !! i = Some y → dst' !! i = Some (s_add x (s_mul alpha y))) ∧
    ∀ i, (n ≤ i)%nat → dst' !! i = dst !! i.
Proof.
  apply update_loop. intros dst1 i x y Hx Hy. rewrite (load_ok _ _ _ Hx), (load_ok _ _ _ Hy). cbn. by rewrite ex_conv.
Qed.

Lemma sum_back_ok n (src dst : list R) alpha :
  (n ≤ length dst)%nat → (n ≤ length src)%nat →
  ∃ dst', sum_back d n src dst alpha = Done dst' ∧ length dst' = length dst ∧
    (∀ i y x, (i < n)%nat → dst !! i = Some y → src !! i = Some x → dst' !! i = Some (s_add x (s_mul alpha y))) ∧
    ∀ i, (n ≤ i)%nat → dst' !! i = dst !! i.
Proof.
  apply (update_loop _ (λ y x, s_add x (s_mul alpha y))). intros dst1 i y x Hy Hx.
  rewrite (load_ok _ _ _ Hx), (load_ok _ _ _ Hy). cbn. by rewrite ex_conv.
Qed.

(** ** Error feedback *)

Notation ef inner error lr := (OVanillaErrorFeedback inner error lr).

(** The sum of the compressed tensors that are received, each times its learning
    rate. *)
Fixpoint sent_sum (lrs : list R) (decs : list (list R)) (i : nat) : R :=
  match lrs, decs with
  | lr :: lrs', dec :: decs' => s_add (s_mul lr (default s_zero (dec !! i))) (sent_sum lrs' decs' i)
  | _, _ => s_zero
  end.

(** Compressing the gradients one after the other, and what each compressed
    tensor is decompressed to, into buffers of zeros. *)
Fixpoint ef_run (o : cobj R) (len : nat) (steps : list (R * list R)) : cres (list (list R) * cobj R) :=
  match steps with
  | [] => mret ([], o)
  | (lr, grad) :: steps' =>
      '(c, _, o') ← Compress lr o grad len;
      '(dec, _) ← Decompress o c (replicate cap s_zero);
      '(decs, o'') ← ef_run o' len steps';
      mret (dec :: decs, o'')
  end.

Lemma ef_step len P `{!Accounts len P} lr inner error pre_lr (grad : list R) :
  P inner → (len ≤ cap)%nat → length error = cap → (cap ≤ length grad)%nat → lr ≠ s_zero →
  ∃ c grad' inner' error' dec o2, Compress lr (ef inner error pre_lr) grad len = Done (c, grad', ef inner' error' lr) ∧
    P inner' ∧ length error' = cap ∧
    Decompress (ef inner error pre_lr) c (replicate cap s_zero) = Done (dec, o2) ∧
    ∀ i, (i < len)%nat →
      s_mul lr (s_add (default s_zero (dec !! i)) (default s_zero (error' !! i))) =
      s_add (s_mul lr (default s_zero (grad !! i))) (s_mul pre_lr (default s_zero (error !! i))).
Proof.
  intros HP Hlen He Hg Hlr. cbn [CompObj.Compress CompObj.Decompress].
  destruct (sum_into_ok len grad error (conv float32 (s_div pre_lr lr))) as (grad1 & E1 & L1 & V1 & _); [lia..|].
  rewrite E1. cbn [mbind cres_bind]. destruct (ac_step lr inner grad1) as (c & inner' & E2 & HP' & Hac); [done|lia|].
  rewrite E2. cbn [mbind cres_bind].
  destruct (Hac (replicate cap s_zero) error) as (dec & o2 & error' & E3 & E4 & L4 & V4); [by rewrite length_replicate|lia|].
  rewrite E4. cbn [mbind cres_bind]. do 6 eexists. split; [reflexivity|]. split; [done|]. split; [congruence|].
  rewrite E3. split; [done|]. intros i Hi.
  destruct (lookup_lt_is_Some_2 grad i) as [x Hx]; [lia|]. destruct (lookup_lt_is_Some_2 error i) as [e Hei]; [lia|].
  destruct (V4 i _ Hi (V1 i x e Hi Hx Hei)) as (y & e' & -> & -> & Esum). rewrite Hx, Hei. simpl. rewrite Esum, ex_conv.
  rewrite <-(exf_div pre_lr lr Hlr) at 2. ring.
Qed.

Lemma ef_telescopes len P `{!Accounts len P} inner error pre_lr (steps : list (R * list R)) :
  P inner → (len ≤ cap)%nat → length error = cap →
  Forall (λ '(lr, grad), lr ≠ s_zero ∧ (cap ≤ length grad)%nat) steps →
  ∃ decs inner' error', ef_run (ef inner error pre_lr) len steps
      = Done (decs, ef inner' error' (default pre_lr (last steps.*1))) ∧
    ∀ i, (i < len)%nat →
      s_add (sent_sum steps.*1 decs i)
            (s_mul (default pre_lr (last steps.*1)) (default s_zero (error' !! i))) =
      s_add (sent_sum steps.*1 steps.*2 i) (s_mul pre_lr (default s_zero (error !! i))).
Proof.
  intros HP Hlen He Hsteps. revert inner error pre_lr HP He.
  induction Hsteps as [|[lr grad] steps [Hlr Hg] _ IH]; intros inner error pre_lr HP He.
  - exists [], inner, error. split; [done|]. intros i _. simpl. ring.
  - destruct (ef_step len P lr inner error pre_lr grad HP Hlen He Hg Hlr)
      as (c & grad' & inner' & error' & dec & o2 & E1 & HP' & He' & E2 & Hv).
    destruct (IH inner' error' lr HP' He') as (decs & inner2 & error2 & E3 & Hsum).
    exists (dec :: decs), inner2, error2. cbn [ef_run]. rewrite E1. cbn [mbind cres_bind]. rewrite E2.
    cbn [mbind cres_bind]. rewrite E3. cbn [mbind cres_bind fmap list_fmap fst snd].
    assert (default pre_lr (last (lr :: steps.*1)) = default lr (last steps.*1)) as El.
    { rewrite last_cons. by destruct (last steps.*1). }
    split; [by rewrite El|]. intros i Hi. rewrite El. cbn [sent_sum].
    specialize (Hsum i Hi). specialize (Hv i Hi).
    transitivity (s_add (s_mul lr (default s_zero (dec !! i)))
      (s_add (sent_sum steps.*1 decs i) (s_mul (default lr (last steps.*1)) (default s_zero (error2 !! i))))); [ring|].
    rewrite Hsum. transitivity (s_add (sent_sum steps.*1 steps.*2 i)
      (s_mul lr (s_add (default s_zero (dec !! i)) (default s_zero (error' !! i))))); [ring|]. rewrite Hv. ring.
Qed.
(** The compressors with an error of their own that the theorem is about: top-k, random-k and
    the 1-bit compressor, each with the parameters for which [Compress] does not abort.
    DRIVE and the decorators do not implement [FastUpdateError]. *)
Definition feeds_back (len : nat) (o : cobj R) : Prop :=
  match o with
  | OTopk k => (0 < k ≤ len / 2)%nat
  | ORandomk k _ => (k ≤ len / 2)%nat
  | OOnebit _ => _size = Align sz (len * sz)
  | _ => False
  end.

Lemma feeds_back_accounts len is_heap :
  heap_laws push_heap pop_heap is_heap → (0 < len ≤ cap)%nat → Z.of_nat len < 2 ^ 64 → Z.of_nat len ≤ 2 ^ Z.of_nat (sz * 8) →
  Accounts len (feeds_back len).
Proof.
  intros HL Hlen Hmax Hword. split. intros lr o src Ho Hs. destruct o as [u|k|k g| | | |]; try done; cbn in Ho.
  - pose proof (onebit_accounts len u ltac:(lia) Ho) as HA. destruct (ac_step lr (OOnebit u) src) as (c & o' & E & -> & Hac); [done..|].
    by exists c, (OOnebit u).
  - pose proof (topk_accounts len k is_heap HL Ho ltac:(lia) Hword) as HA.
    destruct (ac_step lr (OTopk k) src) as (c & o' & E & -> & Hac); [done..|]. by exists c, (OTopk k).
  - pose proof (randomk_accounts len k Ho Hlen Hmax Hword) as HA.
    destruct (ac_step lr (ORandomk k g) src) as (c & o' & E & [g' ->] & Hac); [by eexists|done|]. by exists c, (ORandomk k g').
Qed.


(** ** Momentum *)

(** Nesterov's momentum: [m = mu * m + g] and the update [mu * m + g], for one
    element of the gradients. *)
Fixpoint nesterov (mu m : R) (gs : list R) : list R :=
  match gs with
  | [] => []
  | g :: gs' => let m' := s_add g (s_mul mu m) in s_add g (s_mul mu m') :: nesterov mu m' gs'
  end.

(** The element [i] of the gradients. *)
Definition column (steps : list (R * list R)) (i : nat) : list R := (λ st : R * list R, default s_zero (st.2 !! i)) <$> steps.

Lemma column_cons lr grad steps i : column ((lr, grad) :: steps) i = default s_zero (grad !! i) :: column steps i.
Proof. done. Qed.

Lemma momentum_run len mom mu (steps : list (R * list R)) :
  (len ≤ cap)%nat → length mom = cap → Forall (λ '(lr, grad), (cap ≤ length grad)%nat) steps →
  ∃ steps', steps'.*1 = steps.*1 ∧ Forall (λ '(lr, grad), (cap ≤ length grad)%nat) steps' ∧
    (∀ i, (i < len)%nat → column steps' i = nesterov mu (default s_zero (mom !! i)) (column steps i)) ∧
    ∀ inner decs o', ef_run inner len steps' = Done (decs, o') →
      ∃ mom', ef_run (ONesterovMomentum inner mom mu) len steps = Done (decs, ONesterovMomentum o' mom' mu).
Proof.
  intros Hlen Hm Hsteps. revert mom Hm. induction Hsteps as [|[lr grad] steps Hg _ IH]; intros mom Hm.
  - exists []. split_and!; [done|constructor|done|]. intros inner decs o' [= <- <-]. by exists mom.
  - destruct (sum_back_ok len grad mom mu) as (mom1 & E1 & L1 & V1 & _); [lia..|].
    destruct (sum_into_ok len grad mom1 mu) as (grad1 & E2 & L2 & V2 & _); [lia..|].
    destruct (IH mom1) as (steps' & Hl & Hg' & Hc & Hrun); [lia|].
    exists ((lr, grad1) :: steps'). split_and!.
    + cbn. by rewrite Hl.
    + constructor; [lia|done].
    + intros i Hi. rewrite !column_cons. cbn [nesterov]. destruct (lookup_lt_is_Some_2 grad i) as [x Hx]; [lia|].
      destruct (lookup_lt_is_Some_2 mom i) as [m Hmi]; [lia|]. specialize (V1 i m x Hi Hmi Hx).
      specialize (V2 i x _ Hi Hx V1). rewrite V2, Hx, Hmi. cbn [default]. f_equal.
      rewrite (Hc i Hi). by rewrite V1.
    + cbn [ef_run CompObj.Compress CompObj.Decompress]. rewrite E1. cbn [mbind cres_bind]. rewrite E2.
      cbn [mbind cres_bind]. intros inner decs o' Hr.
      destruct (Compress lr inner grad1 len) as [[[c g2] o1]| | |]; try done. cbn [mbind cres_bind] in *.
      destruct (Decompress inner c (replicate cap s_zero)) as [[dec o2]| | |] eqn:Ed; try done. cbn [mbind cres_bind mret cres_ret] in *.
      destruct (ef_run o1 len steps') as [[decs1 o3]| | |] eqn:Er; try done. injection Hr as <- <-.
      destruct (Hrun _ _ _ Er) as (mom' & E3). exists mom'. by rewrite E3, Ed.
Qed.

(** The sum of the updates, each times its learning rate. *)
Fixpoint weighted (lrs us : list R) : R :=
  match lrs, us with
  | lr :: lrs', u :: us' => s_add (s_mul lr u) (weighted lrs' us')
  | _, _ => s_zero
  end.

Lemma sent_sum_column steps i : sent_sum steps.*1 steps.*2 i = weighted steps.*1 (column steps i).
Proof. induction steps as [|[lr grad] steps IH]; [done|]. cbn [fmap list_fmap fst snd sent_sum]. rewrite column_cons. cbn [weighted]. by f_equal. Qed.

(** The whole chain of a worker: what is sent, and the error that is kept, add up
    to the updates of SGD with Nesterov's momentum on the gradients. *)
Theorem momentum_feedback_telescopes len P `{!Accounts len P} inner error mom mu pre_lr (steps : list (R * list R)) :
  P inner → (len ≤ cap)%nat → length error = cap → length mom = cap →
  Forall (λ '(lr, grad), lr ≠ s_zero ∧ (cap ≤ length grad)%nat) steps →
  let last_lr := default pre_lr (last steps.*1) in
  ∃ decs inner' error' mom', ef_run (ONesterovMomentum (ef inner error pre_lr) mom mu) len steps
      = Done (decs, ONesterovMomentum (ef inner' error' last_lr) mom' mu) ∧
    ∀ i, (i < len)%nat →
      s_add (sent_sum steps.*1 decs i) (s_mul last_lr (default s_zero (error' !! i))) =
      s_add (weighted steps.*1 (nesterov mu (default s_zero (mom !! i)) (column steps i)))
            (s_mul pre_lr (default s_zero (error !! i))).
Proof.
  intros HP Hlen He Hm Hsteps last_lr.
  destruct (momentum_run len mom mu steps) as (steps' & Hl & Hg & Hc & Hrun); [done..| |].
  { eapply Forall_impl; [exact Hsteps|]. by intros [lr grad] [_ ?]. }
  destruct (ef_telescopes len P inner error pre_lr steps' HP Hlen He) as (decs & inner' & error' & E & Hsum).
  - apply Forall_forall. intros [lr grad] Hin. split; [|by apply (proj1 (Forall_forall _ _) Hg (lr, grad))].
    assert (lr ∈ steps.*1) as ([lr' g] & -> & Hin')%list_elem_of_fmap.
    { rewrite <-Hl. by apply (list_elem_of_fmap_2 fst steps' (lr, grad)). }
    by apply (proj1 (Forall_forall _ _) Hsteps (lr', g)).
  - destruct (Hrun _ _ _ E) as (mom' & E2). exists decs, inner', error', mom'. rewrite Hl in E2. split; [done|].
    intros i Hi. specialize (Hsum i Hi). rewrite sent_sum_column, Hl in Hsum. unfold last_lr. by rewrite Hsum, Hc.
Qed.
End ef.
End EF.
