(* ===== verification/Registry.v ===== *)
(** * Theorems about the registry of compressors

    The parameters of a compressor arrive on the server as they were sent, and the
    registry builds the compressor and the decorators they ask for, the momentum
    outside and on the workers only; with the parameters the MXNet trainer declares. *)

From Stdlib Require Import Ascii.
From S2P Require Import Prelude PyStr Tensor BitIO Compressors CompressorProofs Dithering Drive Exact CompObj MXNet.

Module Registry.
Import BitIO Comp Drive CompObj.

(** ** Words *)

(** A string that [>>] reads as it is. *)
Definition word (s : string) : bool := negb (String.eqb s "") && str_forall (λ c, negb (c_space c)) s.
(** What can follow a word. *)
Definition ends (p : ascii → bool) (s : string) : bool :=
  match s with "" => true | String c _ => negb (p c) end.

Lemma span_app p s t : str_forall p s = true → ends p t = true → span p (s +:+ t) = (s, t).
Proof.
  intros Hs Ht. induction s as [|c s IH].
  - destruct t as [|c t]; [done|]. simpl in *. by destruct (p c).
  - simpl in *. apply andb_true_iff in Hs as [-> Hs]. by rewrite IH.
Qed.

Lemma span_none p s : ends p s = true → span p s = ("", s).
Proof. intros Hs. by rewrite <-(span_app p "" s). Qed.

Lemma word_ends s t : word s = true → ends c_space (s +:+ t) = true.
Proof. unfold word. destruct s as [|c s]; [done|]. simpl. by intros [? _]%andb_true_iff. Qed.

Lemma read_word_space w s : word w = true → ends (λ c, negb (c_space c)) s = true →
  read_word (" " +:+ w +:+ s) = (w, s).
Proof.
  intros Hw Hs. unfold read_word. pose proof (word_ends w s Hw) as He.
  change (span c_space (" " +:+ w +:+ s)) with (let '(a, b) := span c_space (w +:+ s) in (String " " a, b)).
  rewrite (span_none _ _ He). cbn [snd]. apply span_app; [|done]. by apply andb_true_iff in Hw as [_ Hw].
Qed.

Lemma py_str_nat n : py_str (Z.of_nat n) = pretty (N.of_nat n).
Proof. by destruct n. Qed.

Lemma read_size_nat n s : Z.of_nat n < 2 ^ 64 → ends is_digit s = true →
  read_size (py_str (Z.of_nat n) +:+ s) = (Z.of_nat n, s).
Proof.
  intros Hn Hs. rewrite py_str_nat. pose proof (pretty_N_digits (N.of_nat n)) as Hd.
  pose proof (int_go_pretty_N false (N.of_nat n)) as Hv. rewrite nat_N_Z in Hv.
  generalize dependent (pretty (N.of_nat n)). intros ds Hd Hv. apply Is_true_true in Hd.
  destruct ds as [|c ds]; [done|]. assert (is_digit c = true) as Hc by (simpl in Hd; by apply andb_true_iff in Hd as [? _]).
  unfold read_size. rewrite span_none; [cbn [snd]|].
  - assert (read_sign (String c ds +:+ s) = (false, String c ds +:+ s)) as ->.
    { destruct c as [[] [] [] [] [] [] [] []]; done. }
    rewrite span_app, Hv by done. simpl. by rewrite decide_True.
  - destruct c as [[] [] [] [] [] [] [] []]; done.
Qed.

(** ** [Serialize] and [Deserialize] *)

Fixpoint body (l : list (string * string)) : string :=
  match l with [] => "" | (k, v) :: l' => (" " +:+ k +:+ " " +:+ v) +:+ body l' end.

Lemma Serialize_body os l :
  foldl (λ os '(k, v), os +:+ (" " +:+ k +:+ " " +:+ v)) os l = os +:+ body l.
Proof.
  revert os. induction l as [|[k v] l IH]; intros os; [by rewrite str_app_nil_r|].
  cbn [foldl body]. by rewrite IH, !str_app_assoc.
Qed.

Lemma body_ends l : ends (λ c, negb (c_space c)) (body l) = true ∧ ends is_digit (body l) = true.
Proof. by destruct l as [|[k v] l]. Qed.

Lemma read_pairs_body l (m : kwargs_t) :
  Forall (λ '(k, v), word k = true ∧ word v = true) l → NoDup l.*1 → Forall (λ kv, m !! kv.1 = None) l →
  read_pairs (length l) (body l) m = list_to_map l ∪ m.
Proof.
  intros Hl. revert m. induction Hl as [|[k v] l [Hk Hv] _ IH]; intros m Hnd Hm; [cbn; by rewrite (left_id_L ∅ (∪))|].
  apply NoDup_cons in Hnd as [Hnk Hnd]. apply Forall_cons in Hm as [Hmk Hm]. cbn [length read_pairs body fst] in *.
  rewrite !str_app_assoc. rewrite read_word_space by done.
  rewrite read_word_space; [|done|by apply body_ends]. rewrite IH; [|done|].
  - change (list_to_map ((k, v) :: l)) with (<[k := v]> (list_to_map l : kwargs_t)).
    transitivity (<[k := v]> (list_to_map l ∪ m)); [symmetry; by apply insert_union_r, not_elem_of_list_to_map_1|].
    apply insert_union_l.
  - apply Forall_forall. intros [k' v'] Hin. cbn [fst]. rewrite lookup_insert_ne.
    + by apply (proj1 (Forall_forall _ _) Hm (k', v')).
    + simpl. intros ->. apply Hnk. by apply (list_elem_of_fmap_2 fst l (k', v')).
Qed.

(** The parameters of a compressor, whatever the order in which they are written,
    are the ones the server reads, when names and values are words: not empty, and
    without white space. *)
Theorem serialize_roundtrip (order : kwargs_t → list (string * string)) kwargs :
  order kwargs ≡ₚ map_to_list kwargs → Z.of_nat (size kwargs) < 2 ^ 64 →
  map_Forall (λ k v, word k = true ∧ word v = true) kwargs →
  Deserialize (Serialize order kwargs) = kwargs.
Proof.
  intros Ho Hsize Hw. unfold Serialize, Deserialize. rewrite Serialize_body, read_size_nat, Nat2Z.id;
    [|rewrite Ho; by rewrite length_map_to_list|by apply body_ends].
  rewrite read_pairs_body, (right_id_L ∅ (∪)).
  - rewrite (list_to_map_proper _ (map_to_list kwargs)) by (rewrite ?Ho; try done; apply NoDup_fst_map_to_list).
    apply list_to_map_to_list.
  - rewrite Ho. by apply map_Forall_to_list.
  - rewrite Ho. apply NoDup_fst_map_to_list.
  - apply Forall_forall. intros kv _. apply lookup_empty.
Qed.
(** ** Names *)

Lemma length_append a s : String.length (a +:+ s) = (String.length a + String.length s)%nat.
Proof. induction a as [|c a IH]; [done|]. simpl. by rewrite IH. Qed.

Lemma app_split a s b :
  a +:+ s = b → a = str_take (String.length b - String.length s) b ∧ s = str_drop (String.length b - String.length s) b.
Proof.
  intros <-. rewrite length_append, Nat.add_sub. induction a as [|c a [IH1 IH2]]; [by destruct s|].
  cbn [String.length str_take str_drop]. simpl. by rewrite <-IH1, <-IH2.
Qed.

Lemma take_drop n b : str_take n b +:+ str_drop n b = b.
Proof. revert b. induction n as [|n IH]; intros [|c b]; [done..|]. exact (f_equal (String c) (IH b)). Qed.

(** The entries of a table whose names end in [suffix], without it. *)
Definition without (suffix : string) {A} (l : list (string * A)) : list (string * A) :=
  omap (λ '(name, x), let n := (String.length name - String.length suffix)%nat in
    if String.eqb (str_drop n name) suffix then Some (str_take n name, x) else None) l.

Lemma od_get_suffix {A} v suffix (l : list (string * A)) : od_get (v +:+ suffix) l = od_get v (without suffix l).
Proof.
  induction l as [|[name x] l IH]; [done|]. cbn [without omap list_omap od_get].
  set (n := (String.length name - String.length suffix)%nat).
  destruct (String.eqb_spec (str_drop n name) suffix) as [Hs|Hs]; cbn [od_get].
  - case_decide as E1; case_decide as E2; try done.
    + destruct E2. by apply app_split.
    + destruct E1. rewrite E2. etransitivity; [|exact (take_drop n name)]. by f_equal.
  - rewrite decide_False; [done|]. intros E. apply Hs. symmetry. by apply (app_split v).
Qed.

(** The compressors that are not decorators. *)
Definition base_ctors : list (string * ctor) :=
  [("onebit", COnebit); ("topk", CTopk); ("randomk", CRandomk); ("dithering", CDithering); ("drive", CDrive)].

Lemma Find_momentum v : Find (v +:+ "_" +:+ "momentum_type") =
  if decide (v = "nesterov") then Done CNesterovMomentum else Fatal.
Proof.
  unfold Find. rewrite (od_get_suffix v).
  change (without _ ctor_map) with [("nesterov", CNesterovMomentum)]. simpl. by case_decide.
Qed.
Lemma Find_ef v : Find (v +:+ "_" +:+ "ef_type") = if decide (v = "vanilla") then Done CVanillaErrorFeedback else Fatal.
Proof.
  unfold Find. rewrite (od_get_suffix v).
  change (without _ ctor_map) with [("vanilla", CVanillaErrorFeedback)]. simpl. by case_decide.
Qed.
Lemma Find_base v : Find (v +:+ "_" +:+ "compressor_type") =
  match od_get v base_ctors with Some c => Done c | None => Fatal end.
Proof. unfold Find. by rewrite (od_get_suffix v). Qed.

(** ** What the registry builds *)
Section create.
Context {R : Type} `{Scalar R, !Native R} {build : Build}.
Context (d : dtype) (sz _size : nat).
Context (read_bool : string → bool) (read_unsigned read_int : string → Z) (read_float : string → R).
Context (device : rng) (lr : R).
Notation construct := (construct sz _size read_bool read_unsigned read_int read_float).
Notation Create := (Create sz _size read_bool read_unsigned read_int read_float).

(** The compressor itself. *)
Definition base (kwargs : kwargs_t) : cres (option (cobj R)) :=
  match kwargs !! "compressor_type" with
  | None => Done None
  | Some v =>
      match od_get v base_ctors with
      | None => Fatal
      | Some c => o ← construct (λ _, Fatal) device lr c kwargs; mret (Some o)
      end
  end.

(** A decorator around what was built; there must be something to decorate. *)
Definition around (inner : cres (option (cobj R))) (f : cobj R → cres (cobj R)) : cres (option (cobj R)) :=
  o ← inner; match o with None => Fatal | Some o => o ← f o; mret (Some o) end.

Definition zeros : list R := replicate (capacity sz _size) s_zero.

Definition with_ef (kwargs : kwargs_t) (inner : cres (option (cobj R))) : cres (option (cobj R)) :=
  match kwargs !! "ef_type" with
  | None => inner
  | Some v => if decide (v = "vanilla") then around inner (λ o, Done (OVanillaErrorFeedback o zeros lr)) else Fatal
  end.

Definition with_momentum (kwargs : kwargs_t) (inner : cres (option (cobj R))) : cres (option (cobj R)) :=
  match kwargs !! "momentum_type" with
  | None => inner
  | Some v =>
      if decide (v = "nesterov") then
        around inner (λ o,
          mu ← HyperParamFinder read_float s_zero kwargs "momentum_mu" false (λ _, true);
          Done (ONesterovMomentum o zeros mu))
      else Fatal
  end.

Lemma HyperParamFinder_delete {T} (read : string → T) dflt t kwargs name optional check :
  name ≠ t → HyperParamFinder read dflt (delete t kwargs) name optional check =
    HyperParamFinder read dflt kwargs name optional check.
Proof. intros Hn. unfold HyperParamFinder. by rewrite lookup_delete_ne. Qed.

(** A compressor reads no parameter of a decorator and creates nothing. *)
Lemma construct_base create t c v kwargs :
  od_get v base_ctors = Some c → t = "ef_type" ∨ t = "momentum_type" →
  construct create device lr c (delete t kwargs) = construct (λ _, Fatal) device lr c (delete t kwargs) ∧
  construct create device lr c kwargs = construct (λ _, Fatal) device lr c kwargs ∧
  construct (λ _, Fatal) device lr c (delete t kwargs) = construct (λ _, Fatal) device lr c kwargs.
Proof.
  intros Hc Ht. apply od_get_Some_elem in Hc.
  assert (c ∈ [COnebit; CTopk; CRandomk; CDithering; CDrive]) as Hin.
  { apply (list_elem_of_fmap_2 snd) in Hc. exact Hc. }
  clear Hc. unfold CompObj.construct, find_k, find_seed. destruct Ht as [-> | ->];
    repeat (apply elem_of_cons in Hin as [->|Hin]; [by rewrite !HyperParamFinder_delete|]); by apply elem_of_nil in Hin.
Qed.

Lemma base_delete t kwargs : t = "ef_type" ∨ t = "momentum_type" → base (delete t kwargs) = base kwargs.
Proof.
  intros Ht. unfold base. rewrite lookup_delete_ne by (by destruct Ht; subst). case_match; [|done].
  case_match eqn:Hc; [|done]. by destruct (construct_base (λ _, Fatal) t _ _ kwargs Hc Ht) as (_ & _ & ->).
Qed.

(** [Create] looks for one type after the other. *)
Lemma Create_S n building_server kwargs :
  Create (S n) building_server device lr kwargs =
  let build t v := c ← Find (v +:+ "_" +:+ t);
    o ← construct (Create n building_server device lr) device lr c kwargs; mret (Some o) in
  match (if building_server then None else kwargs !! "momentum_type") with
  | Some v => build "momentum_type" v
  | None =>
      match kwargs !! "ef_type" with
      | Some v => build "ef_type" v
      | None => match kwargs !! "compressor_type" with Some v => build "compressor_type" v | None => Done None end
      end
  end.
Proof.
  assert (∀ (t : string) ts, list_find (λ t, is_Some (kwargs !! t)) (t :: ts) =
    match kwargs !! t with Some _ => Some (0%nat, t) | None => prod_map S id <$> list_find (λ t, is_Some (kwargs !! t)) ts end) as Hf.
  { intros t ts. cbn [list_find]. destruct (kwargs !! t); [by rewrite decide_True|]. rewrite decide_False; [done|]. by intros []. }
  cbn [CompObj.Create]. unfold types. destruct building_server; rewrite !Hf; cbn [list_find].
  - destruct (kwargs !! "ef_type") eqn:E1; cbn; rewrite ?E1; [done|].
    destruct (kwargs !! "compressor_type") eqn:E2; cbn; by rewrite ?E2.
  - destruct (kwargs !! "momentum_type") eqn:E0; cbn; rewrite ?E0; [done|].
    destruct (kwargs !! "ef_type") eqn:E1; cbn; rewrite ?E1; [done|].
    destruct (kwargs !! "compressor_type") eqn:E2; cbn; by rewrite ?E2.
Qed.

Lemma Create_base n building_server kwargs :
  kwargs !! "ef_type" = None → building_server = true ∨ kwargs !! "momentum_type" = None →
  Create (S n) building_server device lr kwargs = base kwargs.
Proof.
  intros He Hm. rewrite Create_S, He. cbv zeta.
  assert ((if building_server then None else kwargs !! "momentum_type") = None) as ->.
  { destruct Hm as [-> | ->]; [done|by destruct building_server]. }
  unfold base. case_match; [|done]. rewrite Find_base. case_match eqn:Hc; [|done]. cbn [mbind cres_bind].
  by destruct (construct_base (Create n building_server device lr) "ef_type" _ _ kwargs Hc (or_introl eq_refl)) as (_ & -> & _).
Qed.

Lemma Create_ef n building_server kwargs :
  building_server = true ∨ kwargs !! "momentum_type" = None →
  Create (S (S n)) building_server device lr kwargs = with_ef kwargs (base kwargs).
Proof.
  intros Hm. unfold with_ef. destruct (kwargs !! "ef_type") as [v|] eqn:He; [|by apply Create_base].
  rewrite Create_S, He. cbv zeta.
  assert ((if building_server then None else kwargs !! "momentum_type") = None) as ->.
  { destruct Hm as [-> | ->]; [done|by destruct building_server]. }
  rewrite Find_ef. case_decide; [|done]. cbn [mbind cres_bind CompObj.construct].
  rewrite Create_base, base_delete by (rewrite ?lookup_delete_eq, ?lookup_delete_ne; tauto || done).
  unfold around. by destruct (base kwargs) as [[o|]| | |].
Qed.

(** The registry composes what the parameters ask for, in whatever combination:
    the compressor, around it the error feedback, and around that the momentum, which
    the server leaves out although it receives the parameter too; an unknown name,
    or a decorator with nothing to decorate, ends the process. Three nested
    constructors are all there can be. *)
Theorem create_layers n building_server kwargs :
  Create (3 + n) building_server device lr kwargs =
  if building_server then with_ef kwargs (base kwargs) else with_momentum kwargs (with_ef kwargs (base kwargs)).
Proof.
  destruct building_server; [by apply Create_ef; left|]. unfold with_momentum.
  destruct (kwargs !! "momentum_type") as [v|] eqn:Hm; [|by apply Create_ef; right].
  cbn [Nat.add]. rewrite Create_S, Hm. cbv beta iota zeta. rewrite Find_momentum. case_decide; [|done].
  cbn [mbind cres_bind CompObj.construct]. rewrite Create_ef by (right; apply lookup_delete_eq).
  rewrite base_delete by tauto. unfold with_ef, around. rewrite lookup_delete_ne by done.
  destruct (kwargs !! "ef_type"); [case_decide|]; try done;
    by destruct (base kwargs) as [[o|]| | |]; cbn; try destruct (HyperParamFinder _ _ _ _ _ _).
Qed.

(** *** With the parameters of the MXNet trainer *)

Lemma word_py_str z : word (py_str z) = true.
Proof.
  unfold word. apply andb_true_iff. split.
  - pose proof (py_int_str z) as E. by destruct (py_str z).
  - apply Is_true_true. eapply str_forall_impl, pretty_Z_not_space.
    intros c. destruct c as [[] [] [] [] [] [] [] []]; vm_compute; done.
Qed.

(** From [compression_params] to the compressors: the attributes that
    [_register_compressor] sets are what [byteps_declare_tensor] sends, and from
    them the worker builds Nesterov momentum around error feedback around the
    compressor, and the server, from the serialized parameters, the same error
    feedback and compressor without the momentum. *)
Theorem trainer_parameters_build n (p : Mx.gparam (R := R)) v k mu o order :
  Mx.gp_attrs p = [] → v ∈ ["topk"; "randomk"; "dithering"] → word mu = true →
  let cp := [("compressor", Mx.VStr v); ("k", Mx.VInt k); ("ef", Mx.VStr "vanilla"); ("momentum", Mx.VStr "nesterov")] in
  ∃ p' args, Mx.register_param cp (Some [("momentum", Mx.VFloat mu)]) p = Ok p' ∧
    Mx.declare_args [] (filter (λ kv, py_startswith "byteps_" kv.1 = true) (Mx.gp_attrs p')) = Ok args ∧
    let kwargs := list_to_map args : kwargs_t in
    (order kwargs ≡ₚ map_to_list kwargs → base kwargs = Done (Some o) →
     Create (3 + n) false device lr kwargs
       = Done (Some (ONesterovMomentum (OVanillaErrorFeedback o zeros lr) zeros (read_float mu))) ∧
     Create (3 + n) true device lr (Deserialize (Serialize order kwargs))
       = Done (Some (OVanillaErrorFeedback o zeros lr))).
Proof.
  intros Hp Hv Hmu cp. destruct p as [name grad attrs data gradient]. simpl in Hp. subst attrs.
  set (args := [("compressor_type", v); ("ef_type", "vanilla"); ("momentum_type", "nesterov");
    ("compressor_k", py_str k); ("momentum_mu", mu)]).
  assert (∃ p', Mx.register_param cp (Some [("momentum", Mx.VFloat mu)])
      (Mx.GParam name grad [] data gradient) = Ok p' ∧
    Mx.declare_args [] (filter (λ kv, py_startswith "byteps_" kv.1 = true) (Mx.gp_attrs p')) = Ok args)
    as (p' & E1 & E2).
  { repeat (apply elem_of_cons in Hv as [->|Hv]; [by eexists|]). by apply elem_of_nil in Hv. }
  exists p', args. split_and!; [done|done|]. intros kwargs Ho Hb.
  assert (kwargs !! "ef_type" = Some "vanilla") as He by done.
  assert (kwargs !! "momentum_type" = Some "nesterov") as Hm by done.
  assert (kwargs !! "momentum_mu" = Some mu) as Hmm by done.
  rewrite serialize_roundtrip, !create_layers; [|done|by vm_compute|].
  - unfold with_momentum, with_ef, around, HyperParamFinder. rewrite Hm, He, Hb, Hmm. by rewrite !decide_True.
  - unfold kwargs, args. cbn [list_to_map foldr]. repeat (apply map_Forall_insert_2; [split; [|]|]); try done.
    + repeat (apply elem_of_cons in Hv as [->|Hv]; [done|]). by apply elem_of_nil in Hv.
    + apply word_py_str.
Qed.
End create.
End Registry.
