(* ===== verification/CompDemo.v ===== *)
(** * The compressors, evaluated

    The theorems about the compressors at concrete tensors of rational numbers, with
    buffers of 32 elements of four bytes. *)

From Stdlib Require Import QArith Qcanon.
From S2P Require Import Prelude PyStr Tensor BitIO Compressors CompressorProofs Dithering Drive Exact CompObj ErrorFeedback MXNet Registry.
#[global] Open Scope Z_scope.

Module CompDemo.
Import BitIO Comp CompProofs Dither Drive CompObj EF Registry.

Lemma round_next_pow2_witness : 0 < 37 < 2 ^ 32 ∧ RoundNextPow2 37 = 64.
Proof. split; [lia|]. rewrite round_next_pow2 by lia. reflexivity. Defined.

Notation q := qc_of_Z.

(** A tensor in the memory of its buffer. *)
Definition mem (l : list Z) : list Qc := (q <$> l) ++ replicate (32 - length l) (q 0).

Lemma onebit_spec_witness :
  ∃ words, onebit_compress 4 128 true (mem [-2; 1; 3]) 3 = Done (Signs words (q 2)) ∧
    ∃ dst', onebit_decompress float32 4 words (q 2) (mem [7; 7; 7]) = Done dst' ∧
      dst' !! 0%nat = Some (q (-2)) ∧ dst' !! 1%nat = Some (q 2).
Proof.
  destruct (onebit_spec float32 4 128 ltac:(lia) true (mem [-2; 1; 3]) 3) as (words & E & HD & _); [lia|done|by vm_compute|].
  assert (onebit_scale true (take 3 (mem [-2; 1; 3])) = q 2) as Es by (apply Qc_is_canon; by vm_compute).
  rewrite Es in E, HD. exists words. split; [exact E|]. destruct (HD (mem [7; 7; 7])) as (dst' & E2 & _ & Hv); [by vm_compute|].
  exists dst'. split; [exact E2|]. split.
  - rewrite (Hv 0%nat (q (-2))) by (lia || done). apply (f_equal Some), Qc_is_canon. by vm_compute.
  - rewrite (Hv 1%nat (q 1)) by (lia || done). apply (f_equal Some), Qc_is_canon. by vm_compute.
Defined.

(** *** Heaps that are sorted lists *)
Definition smaller (a b : nat * Qc) : Prop := s_leb (s_abs a.2) (s_abs b.2) = true.
#[export] Instance smaller_dec a b : Decision (smaller a b).
Proof. unfold smaller. apply _. Defined.
#[export] Instance smaller_trans : Transitive smaller.
Proof. intros a b c. apply s_leb_trans. Qed.
#[export] Instance smaller_total : Total smaller.
Proof. intros a b. apply s_leb_total. Qed.

Definition push_heap (l : list (nat * Qc)) : list (nat * Qc) := merge_sort smaller l.
Definition pop_heap (l : list (nat * Qc)) : list (nat * Qc) :=
  match l with [] => [] | x :: l' => merge_sort smaller l' ++ [x] end.

Lemma sorted_heaps : heap_laws push_heap pop_heap (StronglySorted smaller).
Proof.
  split.
  - constructor.
  - intros l x _. split; [apply merge_sort_Permutation|apply (StronglySorted_merge_sort smaller)].
  - intros x l _. exists (merge_sort smaller l).
    split_and!; [done|apply merge_sort_Permutation|apply (StronglySorted_merge_sort smaller)].
  - intros x l y Hs Hy. inversion Hs as [|? ? _ Hall]. by apply (proj1 (Forall_forall _ _) Hall).
Qed.

Lemma topk_compress_spec_witness :
  (∃ l, topk_compress 4 128 push_heap pop_heap 2 (mem [-5; 1; 3; 2]) 4 = Done (Pairs l) ∧ length l = 2%nat ∧ NoDup l.*1) ∧
  topk_compress 4 128 push_heap pop_heap 2 (mem [-5; 1; 3]) 3 = Fatal.
Proof.
  destruct (topk_compress_spec 4 128 ltac:(lia) push_heap pop_heap _ sorted_heaps 2 (mem [-5; 1; 3; 2]) 4)
    as [H1 _]; [lia|by vm_compute|by vm_compute; lia|lia|].
  destruct (topk_compress_spec 4 128 ltac:(lia) push_heap pop_heap _ sorted_heaps 2 (mem [-5; 1; 3]) 3)
    as [_ H2]; [lia|by vm_compute|by vm_compute; lia|lia|]. split; [|apply H2; by vm_compute].
  destruct H1 as (l & E & Hl & Hnd & _); [by vm_compute|]. by exists l.
Defined.

(** *** Dithering

    With four levels the elements -2, 0 and 1 are on levels, and come back as they
    were. *)
Lemma dithering_spec_witness :
  ∃ words scale g', dithering_compress Z.log2 float32 4 128 LINEAR MAX 4 (mem [-2; 0; 1]) 3 (set_seed 5)
      = Done (Codes words 16 scale, g') ∧
    ∃ dst', dithering_decompress float32 4 128 LINEAR 4 words 16 scale (mem [7; 7; 7]) = Done dst' ∧
      dst' !! 0%nat = Some (q (-2)) ∧ dst' !! 1%nat = Some (q 0) ∧ dst' !! 2%nat = Some (q 1).
Proof.
  destruct (dithering_spec Z.log2 float32 4 128 ltac:(lia) (λ x _, eq_refl) LINEAR MAX 4 (mem [-2; 0; 1]) 3
    (set_seed 5) [4; 0; 2] (Rng 5 351843762851845) 4) as (words & E & HD & _);
    [by vm_compute; lia|lia|by vm_compute; lia|by vm_compute|done|by vm_compute|by vm_compute|by vm_compute; lia|].
  exists words, (conv float32 (scale_of float32 MAX (take 3 (mem [-2; 0; 1])))), (Rng 5 351843762851845).
  split; [exact E|]. destruct (HD (mem [7; 7; 7])) as (dst' & E2 & _ & Hv); [by vm_compute; lia|].
  exists dst'. split; [exact E2|]. split_and!.
  - rewrite (Hv 0%nat (q (-2)) 4) by done. apply (f_equal Some), Qc_is_canon. by vm_compute.
  - rewrite (Hv 1%nat (q 0) 0) by done. apply (f_equal Some), Qc_is_canon. by vm_compute.
  - rewrite (Hv 2%nat (q 1) 2) by done. apply (f_equal Some), Qc_is_canon. by vm_compute.
Defined.

(** *** DRIVE, with and without [NDEBUG] *)
#[export] Instance release : Build := {| NDEBUG := true |}.
Definition debug : Build := {| NDEBUG := false |}.

Lemma hadamard_rotate_spec_witness :
  ∃ dst1 dst2, HadamardRotate float32 (mem [1; 2; 3; 4]) (2 ^ 2) = Done dst1 ∧
    HadamardRotate float32 dst1 (2 ^ 2) = Done dst2 ∧ dst1 !! 0%nat = Some (q 10) ∧ dst2 !! 1%nat = Some (q 8).
Proof.
  destruct (hadamard_rotate_spec float32 2 (mem [1; 2; 3; 4])) as (dst1 & dst2 & E1 & E2 & Hv & _); [done|by vm_compute; lia|].
  exists dst1, dst2. split_and!; [exact E1|exact E2| |].
  - destruct (Hv 0%nat (q 1)) as [-> _]; [by vm_compute; lia|done|]. apply (f_equal Some), Qc_is_canon. by vm_compute.
  - destruct (Hv 1%nat (q 2)) as [_ ->]; [by vm_compute; lia|done|]. apply (f_equal Some), Qc_is_canon. by vm_compute.
Defined.

Lemma drive_spec_witness :
  (∃ words g1, drive_compress float32 4 128 9 (mem [1; -2; 3]) (2 ^ 5) (set_seed 9)
      = Done (Signs words (drive_scale 5 (mem [1; -2; 3])), g1) ∧
    ∃ dst' g3, drive_decompress float32 4 9 words (drive_scale 5 (mem [1; -2; 3])) (mem []) (set_seed 9) = Done (dst', g3)) ∧
  drive_compress (build := debug) float32 4 128 9 (mem [1; -2; 3]) (2 ^ 5) (set_seed 9) = Fatal.
Proof.
  split.
  - destruct (drive_spec (build := release) float32 4 128 9 (mem [1; -2; 3]) 5 1 (set_seed 9)) as (words & g1 & E & HD);
      [lia|done|by vm_compute; lia|lia|].
    exists words, g1. split; [exact E|]. destruct (HD (mem []) (set_seed 9)) as (dst' & g3 & E2 & _); [by vm_compute; lia|].
    by exists dst', g3.
  - apply (drive_spec (build := debug) float32 4 128 9 (mem [1; -2; 3]) 5 1 (set_seed 9)); [lia|done|by vm_compute; lia|lia].
Defined.

Lemma signs_never_flip_witness : (flip_signs 9 (mem [1; -2; 3]) (set_seed 9)).1 = mem [1; -2; 3].
Proof. apply signs_never_flip. Defined.

(** *** Error feedback and momentum, around the 1-bit compressor *)
Definition grads : list (Qc * list Qc) := [(q 1, mem [1; -2; 3]); (q 2, mem [4; 0; -1])].

Lemma grads_ok : Forall (λ '(lr, grad), lr ≠ s_zero ∧ (capacity 4 128 ≤ length grad)%nat) grads.
Proof.
  apply Forall_forall. intros [lr grad] Hin. unfold grads in Hin. rewrite !elem_of_cons, elem_of_nil in Hin.
  destruct Hin as [[= -> ->]|[[= -> ->]|[]]]; (split; [by vm_compute|by vm_compute; lia]).
Qed.


(** The velocities of the first element are 1 and 5, its updates 2 and 9. *)
Lemma momentum_feedback_telescopes_witness :
  ∃ decs inner' error' mom', ef_run Z.log2 push_heap pop_heap float32 4 128
      (ONesterovMomentum (OVanillaErrorFeedback (OOnebit true) (mem []) (q 1)) (mem []) (q 1)) 3 grads
        = Done (decs, ONesterovMomentum (OVanillaErrorFeedback inner' error' (q 2)) mom' (q 1)) ∧
    s_add (sent_sum grads.*1 decs 0) (s_mul (q 2) (default (q 0) (error' !! 0%nat))) = q 20.
Proof.
  destruct (momentum_feedback_telescopes Z.log2 push_heap pop_heap float32 4 128 ltac:(lia) 3 (λ o, o = OOnebit true)
    (Accounts0 := onebit_accounts Z.log2 push_heap pop_heap float32 4 128 ltac:(lia) 3 true ltac:(lia) eq_refl)
    (OOnebit true) (mem []) (mem []) (q 1) (q 1) grads) as (decs & inner' & error' & mom' & E & Hv).
  - done.
  - by vm_compute; lia.
  - done.
  - done.
  - apply grads_ok.
  - exists decs, inner', error', mom'. split; [exact E|]. etransitivity; [apply (Hv 0%nat); lia|].
    apply Qc_is_canon. by vm_compute.
Defined.

(** *** The registry *)
Definition kwargs : kwargs_t := {["compressor_type" := "topk"; "compressor_k" := "3"; "ef_type" := "vanilla"]}.

Lemma serialize_roundtrip_witness : Deserialize (Serialize map_to_list kwargs) = kwargs.
Proof. apply serialize_roundtrip; [done|by vm_compute|]. repeat (apply map_Forall_insert_2; [done|]). apply map_Forall_empty. Defined.

Definition read_nat (s : string) : Z := default 0 (py_int_opt s).
Definition read_num (s : string) : Qc := q (read_nat s).

Lemma trainer_parameters_build_witness :
  ∃ kwargs : kwargs_t,
    Create 4 128 (λ _, true) read_nat read_nat read_num 3 false (set_seed 1) (q 1) kwargs
      = Done (Some (ONesterovMomentum (OVanillaErrorFeedback (OTopk 3) (zeros 4 128) (q 1)) (zeros 4 128) (q 2))) ∧
    Create 4 128 (λ _, true) read_nat read_nat read_num 3 true (set_seed 1) (q 1)
        (Deserialize (Serialize map_to_list kwargs))
      = Done (Some (OVanillaErrorFeedback (OTopk 3) (zeros 4 128) (q 1))).
Proof.
  destruct (trainer_parameters_build 4 128 (λ _, true) read_nat read_nat read_num (set_seed 1) (q 1) 0
    (Mx.GParam "w" true [] (Mx.Array float32 [] []) (Mx.Array float32 [] [])) "topk" 3 "2" (OTopk 3) map_to_list)
    as (p' & args & E1 & E2 & Hc); [done|left|done|].
  exists (list_to_map args). apply Hc; [done|]. injection E1 as <-. injection E2 as <-. by vm_compute.
Defined.
End CompDemo.
