(* ===== verification/Server.v ===== *)
(** * The parameter server, [byteps/server]

    [server.h] and [server.cc]: the handler of requests, which threads call one at a
    time, the threads of the engine with their queues, and the assignment of keys to
    threads. A key is the part of a tensor; its state is the stored buffer, the
    requests of the current round and the pulls that wait for it. *)

From S2P Require Import Prelude PyStr Tensor BitIO Compressors CompressorProofs Dithering Drive Exact CompObj.

Module Server.
Import BitIO Comp CompProofs Drive CompObj.

(** ** Commands *)

Inductive RequestType :=
  | kDefaultPushPull | kRowSparsePushPull | kCompressedPushPull | kTopKPushPull | kFindMin | kFindMax.
Definition request_types : list RequestType :=
  [kDefaultPushPull; kRowSparsePushPull; kCompressedPushPull; kTopKPushPull; kFindMin; kFindMax].
#[export] Instance RequestType_eq_dec : EqDecision RequestType.
Proof. solve_decision. Defined.
Definition type_index (t : RequestType) : Z :=
  match t with
  | kDefaultPushPull => 0 | kRowSparsePushPull => 1 | kCompressedPushPull => 2
  | kTopKPushPull => 3 | kFindMin => 4 | kFindMax => 5
  end.

(** [GetCommandType] of the workers and [DepairDataHandleType] of the server, where
    the square root is rounded down. *)
Definition GetCommandType (requestType : RequestType) (d : Z) : Z :=
  let m := type_index requestType in (m + d) * (m + d + 1) / 2 + d.
Definition DepairDataHandleType (cmd : Z) : Z * Z :=
  let w := (Z.sqrt (8 * cmd + 1) - 1) / 2 in
  let t := (w * w + w) / 2 in
  let y := cmd - t in (w - y, y).

(** ** Threads of keys *)

(** [GetThreadID]: the first of the threads with the least to do gets a new key;
    [len = 0] is a pull, for which the key must be known. *)
Fixpoint least (i : nat) (loads : list Z) (min_index : option nat) (min_load : Z) : option nat :=
  match loads with
  | [] => min_index
  | load :: loads' => if decide (load < min_load) then least (S i) loads' (Some i) load
                      else least (S i) loads' min_index min_load
  end.

Record threads : Type := Threads { hash_cache_ : gmap Z nat; acc_load_ : list Z }.
Definition GetThreadID (t : threads) (key len : Z) : cres (nat * threads) :=
  match hash_cache_ t !! key with
  | Some i => Done (i, t)
  | None =>
      if decide (len = 0) then Fatal
      else
        match least 0 (acc_load_ t) None (2 ^ 64 - 1) with
        | None => Fatal
        | Some i => Done (i, Threads (<[key := i]> (hash_cache_ t))
                               (alter (λ load, wrap 64 (load + len)) i (acc_load_ t)))
        end
  end.

Section server.
Context {R : Type} `{Scalar R, !Native R} {build : Build}.
Context (flog2 : Z → Z) (push_heap pop_heap : list (nat * R) → list (nat * R)) (d : dtype) (sz : nat).
Context (read_bool : string → bool) (read_unsigned read_int : string → Z) (read_float : string → R).
Context (device : rng) (lr : R).

(** ** The state of a key *)

(** What a request carries: a tensor or a compressed one. *)
Inductive payload := Raw (l : list R) | Packed (c : compressed R).

(** [updates->merged.tensor] is null, the stored buffer or the compressor's. *)
Inductive pointer := ToStore | ToBuf.

(** [stored->len] in elements and [stored->tensor], all of the aligned memory;
    [updates->request], the senders; the compressor with its buffer; and the four maps
    of the threads, which are indexed by the thread of the key, always the same,
    and the key. *)
Record key_state : Type := Key {
  k_len : nat;
  k_tensor : option (list R);
  k_request : list nat;
  k_merged : option pointer;
  k_compressor : option (cobj R);
  k_buf : payload;
  is_push_finished_ : bool;
  pull_cnt_ : nat;
  seen_sender_ : gset nat;
  q_pull_reqmeta_ : list nat
}.

Definition new_key : key_state := Key 0 None [] None None (Raw []) false 0 ∅ [].
Definition set_tensor (t : list R) (k : key_state) : key_state :=
  Key (k_len k) (Some t) (k_request k) (k_merged k) (k_compressor k) (k_buf k) (is_push_finished_ k) (pull_cnt_ k)
    (seen_sender_ k) (q_pull_reqmeta_ k).
Definition set_request (r : list nat) (k : key_state) : key_state :=
  Key (k_len k) (k_tensor k) r (k_merged k) (k_compressor k) (k_buf k) (is_push_finished_ k) (pull_cnt_ k)
    (seen_sender_ k) (q_pull_reqmeta_ k).
Definition set_merged (p : pointer) (k : key_state) : key_state :=
  Key (k_len k) (k_tensor k) (k_request k) (Some p) (k_compressor k) (k_buf k) (is_push_finished_ k) (pull_cnt_ k)
    (seen_sender_ k) (q_pull_reqmeta_ k).
Definition set_compressor (o : cobj R) (b : payload) (k : key_state) : key_state :=
  Key (k_len k) (k_tensor k) (k_request k) (k_merged k) (Some o) b (is_push_finished_ k) (pull_cnt_ k)
    (seen_sender_ k) (q_pull_reqmeta_ k).
Definition set_pulls (finished : bool) (cnt : nat) (seen : gset nat) (q : list nat) (k : key_state) : key_state :=
  Key (k_len k) (k_tensor k) (k_request k) (k_merged k) (k_compressor k) (k_buf k) finished cnt seen q.

(** The size of the stored buffer: aligned for the compressors. *)
Definition stored_size (k : key_state) : nat := Align sz (k_len k * sz).

(** Messages of the engine; those of a push hold what was received. *)
Inductive message := COPY_FIRST (src : payload) | SUM_RECV (src : payload) | ALL_RECV.
Inductive response := PushResponse (sender : nat) | PullResponse (sender : nat) (data : payload).

(** [volatile bool] flags and the number of workers. *)
Record config : Type := Config { sync_mode_ : bool; is_engine_blocking_ : bool; NumWorkers : nat }.

(** ** Buffers *)

(** [bps_reducer_->copy] and [bps_reducer_->sum] of [n] elements. *)
Definition copy (n : nat) (dst src : list R) : cres (list R) :=
  if decide (n ≤ length dst ∧ n ≤ length src)%nat then Done (take n src ++ drop n dst) else Undef.
Definition sum (n : nat) (dst src : list R) : cres (list R) :=
  fold_c (λ dst i, x ← load dst i; y ← load src i; store_at dst i (conv d (s_add x y))) dst (seq 0 n).

(** What a pointer to floating-point numbers finds. *)
Definition as_tensor (p : payload) : cres (list R) := match p with Raw l => Done l | Packed _ => Undef end.
Definition payload_bytes (p : payload) : nat :=
  match p with Raw l => (length l * sz)%nat | Packed c => compressed_size sz c end.

(** [SendPullResponse]: the data is what is in the buffer the pointer refers to. *)
Definition merged_data (k : key_state) : cres payload :=
  match k_merged k with
  | None => Fatal
  | Some ToStore => t ← match k_tensor k with Some t => Done t | None => Fatal end; mret (Raw (take (k_len k) t))
  | Some ToBuf => mret (k_buf k)
  end.

(** ** [BytePSHandler] *)
Context (cf : config).

(** [kCompressedPushPull] registers the compressor; the requests are answered when
    all workers have sent one. *)
Definition handle_register (sender : nat) (content : string) (k : key_state) : cres (key_state * list response) :=
  k ← match k_compressor k with
      | Some _ => mret k
      | None =>
          o ← Create sz (stored_size k) read_bool read_unsigned read_int read_float 3 true device lr
                (Deserialize content);
          match o with
          | None => Fatal
          | Some o => mret (set_compressor o (k_buf k) k)
          end
      end;
  let request := k_request k ++ [sender] in
  if decide (length request < NumWorkers cf)%nat then mret (set_request request k, [])
  else mret (set_request [] k, PushResponse <$> request).

(** The first push of every worker allocates the buffer, when the last one comes. *)
Definition init_push (sender : nat) (recved : payload) (k : key_state) : cres (key_state * list response) :=
  let request := k_request k ++ [sender] in
  if decide (length request < NumWorkers cf)%nat then mret (set_request request k, [])
  else
    l ← as_tensor recved;
    let aligned := (Align sz (length l * sz) / sz)%nat in
    t ← copy (length l) (replicate aligned s_zero) l;
    mret (Key (length l) (Some t) [] (k_merged k) (k_compressor k) (k_buf k) (is_push_finished_ k) (pull_cnt_ k)
            (seen_sender_ k) (q_pull_reqmeta_ k), PushResponse <$> request).

(** A push of a round: the first one is copied, the others are added, by the
    engine; asynchronously everything is added at once. With blocking engines it is
    added to [merged.tensor], which may be null. *)
Definition push (sender : nat) (recved : payload) (tensor : list R) (k : key_state) :
    cres (key_state * list response * list message) :=
  '(k, ms) ← match k_request k with
    | [] =>
        if sync_mode_ cf then mret (k, [COPY_FIRST recved])
        else
          l ← as_tensor recved;
          t ← sum (length l) tensor l;
          mret (set_tensor t k, [])
    | _ :: _ =>
        bps_check (sync_mode_ cf);;
        if is_engine_blocking_ cf then
          match k_merged k with
          | Some ToStore =>
              l ← as_tensor recved;
              t ← sum (length l) tensor l;
              mret (set_tensor t k, [])
          | _ => Undef
          end
        else mret (k, [SUM_RECV recved])
    end;
  let request := k_request k ++ [sender] in
  if sync_mode_ cf && bool_decide (length request = NumWorkers cf) then
    if is_engine_blocking_ cf then
      match k_merged k with
      | Some ToStore => mret (set_request [] k, [PushResponse sender], ms)
      | _ => Undef
      end
    else mret (set_request [] k, [PushResponse sender], ms ++ [ALL_RECV])
  else if negb (sync_mode_ cf) then mret (set_request [] k, [PushResponse sender], ms)
  else mret (set_request request k, [PushResponse sender], ms).

(** A pull is answered when the pushes are finished, once per worker; otherwise it
    waits for the engine. *)
Definition count_pull (sender : nat) (k : key_state) : key_state :=
  let cnt := S (pull_cnt_ k) in
  if decide (cnt = NumWorkers cf) then set_pulls false 0 ∅ (q_pull_reqmeta_ k) k
  else set_pulls (is_push_finished_ k) cnt ({[sender]} ∪ seen_sender_ k) (q_pull_reqmeta_ k) k.
Definition pull (sender : nat) (k : key_state) : cres (key_state * list response) :=
  match k_tensor k with
  | None => Fatal
  | Some _ =>
      if is_engine_blocking_ cf || negb (sync_mode_ cf) then
        data ← merged_data k; mret (k, [PullResponse sender data])
      else if is_push_finished_ k && bool_decide (sender ∉ seen_sender_ k) then
        data ← merged_data k; mret (count_pull sender k, [PullResponse sender data])
      else mret (set_pulls (is_push_finished_ k) (pull_cnt_ k) (seen_sender_ k) (q_pull_reqmeta_ k ++ [sender]) k, [])
  end.

(** ** [BytePSServerEngineThread]

    A message is prepared before the switch: decompressed, or the result of the
    round made available, compressed if there is a compressor. *)
Definition prepare (m : message) (k : key_state) : cres (key_state * message) :=
  match k_compressor k with
  | Some o =>
      match m with
      | ALL_RECV =>
          t ← match k_tensor k with Some t => Done t | None => Fatal end;
          '(c, t, o) ← Compress flog2 push_heap pop_heap d sz (stored_size k) lr o t (k_len k);
          mret (set_merged ToBuf (set_compressor o (Packed c) (set_tensor t k)), m)
      | COPY_FIRST src | SUM_RECV src =>
          bps_check (bool_decide (payload_bytes src ≤ k_len k * sz)%nat);;
          match src with
          | Raw _ => Undef
          | Packed c =>
              '(l, o) ← Decompress d sz (stored_size k) o c (replicate (capacity sz (stored_size k)) s_zero);
              mret (set_compressor o (Raw l) k,
                match m with COPY_FIRST _ => COPY_FIRST (Raw l) | _ => SUM_RECV (Raw l) end)
          end
      end
  | None => match m with ALL_RECV => mret (set_merged ToStore k, m) | _ => mret (k, m) end
  end.

(** The loop over the waiting pulls; [kept] are those that stay. *)
Fixpoint answer_pulls (q kept : list nat) (k : key_state) : cres (key_state * list response) :=
  match q with
  | [] => mret (set_pulls (is_push_finished_ k) (pull_cnt_ k) (seen_sender_ k) kept k, [])
  | sender :: q' =>
      '(k, kept, rs) ← (if decide (sender ∉ seen_sender_ k) then
          data ← merged_data k;
          mret (set_pulls (is_push_finished_ k) (S (pull_cnt_ k)) ({[sender]} ∪ seen_sender_ k) (q_pull_reqmeta_ k) k,
                kept, [PullResponse sender data])
        else mret (k, kept ++ [sender], []));
      if decide (pull_cnt_ k = NumWorkers cf) then mret (set_pulls false 0 ∅ (kept ++ q') k, rs)
      else '(k, rs') ← answer_pulls q' kept k; mret (k, rs ++ rs')
  end.

Definition execute (m : message) (k : key_state) : cres (key_state * list response) :=
  t ← match k_tensor k with Some t => Done t | None => Fatal end;
  match m with
  | COPY_FIRST src => l ← as_tensor src; t ← copy (k_len k) t l; mret (set_tensor t k, [])
  | SUM_RECV src => l ← as_tensor src; t ← sum (k_len k) t l; mret (set_tensor t k, [])
  | ALL_RECV =>
      answer_pulls (q_pull_reqmeta_ k) []
        (set_pulls true (pull_cnt_ k) (seen_sender_ k) (q_pull_reqmeta_ k) k)
  end.

(** ** The server

    The keys, the queues of the engine's threads and the message each of them is
    at work on. *)
Record server : Type := Server {
  srv_keys : gmap Z key_state;
  srv_threads : threads;
  engine_queues_ : list (list (Z * message));
  engine_msgs : list (option (Z * message))
}.
Inductive request :=
  | Register (sender : nat) (key : Z) (content : string)
  | Push (sender : nat) (key : Z) (recved : payload)
  | Pull (sender : nat) (key : Z).

Definition key_of (s : server) (key : Z) : key_state := default new_key (srv_keys s !! key).
Definition put_key (key : Z) (k : key_state) (s : server) : server :=
  Server (<[key := k]> (srv_keys s)) (srv_threads s) (engine_queues_ s) (engine_msgs s).
Definition with_threads (t : threads) (s : server) : server :=
  Server (srv_keys s) t (engine_queues_ s) (engine_msgs s).
Definition enqueue (tid : nat) (ms : list (Z * message)) (s : server) : server :=
  Server (srv_keys s) (srv_threads s) (alter (λ q, q ++ ms) tid (engine_queues_ s)) (engine_msgs s).

Definition BytePSHandler (r : request) (s : server) : cres (server * list response) :=
  match r with
  | Register sender key content =>
      '(k, rs) ← handle_register sender content (key_of s key);
      mret (put_key key k s, rs)
  | Push sender key recved =>
      let k := key_of s key in
      match k_tensor k with
      | None => '(k, rs) ← init_push sender recved k; mret (put_key key k s, rs)
      | Some tensor =>
          '(tid, t) ← GetThreadID (srv_threads s) key (Z.of_nat (payload_bytes recved));
          '(k, rs, ms) ← push sender recved tensor k;
          mret (enqueue tid (pair key <$> ms) (with_threads t (put_key key k s)), rs)
      end
  | Pull sender key =>
      let k := key_of s key in
      t ← (if is_engine_blocking_ cf || negb (sync_mode_ cf) then mret (srv_threads s)
           else match k_tensor k with None => Fatal
                | Some _ => '(_, t) ← GetThreadID (srv_threads s) key 0; mret t end);
      '(k, rs) ← pull sender k;
      mret (with_threads t (put_key key k s), rs)
  end.

(** One step of the engine's thread [i], if it has anything to do. *)
Definition engine_step (i : nat) (s : server) : option (cres (server * list response)) :=
  match engine_msgs s !! i, engine_queues_ s !! i with
  | Some (Some (key, m)), _ =>
      Some ('(k, rs) ← execute m (key_of s key);
            let s' := put_key key k s in
            mret (Server (srv_keys s') (srv_threads s') (engine_queues_ s') (<[i := None]> (engine_msgs s')), rs))
  | Some None, Some ((key, m) :: q) =>
      Some ('(k, m) ← prepare m (key_of s key);
            let s' := put_key key k s in
            mret (Server (srv_keys s') (srv_threads s') (<[i := q]> (engine_queues_ s'))
                    (<[i := Some (key, m)]> (engine_msgs s')), []))
  | _, _ => None
  end.
End server.
Arguments payload : clear implicits.
Arguments key_state : clear implicits.
Arguments message : clear implicits.
Arguments response : clear implicits.
Arguments server : clear implicits.
Arguments request : clear implicits.
End Server.
