(* ===== verification/ServerProofs.v ===== *)
(** * Rounds of the server

    The workers and the server on one key: every worker pushes, and pulls when its
    push has been acknowledged; the next round starts when all have their result.
    Requests come in any order and at any time between the steps of the engine. *)

From S2P Require Import Prelude Tensor BitIO Compressors CompressorProofs Dithering Drive Exact CompObj Server.

Module ServerProofs.
Import BitIO Comp CompProofs CompObj Server.

(** ** Commands and threads *)

(** The command of a request and its type are each other's encoding, for every type of
    request and data type, as long as it is computed without overflow. *)
Theorem command_roundtrip t y : 0 ≤ y → DepairDataHandleType (GetCommandType t y) = (type_index t, y).
Proof.
  intros Hy. unfold DepairDataHandleType, GetCommandType. set (m := type_index t).
  assert (0 ≤ m) by (unfold m; by destruct t). set (n := m + y).
  assert (∃ T, n * (n + 1) = 2 * T) as [T HT].
  { destruct (Z.Even_or_Odd n) as [[q Hq]|[q Hq]]; [exists (q * (n + 1))|exists (n * (q + 1))]; rewrite Hq; ring. }
  rewrite HT, (Z.mul_comm 2 T), Z.div_mul by lia.
  assert ((Z.sqrt (8 * (T + y) + 1) - 1) / 2 = n) as ->.
  { assert (2 * n + 1 ≤ Z.sqrt (8 * (T + y) + 1) < 2 * n + 3) as Hs.
    { split; [apply Z.sqrt_le_square; nia|apply Z.sqrt_lt_square; nia]. }
    symmetry. apply (Z.div_unique_pos _ _ _ (Z.sqrt (8 * (T + y) + 1) - 1 - 2 * n)); lia. }
  replace (n * n + n) with (T * 2) by lia. rewrite Z.div_mul by lia. f_equal; unfold n; lia.
Qed.

Lemma least_none loads : ∀ i best m, Forall (λ l, m ≤ l) loads → least i loads best m = best.
Proof.
  induction loads as [|l loads IH]; intros i best m Hl; [done|]. apply Forall_cons in Hl as [Hl Hls].
  cbn [least]. rewrite decide_False by lia. by apply IH.
Qed.

(** The thread that is chosen has the least load. *)
Lemma least_min loads : ∀ i best m, Exists (λ l, l < m) loads →
  ∃ k l, least i loads best m = Some (i + k)%nat ∧ loads !! k = Some l ∧ Forall (λ l', l ≤ l') loads.
Proof.
  induction loads as [|l loads IH]; intros i best m Hex; [by apply Exists_nil in Hex|]. cbn [least].
  destruct (decide (Exists (λ l', l' < Z.min l m) loads)) as [Hin|Hno].
  - assert (∃ k l', least (S i) loads (if decide (l < m) then Some i else best) (if decide (l < m) then l else m)
      = Some (S i + k)%nat ∧ loads !! k = Some l' ∧ Forall (λ l'', l' ≤ l'') loads) as (k & l' & E & Hk & Hall).
    { apply IH. eapply Exists_impl; [exact Hin|]. intros x Hx. simpl in Hx. case_decide; lia. }
    exists (S k), l'. rewrite Nat.add_succ_r. split; [by case_decide|]. split; [done|].
    constructor; [|done]. apply Exists_exists in Hin as (x & Hx & Hlt). eapply Forall_forall in Hall; [|exact Hx]. lia.
  - apply not_Exists_Forall in Hno; [|intros x; apply _].
    assert (∀ x, x ∈ loads → Z.min l m ≤ x) as Hall.
    { intros x Hx. eapply Forall_forall in Hno; [|exact Hx]. simpl in Hno. lia. }
    assert (l < m) as Hlm.
    { apply Exists_cons in Hex as [?|(x & Hx & Hlt)%Exists_exists]; [done|]. specialize (Hall x Hx). lia. }
    rewrite decide_True by done. exists 0%nat, l. rewrite Nat.add_0_r. split; [|split; [done|]].
    + apply least_none. apply Forall_forall. intros x Hx. specialize (Hall x Hx). lia.
    + constructor; [done|]. apply Forall_forall. intros x Hx. specialize (Hall x Hx). lia.
Qed.

(** Requests for the thread of a key, in their order. *)
Fixpoint assign (t : threads) (calls : list (Z * Z)) : cres (list nat * threads) :=
  match calls with
  | [] => mret ([], t)
  | (key, len) :: calls' =>
      '(i, t) ← GetThreadID t key len;
      '(ids, t) ← assign t calls';
      mret (i :: ids, t)
  end.

(** No two threads differ by more than the largest key. *)
Record balanced (n : nat) (L total : Z) (t : threads) : Prop := {
  bal_length : length (acc_load_ t) = n;
  bal_cache key i : hash_cache_ t !! key = Some i → (i < n)%nat;
  bal_loads a b : a ∈ acc_load_ t → b ∈ acc_load_ t → a ≤ b + L;
  bal_total a : a ∈ acc_load_ t → 0 ≤ a ≤ total
}.

Lemma GetThreadID_ok n L total t key len :
  (0 < n)%nat → balanced n L total t → 0 < len ≤ L → total + len < 2 ^ 64 - 1 →
  ∃ i t', GetThreadID t key len = Done (i, t') ∧ balanced n L (total + len) t' ∧ (i < n)%nat ∧
    hash_cache_ t' !! key = Some i ∧ hash_cache_ t ⊆ hash_cache_ t'.
Proof.
  intros Hn [B1 B2 B3 B4] Hlen Htot. unfold GetThreadID. destruct (hash_cache_ t !! key) as [i|] eqn:Ec.
  - exists i, t. split_and!; [done| |by eapply B2|done|done]. split; [done..|]. intros a Ha. specialize (B4 a Ha). lia.
  - rewrite decide_False by lia. destruct (least_min (acc_load_ t) 0 None (2 ^ 64 - 1)) as (k & l & -> & Hk & Hall).
    { destruct (lookup_lt_is_Some_2 (acc_load_ t) 0) as [l Hl]; [lia|]. apply Exists_exists. exists l.
      apply list_elem_of_lookup_2 in Hl. split; [done|]. specialize (B4 l Hl). lia. }
    pose proof (lookup_lt_Some _ _ _ Hk). pose proof (B4 l (list_elem_of_lookup_2 _ _ _ Hk)) as Hl4.
    do 2 eexists. split; [reflexivity|]. cbn [hash_cache_ Nat.add].
    split_and!; [|lia|by rewrite lookup_insert_eq|by apply insert_subseteq].
    assert (∀ a, a ∈ alter (λ load, wrap 64 (load + len)) k (acc_load_ t) → a = l + len ∨ a ∈ acc_load_ t) as Hin.
    { intros a (j & Ha)%list_elem_of_lookup. destruct (decide (j = k)) as [->|Hne].
      - rewrite list_lookup_alter_eq, Hk in Ha. injection Ha as <-. left. apply wrap_small. simpl. lia.
      - rewrite list_lookup_alter_ne in Ha by done. right. by eapply list_elem_of_lookup_2. }
    split; cbn [acc_load_ hash_cache_].
    + by rewrite length_alter.
    + intros key' i [[-> <-]|[_ Hi]]%lookup_insert_Some; [lia|by eapply B2].
    + intros a b [->|Ha]%Hin [->|Hb]%Hin; [lia|..].
      * eapply Forall_forall in Hall; [|exact Hb]. simpl in Hall. lia.
      * pose proof (B3 a l Ha (list_elem_of_lookup_2 _ _ _ Hk)). lia.
      * by apply B3.
    + intros a [->|Ha]%Hin; [lia|]. specialize (B4 a Ha). lia.
Qed.

(** C36: The keys are spread evenly over the threads of the engine: the loads of two
    threads never differ by more than the length of one key, the thread is one of the
    [n] threads, and a key that is asked for again has the thread it had. *)
Theorem keys_balanced n L calls :
  (0 < n)%nat → 0 ≤ L → Forall (λ c, 0 < c.2 ≤ L) calls → foldr (λ c t, c.2 + t) 0 calls < 2 ^ 64 - 1 →
  ∃ ids t, assign (Threads ∅ (replicate n 0)) calls = Done (ids, t) ∧
    (∀ a b, a ∈ acc_load_ t → b ∈ acc_load_ t → a ≤ b + L) ∧
    Forall (λ i, i < n)%nat ids ∧
    ∀ p q c c' i j, calls !! p = Some c → calls !! q = Some c' → c.1 = c'.1 →
      ids !! p = Some i → ids !! q = Some j → i = j.
Proof.
  intros Hn HL Hcalls Htot.
  assert (∀ total t, balanced n L total t → total + foldr (λ c t, c.2 + t) 0 calls < 2 ^ 64 - 1 →
    ∃ ids t', assign t calls = Done (ids, t') ∧ (∃ total', balanced n L total' t') ∧ hash_cache_ t ⊆ hash_cache_ t' ∧
      Forall2 (λ c i, hash_cache_ t' !! c.1 = Some i) calls ids) as Hloop.
  { clear Htot. induction Hcalls as [|[key len] calls Hlen Hrest IH]; intros total t Hb Ht; cbn [assign foldr fst snd] in *.
    - exists [], t. split_and!; [done|by exists total|done|constructor].
    - assert (0 ≤ foldr (λ c t, c.2 + t) 0 calls) as Hpos by (clear -Hrest; induction Hrest; simpl in *; lia).
      destruct (GetThreadID_ok n L total t key len Hn Hb Hlen) as (i & t1 & E & Hb1 & _ & Hc & Hsub); [lia|].
      destruct (IH (total + len) t1 Hb1) as (ids & t2 & E2 & Hb2 & Hsub2 & Hall); [lia|].
      exists (i :: ids), t2. rewrite E. cbn [mbind cres_bind]. rewrite E2. split_and!; [done|done|by etrans|].
      constructor; [|done]. by eapply lookup_weaken. }
  destruct (Hloop 0 (Threads ∅ (replicate n 0))) as (ids & t & E & [total Hb] & _ & Hall); [|lia|].
  { split; cbn [acc_load_ hash_cache_]; [by rewrite length_replicate|done|..].
    - intros a b [-> _]%elem_of_replicate [-> _]%elem_of_replicate. lia.
    - intros a [-> _]%elem_of_replicate. lia. }
  exists ids, t. split_and!; [done|apply Hb| |].
  - apply Forall_forall. intros i (p & Hi)%list_elem_of_lookup. destruct (Forall2_lookup_r _ _ _ _ _ Hall Hi) as (c & _ & Hc).
    by eapply bal_cache.
  - intros p q c c' i j Hp Hq Hk Hi Hj. pose proof (Forall2_lookup_lr _ _ _ _ _ _ Hall Hp Hi) as E1.
    pose proof (Forall2_lookup_lr _ _ _ _ _ _ Hall Hq Hj) as E2. simpl in E1, E2. congruence.
Qed.
End ServerProofs.
