(* ===== verification/ServerRounds.v ===== *)
(** * Rounds of the server

    The workers and the server on one key: every worker pushes, pulls when its push has
    been acknowledged, and goes on to its next round when it has its result, without
    waiting for the others; [T] rounds in all. Requests come in any order and at any
    time between the steps of the engine.

    The invariant: some number of rounds is over, the workers [arr] have pushed for the
    next one, and those of [late] have still to pull the last result. The theorem: what
    a worker receives is what the buffers hold when the messages are executed in one
    order of arrival; the same for all as long as nobody has pushed again. *)

From S2P Require Import Prelude Tensor BitIO Compressors CompressorProofs Dithering Drive Exact CompObj Server.

Module ServerRounds.
Import BitIO Comp CompProofs Drive CompObj Server.

Section rounds.
Context {R : Type} `{Scalar R, !Native R} {build : Build}.
Context (flog2 : Z → Z) (push_heap pop_heap : list (nat * R) → list (nat * R)) (d : dtype) (sz : nat) (lr : R).
Context (W : nat) (HW : (0 < W)%nat) (T : nat) (HT : (0 < T)%nat) (grad : nat → nat → payload R).
Notation cf := (Config true false W).
Notation push := (Server.push d cf).
Notation pull := (Server.pull cf).
Notation prepare := (Server.prepare flog2 push_heap pop_heap d sz lr).
Notation execute := (Server.execute d cf).
Notation answer_pulls := (Server.answer_pulls cf).
Implicit Types (k : key_state R) (m : message R).

(** ** The system *)

Inductive phase := ToPush | Pushing | ToPull | Pulling | Got (data : payload R).
(** A worker: the round it is in, and how far. *)
Record worker : Type := Worker { w_round : nat; w_phase : phase }.
Definition set_phase (p : phase) (x : worker) : worker := Worker (w_round x) p.

(** The state of the key, the messages for it that wait in the queue of its thread,
    the one the thread is at work on, and the workers. *)
Record sys : Type := Sys {
  y_key : key_state R; y_queue : list (message R); y_cur : option (message R); y_workers : list worker
}.

(** The responses arrive. *)
Definition deliver (rs : list (response R)) (ws : list worker) : list worker :=
  foldl (λ ws r, match r with
    | PushResponse w => alter (set_phase ToPull) w ws
    | PullResponse w data => alter (set_phase (Got data)) w ws
    end) ws rs.

(** A worker pulls when its push is acknowledged, and starts its next round when it
    has its result, whatever the others do. *)
Inductive step : sys → sys → Prop :=
  | st_push w r k t k' rs ms q c ws :
      ws !! w = Some (Worker r ToPush) → k_tensor k = Some t → push w (grad r w) t k = Done (k', rs, ms) →
      step (Sys k q c ws) (Sys k' (q ++ ms) c (deliver rs (<[w := Worker r Pushing]> ws)))
  | st_pull w r k k' rs q c ws :
      ws !! w = Some (Worker r ToPull) → pull w k = Done (k', rs) →
      step (Sys k q c ws) (Sys k' q c (deliver rs (<[w := Worker r Pulling]> ws)))
  | st_prepare k m q k' m' ws :
      prepare m k = Done (k', m') → step (Sys k (m :: q) None ws) (Sys k' q (Some m') ws)
  | st_execute k m q k' rs ws :
      execute m k = Done (k', rs) → step (Sys k q (Some m) ws) (Sys k' q None (deliver rs ws))
  | st_next w r data k q c ws :
      ws !! w = Some (Worker r (Got data)) → (S r < T)%nat →
      step (Sys k q c ws) (Sys k q c (<[w := Worker (S r) ToPush]> ws)).

(** Allocated, and no round under way. *)
Definition reset k : key_state R := Key (k_len k) (k_tensor k) [] (k_merged k) (k_compressor k) (k_buf k) false 0 ∅ [].
Definition initial (s : sys) : Prop :=
  ∃ k t, k_tensor k = Some t ∧ s = Sys (reset k) [] None (replicate W (Worker 0 ToPush)).

(** Worker [v] has pushed its gradient of round [r]. *)
Definition pushed (s : sys) (r v : nat) : Prop :=
  ∃ x, y_workers s !! v = Some x ∧ ((r < w_round x)%nat ∨ w_round x = r ∧ w_phase x ≠ ToPush).

(** ** What the engine does to the buffers *)

Definition apply_msg k m : cres (key_state R) :=
  '(k1, m1) ← prepare m k;
  match m1 with ALL_RECV => mret k1 | _ => '(k2, _) ← execute m1 k1; mret k2 end.
Definition apply_all k (ms : list (message R)) : cres (key_state R) := fold_c apply_msg k ms.

(** The messages of a round in which the workers push in the order [arr]. *)
Definition pushes (r : nat) (arr : list nat) : list (message R) :=
  match arr with [] => [] | w :: arr' => COPY_FIRST (grad r w) :: ((λ w, SUM_RECV (grad r w)) <$> arr') end.
Definition messages (r : nat) (arr : list nat) : list (message R) :=
  pushes r arr ++ (if decide (length arr = W) then [ALL_RECV] else []).

(** The messages of the rounds in which the workers push in the orders [arrs]. *)
Definition rounds (arrs : list (list nat)) : list (message R) := mjoin (imap messages arrs).

(** What the buffers can be, after the rounds [arrs], while the pushes [arr] of the
    next round come in: between two messages of it, or when one has been prepared. *)
Inductive during (k0 : key_state R) (arrs : list (list nat)) (arr : list nat) : key_state R → Prop :=
  | du_between ms k :
      ms `prefix_of` pushes (length arrs) arr → apply_all k0 (rounds arrs ++ ms) = Done k → during k0 arrs arr k
  | du_prepared ms m k1 k m' :
      ms ++ [m] `prefix_of` pushes (length arrs) arr → apply_all k0 (rounds arrs ++ ms) = Done k1 →
      prepare m k1 = Done (k, m') → during k0 arrs arr k.

Lemma apply_all_snoc k ms m k1 k2 :
  apply_all k ms = Done k1 → apply_msg k1 m = Done k2 → apply_all k (ms ++ [m]) = Done k2.
Proof. unfold apply_all. intros E1 E2. rewrite fold_c_app, E1. cbn. by rewrite E2. Qed.

(** The state of [k] with the buffers of [b]. *)
Definition with_buffers k b : key_state R :=
  Key (k_len b) (k_tensor b) (k_request k) (k_merged b) (k_compressor b) (k_buf b)
    (is_push_finished_ k) (pull_cnt_ k) (seen_sender_ k) (q_pull_reqmeta_ k).

Lemma reset_with k b : reset (with_buffers k b) = reset b.
Proof. done. Qed.
Lemma with_reset k : with_buffers k (reset k) = k.
Proof. by destruct k. Qed.

(** The engine only looks at the buffers, and changes nothing else. *)
Lemma prepare_reset m k k' m' : prepare m k = Done (k', m') →
  prepare m (reset k) = Done (reset k', m') ∧ k' = with_buffers k k'.
Proof.
  destruct k as [n t req mg o buf fin cnt seen q]. unfold Server.prepare, reset, with_buffers. cbn.
  unfold mbind, cres_bind, mret, cres_ret, stored_size, bps_check. cbn.
  intros E. repeat case_match; simplify_eq; done.
Qed.

Lemma execute_reset m k k' rs : m ≠ ALL_RECV → execute m k = Done (k', rs) →
  execute m (reset k) = Done (reset k', []) ∧ k' = with_buffers k k' ∧ rs = [].
Proof.
  destruct k as [n t req mg o buf fin cnt seen q]. intros Hm. unfold Server.execute, reset, with_buffers. cbn.
  unfold mbind, cres_bind, mret, cres_ret. cbn. intros E. repeat case_match; simplify_eq; done.
Qed.

(** *** Pushes *)

Lemma pushes_snoc r arr w :
  pushes r (arr ++ [w]) = pushes r arr ++ [match arr with [] => COPY_FIRST (grad r w) | _ => SUM_RECV (grad r w) end].
Proof. destruct arr as [|a arr]; [done|]. cbn [app pushes]. by rewrite fmap_app. Qed.

Lemma push_answered w r t k arr k' rs ms :
  k_request k = arr → (length arr < W)%nat → push w (grad r w) t k = Done (k', rs, ms) →
  k' = set_request (if decide (S (length arr) = W) then [] else arr ++ [w]) k ∧ rs = [PushResponse w] ∧
  pushes r (arr ++ [w]) ++ (if decide (S (length arr) = W) then [ALL_RECV] else []) = pushes r arr ++ ms.
Proof.
  intros Hr Hl. unfold Server.push, mbind, cres_bind, mret, cres_ret, bps_check. cbn. rewrite Hr.
  assert ((length (arr ++ [w]) = W) ↔ S (length arr) = W) as Hiff by (rewrite length_app; simpl; lia).
  rewrite pushes_snoc, <-app_assoc. destruct arr as [|a arr]; cbn; rewrite Hr.
  - case_bool_decide; case_decide; try (simpl in *; tauto); by intros [= <- <- <-].
  - case_bool_decide; case_decide; try (simpl in *; tauto); by intros [= <- <- <-].
Qed.
(** *** Pulls *)

Lemma answer_pulls_ok data q k :
  merged_data k = Done data → NoDup q → (∀ w, w ∈ q → w ∉ seen_sender_ k) → pull_cnt_ k = size (seen_sender_ k) →
  (size (seen_sender_ k) + length q ≤ W)%nat →
  answer_pulls q [] k = Done (
    if decide (q ≠ [] ∧ (size (seen_sender_ k) + length q)%nat = W) then set_pulls false 0 ∅ [] k
    else set_pulls (is_push_finished_ k) (size (seen_sender_ k) + length q) (list_to_set q ∪ seen_sender_ k) [] k,
    (λ w, PullResponse w data) <$> q).
Proof.
  revert k. induction q as [|w q IH]; intros k Hd Hnd Hq Hc Hl; cbn [Server.answer_pulls].
  - rewrite decide_False by tauto. cbn. rewrite Nat.add_0_r, <-Hc. by rewrite (left_id_L ∅ (∪)).
  - apply NoDup_cons in Hnd as [Hw Hnd]. rewrite decide_True by (apply Hq; left). rewrite Hd. cbn [length] in Hl.
    cbn [mbind cres_bind mret cres_ret pull_cnt_ set_pulls NumWorkers].
    set (k1 := set_pulls _ (S (pull_cnt_ k)) _ _ k).
    assert (size (seen_sender_ k1) = S (size (seen_sender_ k))) as Hs.
    { unfold k1. cbn. rewrite size_union, size_singleton by set_solver. done. }
    destruct (decide (S (pull_cnt_ k) = W)) as [Hfull|Hfull].
    + destruct q; [|simpl in Hl; lia]. rewrite decide_True by (simpl; split; [done|lia]). done.
    + rewrite (IH k1); [|done|done| |rewrite Hs; unfold k1; cbn; lia|rewrite Hs; lia].
      2: { intros v Hv. unfold k1. cbn. intros [->%elem_of_singleton|Hs2]%elem_of_union; [done|].
           apply (Hq v); [by right|done]. }
      cbn [mbind cres_bind mret cres_ret]. rewrite Hs. unfold k1. cbn [is_push_finished_ set_pulls length list_to_set seen_sender_].
      assert (∀ n, (S n + length q = n + S (length q))%nat) as Hn by lia. rewrite Hn.
      destruct (decide (q ≠ [] ∧ _)) as [Hy|Hy]; [rewrite decide_True by (split; [done|apply Hy]); done|].
      rewrite decide_False.
      * assert (list_to_set q ∪ ({[w]} ∪ seen_sender_ k) = {[w]} ∪ list_to_set q ∪ seen_sender_ k) as -> by set_solver.
        done.
      * intros [_ E]. apply Hy. split; [intros ->; simpl in E; lia|done].
Qed.

Lemma rounds_one_more arrs arr : rounds (arrs ++ [arr]) = rounds arrs ++ messages (length arrs) arr.
Proof. unfold rounds. rewrite imap_app, join_app. cbn. by rewrite Nat.add_0_r, app_nil_r. Qed.

(** Before anybody has pushed again, the buffers hold the result of the last round. *)
Lemma during_nil k0 arrs k : during k0 arrs [] k → apply_all k0 (rounds arrs) = Done k.
Proof.
  intros [ms k' ->%prefix_nil_inv E|ms m k1 k' m' Hpre%prefix_nil_inv _ _].
  - by rewrite app_nil_r in E.
  - by destruct ms.
Qed.

Lemma during_snoc k0 arrs arr w k : during k0 arrs arr k → during k0 arrs (arr ++ [w]) k.
Proof.
  assert (∀ ms, ms `prefix_of` pushes (length arrs) arr → ms `prefix_of` pushes (length arrs) (arr ++ [w])) as Hpre.
  { intros ms Hms. rewrite pushes_snoc. by apply prefix_app_r. }
  intros [ms k' Hms E|ms m k1 k' m' Hms E Ep]; [by apply (du_between _ _ _ ms); auto|].
  by apply (du_prepared _ _ _ ms m k1 _ m'); auto.
Qed.

(** ** The invariant

    The rounds [arrs] are over, the workers [arr] have pushed their gradients of the
    next one, and the workers of [late] have still to pull the result of the last one. *)

(** Where the engine is in the messages of the round under way. *)
Definition engine_at (k0 : key_state R) (arrs : list (list nat)) (arr : list nat)
    k (q : list (message R)) (c : option (message R)) : Prop :=
  match c with
  | None => ∃ ms, messages (length arrs) arr = ms ++ q ∧ ALL_RECV ∉ ms ∧
      apply_all k0 (rounds arrs ++ ms) = Done (reset k)
  | Some m' => ∃ ms m k1, messages (length arrs) arr = ms ++ m :: q ∧ ALL_RECV ∉ ms ∧
      apply_all k0 (rounds arrs ++ ms) = Done k1 ∧ prepare m k1 = Done (reset k, m')
  end.

Definition received (k0 : key_state R) (arrs : list (list nat)) (arr : list nat) (data : payload R) : Prop :=
  ∃ k, during k0 arrs arr k ∧ merged_data k = Done data.

Definition worker_ok (k0 : key_state R) (arrs : list (list nat)) (arr : list nat) (late : gset nat)
    (w : nat) (x : worker) : Prop :=
  (w_round x < T)%nat ∧
  match w_phase x with
  | ToPush => w ∉ late ∧ w ∉ arr ∧ w_round x = length arrs
  | Pushing => False
  | ToPull => w ∈ late ∧ S (w_round x) = length arrs ∨ w ∉ late ∧ w ∈ arr ∧ w_round x = length arrs
  | Pulling => w ∉ late ∧ w ∈ arr ∧ w_round x = length arrs
  | Got data => w ∉ late ∧ w ∉ arr ∧ S (w_round x) = length arrs ∧ received k0 arrs arr data
  end.

(** The pulls of the last round that have been answered. *)
Definition flags_ok (late : gset nat) k : Prop :=
  if decide (late = ∅) then is_push_finished_ k = false ∧ pull_cnt_ k = 0%nat ∧ seen_sender_ k = ∅
  else is_push_finished_ k = true ∧ pull_cnt_ k = size (seen_sender_ k) ∧
    ∀ w, w ∈ seen_sender_ k ↔ (w < W)%nat ∧ w ∉ late.

Record inv (k0 : key_state R) (s : sys) (arrs : list (list nat)) (arr : list nat) (late : gset nat) : Prop := Inv {
  i_len : length (y_workers s) = W;
  i_arrs : Forall (λ a, a ≡ₚ seq 0 W) arrs;
  i_arr : NoDup arr ∧ ∀ w, w ∈ arr → (w < W)%nat ∧ w ∉ late;
  i_late : ∀ w, w ∈ late → (w < W)%nat;
  i_workers : ∀ w x, y_workers s !! w = Some x → worker_ok k0 arrs arr late w x;
  i_request : k_request (y_key s) = (if decide (length arr = W) then [] else arr);
  i_flags : flags_ok late (y_key s);
  i_pulls : NoDup (q_pull_reqmeta_ (y_key s)) ∧
    ∀ w, w ∈ q_pull_reqmeta_ (y_key s) ↔ ∃ r, y_workers s !! w = Some (Worker r Pulling);
  i_engine : engine_at k0 arrs arr (y_key s) (y_queue s) (y_cur s)
}.

Lemma arr_bound arr : NoDup arr → (∀ w, w ∈ arr → (w < W)%nat) →
  (length arr ≤ W)%nat ∧ (length arr = W → arr ≡ₚ seq 0 W).
Proof.
  intros Hnd Hin. assert (arr ⊆+ seq 0 W) as Hsub.
  { apply NoDup_submseteq; [done|]. intros w Hw. apply elem_of_seq. specialize (Hin w Hw). lia. }
  pose proof (submseteq_length _ _ Hsub) as Hle. rewrite length_seq in Hle. split; [done|].
  intros Harr. apply (submseteq_length_Permutation _ _ Hsub). rewrite length_seq. lia.
Qed.

Lemma inv_initial s : initial s → inv (y_key s) s [] [] ∅.
Proof.
  intros (k & t & Ht & ->). split; cbn.
  - by rewrite length_replicate.
  - constructor.
  - split; [constructor|]. by intros w []%elem_of_nil.
  - set_solver.
  - intros w x [-> _]%lookup_replicate. split; [done|]. cbn. set_solver.
  - by case_decide.
  - unfold flags_ok. by rewrite decide_True.
  - split; [constructor|]. intros w. split; [by intros []%elem_of_nil|]. by intros (r & [? _]%lookup_replicate).
  - exists []. split; [|split; [by intros []%elem_of_nil|done]]. unfold messages. simpl. by rewrite decide_False by lia.
Qed.

(** *** Preservation *)

Lemma prepare_kind m k k' m' : prepare m k = Done (k', m') → m' = ALL_RECV ↔ m = ALL_RECV.
Proof.
  unfold Server.prepare, mbind, cres_bind, mret, cres_ret, bps_check. intros E. repeat case_match; simplify_eq; done.
Qed.

Lemma prepare_merged k k' m' t : prepare ALL_RECV k = Done (k', m') → k_tensor k' = Some t →
  ∃ data, merged_data k' = Done data.
Proof.
  unfold Server.prepare, mbind, cres_bind, mret, cres_ret. intros E Ht.
  repeat case_match; simplify_eq; unfold merged_data; cbn in *; [by eexists|]. rewrite Ht. cbn. by eexists.
Qed.

Lemma pushes_no_all r arr : ALL_RECV ∉ pushes r arr.
Proof. destruct arr as [|a arr]; [by intros []%elem_of_nil|]. intros [?|(w & ? & _)%list_elem_of_fmap]%elem_of_cons; done. Qed.

Lemma ALL_RECV_last r arr ms q : messages r arr = ms ++ ALL_RECV :: q →
  length arr = W ∧ ms = pushes r arr ∧ q = [].
Proof.
  pose proof (pushes_no_all r arr) as Hno. unfold messages. case_decide as Hl.
  - destruct q as [|x q _] using rev_ind.
    + intros E%app_inj_tail. split; [done|]. split; [by symmetry; apply E|done].
    + rewrite app_comm_cons, app_assoc. intros [E _]%app_inj_tail. exfalso. apply Hno. rewrite E. set_solver.
  - rewrite app_nil_r. intros E. exfalso. apply Hno. rewrite E. set_solver.
Qed.

(** What has been taken from the queue before the last message is among the pushes. *)
Lemma taken_pushes r arr ms q : messages r arr = ms ++ q → ALL_RECV ∉ ms → ms `prefix_of` pushes r arr.
Proof.
  unfold messages. intros E Hno. case_decide; [|rewrite app_nil_r in E; rewrite E; by apply prefix_app_r].
  destruct q as [|x q _] using rev_ind.
  - exfalso. apply Hno. rewrite app_nil_r in E. rewrite <-E. set_solver.
  - rewrite app_assoc in E. apply app_inj_tail in E as [E _]. rewrite E. by apply prefix_app_r.
Qed.

(** A pull that is answered now gets a result of the round under way. *)
Lemma engine_during k0 arrs arr k q c : engine_at k0 arrs arr k q c → c ≠ Some ALL_RECV → during k0 arrs arr (reset k).
Proof.
  destruct c as [m'|]; intros E Hc; cbn in E.
  - destruct E as (ms & m & k1 & E & Hno & Ea & Ep). apply (du_prepared _ _ _ ms m k1 _ m'); [|done..].
    apply (taken_pushes _ _ _ q); [by rewrite <-app_assoc|]. intros [?|Hm%list_elem_of_singleton]%elem_of_app; [done|].
    apply Hc. f_equal. by apply (prepare_kind _ _ _ _ Ep).
  - destruct E as (ms & E & Hno & Ea). apply (du_between _ _ _ ms); [by eapply taken_pushes|done].
Qed.

Lemma lookup_deliver_one (ws : list worker) w x (f : worker → worker) (i : nat) :
  (w < length ws)%nat → alter f w (<[w := x]> ws) !! i = if decide (i = w) then Some (f x) else ws !! i.
Proof.
  intros Hw. destruct (decide (i = w)) as [->|Hne].
  - by rewrite list_lookup_alter_eq, list_lookup_insert_eq.
  - by rewrite list_lookup_alter_ne, list_lookup_insert_ne.
Qed.

Lemma inv_push k0 w r k t k' rs ms q c ws arrs arr late :
  inv k0 (Sys k q c ws) arrs arr late → ws !! w = Some (Worker r ToPush) → k_tensor k = Some t →
  push w (grad r w) t k = Done (k', rs, ms) →
  inv k0 (Sys k' (q ++ ms) c (deliver rs (<[w := Worker r Pushing]> ws))) arrs (arr ++ [w]) late.
Proof.
  intros [Hl Harrs [Hnd Harr] Hlate Hws Hreq Hf [Hqn Hq] Hat] Hw Ht Hp. cbn in *.
  destruct (Hws w _ Hw) as [HrT (Hwl & Hwa & Hr)]. cbn in Hwl, Hwa, Hr. pose proof (lookup_lt_Some _ _ _ Hw) as Hlt.
  assert (NoDup (arr ++ [w]) ∧ ∀ v, v ∈ arr ++ [w] → (v < W)%nat ∧ v ∉ late) as Harr2.
  { split; [apply NoDup_app; split_and!; [done|set_solver|apply NoDup_singleton]|].
    intros v [Hv| ->%list_elem_of_singleton]%elem_of_app; [by apply Harr|]. split; [lia|done]. }
  assert (length (arr ++ [w]) ≤ W)%nat as Hlen by (apply arr_bound; [apply Harr2|intros v Hv; by apply Harr2]).
  rewrite length_app in Hlen. simpl in Hlen. rewrite decide_False in Hreq by lia.
  destruct (push_answered w r t k arr k' rs ms Hreq) as (-> & -> & Hms); [lia|done|].
  assert (messages (length arrs) (arr ++ [w]) = messages (length arrs) arr ++ ms) as Hmsg.
  { unfold messages. rewrite length_app, Nat.add_1_r. rewrite (decide_False (P := length arr = W)) by lia.
    rewrite app_nil_r, <-Hr. done. }
  assert (∀ v, deliver [PushResponse w] (<[w := Worker r Pushing]> ws) !! v
    = if decide (v = w) then Some (Worker r ToPull) else ws !! v) as Hlk by (intros v; by apply lookup_deliver_one).
  split; cbn [y_key y_queue y_cur y_workers]; try done.
  - cbn. by rewrite length_alter, length_insert.
  - intros v x. rewrite Hlk. destruct (decide (v = w)) as [->|Hv].
    + intros [= <-]. split; [done|]. cbn. right. split_and!; [done| |done]. set_solver.
    + intros Hx. destruct (Hws v x Hx) as [HT' Hok]. split; [done|].
      assert (v ∉ [w]) as Hvw by (by intros ->%list_elem_of_singleton).
      destruct (w_phase x) as [| | | |data]; cbn in *; [set_solver..|].
      destruct Hok as (? & ? & ? & b & Hdu & Hb). split_and!; [done|set_solver|done|]. exists b. split; [|done].
      by apply during_snoc.
  - cbn. by rewrite length_app, Nat.add_1_r.
  - cbn. split; [done|]. intros v. rewrite Hq. setoid_rewrite Hlk. destruct (decide (v = w)) as [->|]; [|done].
    rewrite Hw. by split; intros [? ?].
  - destruct c as [m'|]; cbn in *.
    + destruct Hat as (ms0 & m & k1 & E & Hno & Ha & Hpr). exists ms0, m, k1. rewrite Hmsg, E, <-app_assoc. done.
    + destruct Hat as (ms0 & E & Hno & Ha). exists ms0. rewrite Hmsg, E, <-app_assoc. done.
Qed.

Lemma inv_prepare k0 k m q k' m' ws arrs arr late :
  inv k0 (Sys k (m :: q) None ws) arrs arr late → prepare m k = Done (k', m') → inv k0 (Sys k' q (Some m') ws) arrs arr late.
Proof.
  intros [Hl Harrs Harr Hlate Hws Hreq Hf Hq (ms & E & Hno & Ha)] Hp. cbn in *.
  destruct (prepare_reset _ _ _ _ Hp) as [Hpr Ek]. rewrite Ek in Hpr |- *.
  split; try done. by exists ms, m, (reset k).
Qed.

Lemma all_seen (seen : gset nat) : (∀ v, v ∈ seen → (v < W)%nat) →
  (size seen ≤ W)%nat ∧ (size seen = W ↔ ∀ v, (v < W)%nat → v ∈ seen).
Proof.
  intros Hb. set (all := list_to_set (seq 0 W) : gset nat).
  assert (size all = W) as Hs by (unfold all; rewrite size_list_to_set by apply NoDup_seq; apply length_seq).
  assert (seen ⊆ all) as Hsub.
  { intros v Hv. unfold all. rewrite elem_of_list_to_set, elem_of_seq. specialize (Hb v Hv). lia. }
  split; [rewrite <-Hs; by apply subseteq_size|]. split.
  - intros E v Hv. rewrite (set_subseteq_size_eq _ _ Hsub) by lia. unfold all. rewrite elem_of_list_to_set, elem_of_seq. lia.
  - intros Hall. rewrite <-Hs. f_equal. apply set_eq. intros v. split; [by apply Hsub|].
    unfold all. rewrite elem_of_list_to_set, elem_of_seq. intros [_ Hv]. by apply Hall.
Qed.

Lemma lookup_deliver data q (ws : list worker) (i : nat) :
  deliver ((λ w, PullResponse w data) <$> q) ws !! i = if decide (i ∈ q) then set_phase (Got data) <$> ws !! i else ws !! i.
Proof.
  revert ws. unfold deliver. induction q as [|w q IH]; intros ws; [done|]. cbn [fmap list_fmap foldl]. rewrite IH.
  destruct (decide (i = w)) as [->|Hne].
  - rewrite (decide_True (P := w ∈ w :: q)) by left. rewrite list_lookup_alter_eq.
    destruct (decide (w ∈ q)); [|done]. by destruct (ws !! w) as [[]|].
  - rewrite list_lookup_alter_ne by done. destruct (decide (i ∈ q)); [by rewrite decide_True by (by right)|].
    by rewrite decide_False by (by intros [|]%elem_of_cons).
Qed.

Lemma length_deliver rs (ws : list worker) : length (deliver rs ws) = length ws.
Proof.
  revert ws. unfold deliver. induction rs as [|[w|w data] rs IH]; intros ws; [done|..]; cbn [foldl];
    by rewrite IH, length_alter.
Qed.

(** The pull of a late worker is counted. *)
Lemma count_pull_flags w k late : w ∈ late → (∀ v, v ∈ late → (v < W)%nat) → flags_ok late k →
  flags_ok (late ∖ {[w]}) (count_pull cf w k).
Proof.
  intros Hw Hb. unfold flags_ok. rewrite decide_False by set_solver. intros (Hf & Hc & Hs).
  assert (w ∉ seen_sender_ k) as Hns by (rewrite Hs; tauto).
  destruct (all_seen ({[w]} ∪ seen_sender_ k)) as [_ Hall].
  { intros v [->%elem_of_singleton|Hv%Hs]%elem_of_union; [by apply Hb|tauto]. }
  rewrite size_union, size_singleton in Hall by set_solver. unfold count_pull. cbn [NumWorkers].
  assert (late ∖ {[w]} = ∅ ↔ S (pull_cnt_ k) = W) as Hiff.
  { rewrite Hc. change (S ?a) with (1 + a)%nat. rewrite Hall. split.
    - intros E v Hv. destruct (decide (v = w)) as [->|]; [set_solver|]. apply elem_of_union_r, Hs. set_solver.
    - intros Ha. apply set_eq. intros v. split; [|set_solver]. intros [Hv Hvw]%elem_of_difference.
      specialize (Ha v (Hb v Hv)). apply elem_of_union in Ha as [|[_ ?]%Hs]; [set_solver|done]. }
  destruct (decide (S (pull_cnt_ k) = W)) as [HW'|HW'].
  - rewrite decide_True by (by apply Hiff). done.
  - rewrite decide_False by (by rewrite Hiff). cbn. split; [done|]. split; [rewrite size_union, size_singleton by set_solver; lia|].
    intros v. rewrite elem_of_union, elem_of_singleton, Hs. destruct (decide (v = w)) as [->|]; [|set_solver].
    split; [|set_solver]. intros _. split; [by apply Hb|set_solver].
Qed.

Lemma count_pull_with w k : ∃ f c se, count_pull cf w k = set_pulls f c se (q_pull_reqmeta_ k) k.
Proof. unfold count_pull. case_decide; by do 3 eexists. Qed.

Lemma merged_reset k : merged_data (reset k) = merged_data k.
Proof. done. Qed.

(** A pull that comes when the workers of [late] have still to pull. *)
Lemma inv_pull_late k0 w r k data q c ws arrs arr late t :
  inv k0 (Sys k q c ws) arrs arr late → ws !! w = Some (Worker r ToPull) → w ∈ late → k_tensor k = Some t →
  merged_data k = Done data →
  inv k0 (Sys (count_pull cf w k) q c (deliver [PullResponse w data] (<[w := Worker r Pulling]> ws))) arrs arr (late ∖ {[w]}).
Proof.
  intros [Hl Harrs [Hnd Harr] Hlate Hws Hreq Hf [Hqn Hq] Hat] Hw Hwl Ht Hd. cbn in *.
  destruct (Hws w _ Hw) as [HrT Hph]. cbn in HrT, Hph. destruct Hph as [[_ Hr]|[? _]]; [|done].
  pose proof (lookup_lt_Some _ _ _ Hw) as Hlt.
  assert (∀ v, deliver [PullResponse w data] (<[w := Worker r Pulling]> ws) !! v
    = if decide (v = w) then Some (Worker r (Got data)) else ws !! v) as Hlk by (intros v; by apply lookup_deliver_one).
  assert (c ≠ Some ALL_RECV) as Hc.
  { intros ->. destruct Hat as (ms & m & k1 & E & _ & _ & Hpr). pose proof (proj1 (prepare_kind _ _ _ _ Hpr) eq_refl) as ->.
    apply ALL_RECV_last in E as (HarrW & _). destruct (arr_bound arr Hnd) as [_ Hperm]; [intros v Hv; by apply Harr|].
    assert (w ∈ arr) as Hwa; [|by apply Harr in Hwa as [_ ?]]. rewrite Hperm by done. apply elem_of_seq. lia. }
  destruct (count_pull_with w k) as (f & cnt & se & Ecp).
  split; cbn [y_key y_queue y_cur y_workers].
  - cbn. by rewrite length_alter, length_insert.
  - done.
  - split; [done|]. intros v Hv. destruct (Harr v Hv). split; [done|set_solver].
  - set_solver.
  - intros v x. rewrite Hlk. destruct (decide (v = w)) as [->|Hv].
    + intros [= <-]. split; [done|]. cbn. split_and!; [set_solver| |done|].
      * intros Hv. by apply Harr in Hv as [_ ?].
      * exists (reset k). split; [by apply (engine_during _ _ _ _ q c)|done].
    + intros Hx. destruct (Hws v x Hx) as [? Hok]. split; [done|].
      destruct (w_phase x); cbn in *; [set_solver..|]. destruct Hok as (? & ? & ? & ?). split_and!; [set_solver|done..].
  - rewrite Ecp. done.
  - by apply count_pull_flags.
  - rewrite Ecp. cbn. split; [done|]. intros v. rewrite Hq. setoid_rewrite Hlk. destruct (decide (v = w)) as [->|]; [|done].
    rewrite Hw. by split; intros [? ?].
  - rewrite Ecp. done.
Qed.

(** A pull of the round under way waits for the engine. *)
Lemma inv_pull_waits k0 w r k q c ws arrs arr late :
  inv k0 (Sys k q c ws) arrs arr late → ws !! w = Some (Worker r ToPull) → w ∉ late →
  inv k0 (Sys (set_pulls (is_push_finished_ k) (pull_cnt_ k) (seen_sender_ k) (q_pull_reqmeta_ k ++ [w]) k) q c
    (<[w := Worker r Pulling]> ws)) arrs arr late.
Proof.
  intros [Hl Harrs [Hnd Harr] Hlate Hws Hreq Hf [Hqn Hq] Hat] Hw Hwl. cbn in *.
  destruct (Hws w _ Hw) as [HrT Hph]. cbn in HrT, Hph. destruct Hph as [[? _]|(_ & Hwa & Hr)]; [done|].
  pose proof (lookup_lt_Some _ _ _ Hw) as Hlt. split; cbn; try done.
  - by rewrite length_insert.
  - intros v x [(-> & <- & _)|[_ Hv]]%list_lookup_insert_Some; [by split|by apply Hws].
  - split.
    + apply NoDup_app. split_and!; [done| |apply NoDup_singleton].
      intros v Hv ->%list_elem_of_singleton. apply Hq in Hv as [? Hv]. congruence.
    + intros v. rewrite elem_of_app, list_elem_of_singleton, Hq. destruct (decide (v = w)) as [->|].
      * rewrite list_lookup_insert_eq by done. split; [eauto|by right].
      * rewrite list_lookup_insert_ne by done. split; [intros [?|]; done|by left].
Qed.

Lemma inv_pull k0 w r k k' rs q c ws arrs arr late :
  inv k0 (Sys k q c ws) arrs arr late → ws !! w = Some (Worker r ToPull) → pull w k = Done (k', rs) →
  ∃ late', inv k0 (Sys k' q c (deliver rs (<[w := Worker r Pulling]> ws))) arrs arr late'.
Proof.
  intros Hi Hw Hp. pose proof (i_flags _ _ _ _ _ Hi) as Hf. pose proof (i_workers _ _ _ _ _ Hi w _ Hw) as [_ Hph].
  unfold Server.pull in Hp. cbn in Hp, Hf, Hph. destruct (k_tensor k) as [t|] eqn:Et; [|done].
  destruct (decide (w ∈ late)) as [Hwl|Hwl].
  - pose proof Hf as Hf2. unfold flags_ok in Hf2. rewrite decide_False in Hf2 by set_solver. destruct Hf2 as (Hfin & _ & Hs).
    rewrite Hfin in Hp. cbn in Hp. rewrite bool_decide_true in Hp by (rewrite Hs; tauto).
    destruct (merged_data k) as [data| | |] eqn:Hd; try done. injection Hp as <- <-.
    exists (late ∖ {[w]}). by eapply inv_pull_late.
  - assert (is_push_finished_ k && bool_decide (w ∉ seen_sender_ k) = false) as Hno.
    { unfold flags_ok in Hf. destruct (decide (late = ∅)); [by destruct Hf as [-> _]|]. destruct Hf as (-> & _ & Hs).
      apply bool_decide_eq_false. rewrite Hs. pose proof (i_len _ _ _ _ _ Hi) as Hl. cbn in Hl.
      apply lookup_lt_Some in Hw. intros Hn. apply Hn. split; [lia|done]. }
    rewrite Hno in Hp. injection Hp as <- <-. exists late. cbn [deliver foldl]. by apply inv_pull_waits.
Qed.

(** When the last message has been executed the round is over; those who have not
    pulled yet are late. *)
Definition waiting (q : list nat) : gset nat := list_to_set (filter (λ w, w ∉ q) (seq 0 W)).

Lemma elem_of_waiting q w : w ∈ waiting q ↔ (w < W)%nat ∧ w ∉ q.
Proof. unfold waiting. rewrite elem_of_list_to_set, list_elem_of_filter, elem_of_seq. split; [intros [? ?]|intros [? ?]]; split; [lia|done|done|lia]. Qed.

Lemma flags_after q k : NoDup q → (∀ w, w ∈ q → (w < W)%nat) →
  flags_ok (waiting q)
    (if decide (q ≠ [] ∧ length q = W) then set_pulls false 0 ∅ [] k else set_pulls true (length q) (list_to_set q) [] k).
Proof.
  intros Hnd Hb. destruct (all_seen (list_to_set q)) as [_ Hall].
  { intros v. rewrite elem_of_list_to_set. apply Hb. }
  rewrite size_list_to_set in Hall by done.
  assert (waiting q = ∅ ↔ q ≠ [] ∧ length q = W) as Hiff.
  { split.
    - intros E. assert (length q = W) as HqW.
      { apply Hall. intros v Hv. rewrite elem_of_list_to_set. destruct (decide (v ∈ q)); [done|].
        assert (v ∈ waiting q) as Hin by (by apply elem_of_waiting). rewrite E in Hin. set_solver. }
      split; [|done]. intros ->. simpl in HqW. lia.
    - intros [_ HqW]. apply set_eq. intros v. split; [|set_solver]. intros [Hv Hvq]%elem_of_waiting.
      exfalso. apply Hvq. rewrite <-(elem_of_list_to_set (C := gset nat)). by apply Hall. }
  unfold flags_ok. destruct (decide (q ≠ [] ∧ length q = W)) as [Hy|Hn].
  - by rewrite decide_True by (by apply Hiff).
  - rewrite decide_False by (by rewrite Hiff). cbn. split; [done|]. split; [by rewrite size_list_to_set|].
    intros v. rewrite elem_of_list_to_set, elem_of_waiting. split; [intros Hv; split; [by apply Hb|tauto]|].
    intros [Hv Hnn]. destruct (decide (v ∈ q)); [done|]. exfalso. by apply Hnn.
Qed.

Lemma execute_all_recv k k' rs k1 : prepare ALL_RECV k1 = Done (reset k, ALL_RECV) →
  let qp := q_pull_reqmeta_ k in
  NoDup qp → (∀ v, v ∈ qp → (v < W)%nat) → pull_cnt_ k = 0%nat → seen_sender_ k = ∅ →
  execute ALL_RECV k = Done (k', rs) →
  ∃ data, merged_data (reset k) = Done data ∧ rs = (λ w, PullResponse w data) <$> qp ∧
    k' = (if decide (qp ≠ [] ∧ length qp = W) then set_pulls false 0 ∅ [] k else set_pulls true (length qp) (list_to_set qp) [] k).
Proof.
  intros Hpr qp; subst qp; intros Hqn Hqb Hcnt Hseen Hx.
  unfold Server.execute in Hx. destruct (k_tensor k) as [t|] eqn:Et; [|done]. cbn [mbind cres_bind] in Hx.
  destruct (prepare_merged k1 (reset k) ALL_RECV t Hpr Et) as [data Hd].
  assert (length (q_pull_reqmeta_ k) ≤ W)%nat as Hqw.
  { rewrite <-(size_list_to_set (C := gset nat) (q_pull_reqmeta_ k)) by done. apply all_seen. intros v. rewrite elem_of_list_to_set. apply Hqb. }
  rewrite (answer_pulls_ok data) in Hx; cbn; [|done|done|by rewrite Hseen; set_solver|by rewrite Hseen|rewrite Hseen, size_empty; simpl; lia].
  cbn in Hx. rewrite Hseen, size_empty, Nat.add_0_l, (right_id_L ∅ (∪)) in Hx.
  exists data. split; [exact Hd|]. split; [by injection Hx as _ <-|]. injection Hx as <- <-. by case_decide.
Qed.

Lemma inv_all_recv k0 k k' rs q ws arrs arr late :
  inv k0 (Sys k q (Some ALL_RECV) ws) arrs arr late → execute ALL_RECV k = Done (k', rs) →
  inv k0 (Sys k' q None (deliver rs ws)) (arrs ++ [arr]) [] (waiting (q_pull_reqmeta_ k)).
Proof.
  intros [Hl Harrs [Hnd Harr] Hlate Hws Hreq Hf [Hqn Hq] Hat] Hx. cbn in *.
  destruct Hat as (ms & m & k1 & E & _ & Ha & Hpr). pose proof (proj1 (prepare_kind _ _ _ _ Hpr) eq_refl) as ->.
  apply ALL_RECV_last in E as (HarrW & -> & ->).
  destruct (arr_bound arr Hnd) as [_ Hperm]; [intros v Hv; by apply Harr|]. specialize (Hperm HarrW).
  assert (∀ v, (v < W)%nat → v ∈ arr) as Hin by (intros v Hv; rewrite Hperm; apply elem_of_seq; lia).
  assert (late = ∅) as Hle.
  { apply set_eq. intros v. split; [|set_solver]. intros Hv. pose proof (Hin v (Hlate v Hv)) as Hva. by apply Harr in Hva as [_ ?]. }
  subst late. unfold flags_ok in Hf. rewrite decide_True in Hf by done. destruct Hf as (Hfin & Hcnt & Hseen).
  set (qp := q_pull_reqmeta_ k) in *.
  assert (∀ v, v ∈ qp → (v < W)%nat) as Hqb by (intros v [? Hv]%Hq; rewrite <-Hl; by eapply lookup_lt_Some).
  destruct (execute_all_recv k k' rs k1 Hpr Hqn Hqb Hcnt Hseen Hx) as (data & Hd & -> & Ek).
  fold qp in Ek |- *. rewrite decide_True in Hreq by done.
  assert (reset k' = reset k) as Ekr by (rewrite Ek; by case_decide). clear Hx.
  assert (apply_all k0 (rounds (arrs ++ [arr])) = Done (reset k)) as Hall.
  { rewrite rounds_one_more. unfold messages. rewrite decide_True by done. rewrite app_assoc.
    apply (apply_all_snoc _ _ _ k1 _ Ha). unfold apply_msg. by rewrite Hpr. }
  assert (received k0 (arrs ++ [arr]) [] data) as Hrec.
  { exists (reset k). split; [|done]. apply (du_between _ _ _ []); [done|]. by rewrite app_nil_r. }
  split; cbn [y_key y_queue y_cur y_workers].
  - by rewrite length_deliver.
  - apply Forall_app. split; [done|by constructor].
  - split; [constructor|]. by intros v []%elem_of_nil.
  - by intros v [? _]%elem_of_waiting.
  - intros v x. rewrite lookup_deliver. pose proof (elem_of_waiting qp v) as Hwv. intros Hx.
    assert (∃ y, ws !! v = Some y) as [y Hy] by (destruct (decide (v ∈ qp)), (ws !! v); try done; eauto).
    pose proof (lookup_lt_Some _ _ _ Hy) as Hvl. rewrite Hy in Hx. destruct (Hws v y Hy) as [HyT Hok].
    pose proof (Hin v ltac:(lia)) as Hva.
    destruct (decide (v ∈ qp)) as [Hvq|Hvq]; cbn in Hx; injection Hx as <-; split; try done.
    + cbn. split_and!; [tauto|by intros []%elem_of_nil| |done]. rewrite length_app. cbn.
      apply Hq in Hvq as [r Hv]. rewrite Hy in Hv. injection Hv as ->. destruct Hok as (_ & _ & Hr). cbn in *. lia.
    + destruct y as [r [| | | |data']]; cbn in *; [tauto|done| | |tauto].
      * left. split; [apply Hwv; split; [lia|done]|]. rewrite length_app. cbn. destruct Hok as [[? _]|(_ & _ & ?)]; [set_solver|lia].
      * exfalso. apply Hvq, Hq. by exists r.
  - rewrite decide_False by (simpl; lia). assert (k_request k' = k_request k) as -> by (rewrite Ek; by case_decide). done.
  - rewrite Ek. by apply flags_after.
  - assert (q_pull_reqmeta_ k' = []) as -> by (rewrite Ek; by case_decide). split; [constructor|].
    intros v. split; [by intros []%elem_of_nil|]. intros (r & Hv). rewrite lookup_deliver in Hv. exfalso.
    destruct (decide (v ∈ qp)) as [Hvq|Hvq].
    + destruct (ws !! v); done.
    + apply Hvq, Hq. by exists r.
  - exists []. split; [unfold messages; cbn [length]; by rewrite decide_False by lia|]. split; [by intros []%elem_of_nil|].
    by rewrite app_nil_r, Ekr.
Qed.

Lemma inv_execute k0 k m q k' rs ws arrs arr late :
  inv k0 (Sys k q (Some m) ws) arrs arr late → execute m k = Done (k', rs) →
  ∃ arrs' arr' late', inv k0 (Sys k' q None (deliver rs ws)) arrs' arr' late'.
Proof.
  intros Hi Hx. assert (m = ALL_RECV ∨ m ≠ ALL_RECV) as [->|Hm] by (destruct m; tauto || by right).
  { do 3 eexists. by eapply inv_all_recv. }
  destruct Hi as [Hl Harrs Harr Hlate Hws Hreq Hf Hq Hat]. cbn in *.
  destruct Hat as (ms & m0 & k1 & E & Hno & Ha & Hpr). destruct (execute_reset _ _ _ _ Hm Hx) as (Hxr & Ek & ->).
  rewrite Ek in Hxr |- *. exists arrs, arr, late. split; cbn; try done.
  exists (ms ++ [m0]). rewrite <-app_assoc. split; [done|]. split.
  { intros [|E2%list_elem_of_singleton]%elem_of_app; [done|]. by apply Hm, (prepare_kind _ _ _ _ Hpr). }
  rewrite app_assoc. apply (apply_all_snoc _ _ _ k1); [done|].
  unfold apply_msg. rewrite Hpr. cbn [mbind cres_bind]. destruct m; [by rewrite Hxr..|done].
Qed.

Lemma inv_next k0 w r data k q c ws arrs arr late :
  inv k0 (Sys k q c ws) arrs arr late → ws !! w = Some (Worker r (Got data)) → (S r < T)%nat →
  inv k0 (Sys k q c (<[w := Worker (S r) ToPush]> ws)) arrs arr late.
Proof.
  intros [Hl Harrs Harr Hlate Hws Hreq Hf [Hqn Hq] Hat] Hw HrT. cbn in *.
  destruct (Hws w _ Hw) as [_ (Hwl & Hwa & Hr & _)]. split; cbn; try done.
  - by rewrite length_insert.
  - intros v x [(-> & <- & _)|[_ Hv]]%list_lookup_insert_Some; [by split|by apply Hws].
  - split; [done|]. intros v. rewrite Hq. destruct (decide (v = w)) as [->|].
    + rewrite list_lookup_insert_eq by (by eapply lookup_lt_Some). rewrite Hw. by split; intros [? ?].
    + by rewrite list_lookup_insert_ne.
Qed.

Lemma inv_reachable s0 s : initial s0 → rtc step s0 s → ∃ arrs arr late, inv (y_key s0) s arrs arr late.
Proof.
  intros Hi. revert s. apply rtc_ind_r; [exists [], [], ∅; by apply inv_initial|].
  intros s1 s2 _ Hs (arrs & arr & late & IH). destruct Hs.
  - do 3 eexists. by eapply inv_push.
  - do 2 eexists. by eapply inv_pull.
  - do 3 eexists. by eapply inv_prepare.
  - by eapply inv_execute.
  - do 3 eexists. by eapply inv_next.
Qed.

Lemma pushed_arr k0 s arrs arr late v : inv k0 s arrs arr late → v ∈ arr ↔ pushed s (length arrs) v.
Proof.
  intros Hi. pose proof (i_workers _ _ _ _ _ Hi v) as Hws. unfold pushed. split.
  - intros Hv. destruct (i_arr _ _ _ _ _ Hi) as [_ Harr]. destruct (Harr v Hv) as [HvW Hvl].
    destruct (lookup_lt_is_Some_2 (y_workers s) v) as [x Hx]; [by rewrite (i_len _ _ _ _ _ Hi)|]. exists x.
    split; [done|]. right. destruct (Hws x Hx) as [_ Hok]. destruct x as [r p]. destruct p; cbn in *; try tauto.
    + destruct Hok as [|(_ & _ & ?)]; [tauto|done].
    + destruct Hok as (_ & _ & ?). done.
  - intros (x & Hx & Hp). destruct (Hws x Hx) as [_ Hok]. destruct x as [r p].
    destruct p as [| | | |data]; cbn in *; [|done| |tauto|].
    + destruct Hp as [?|[_ ?]]; [lia|done].
    + destruct Hok as [[_ ?]|?]; [lia|tauto].
    + destruct Hok as (_ & _ & ? & _). lia.
Qed.

(** C12: In every round the workers receive what the buffers held, with or without a
    compressor, however requests and engine are interleaved and although nobody waits
    for anybody: there is one order of arrival of the pushes per round, each worker's gradient
    once, such that the result of a worker is what is in the merged buffer when the
    messages of all rounds so far are executed in these orders, one by one and from the
    initial state; followed by messages of the next round when others have already
    pushed for it. When nobody has, the state is that after the last message of the
    round: all workers have received the same. *)
Theorem round_agrees s0 s : initial s0 → rtc step s0 s →
  ∃ arrs arr, Forall (λ a, a ≡ₚ seq 0 W) arrs ∧ NoDup arr ∧ (∀ v, v ∈ arr ↔ pushed s (length arrs) v) ∧
    ∀ w r data, y_workers s !! w = Some (Worker r (Got data)) → length arrs = S r ∧
      ∃ k, during (y_key s0) arrs arr k ∧ merged_data k = Done data ∧
        ((∀ v, ¬ pushed s (S r) v) → apply_all (y_key s0) (rounds arrs) = Done k).
Proof.
  intros Hi Hs. destruct (inv_reachable s0 s Hi Hs) as (arrs & arr & late & Hinv). exists arrs, arr.
  pose proof (λ v, pushed_arr _ _ _ _ _ v Hinv) as Hpush.
  split; [apply Hinv|]. split; [apply Hinv|]. split; [done|]. intros w r data Hw.
  destruct (i_workers _ _ _ _ _ Hinv w _ Hw) as [_ (_ & _ & Hr & k & Hk & Hd)]. cbn in Hr. split; [done|].
  exists k. split; [done|]. split; [done|]. rewrite Hr. intros Hno.
  assert (arr = []) as ->; [|by apply during_nil].
  destruct arr as [|v arr]; [done|]. destruct (Hno v). apply Hpush. left.
Qed.
End rounds.
End ServerRounds.
