(* ===== verification/ServerSum.v ===== *)
(** * Sums, and the end of the rounds

    Keys without a compressor, and addition that is associative and commutative: the
    result of a round is the sum of what was pushed in it, unless others were a round
    ahead when the worker pulled; then it is the sum of what had arrived of the next round.
    And all workers get through all their rounds. *)

From S2P Require Import Prelude Tensor BitIO Compressors CompressorProofs Dithering Drive Exact CompObj Server ServerRounds.

Module ServerSum.
Import BitIO Comp CompProofs Drive CompObj Server ServerRounds.

Section uncompressed.
Context {R : Type} `{Scalar R, !Native R, !ScalarLaws R} {build : Build}.
Context (flog2 : Z → Z) (push_heap pop_heap : list (nat * R) → list (nat * R)) (d : dtype) (sz : nat) (lr : R).
Context (Hconv : ∀ x : R, conv d x = x).
Context (W : nat) (HW : (0 < W)%nat) (T : nat) (HT : (0 < T)%nat) (n : nat) (g : nat → nat → list R) (Hg : ∀ r w, length (g r w) = n).
Notation grad := (λ r w, Raw (g r w)).
Notation cf := (Config true false W).
Notation push := (Server.push d cf).
Notation pull := (Server.pull cf).
Notation prepare := (Server.prepare flog2 push_heap pop_heap d sz lr).
Notation execute := (Server.execute d cf).
Notation step := (ServerRounds.step flog2 push_heap pop_heap d sz lr W T grad).
Notation initial := (ServerRounds.initial W).
Notation rounds := (ServerRounds.rounds W grad).
Notation during := (ServerRounds.during flog2 push_heap pop_heap d sz lr W grad).
Notation apply_msg := (ServerRounds.apply_msg flog2 push_heap pop_heap d sz lr W).
Notation apply_all := (ServerRounds.apply_all flog2 push_heap pop_heap d sz lr W).
Implicit Types (k : key_state R) (s : sys (R := R)).

(** A key without compressor for tensors of [n] elements. *)
Definition plain k : Prop := k_compressor k = None ∧ k_len k = n ∧ ∃ t, k_tensor k = Some t ∧ (n ≤ length t)%nat.
(** A message of such a key. *)
Definition fits (m : message R) : Prop :=
  match m with COPY_FIRST (Raw l) | SUM_RECV (Raw l) => length l = n | ALL_RECV => True | _ => False end.

Lemma sum_ok (t l : list R) : (n ≤ length t)%nat → length l = n →
  ∃ t', sum d n t l = Done t' ∧ length t' = length t ∧ take n t' = vadd (take n t) l.
Proof.
  intros Ht Hl. unfold sum. destruct (update_loop
    (λ dst i, x ← load dst i; y ← load l i; store_at dst i (conv d (s_add x y))) s_add n t l) as (t' & E & L' & V & _).
  - intros dst i x y Hx Hy. rewrite (load_ok _ _ _ Hx), (load_ok _ _ _ Hy). cbn. by rewrite Hconv.
  - done.
  - lia.
  - exists t'. split_and!; [done..|]. apply list_eq. intros i. unfold vadd. rewrite lookup_zip_with.
    destruct (decide (i < n)%nat) as [Hi|Hi].
    + destruct (lookup_lt_is_Some_2 t i) as [x Hx]; [lia|]. destruct (lookup_lt_is_Some_2 l i) as [y Hy]; [lia|].
      rewrite !lookup_take_lt, Hx, Hy by done. by apply V.
    + rewrite !lookup_take_ge by lia. done.
Qed.

Lemma sum_length m (t l t' : list R) : sum d m t l = Done t' → length t' = length t.
Proof.
  unfold sum. generalize (seq 0 m). intros is0. revert t. induction is0 as [|i is0 IH]; intros t; cbn; [by intros [= ->]|].
  unfold load, store_at. destruct (t !! i); [|done]. destruct (l !! i); [|done]. cbn. case_decide; [|done].
  intros E%IH. by rewrite length_insert in E.
Qed.

(** *** What the steps do *)

Lemma prepare_plain m k : plain k →
  prepare m k = Done (match m with ALL_RECV => set_merged ToStore k | _ => k end, m).
Proof. intros (Hc & _). unfold Server.prepare. rewrite Hc. by destruct m. Qed.

Lemma copy_plain l k : plain k → length l = n →
  ∃ t, execute (COPY_FIRST (Raw l)) k = Done (set_tensor t k, []) ∧ plain (set_tensor t k) ∧ take n t = l.
Proof.
  intros (Hc & Hn & t & Ht & Hlt) Hl. unfold Server.execute, copy. rewrite Ht, Hn. cbn [mbind cres_bind as_tensor mret cres_ret].
  rewrite decide_True by lia. eexists. split; [reflexivity|]. split.
  - split_and!; [done..|]. eexists. split; [reflexivity|]. rewrite length_app, length_take. lia.
  - rewrite take_app_le by (rewrite length_take; lia). rewrite take_take, Nat.min_id. apply take_ge. lia.
Qed.

Lemma sum_plain l k t : plain k → k_tensor k = Some t → length l = n →
  ∃ t', execute (SUM_RECV (Raw l)) k = Done (set_tensor t' k, []) ∧ plain (set_tensor t' k) ∧
    take n t' = vadd (take n t) l.
Proof.
  intros (Hc & Hn & t1 & Ht & Hlt) Ht1 Hl. rewrite Ht in Ht1. injection Ht1 as ->. unfold Server.execute. rewrite Ht, Hn.
  destruct (sum_ok t l Hlt Hl) as (t' & E & L' & V). cbn [mbind cres_bind as_tensor]. rewrite E. cbn.
  exists t'. split; [done|]. split; [|done]. split_and!; [done..|]. eexists. split; [reflexivity|]. lia.
Qed.

Lemma answer_pulls_state q kept k k' rs : answer_pulls cf q kept k = Done (k', rs) →
  ∃ f c se qp, k' = set_pulls f c se qp k.
Proof.
  revert kept k rs. induction q as [|w q IH]; intros kept k rs; cbn [answer_pulls].
  - intros [= <- <-]. by do 4 eexists.
  - destruct (decide (w ∉ seen_sender_ k)).
    + destruct (merged_data k) as [data| | |]; try done. cbn [mbind cres_bind mret cres_ret].
      case_decide; [intros [= <- <-]; by do 4 eexists|].
      destruct (answer_pulls _ _ _ _) as [[k1 rs1]| | |] eqn:E; try done. intros [= <- <-].
      destruct (IH _ _ _ E) as (f & c & se & qp & ->). by do 4 eexists.
    + cbn [mbind cres_bind mret cres_ret]. case_decide; [intros [= <- <-]; by do 4 eexists|].
      destruct (answer_pulls _ _ _ _) as [[k1 rs1]| | |] eqn:E; try done. intros [= <- <-]. by eapply IH.
Qed.

Lemma push_state w p t k k' rs ms : push w p t k = Done (k', rs, ms) →
  (∃ req, k' = set_request req k) ∧ rs = [PushResponse w] ∧ (length ms ≤ 2)%nat.
Proof.
  unfold Server.push, mbind, cres_bind, mret, cres_ret, bps_check. cbn. intros E.
  repeat case_match; simplify_eq; (split; [by eexists|]; split; [done|simpl; lia]).
Qed.

Lemma pull_state w k k' rs : pull w k = Done (k', rs) →
  (∃ f c se q, k' = set_pulls f c se q k) ∧ (rs = [] ∨ ∃ data, rs = [PullResponse w data]).
Proof.
  unfold Server.pull, mbind, cres_bind, mret, cres_ret, count_pull. cbn. intros E.
  repeat case_match; simplify_eq; (split; [by do 4 eexists|]; eauto).
Qed.

Lemma plain_step s s' : step s s' → plain (y_key s) → plain (y_key s').
Proof.
  assert (∀ k k', k_compressor k' = k_compressor k → k_len k' = k_len k → k_tensor k' = k_tensor k → plain k → plain k') as Hsame.
  { intros k k' E1 E2 E3. unfold plain. by rewrite E1, E2, E3. }
  intros Hs Hp. destruct Hs as [w r k t k' rs ms q c ws _ _ E|w r k k' rs q c ws _ E|k m q k' m' ws E|
    k m q k' rs ws E|]; cbn in *; [..|done].
  - apply push_state in E as [[req ->] _]. by eapply Hsame, Hp.
  - apply pull_state in E as [(f & c0 & se & q0 & ->) _]. by eapply Hsame, Hp.
  - rewrite prepare_plain in E by done. injection E as <- <-. destruct m; [done..|]. by eapply Hsame, Hp.
  - destruct Hp as (Hc & Hn & t & Ht & Hlt). unfold Server.execute in E. rewrite Ht, Hn in E.
    destruct m as [src|src|]; cbn [mbind cres_bind] in E.
    + destruct src as [l|]; [|done]. unfold copy in E. cbn in E. case_decide as Hl; [|done]. injection E as <- <-.
      split_and!; [done..|]. eexists. split; [reflexivity|]. rewrite length_app, length_take. lia.
    + destruct src as [l|]; [|done]. cbn in E. destruct (sum d n t l) as [t'| | |] eqn:Es; try done. injection E as <- <-.
      split_and!; [done..|]. eexists. split; [reflexivity|]. apply sum_length in Es. lia.
    + apply answer_pulls_state in E as (f & c & se & q0 & ->). split_and!; [done..|]. by exists t.
Qed.

(** ** The result *)

Lemma apply_all_cons k m ms : apply_all k (m :: ms) = (k' ← apply_msg k m; apply_all k' ms).
Proof. done. Qed.

Lemma apply_copy l k : plain k → length l = n →
  ∃ t, apply_msg k (COPY_FIRST (Raw l)) = Done (set_tensor t k) ∧ plain (set_tensor t k) ∧ take n t = l.
Proof.
  intros Hp Hl. destruct (copy_plain l k Hp Hl) as (t & E & Hp' & V). exists t. split; [|done].
  unfold ServerRounds.apply_msg. rewrite prepare_plain by done. cbn [mbind cres_bind]. by rewrite E.
Qed.

Lemma apply_sum l k t : plain k → k_tensor k = Some t → length l = n →
  ∃ t', apply_msg k (SUM_RECV (Raw l)) = Done (set_tensor t' k) ∧ plain (set_tensor t' k) ∧ take n t' = vadd (take n t) l.
Proof.
  intros Hp Ht Hl. destruct (sum_plain l k t Hp Ht Hl) as (t' & E & Hp' & V). exists t'. split; [|done].
  unfold ServerRounds.apply_msg. rewrite prepare_plain by done. cbn [mbind cres_bind]. by rewrite E.
Qed.

Lemma apply_sums ls k t : plain k → k_tensor k = Some t → Forall (λ l, length l = n) ls →
  ∃ t', apply_all k ((λ l, SUM_RECV (Raw l)) <$> ls) = Done (set_tensor t' k) ∧ plain (set_tensor t' k) ∧
    take n t' = foldl vadd (take n t) ls.
Proof.
  intros Hp Ht Hls. revert k t Hp Ht. induction Hls as [|l ls Hl _ IH]; intros k t Hp Ht.
  - exists t. assert (set_tensor t k = k) as -> by (destruct k; simpl in *; by subst). done.
  - destruct (apply_sum l k t Hp Ht Hl) as (t1 & E & Hp1 & V1).
    destruct (IH (set_tensor t1 k) t1 Hp1 eq_refl) as (t' & E' & Hp' & V'). exists t'.
    rewrite fmap_cons, apply_all_cons, E. split; [exact E'|]. split; [done|]. cbn [foldl]. by rewrite V', V1.
Qed.

Lemma vsum_foldl (l : list R) ls : length l = n → Forall (λ l, length l = n) ls → foldl vadd l ls = vsum n (l :: ls).
Proof.
  intros Hl Hls. revert l Hl. induction Hls as [|l' ls Hl' _ IH]; intros l Hl.
  - cbn. rewrite <-Hl. by rewrite vadd_zero_r.
  - cbn [foldl]. rewrite IH by (unfold vadd; rewrite length_zip_with; lia). cbn. by rewrite vadd_assoc.
Qed.

Lemma vsum_perm (ls ls' : list (list R)) : ls ≡ₚ ls' → vsum n ls = vsum n ls'.
Proof.
  unfold vsum. induction 1 as [|l ls ls' _ IH|l1 l2 ls|]; cbn [foldr]; [done|by rewrite IH| |by etrans].
  by rewrite !vadd_assoc, (vadd_comm l1).
Qed.

(** The merged buffer is the stored one, and holds [l]. *)
Definition holds k (l : list R) : Prop := k_merged k = Some ToStore ∧ ∀ t, k_tensor k = Some t → take n t = l.
Lemma holds_data k l : plain k → holds k l → merged_data k = Done (Raw l).
Proof.
  intros (_ & Hn & t & Ht & _) [Hm Hl]. unfold merged_data. rewrite Hm, Ht. cbn. by rewrite Hn, Hl.
Qed.

(** The pushes of a round, from the first to any of them. *)
Lemma pushes_plain r k arr : plain k → arr ≠ [] →
  ∃ k', apply_all k (pushes grad r arr) = Done k' ∧ plain k' ∧ k_merged k' = k_merged k ∧
    ∀ t, k_tensor k' = Some t → take n t = vsum n (g r <$> arr).
Proof.
  intros Hp Hne. destruct arr as [|w arr]; [done|]. cbn [pushes].
  destruct (apply_copy (g r w) k Hp (Hg r w)) as (t & E & Hp1 & V). rewrite apply_all_cons, E. cbn [mbind cres_bind].
  assert (((λ w, SUM_RECV (Raw (g r w))) <$> arr) = (λ l, SUM_RECV (Raw l)) <$> (g r <$> arr)) as ->
    by (by rewrite <-list_fmap_compose).
  assert (Forall (λ l, length l = n) (g r <$> arr)) as Hall by (apply Forall_fmap, Forall_true; intros; apply Hg).
  destruct (apply_sums (g r <$> arr) (set_tensor t k) t Hp1 eq_refl Hall) as (t' & E' & Hp' & V').
  eexists. split; [exact E'|]. split; [done|]. split; [done|]. cbn. intros t2 [= <-].
  rewrite V', V, vsum_foldl; [done|apply Hg|done].
Qed.

Lemma messages_plain r k arr : plain k → length arr = W →
  ∃ k', apply_all k (messages W grad r arr) = Done k' ∧ plain k' ∧
    holds k' (vsum n (g r <$> arr)).
Proof.
  intros Hp Hl. destruct (pushes_plain r k arr Hp) as (k' & E & Hp' & _ & V); [by intros ->; simpl in Hl; lia|].
  unfold messages. rewrite decide_True by done. exists (set_merged ToStore k'). split; [|split; [done|]].
  - eapply apply_all_snoc; [exact E|]. unfold ServerRounds.apply_msg. by rewrite prepare_plain.
  - by split.
Qed.

Lemma perm_workers arr : arr ≡ₚ seq 0 W → length arr = W ∧ ∀ r, vsum n (g r <$> arr) = vsum n (g r <$> seq 0 W).
Proof. intros E. split; [by rewrite E, length_seq|]. intros r. apply vsum_perm. by rewrite E. Qed.

(** The result of the last of the rounds. *)
Lemma rounds_plain k arrs : plain k → Forall (λ a, a ≡ₚ seq 0 W) arrs →
  ∃ k', apply_all k (rounds arrs) = Done k' ∧ plain k' ∧
    ∀ r, length arrs = S r → holds k' (vsum n (g r <$> seq 0 W)).
Proof.
  intros Hp Harrs. induction arrs as [|arr arrs IH] using rev_ind; [by exists k|].
  apply Forall_app in Harrs as [Harrs [Harr _]%Forall_cons]. destruct (IH Harrs) as (k1 & E1 & Hp1 & _).
  destruct (perm_workers arr Harr) as [Hl Hs]. destruct (messages_plain (length arrs) k1 arr Hp1 Hl) as (k' & E & Hp' & Hd).
  exists k'. rewrite rounds_one_more. unfold ServerRounds.apply_all in *. rewrite fold_c_app, E1. split; [exact E|]. split; [done|].
  intros r. rewrite length_app. cbn. intros Hr. assert (r = length arrs) as -> by lia. by rewrite <-Hs.
Qed.

Lemma prefix_pushes r arr ms : ms `prefix_of` pushes grad r arr → ∃ j, ms = pushes grad r (take j arr).
Proof.
  intros [rest E]. exists (length ms). transitivity (take (length ms) (pushes grad r arr)); [by rewrite E, take_app_length|].
  destruct arr as [|w arr], ms as [|m ms]; [done..|]. cbn. by rewrite fmap_take.
Qed.

(** What a worker finds after the rounds [arrs] and the first messages of the next. *)
Lemma between_holds k0 arrs arr ms k : plain k0 → Forall (λ a, a ≡ₚ seq 0 W) arrs → ms `prefix_of` pushes grad (length arrs) arr →
  apply_all k0 (rounds arrs ++ ms) = Done k →
  plain k ∧ ∀ r, length arrs = S r → ∃ j, holds k
    (match take j arr with [] => vsum n (g r <$> seq 0 W) | arr' => vsum n (g (S r) <$> arr') end).
Proof.
  intros Hp Harrs [j ->]%prefix_pushes E. destruct (rounds_plain k0 arrs Hp Harrs) as (k1 & E1 & Hp1 & Hd1).
  unfold ServerRounds.apply_all in *. rewrite fold_c_app, E1 in E. cbn [mbind cres_bind] in E.
  destruct (take j arr) as [|w arr'] eqn:Ej.
  - injection E as ->. split; [done|]. intros r Hr. exists 0%nat. cbn. by apply Hd1.
  - destruct (pushes_plain (length arrs) k1 (w :: arr') Hp1) as (k2 & E2 & Hp2 & Hm & V); [done|].
    unfold ServerRounds.apply_all in E2. rewrite E2 in E. injection E as <-. split; [done|]. intros r Hr. exists j.
    rewrite Ej, <-Hr. split; [rewrite Hm; by apply (Hd1 r)|done].
Qed.

Lemma during_sum k0 arrs arr r k : plain k0 → Forall (λ a, a ≡ₚ seq 0 W) arrs → length arrs = S r →
  during k0 arrs arr k →
  ∃ j, merged_data k = Done (Raw (match take j arr with [] => vsum n (g r <$> seq 0 W) | arr' => vsum n (g (S r) <$> arr') end)).
Proof.
  intros Hp Harrs Hr [ms k' Hms E|ms m k1 k' m' Hms E Ep].
  - destruct (between_holds k0 arrs arr ms k' Hp Harrs Hms E) as [Hp' Hh]. destruct (Hh r Hr) as [j Hj].
    exists j. by apply holds_data.
  - assert (ms `prefix_of` pushes grad (length arrs) arr) as Hms1 by (etrans; [by apply prefix_app_r|exact Hms]).
    destruct (between_holds k0 arrs arr ms k1 Hp Harrs Hms1 E) as [Hp' Hh]. destruct (Hh r Hr) as [j Hj].
    assert (m ≠ ALL_RECV) as Hm.
    { intros ->. apply (pushes_no_all grad (length arrs) arr). destruct Hms as [l ->]. set_solver. }
    rewrite prepare_plain in Ep by done. exists j. assert (k' = k1) as -> by (destruct m; by injection Ep).
    by apply holds_data.
Qed.

Lemma plain_steps s s' : rtc step s s' → plain (y_key s) → plain (y_key s').
Proof. induction 1; [done|]. intros Hp. by eapply IHrtc, plain_step. Qed.

(** C11: Without a compressor, in the synchronous mode and with addition that is
    associative and commutative and not rounded, what a worker has pulled in round [r] is
    the sum of what all workers pushed in round [r], nothing of another round, nothing twice and
    nothing missing, however requests and engine are interleaved; or it is the sum of
    what some other workers, not itself, have pushed in round [r + 1]. So it is
    the sum of round [r] when nobody has pushed for round [r + 1] yet. *)
Theorem server_sums s0 s w r data : initial s0 → plain (y_key s0) → rtc step s0 s →
  y_workers s !! w = Some (Worker r (Got data)) →
  data = Raw (vsum n (g r <$> seq 0 W)) ∨
  ∃ arr, arr ≠ [] ∧ NoDup arr ∧ w ∉ arr ∧ (∀ v, v ∈ arr → pushed s (S r) v) ∧ data = Raw (vsum n (g (S r) <$> arr)).
Proof.
  intros Hi Hp Hs Hw.
  destruct (inv_reachable _ _ _ _ _ _ _ HW _ HT _ s0 s Hi Hs) as (arrs & arr & late & Hinv).
  destruct (i_workers _ _ _ _ _ _ _ _ _ _ _ _ _ _ Hinv w _ Hw) as [_ (_ & Hwa & Hr & k & Hk & Hd)]. cbn in Hr.
  destruct (during_sum (y_key s0) arrs arr r k) as [j Hj]; [done|apply Hinv|done..|].
  rewrite Hd in Hj. injection Hj as ->.
  destruct (take j arr) as [|v arr'] eqn:Ej; [by left|]. right. exists (v :: arr').
  assert (v :: arr' ⊆ arr) as Hsub by (rewrite <-Ej; apply subseteq_take). split_and!; [done| |set_solver| |done].
  - destruct (i_arr _ _ _ _ _ _ _ _ _ _ _ _ _ _ Hinv) as [Hnd _]. rewrite <-(take_drop j arr), Ej in Hnd.
    by apply NoDup_app in Hnd as [Hnd _].
  - intros u Hu. rewrite Hr. apply (pushed_arr _ _ _ _ _ _ _ HW _ HT _ _ _ _ _ _ u Hinv). by apply Hsub.
Qed.

(** ** The end of the rounds *)

(** All workers have the result of their last round. *)
Definition finished s : Prop :=
  ∀ w, (w < W)%nat → ∃ r data, y_workers s !! w = Some (Worker r (Got data)) ∧ S r = T.

Definition weight (x : worker (R := R)) : nat :=
  ((T - 1 - w_round x) * 11 +
   match w_phase x with ToPush => 10 | Pushing => 9 | ToPull => 4 | Pulling => 3 | Got _ => 0 end)%nat.
Definition rank s : nat :=
  (sum_list_with weight (y_workers s) + 2 * length (y_queue s) + (if y_cur s then 1 else 0))%nat.

Lemma weight_insert (ws : list worker) w x y : ws !! w = Some x →
  (sum_list_with weight (<[w := y]> ws) + weight x = sum_list_with weight ws + weight y)%nat.
Proof.
  revert w. induction ws as [|z ws IH]; intros [|w]; cbn [sum_list_with insert list_insert lookup list_lookup];
    [done..|intros [= ->]; lia|]. intros E%IH. rewrite <-!Nat.add_assoc. f_equal. exact E.
Qed.

Lemma weight_alter (f : worker → worker) (ws : list worker) w : (∀ x, weight (f x) ≤ weight x)%nat →
  (sum_list_with weight (alter f w ws) ≤ sum_list_with weight ws)%nat.
Proof.
  intros Hf. revert w. induction ws as [|x ws IH]; intros [|w]; cbn [sum_list_with alter list_alter]; [done..| |].
  - specialize (Hf x). lia.
  - specialize (IH w). change (list_alter f w ws) with (alter f w ws). lia.
Qed.

Lemma weight_deliver rs (ws : list worker) : Forall (λ r, ∃ w data, r = PullResponse w data) rs →
  (sum_list_with weight (deliver rs ws) ≤ sum_list_with weight ws)%nat.
Proof.
  intros Hrs. revert ws. unfold deliver. induction Hrs as [|r rs (w & data & ->) _ IH]; intros ws; cbn [foldl]; [done|].
  etrans; [apply IH|]. apply weight_alter. intros [r p]. unfold weight. cbn. lia.
Qed.

Lemma answer_pulls_rs q kept k k' rs : answer_pulls cf q kept k = Done (k', rs) →
  Forall (λ r, ∃ w data, r = PullResponse w data) rs.
Proof.
  revert kept k rs. induction q as [|w q IH]; intros kept k rs; cbn [answer_pulls]; [intros [= <- <-]; constructor|].
  destruct (decide (w ∉ seen_sender_ k)).
  - destruct (merged_data k) as [data| | |]; try done. cbn [mbind cres_bind mret cres_ret].
    case_decide; [intros [= <- <-]; constructor; [by do 2 eexists|constructor]|].
    destruct (answer_pulls _ _ _ _) as [[k1 rs1]| | |] eqn:E; try done. intros [= <- <-].
    constructor; [by do 2 eexists|]. by eapply IH.
  - cbn [mbind cres_bind mret cres_ret]. case_decide; [intros [= <- <-]; constructor|].
    destruct (answer_pulls _ _ _ _) as [[k1 rs1]| | |] eqn:E; try done. intros [= <- <-]. by eapply IH.
Qed.

Lemma step_decreases s s' : step s s' → (rank s' < rank s)%nat.
Proof.
  destruct 1 as [w r k t k' rs ms q c ws Hw _ E|w r k k' rs q c ws Hw E|k m q k' m' ws E|
    k m q k' rs ws E|w r data k q c ws Hw HrT]; unfold rank; cbn.
  - apply push_state in E as (_ & -> & Hms). cbn [deliver foldl]. rewrite length_app.
    assert (alter (set_phase ToPull) w (<[w := Worker r Pushing]> ws) = <[w := Worker r ToPull]> ws) as ->.
    { apply list_eq. intros v. rewrite lookup_deliver_one by (by eapply lookup_lt_Some). destruct (decide (v = w)) as [->|].
      - by rewrite list_lookup_insert_eq by (by eapply lookup_lt_Some).
      - by rewrite list_lookup_insert_ne. }
    pose proof (weight_insert ws w _ (Worker r ToPull) Hw) as H1. unfold weight at 2 4 in H1. cbn in H1. lia.
  - apply pull_state in E as [_ Hrs]. pose proof (weight_insert ws w _ (Worker r Pulling) Hw) as H1.
    unfold weight at 2 4 in H1. cbn in H1.
    assert (Forall (λ r, ∃ w data, r = PullResponse w data) rs) as H3.
    { destruct Hrs as [->|[data ->]]; [constructor|]. constructor; [by do 2 eexists|constructor]. }
    pose proof (weight_deliver rs (<[w := Worker r Pulling]> ws) H3). lia.
  - lia.
  - assert (Forall (λ r, ∃ w data, r = PullResponse w data) rs) as Hrs.
    { unfold Server.execute, mbind, cres_bind, mret, cres_ret in E. destruct (k_tensor k); [|done].
      destruct m; [..|by eapply answer_pulls_rs]; repeat case_match; simplify_eq; constructor. }
    pose proof (weight_deliver rs ws Hrs). lia.
  - pose proof (weight_insert ws w _ (Worker (S r) ToPush) Hw) as H1. unfold weight at 2 4 in H1. cbn in H1. lia.
Qed.

(** *** Progress *)

Lemma push_total w p t k : ∃ k' rs ms, push w p t k = Done (k', rs, ms).
Proof.
  unfold Server.push, mbind, cres_bind, mret, cres_ret, bps_check. cbn. repeat case_match; simplify_eq; by do 3 eexists.
Qed.

Lemma answer_pulls_total data q kept k : merged_data k = Done data → ∃ x, answer_pulls cf q kept k = Done x.
Proof.
  revert kept k. induction q as [|w q IH]; intros kept k Hd; cbn [answer_pulls]; [by eexists|].
  destruct (decide (w ∉ seen_sender_ k)); [rewrite Hd|]; cbn [mbind cres_bind mret cres_ret]; case_decide; try by eexists.
  - edestruct (IH kept) as [[k1 rs1] E]; [|rewrite E; by eexists]. done.
  - edestruct (IH (kept ++ [w])) as [[k1 rs1] E]; [exact Hd|]. rewrite E. by eexists.
Qed.

Lemma prepare_none m k k' m' : prepare m k = Done (k', m') → k_compressor k' = None → m' = m.
Proof.
  unfold Server.prepare, mbind, cres_bind, mret, cres_ret, bps_check. intros E Hc. repeat case_match; simplify_eq; done.
Qed.

Lemma messages_fit r arr m : m ∈ messages W grad r arr → fits m.
Proof.
  unfold messages. intros [Hm|Hm]%elem_of_app.
  - destruct arr as [|w arr]; [by apply elem_of_nil in Hm|]. apply elem_of_cons in Hm as [->|Hm]; [apply Hg|].
    apply list_elem_of_fmap in Hm as (v & -> & _). apply Hg.
  - case_decide; [|by apply elem_of_nil in Hm]. by apply list_elem_of_singleton in Hm as ->.
Qed.

Lemma execute_total m k : plain k → fits m → (m = ALL_RECV → ∃ data, merged_data k = Done data) →
  ∃ k' rs, execute m k = Done (k', rs).
Proof.
  intros Hp Hf Hd. destruct m as [[l|]|[l|]|]; try done.
  - destruct (copy_plain l k Hp Hf) as (t & E & _). by do 2 eexists.
  - destruct Hp as (Hc & Hn & t & Ht & Hlt). destruct (sum_plain l k t) as (t' & E & _); [by split_and!; [..|exists t]|done|done|].
    by do 2 eexists.
  - destruct Hd as [data Hd]; [done|]. destruct Hp as (_ & _ & t & Ht & _). unfold Server.execute. rewrite Ht. cbn [mbind cres_bind].
    edestruct (answer_pulls_total data) as [[k' rs] E]; [|rewrite E; by do 2 eexists]. exact Hd.
Qed.

(** The engine goes on while it has messages. *)
Lemma progress_engine arrs arr k0 k q c ws : plain k → engine_at flog2 push_heap pop_heap d sz lr W grad k0 arrs arr k q c →
  (c, q) ≠ (None, []) → ∃ s', step (Sys k q c ws) s'.
Proof.
  intros Hp Hat Hne. pose proof Hp as (_ & _ & t & Ht & _). destruct c as [m'|]; cbn in Hat.
  - destruct Hat as (ms & m & k1 & E & _ & _ & Hpr).
    assert (m' = m) as -> by (apply (prepare_none _ _ _ _ Hpr); apply Hp).
    destruct (execute_total m k) as (k' & rs & Ex); [done|apply (messages_fit (length arrs) arr); rewrite E; set_solver| |].
    { intros ->. apply (prepare_merged flog2 push_heap pop_heap d sz lr _ _ _ _ Hpr Ht). }
    eexists. by apply st_execute.
  - destruct q as [|m q]; [done|]. eexists. apply st_prepare, prepare_plain, Hp.
Qed.

Lemma missing arr : NoDup arr → (∀ w, w ∈ arr → (w < W)%nat) → length arr ≠ W → ∃ w, (w < W)%nat ∧ w ∉ arr.
Proof.
  intros Hnd Hb Hl. destruct (decide (Forall (λ w, w ∈ arr) (seq 0 W))) as [Hall|Hno].
  - exfalso. apply Hl. destruct (arr_bound W HW T HT arr Hnd Hb) as [Hle _].
    assert (seq 0 W ⊆+ arr) as Hsub%submseteq_length by (apply NoDup_submseteq; [apply NoDup_seq|by apply Forall_forall]).
    rewrite length_seq in Hsub. lia.
  - apply not_Forall_Exists in Hno; [|apply _]. apply Exists_exists in Hno as (w & [_ Hw]%elem_of_seq & Hwa). by exists w.
Qed.

Lemma some_or_all (P : Prop) (Q : nat → Prop) m : (∀ w, (w < m)%nat → P ∨ Q w) → P ∨ ∀ w, (w < m)%nat → Q w.
Proof.
  induction m as [|m IH]; intros Ha; [right; lia|]. destruct IH as [?|Hall]; [intros w Hw; apply Ha; lia|by left|].
  destruct (Ha m) as [?|?]; [lia|by left|right]. intros w Hw. destruct (decide (w = m)) as [->|]; [done|apply Hall; lia].
Qed.

(** A worker that has not pushed for the round under way does so, or its last is over. *)
Lemma progress_worker k0 s arrs arr late w t : inv flog2 push_heap pop_heap d sz lr W T grad k0 s arrs arr late →
  late = ∅ → k_tensor (y_key s) = Some t → (w < W)%nat → w ∉ arr →
  (∃ s', step s s') ∨ ∃ r data, y_workers s !! w = Some (Worker r (Got data)) ∧ S r = T ∧ length arrs = T.
Proof.
  intros Hi -> Ht Hw Hwa. destruct s as [k q c ws]. pose proof (i_len _ _ _ _ _ _ _ _ _ _ _ _ _ _ Hi) as Hl. cbn in Hl, Ht.
  destruct (lookup_lt_is_Some_2 ws w) as [[r p] Hx]; [lia|].
  destruct (i_workers _ _ _ _ _ _ _ _ _ _ _ _ _ _ Hi w _ Hx) as [HrT Hok]. destruct p as [| | | |data]; cbn in HrT, Hok.
  - left. destruct (push_total w (Raw (g r w)) t k) as (k' & rs & ms & E). eexists. by apply (st_push _ _ _ _ _ _ _ _ _ w r k t).
  - done.
  - destruct Hok as [[? _]|(_ & ? & _)]; [set_solver|done].
  - tauto.
  - destruct (decide (S r = T)) as [HT'|HT']; [right; exists r, data; split_and!; [done..|lia]|left].
    eexists. apply (st_next _ _ _ _ _ _ _ _ _ w r data); [done|lia].
Qed.

Lemma progress s0 s : initial s0 → plain (y_key s0) → rtc step s0 s → finished s ∨ ∃ s', step s s'.
Proof.
  intros Hi Hp0 Hs. pose proof (plain_steps _ _ Hs Hp0) as Hp.
  destruct (inv_reachable _ _ _ _ _ _ _ HW _ HT _ _ _ Hi Hs) as (arrs & arr & late & Hinv).
  pose proof Hinv as [Hl Harrs [Hnd Harr] Hlate Hws Hreq Hf Hq Hat]. destruct s as [k q c ws]. cbn in *.
  destruct (decide (c = None ∧ q = [])) as [[-> ->]|Hne];
    [|right; apply (progress_engine arrs arr (y_key s0)); [done..|naive_solver]].
  pose proof Hp as (_ & _ & t & Ht & _).
  destruct (decide (late = ∅)) as [Hle|[w Hw]%set_choose_L].
  - assert (length arr ≠ W) as HarrW.
    { intros E. destruct Hat as (ms & Em & Hno & _). apply Hno. rewrite app_nil_r in Em. rewrite <-Em.
      unfold messages. rewrite decide_True by done. set_solver. }
    destruct (missing arr Hnd) as (w & Hw & Hwa); [intros v Hv; by apply Harr|done|].
    destruct (progress_worker _ _ _ _ _ w t Hinv Hle Ht Hw Hwa) as [?|(_ & _ & _ & _ & HT')]; [by right|].
    assert (∀ v, v ∉ arr) as Hno.
    { intros v Hv. apply (pushed_arr _ _ _ _ _ _ _ HW _ HT _ _ _ _ _ _ v Hinv) in Hv as (x & Hv & Hr').
      destruct (Hws v x Hv) as [? _]. lia. }
    apply or_comm, some_or_all. intros v Hv.
    destruct (progress_worker _ _ _ _ _ v t Hinv Hle Ht Hv (Hno v)) as [?|(r & data & ? & ? & _)]; [by left|right; by exists r, data].
  - right. pose proof (Hlate w Hw) as HwW. destruct (lookup_lt_is_Some_2 ws w) as [[r p] Hx]; [lia|].
    destruct (Hws w _ Hx) as [_ Hok]. assert (p = ToPull) as -> by (destruct p; cbn in Hok; tauto).
    unfold flags_ok in Hf. rewrite decide_False in Hf by set_solver. destruct Hf as (Hfin & _ & Hseen).
    assert (∃ data, merged_data k = Done data) as [data Hd].
    { destruct Hok as [[_ Hr]|[? _]]; [|done]. destruct (during_sum (y_key s0) arrs arr r (reset k)) as [j Hj]; [done..| |by eexists].
      by eapply engine_during. }
    assert (pull w k = Done (count_pull cf w k, [PullResponse w data])) as E.
    { unfold Server.pull. cbn. rewrite Ht, Hfin. cbn. rewrite bool_decide_true by (rewrite Hseen; tauto). by rewrite Hd. }
    eexists. by apply (st_pull _ _ _ _ _ _ _ _ _ w r k).
Qed.

Lemma steps_rank m s s' : nsteps step m s s' → (m + rank s' ≤ rank s)%nat.
Proof. induction 1 as [|m s1 s2 s3 Hs _ IH]; [lia|]. pose proof (step_decreases _ _ Hs). lia. Qed.

End uncompressed.
End ServerSum.
