(* ===== verification/ServerModes.v ===== *)
(** * The server as a whole

    The engine of a key's rounds inside the server with all its keys and threads; the
    modes in which no round can give a result; and a worker that is a round ahead of
    another. *)

From S2P Require Import Prelude PyStr Tensor BitIO Compressors CompressorProofs Dithering Drive Exact CompObj Server ServerRounds ServerSum.

Module ServerModes.
Import BitIO Comp CompProofs Drive CompObj Server.

Section modes.
Context {R : Type} `{Scalar R, !Native R} {build : Build}.
Context (flog2 : Z → Z) (push_heap pop_heap : list (nat * R) → list (nat * R)) (d : dtype) (sz : nat).
Context (read_bool : string → bool) (read_unsigned read_int : string → Z) (read_float : string → R).
Context (device : rng) (lr : R) (cf : config).
Notation BytePSHandler := (Server.BytePSHandler d sz read_bool read_unsigned read_int read_float device lr cf).
Notation engine_step := (Server.engine_step flog2 push_heap pop_heap d sz lr cf).
Implicit Types (s : server R) (k : key_state R) (m : message R).

(** [byteps_server]: no keys, and [n] threads with empty queues. *)
Definition fresh (n : nat) : server R :=
  Server ∅ (Threads ∅ (replicate n 0)) (replicate n []) (replicate n None).

(** A request is handled, or a thread of the engine makes a step. *)
Inductive action := Handle (r : request R) | Engine (i : nat).
Definition act (a : action) s : option (cres (server R * list (response R))) :=
  match a with Handle r => Some (BytePSHandler r s) | Engine i => engine_step i s end.
Definition srv_step s s' : Prop := ∃ a rs, act a s = Some (Done (s', rs)).

(** A run, with the responses it sends. *)
Fixpoint run (acts : list action) s : option (cres (server R * list (response R))) :=
  match acts with
  | [] => Some (Done (s, []))
  | a :: acts' =>
      match act a s with
      | Some (Done (s1, rs)) =>
          match run acts' s1 with
          | Some (Done (s2, rs')) => Some (Done (s2, rs ++ rs'))
          | x => x
          end
      | x => x
      end
  end.

Lemma run_steps acts s s' rs : run acts s = Some (Done (s', rs)) → rtc srv_step s s'.
Proof.
  revert s rs. induction acts as [|a acts IH]; intros s rs; cbn [run]; [intros [= -> _]; apply rtc_refl|].
  destruct (act a s) as [[[s1 rs1]| | |]|] eqn:E; try done. destruct (run acts s1) as [[[s2 rs2]| | |]|] eqn:E2; try done.
  intros [= -> _]. eapply rtc_l; [by exists a, rs1|]. by eapply IH.
Qed.

(** ** Without a queue of results *)

(** No key has a result, and none is asked of the engine. *)
Record resultless s : Prop := {
  rl_keys key k : srv_keys s !! key = Some k → k_merged k = None;
  rl_queues q key m : q ∈ engine_queues_ s → (key, m) ∈ q → m ≠ ALL_RECV;
  rl_msgs key m : Some (key, m) ∈ engine_msgs s → m ≠ ALL_RECV
}.

Lemma resultless_key s key : resultless s → k_merged (key_of s key) = None.
Proof. intros [Hk _ _]. unfold key_of. destruct (srv_keys s !! key) eqn:E; [by eapply Hk|done]. Qed.

Lemma resultless_put s key k : resultless s → k_merged k = None → resultless (put_key key k s).
Proof.
  intros [H1 H2 H3] Hk. split; cbn; [|done..]. intros key' k' [[-> <-]|[_ E]]%lookup_insert_Some; [done|by eapply H1].
Qed.

Lemma register_merged sender content k k' rs :
  handle_register sz read_bool read_unsigned read_int read_float device lr cf sender content k = Done (k', rs) →
  k_merged k' = k_merged k.
Proof.
  unfold handle_register, mbind, cres_bind, mret, cres_ret. intros E. repeat case_match; simplify_eq; done.
Qed.

Lemma init_merged sender recved k k' rs : init_push sz cf sender recved k = Done (k', rs) → k_merged k' = k_merged k.
Proof. unfold init_push, mbind, cres_bind, mret, cres_ret. intros E. repeat case_match; simplify_eq; done. Qed.

Lemma push_merged sender recved t k k' rs ms :
  sync_mode_ cf = false ∨ is_engine_blocking_ cf = true → push d cf sender recved t k = Done (k', rs, ms) →
  k_merged k' = k_merged k ∧ Forall (λ m, m ≠ ALL_RECV) ms.
Proof.
  unfold push, mbind, cres_bind, mret, cres_ret, bps_check. intros Hm E.
  repeat case_match; simplify_eq; (split; [done|]); repeat constructor; try done; destruct Hm; congruence.
Qed.

Lemma pull_merged sender k k' rs : pull cf sender k = Done (k', rs) → k_merged k' = k_merged k.
Proof.
  unfold pull, count_pull, mbind, cres_bind, mret, cres_ret. intros E. repeat case_match; simplify_eq; done.
Qed.

Lemma answer_merged q kept k k' rs : answer_pulls cf q kept k = Done (k', rs) → k_merged k' = k_merged k.
Proof.
  revert kept k rs. induction q as [|w q IH]; intros kept k rs; cbn [answer_pulls]; [by intros [= <- <-]|].
  unfold mbind, cres_bind, mret, cres_ret. intros E. repeat (case_match; simplify_eq; try done);
    match goal with E : answer_pulls _ _ _ _ = _ |- _ => apply IH in E; by rewrite E end.
Qed.

Lemma handle_resultless r s s' rs :
  sync_mode_ cf = false ∨ is_engine_blocking_ cf = true → resultless s → BytePSHandler r s = Done (s', rs) → resultless s'.
Proof.
  intros Hm Hs. destruct r as [sender key content|sender key recved|sender key]; cbn [Server.BytePSHandler];
    pose proof (resultless_key s key Hs) as Hk.
  - destruct (handle_register _ _ _ _ _ _ _ _ _ _ _) as [[k rs1]| | |] eqn:E; try done. intros [= <- <-].
    apply resultless_put; [done|]. by rewrite (register_merged _ _ _ _ _ E).
  - destruct (k_tensor _) as [t|].
    + destruct (GetThreadID _ _ _) as [[tid ts]| | |]; try done. cbn [mbind cres_bind].
      destruct (push _ _ _ _ _ _) as [[[k rs1] ms]| | |] eqn:E; try done. intros [= <- <-].
      destruct (push_merged _ _ _ _ _ _ _ Hm E) as [E1 Hms].
      destruct (resultless_put s key k Hs) as [H1 H2 H3]; [by rewrite E1|]. split; cbn; [done| |done].
      intros q key' m (j & Hj)%list_elem_of_lookup Hin.
      destruct (decide (j = tid)) as [->|Hne].
      * rewrite list_lookup_alter_eq in Hj. destruct (engine_queues_ s !! tid) as [q0|] eqn:Eq; [|done]. injection Hj as <-.
        apply elem_of_app in Hin as [Hin|(m' & [= -> ->] & Hm')%list_elem_of_fmap].
        -- eapply H2; [|exact Hin]. by eapply list_elem_of_lookup_2.
        -- by eapply Forall_forall in Hms.
      * rewrite list_lookup_alter_ne in Hj by done. eapply H2; [|exact Hin]. by eapply list_elem_of_lookup_2.
    + destruct (init_push _ _ _ _ _) as [[k rs1]| | |] eqn:E; try done. intros [= <- <-].
      apply resultless_put; [done|]. by rewrite (init_merged _ _ _ _ _ E).
  - destruct (if is_engine_blocking_ cf || negb (sync_mode_ cf) then _ else _) as [ts| | |]; try done. cbn [mbind cres_bind].
    destruct (pull _ _ _) as [[k rs1]| | |] eqn:E; try done. intros [= <- <-].
    destruct (resultless_put s key k Hs) as [H1 H2 H3]; [by rewrite (pull_merged _ _ _ _ E)|]. by split.
Qed.

Lemma prepare_resultless m k k' m' : m ≠ ALL_RECV → prepare flog2 push_heap pop_heap d sz lr m k = Done (k', m') →
  k_merged k' = k_merged k ∧ m' ≠ ALL_RECV.
Proof.
  unfold prepare, mbind, cres_bind, mret, cres_ret, bps_check. intros Hm E. repeat case_match; simplify_eq; done.
Qed.

Lemma execute_resultless m k k' rs : m ≠ ALL_RECV → execute d cf m k = Done (k', rs) → k_merged k' = k_merged k.
Proof.
  unfold execute, mbind, cres_bind, mret, cres_ret. intros Hm E. repeat case_match; simplify_eq; done.
Qed.

Lemma engine_resultless i s s' rs : resultless s → engine_step i s = Some (Done (s', rs)) → resultless s'.
Proof.
  intros Hs. pose proof Hs as [H1 H2 H3]. unfold Server.engine_step.
  destruct (engine_msgs s !! i) as [[[key m]|]|] eqn:Em; [|destruct (engine_queues_ s !! i) as [[|[key m] q]|] eqn:Eq|]; try done.
  - assert (m ≠ ALL_RECV) as Hm by (eapply H3; by eapply list_elem_of_lookup_2).
    destruct (execute _ _ _ _) as [[k rs1]| | |] eqn:E; try done. intros [= <- <-].
    destruct (resultless_put s key k Hs) as [P1 P2 P3].
    { rewrite (execute_resultless _ _ _ _ Hm E). by apply resultless_key. }
    split; cbn; [done..|]. intros key' m' (j & [(_ & ? & _)|[_ Hj]]%list_lookup_insert_Some)%list_elem_of_lookup; [done|].
    eapply H3. by eapply list_elem_of_lookup_2.
  - apply list_elem_of_lookup_2 in Eq. assert (m ≠ ALL_RECV) as Hm by (eapply H2; [done|left]).
    destruct (prepare _ _ _ _ _ _ _ _) as [[k m1]| | |] eqn:E; try done. intros [= <- <-].
    destruct (prepare_resultless _ _ _ _ Hm E) as [Ek Hm1].
    destruct (resultless_put s key k Hs) as [P1 P2 P3]; [rewrite Ek; by apply resultless_key|]. split; cbn; [done|..].
    + intros q' key' m' (j & [(_ & -> & _)|[_ Hj]]%list_lookup_insert_Some)%list_elem_of_lookup Hin.
      * eapply H2; [exact Eq|by right].
      * eapply H2; [by eapply list_elem_of_lookup_2|done].
    + intros key' m' (j & [(_ & [= -> ->] & _)|[_ Hj]]%list_lookup_insert_Some)%list_elem_of_lookup; [done|].
      eapply H3. by eapply list_elem_of_lookup_2.
Qed.

(** C32: In asynchronous mode and with a blocking engine the buffer a pull is answered
    from is never set: whatever was pushed before, the first pull of a key ends the
    process, and with a blocking engine already the push that completes a round, or
    the second push of one, adds to a null pointer. *)
Theorem no_result_without_engine n s key :
  sync_mode_ cf = false ∨ is_engine_blocking_ cf = true → rtc srv_step (fresh n) s →
  (∀ sender, BytePSHandler (Pull sender key) s = Fatal) ∧
  (sync_mode_ cf = true → is_engine_blocking_ cf = true → ∀ t, k_tensor (key_of s key) = Some t → ∀ sender recved,
     k_request (key_of s key) ≠ [] ∨ NumWorkers cf = 1%nat →
     push d cf sender recved t (key_of s key) = Undef).
Proof.
  intros Hm Hs. assert (resultless s) as Hr.
  { revert Hs. apply rtc_ind_r.
    - split; cbn; [done|..].
      + intros q key' m [-> _]%elem_of_replicate. by intros ?%elem_of_nil.
      + by intros key' m [? _]%elem_of_replicate.
    - intros s1 s2 _ ([r|i] & rs & E) IH; cbn in E.
      + injection E as E. by eapply handle_resultless.
      + by eapply engine_resultless. }
  pose proof (resultless_key s key Hr) as Hk. split.
  - intros sender. cbn [Server.BytePSHandler].
    assert (is_engine_blocking_ cf || negb (sync_mode_ cf) = true) as E by (destruct Hm as [->| ->]; [apply orb_true_r|done]).
    rewrite E. cbn [mbind cres_bind mret cres_ret]. unfold pull. destruct (k_tensor _); [|done]. rewrite E.
    unfold merged_data. by rewrite Hk.
  - intros Es Eb t Ht sender recved Hreq. unfold push, bps_check. rewrite Es, Eb, Hk. cbn.
    destruct (k_request (key_of s key)) as [|w ws] eqn:Er; [|done].
    destruct Hreq as [|Hreq]; [done|]. cbn. rewrite Er, Hk. by rewrite bool_decide_true.
Qed.
End modes.
End ServerModes.
