(* ===== verification/ServerDemo.v ===== *)
(** * The server, run on requests

    Rounds of two workers on a key of one element, with integers; and what happens
    when one of them is a round ahead. *)

From S2P Require Import Prelude PyStr Tensor BitIO Compressors CompressorProofs Dithering Drive Exact CompObj Server ServerProofs ServerRounds ServerSum ServerModes.

Module ServerDemo.
Import BitIO Comp CompProofs Drive CompObj Server ServerProofs ServerRounds ServerSum ServerModes.

#[export] Instance Z_native : Native Z := {| conv _ x := x; f_floor x := x; f_ceil x := x; f_signbit x := x <? 0 |}.
#[export] Instance release : Build := {| NDEBUG := true |}.

Definition two : config := Config true false 2.
Notation run := (ServerModes.run Z.log2 id id int32 4 (λ _, true) (λ _, 0) (λ _, 0) (λ _, 0) (Rng 1 2) 0).

Definition pushes_of (w0 w1 : Z) : list (action (R := Z)) :=
  [Handle (Push 0 7 (Raw [w0])); Handle (Push 1 7 (Raw [w1]))].
(** The three messages of a round. *)
Definition engine_runs : list (action (R := Z)) := [Engine 0; Engine 0; Engine 0; Engine 0; Engine 0; Engine 0].

Definition responses {S} (x : option (cres (S * list (response Z)))) : option (list (response Z)) :=
  match x with Some (Done (_, rs)) => Some rs | _ => None end.

(** The requests of such a run, handled by the server: a worker can receive what another one
    pushed in the next round. Worker 0 has
    its result of the first round, 1 + 2, and pushes 10 for the second round before
    worker 1's pull of the first round arrives; the engine copies the 10 over the
    stored sum, and worker 1 is sent 10 as the sum of the first round. *)
Theorem late_pull_reads_next_round :
  responses (run two (pushes_of 0 0 ++ pushes_of 1 2 ++ engine_runs ++
      [Handle (Pull 0 7); Handle (Push 0 7 (Raw [10])); Engine 0; Engine 0; Handle (Pull 1 7)]) (fresh 1))
  = Some [PushResponse 0; PushResponse 1; PushResponse 0; PushResponse 1; PullResponse 0 (Raw [3]);
          PushResponse 0; PullResponse 1 (Raw [10])].
Proof. by vm_compute. Qed.

(** *** Rounds *)

(** Worker [w] pushes [w + r] in round [r]. *)
Definition g (r w : nat) : list Z := [Z.of_nat (w + r)].
Lemma conv_int32 (x : Z) : conv int32 x = x.
Proof. done. Qed.
Lemma g_length r w : length (g r w) = 1%nat.
Proof. done. Qed.
Definition key0 : key_state Z := Key 1 (Some [0; 0]) [] None None (Raw []) false 0 ∅ [].
Definition start : sys (R := Z) := Sys key0 [] None (replicate 2 (Worker 0 ToPush)).
(** Two workers, two rounds. *)
Notation step := (ServerRounds.step Z.log2 id id int32 4 0 2 2 (λ r w, Raw (g r w))).

Lemma start_initial : ServerRounds.initial 2 start.
Proof. by exists key0, [0; 0]. Qed.
Lemma start_plain : plain 1 (y_key start).
Proof. split_and!; [done..|]. exists [0; 0]. split; [done|]. simpl. lia. Qed.

(** Both have pushed, worker 1 has pulled, and the engine has run. *)
Definition halfway : sys (R := Z) :=
  Sys (Key 1 (Some [1; 0]) [] (Some ToStore) None (Raw []) true 1 {[1%nat]} []) [] None
    [Worker 0 ToPull; Worker 0 (Got (Raw [1]))].
(** Then worker 0 pulls; or worker 1 first pushes for the next round, and its message
    is executed before worker 0 pulls. *)
Definition finish : sys (R := Z) :=
  Sys (Key 1 (Some [1; 0]) [] (Some ToStore) None (Raw []) false 0 ∅ []) [] None
    [Worker 0 (Got (Raw [1])); Worker 0 (Got (Raw [1]))].
Definition ahead : sys (R := Z) :=
  Sys (Key 1 (Some [2; 0]) [1%nat] (Some ToStore) None (Raw []) false 0 ∅ []) [] None
    [Worker 0 (Got (Raw [2])); Worker 1 ToPull].

Lemma start_halfway : rtc step start halfway.
Proof.
  eapply rtc_l; [eapply (st_push _ _ _ _ _ _ _ _ _ 1%nat); [done|done|by vm_compute]|]. cbn.
  eapply rtc_l; [eapply (st_push _ _ _ _ _ _ _ _ _ 0%nat); [done|done|by vm_compute]|]. cbn.
  eapply rtc_l; [eapply (st_pull _ _ _ _ _ _ _ _ _ 1%nat); [done|by vm_compute]|]. cbn.
  do 3 (eapply rtc_l; [apply st_prepare; by vm_compute|]; cbn; eapply rtc_l; [apply st_execute; by vm_compute|]; cbn).
  apply rtc_refl.
Qed.

Lemma start_finish : rtc step start finish.
Proof.
  etrans; [apply start_halfway|]. eapply rtc_l; [eapply (st_pull _ _ _ _ _ _ _ _ _ 0%nat); [done|by vm_compute]|].
  cbn. apply rtc_refl.
Qed.

Lemma start_ahead : rtc step start ahead.
Proof.
  etrans; [apply start_halfway|]. eapply rtc_l; [apply (st_next _ _ _ _ _ _ _ _ _ 1%nat 0%nat (Raw [1])); [done|lia]|]. cbn.
  eapply rtc_l; [eapply (st_push _ _ _ _ _ _ _ _ _ 1%nat); [done|done|by vm_compute]|]. cbn.
  eapply rtc_l; [apply st_prepare; by vm_compute|]. cbn. eapply rtc_l; [apply st_execute; by vm_compute|]. cbn.
  eapply rtc_l; [eapply (st_pull _ _ _ _ _ _ _ _ _ 0%nat); [done|by vm_compute]|]. cbn. apply rtc_refl.
Qed.

Lemma nobody_ahead v : ¬ pushed finish 1 v.
Proof. intros (x & Hx & Hp). destruct v as [|[|v]]; [injection Hx as <-; cbn in Hp; lia..|done]. Qed.

Lemma round_agrees_witness : ∃ arr k, arr ≡ₚ seq 0 2 ∧ merged_data k = Done (Raw [1]) ∧
  apply_all Z.log2 id id int32 4 0 2 key0 (rounds 2 (λ r w, Raw (g r w)) [arr]) = Done k.
Proof.
  destruct (round_agrees Z.log2 id id int32 4 0 2 ltac:(lia) 2 ltac:(lia) (λ r w, Raw (g r w)) start finish start_initial start_finish)
    as (arrs & arr & Harrs & _ & _ & Hres).
  destruct (Hres 0%nat 0%nat (Raw [1]) eq_refl) as (Hl & k & _ & Hd & Hk). specialize (Hk nobody_ahead).
  destruct arrs as [|a [|]]; [done| |done]. exists a, k. split; [|by split].
  apply Forall_cons in Harrs as [Ha _]. exact Ha.
Defined.

(** Worker 0 was late, and has what worker 1 pushed in round 1. *)
Lemma server_sums_witness :
  y_workers finish !! 1%nat = Some (Worker 0 (Got (Raw [1]))) ∧ Raw [1] = Raw (vsum 1 (g 0 <$> seq 0 2)) ∧
  ∃ arr, arr ≠ [] ∧ 0%nat ∉ arr ∧ Raw [2] = Raw (vsum 1 (g 1 <$> arr)).
Proof.
  split; [reflexivity|]. split.
  - destruct (server_sums Z.log2 id id int32 4 0 conv_int32 2 ltac:(lia) 2 ltac:(lia) 1 g g_length
      start finish 1 0 (Raw [1]) start_initial start_plain start_finish eq_refl) as [E|(arr & Hne & _ & _ & Hp & _)]; [exact E|].
    destruct arr as [|v arr]; [done|]. destruct (nobody_ahead v). apply Hp. left.
  - destruct (server_sums Z.log2 id id int32 4 0 conv_int32 2 ltac:(lia) 2 ltac:(lia) 1 g g_length
      start ahead 0 0 (Raw [2]) start_initial start_plain start_ahead eq_refl) as [E|(arr & Hne & _ & Hw & _ & E)]; [done|].
    exists arr. by split_and!.
Defined.


Lemma keys_balanced_witness :
  ∃ ids t, assign (Threads ∅ (replicate 2 0)) [(5, 8); (6, 4); (5, 8)] = Done (ids, t) ∧
    ∀ a b, a ∈ acc_load_ t → b ∈ acc_load_ t → a ≤ b + 8.
Proof.
  destruct (keys_balanced 2 8 [(5, 8); (6, 4); (5, 8)]) as (ids & t & E & Hb & _);
    [lia|lia|by repeat constructor|by vm_compute|]. by exists ids, t.
Defined.

Lemma command_roundtrip_witness : DepairDataHandleType (GetCommandType kCompressedPushPull 1) = (2, 1).
Proof. apply (command_roundtrip kCompressedPushPull 1). lia. Defined.

(** An asynchronous server, after the initial pushes and one push of a gradient. *)
Notation arun := (ServerModes.run Z.log2 id id int32 4 (λ _, true) (λ _, 0) (λ _, 0) (λ _, 0) (Rng 1 2) 0 (Config false false 2)).
Definition pushed : server Z :=
  match arun (pushes_of 0 0 ++ [Handle (Push 0 7 (Raw [1]))]) (fresh 1) with Some (Done (s, _)) => s | _ => fresh 1 end.

Lemma no_result_without_engine_witness :
  k_tensor (key_of pushed 7) = Some (1 :: replicate 31 0) ∧
  BytePSHandler int32 4 (λ _, true) (λ _, 0) (λ _, 0) (λ _, 0) (Rng 1 2) 0 (Config false false 2) (Pull 0 7) pushed = Fatal.
Proof.
  split; [by vm_compute|].
  apply (no_result_without_engine Z.log2 id id int32 4 (λ _, true) (λ _, 0) (λ _, 0) (λ _, 0) (Rng 1 2) 0
    (Config false false 2) 1 pushed 7); [by left|].
  apply (run_steps _ _ _ _ _ _ _ _ _ _ _ _ (pushes_of 0 0 ++ [Handle (Push 0 7 (Raw [1]))]) _ _
    [PushResponse 0; PushResponse 1; PushResponse 0]). by vm_compute.
Defined.
End ServerDemo.
