(* ===== verification/Mirrored.v ===== *)
(** * Devices of the mirrored strategy, [tensorflow/distribute/mirrored_strategy.py]

    Device lists: from a cluster specification to device strings, grouped by task,
    and back to the number of GPUs per worker; and the initialisation of the
    strategy from a device list. Parsing of device strings is TensorFlow's and a
    parameter. *)

From Stdlib Require Import Ascii.
From S2P Require Import Prelude PyStr.

Module Mirrored.

(** [tf_device.DeviceSpec] *)
Record spec : Type := Spec {
  job : option string;
  replica : option Z;
  task : option nat;
  device_type : option string;
  device_index : option nat
}.
#[export] Instance spec_eq_dec : EqDecision spec.
Proof. solve_decision. Defined.

Section devices.
Context (from_string : string → spec).

Definition is_local (d : spec) : bool :=
  match job d with None => true | Some j => bool_decide (j = "localhost") end.

Definition task_key (d : spec) : option string * option nat * option Z := (job d, task d, replica d).

Definition _is_device_list_single_worker (devices : list string) : res bool :=
  let specs := from_string <$> devices in
  let num_workers := length (remove_dups (task_key <$> specs)) in
  let all_local := forallb is_local specs in
  let any_local := existsb is_local specs in
  if any_local && negb all_local then Raise ValueError
  else if bool_decide (num_workers = 1%nat) && negb all_local &&
          existsb (λ d, bool_decide (task d = None)) specs then Raise ValueError
  else Ok (bool_decide (num_workers = 1%nat)).

(** ["/job:%s/task:%d"] and ["/job:%s/task:%d/device:GPU:%i"] *)
Definition task_name (task_type : string) (task_id : nat) : string :=
  "/job:" +:+ task_type +:+ "/task:" +:+ py_str (Z.of_nat task_id).
Definition gpu_name (task_type : string) (task_id gpu_id : nat) : string :=
  task_name task_type task_id +:+ "/device:GPU:" +:+ py_str (Z.of_nat gpu_id).

Definition task_devices (num_gpus_per_worker : nat) (task_type : string) (task_id : nat) : list string :=
  if decide (num_gpus_per_worker = 0%nat) then [task_name task_type task_id]
  else gpu_name task_type task_id <$> seq 0 num_gpus_per_worker.

(** [cluster t] is the number of tasks of type [t]. *)
Definition _cluster_spec_to_device_list (cluster : gmap string nat) (num_gpus_per_worker : nat) :
    list string :=
  flat_map (λ task_type, flat_map (task_devices num_gpus_per_worker task_type)
                           (seq 0 (default 0%nat (cluster !! task_type)))) ["chief"; "worker"].

(** The body of the loop of [_group_device_list]: the list of the task type is
    filled up to the task, and the device is appended there. *)
Definition group_one (d : string) (device_dict : odict (option string) (list (list string))) :
    res (odict (option string) (list (list string))) :=
  let d_spec := from_string d in
  let row := default [] (od_get (job d_spec) device_dict) in
  t ← or_raise TypeError (task d_spec);
  let row' := row ++ replicate (S t - length row) [] in
  Ok (od_set (job d_spec) (alter (λ l, l ++ [d]) t row') device_dict).

Fixpoint group_all (devices : list string) (device_dict : odict (option string) (list (list string))) :
    res (odict (option string) (list (list string))) :=
  match devices with
  | [] => Ok device_dict
  | d :: devices' => device_dict' ← group_one d device_dict; group_all devices' device_dict'
  end.

Definition _group_device_list (devices : list string) : res (odict (option string) (list (list string))) :=
  single ← _is_device_list_single_worker devices;
  py_assert (negb single);;
  group_all devices [].

Definition _is_gpu_device (device : string) : bool :=
  bool_decide (device_type (from_string device) = Some "GPU").

Definition count_gpus (devices : list string) : nat := length (filter (λ d, _is_gpu_device d = true) devices).

(** The check of one task's devices; comparing an absent index is an error. *)
Fixpoint check_indices (num_gpus : nat) (devices : list string) : res () :=
  match devices with
  | [] => Ok ()
  | d :: devices' =>
      (if _is_gpu_device d then
         i ← or_raise TypeError (device_index (from_string d));
         if decide (num_gpus ≤ i)%nat then Raise ValueError else Ok ()
       else Ok ());;
      check_indices num_gpus devices'
  end.

Fixpoint infer_tasks (tasks : list (list string)) (num_gpus : option nat) : res (option nat) :=
  match tasks with
  | [] => Ok num_gpus
  | device_in_task :: tasks' =>
      n ← (match num_gpus with
           | None => Ok (count_gpus device_in_task)
           | Some n => if decide (n = count_gpus device_in_task) then Ok n else Raise ValueError
           end);
      check_indices n device_in_task;;
      infer_tasks tasks' (Some n)
  end.

Definition _infer_num_gpus_per_worker (devices : list string) : res (option nat) :=
  single ← _is_device_list_single_worker devices;
  if single : bool then Ok (Some (count_gpus devices))
  else
    device_dict ← _group_device_list devices;
    infer_tasks (concat device_dict.*2) None.

(** ** Initialisation *)

(** The attributes [_initialize_strategy] sets. *)
Record strategy : Type := Strategy {
  device_map : list string;
  worker_devices : list (string * list string);
  default_device : option string;
  is_multi_worker : bool
}.

(** The classes of the package's [cross_device_ops] module; every other attribute
    is an [AttributeError]. *)
Definition cross_device_ops_lib : list string :=
  ["CollectiveCommunication"; "MyCollectiveAllReduce"; "BytepsAllReduce"; "BytepsCrossDeviceOps"].
Definition module_class (name : string) : res string :=
  if decide (name ∈ cross_device_ops_lib) then Ok name else Raise AttributeError.

(** One worker. [input_device] is the host device TensorFlow feeds the input
    through. *)
Definition _initialize_single_worker (input_device : string) (devices : list string) : res strategy :=
  let sp := from_string input_device in
  default_ ← (match job sp with
    | None => Ok None
    | Some j =>
        if decide (j = "localhost") then Ok None
        else
          r ← or_raise TypeError (replica sp);
          t ← or_raise TypeError (task sp);
          Ok (Some ("/job:" +:+ j +:+ "/replica:" +:+ py_str r +:+ "/task:" +:+ py_str (Z.of_nat t)))
    end);
  Ok (Strategy devices [(input_device, devices)] default_ false).

Definition workers_of (device_dict : odict (option string) (list (list string))) :
    list (string * list string) :=
  flat_map (λ j, imap (λ i ds, (task_name j i, ds)) (default [] (od_get (Some j) device_dict)))
    ["chief"; "worker"].

(** [self._cross_device_ops] is a [BytepsCrossDeviceOps]. *)
Definition _initialize_multi_worker (devices : list string) : res strategy :=
  device_dict ← _group_device_list devices;
  let workers := workers_of device_dict in
  w0 ← or_raise IndexError (head workers);
  (if decide (1 < length workers)%nat then
     c ← module_class "MultiWorkerAllReduce";
     if decide (c = "BytepsCrossDeviceOps") then Ok () else Raise ValueError
   else module_class "NcclAllReduce";; Ok ());;
  Ok (Strategy devices workers (Some w0.1) true).

(** [device_util.resolve] makes a device string canonical. *)
Definition _initialize_strategy (resolve : string → string) (input_device : string)
    (devices : list string) : res strategy :=
  py_assert (bool_decide (devices ≠ []));;
  let devices := resolve <$> devices in
  py_assert (bool_decide (NoDup devices));;
  single ← _is_device_list_single_worker devices;
  if single : bool then _initialize_single_worker input_device devices else _initialize_multi_worker devices.

(** [_configure] with a cluster specification. The device map of a strategy is not
    empty, so that a number is inferred. *)
Definition _configure (s : strategy) (cluster : gmap string nat) : res strategy :=
  n ← _infer_num_gpus_per_worker (device_map s);
  n ← or_raise TypeError n;
  _initialize_multi_worker (_cluster_spec_to_device_list cluster n).

(** ** A cluster's devices *)

(** How TensorFlow reads the strings above. *)
Definition parses : Prop := ∀ t i,
  t ∈ ["chief"; "worker"] →
  from_string (task_name t i) = Spec (Some t) None (Some i) None None ∧
  ∀ g, from_string (gpu_name t i g) = Spec (Some t) None (Some i) (Some "GPU") (Some g).

Lemma od_set_set {K V} `{EqDecision K} (k : K) (v v' : V) (d : odict K V) :
  od_set k v (od_set k v' d) = od_set k v d.
Proof.
  induction d as [|[k' x] d IH]; simpl; [by rewrite decide_True|].
  case_decide as E; simpl; [by rewrite decide_True|by rewrite decide_False, IH].
Qed.

Section cluster.
Context (Hparse : parses) (n : nat).

(** The devices of a task all belong to it. *)
Definition of_task (t : string) (i : nat) (d : string) : Prop :=
  job (from_string d) = Some t ∧ task (from_string d) = Some i ∧ replica (from_string d) = None.

Lemma task_devices_of t i : t ∈ ["chief"; "worker"] → Forall (of_task t i) (task_devices n t i).
Proof.
  intros Ht. destruct (Hparse t i Ht) as [H1 H2]. unfold task_devices. case_decide.
  - apply Forall_singleton. unfold of_task. by rewrite H1.
  - apply Forall_fmap, Forall_forall. intros g _. unfold of_task, compose. by rewrite H2.
Qed.

Lemma task_devices_ne t i : task_devices n t i ≠ [].
Proof. unfold task_devices. case_decide; [done|]. by destruct n. Qed.

Lemma group_rest t i row acc ds rest dict :
  length row = i → Forall (of_task t i) ds →
  group_all (ds ++ rest) (od_set (Some t) (row ++ [acc]) dict)
  = group_all rest (od_set (Some t) (row ++ [acc ++ ds]) dict).
Proof.
  intros Hl Hds. revert acc. induction Hds as [|d ds (H1 & H2 & _) _ IH]; intros acc; simpl.
  { by rewrite app_nil_r. }
  unfold group_one. rewrite H1, H2, od_get_set_eq. simpl.
  rewrite length_app. simpl. replace (S i - (length row + 1))%nat with 0%nat by lia. simpl.
  rewrite app_nil_r, <-Hl, alter_app_r_alt, Nat.sub_diag by done. simpl.
  rewrite od_set_set, IH. by rewrite <-app_assoc.
Qed.

(** A whole task: one more entry in the row of its type. *)
Lemma group_task t i row rest dict :
  t ∈ ["chief"; "worker"] → default [] (od_get (Some t) dict) = row → length row = i →
  group_all (task_devices n t i ++ rest) dict
  = group_all rest (od_set (Some t) (row ++ [task_devices n t i]) dict).
Proof.
  intros Ht Hrow <-. pose proof (task_devices_of t (length row) Ht) as Hof. pose proof (task_devices_ne t (length row)) as Hne.
  destruct (task_devices n t (length row)) as [|d ds]; [done|]. apply Forall_cons in Hof as [(H1 & H2 & H3) Hof].
  cbn [group_all app]. unfold group_one. rewrite H1, H2, Hrow.
  cbn [or_raise mbind res_bind]. replace (S (length row) - length row)%nat with 1%nat by lia.
  rewrite alter_app_r_alt, Nat.sub_diag by done. cbn.
  by apply (group_rest t (length row) row [d]).
Qed.

Definition rows (t : string) (from m : nat) : list (list string) := task_devices n t <$> seq from m.

Lemma group_type t from m row rest dict :
  t ∈ ["chief"; "worker"] → default [] (od_get (Some t) dict) = row → length row = from →
  group_all (flat_map (task_devices n t) (seq from m) ++ rest) dict
  = group_all rest (if decide (m = 0)%nat then dict else od_set (Some t) (row ++ rows t from m) dict).
Proof.
  intros Ht. revert from row dict. induction m as [|m IH]; intros from row dict Hrow Hl; [done|].
  cbn [seq flat_map]. rewrite <-app_assoc, (group_task t from row) by done.
  rewrite (IH (S from) (row ++ [task_devices n t from])).
  2: by rewrite od_get_set_eq. 2: rewrite length_app; simpl; lia.
  rewrite (decide_False (P := S m = 0%nat)) by lia. unfold rows. cbn [seq fmap list_fmap].
  case_decide as E; [by subst|]. by rewrite od_set_set, <-app_assoc.
Qed.

Context (cluster : gmap string nat).
Definition tasks_of (t : string) : nat := default 0%nat (cluster !! t).
Definition all_tasks : list (string * nat) :=
  flat_map (λ t, pair t <$> seq 0 (tasks_of t)) ["chief"; "worker"].
Definition all_rows : list (list string) := (λ '(t, i), task_devices n t i) <$> all_tasks.

Lemma all_tasks_eq : all_tasks = (pair "chief" <$> seq 0 (tasks_of "chief")) ++ (pair "worker" <$> seq 0 (tasks_of "worker")).
Proof. unfold all_tasks. cbn [flat_map]. by rewrite app_nil_r. Qed.

Lemma all_rows_eq : all_rows = rows "chief" 0 (tasks_of "chief") ++ rows "worker" 0 (tasks_of "worker").
Proof. unfold all_rows, rows. rewrite all_tasks_eq, fmap_app, <-!list_fmap_compose. done. Qed.

Lemma device_list_eq : _cluster_spec_to_device_list cluster n = concat all_rows.
Proof.
  unfold _cluster_spec_to_device_list. rewrite all_rows_eq, concat_app. cbn [flat_map].
  rewrite app_nil_r, !flat_map_concat_map. done.
Qed.

Lemma grouped : ∃ dict, group_all (_cluster_spec_to_device_list cluster n) [] = Ok dict ∧
  concat dict.*2 = all_rows ∧
  workers_of dict = (λ '(t, i), (task_name t i, task_devices n t i)) <$> all_tasks.
Proof.
  unfold _cluster_spec_to_device_list. cbn [flat_map]. fold (tasks_of "chief") (tasks_of "worker").
  rewrite (group_type "chief" 0 (tasks_of "chief") []) by (done || set_solver).
  rewrite (group_type "worker" 0 (tasks_of "worker") []).
  2: set_solver. 2: by case_decide. 2: done.
  eexists. split; [reflexivity|].
  assert (∀ t m, imap (λ i ds, (task_name t i, ds)) (rows t 0 m) =
            (λ '(t, i), (task_name t i, task_devices n t i)) <$> (pair t <$> seq 0 m)) as Hrows.
  { intros t m. unfold rows. rewrite imap_fmap, <-list_fmap_compose.
    apply list_eq. intros j. rewrite list_lookup_imap, list_lookup_fmap.
    destruct (seq 0 m !! j) eqn:E; [|done]. apply lookup_seq in E as [-> ?]. done. }
  rewrite all_rows_eq, all_tasks_eq, fmap_app, <-!Hrows. unfold workers_of. cbn [flat_map].
  repeat case_decide; cbn; rewrite ?app_nil_r; try done.
  all: repeat match goal with H : tasks_of _ = 0%nat |- _ => rewrite H end; cbn; rewrite ?app_nil_r; try done.
  rewrite (decide_False (P := Some "worker" = Some "chief")) by done. cbn. by rewrite ?app_nil_r.
Qed.

Lemma elem_of_tasks t i : (t, i) ∈ all_tasks ↔ t ∈ ["chief"; "worker"] ∧ (i < tasks_of t)%nat.
Proof.
  rewrite all_tasks_eq, elem_of_app, !list_elem_of_fmap. setoid_rewrite elem_of_seq. split.
  - intros [(j & [= -> ->] & Hj)|(j & [= -> ->] & Hj)]; split; try lia; set_solver.
  - intros [[->|[->|[]%not_elem_of_nil]%elem_of_cons]%elem_of_cons Hi]; [left|right]; exists i; split; [done|lia|done|lia].
Qed.

Lemma elem_of_devices d :
  d ∈ _cluster_spec_to_device_list cluster n ↔ ∃ t i, (t, i) ∈ all_tasks ∧ d ∈ task_devices n t i.
Proof.
  rewrite device_list_eq, list_elem_of_In, in_concat. setoid_rewrite <-list_elem_of_In.
  unfold all_rows. setoid_rewrite list_elem_of_fmap. split.
  - intros (l & ([t i] & -> & Ht) & Hd). eauto.
  - intros (t & i & Ht & Hd). exists (task_devices n t i). split; [|done]. by exists (t, i).
Qed.

Lemma device_spec d t i :
  (t, i) ∈ all_tasks → d ∈ task_devices n t i → of_task t i d.
Proof.
  intros [Ht _]%elem_of_tasks Hd. pose proof (task_devices_of t i Ht) as Hof.
  rewrite Forall_forall in Hof. by apply Hof.
Qed.

Lemma all_tasks_NoDup : NoDup all_tasks.
Proof.
  rewrite all_tasks_eq. apply NoDup_app. split_and!.
  - apply NoDup_fmap_2; [by intros i j [=]|apply NoDup_seq].
  - intros x (i & -> & _)%list_elem_of_fmap (j & [=] & _)%list_elem_of_fmap.
  - apply NoDup_fmap_2; [by intros i j [=]|apply NoDup_seq].
Qed.

(** One worker per task. *)
Lemma cluster_keys :
  length (remove_dups (task_key <$> (from_string <$> _cluster_spec_to_device_list cluster n))) = length all_tasks.
Proof.
  set (f := λ ti : string * nat, (Some ti.1, Some ti.2, @None Z)).
  rewrite <-(length_fmap f all_tasks). apply Permutation_length, NoDup_Permutation.
  { apply NoDup_remove_dups. }
  { apply NoDup_fmap_2; [by intros [t i] [t' i'] [=]; subst|apply all_tasks_NoDup]. }
  intros k. rewrite elem_of_remove_dups, <-list_fmap_compose, !list_elem_of_fmap. split.
  - intros (d & -> & (t & i & Ht & Hd)%elem_of_devices). exists (t, i). split; [|done].
    destruct (device_spec d t i Ht Hd) as (J1 & J2 & J3). unfold compose, task_key, f. by rewrite J1, J2, J3.
  - intros ([t i] & -> & Ht). pose proof (task_devices_ne t i) as Hn.
    destruct (task_devices n t i) as [|d l] eqn:E; [done|]. exists d.
    assert (d ∈ task_devices n t i) as Hd by (rewrite E; left).
    destruct (device_spec d t i Ht Hd) as (J1 & J2 & J3). split; [unfold compose, task_key, f; by rewrite J1, J2, J3|].
    apply elem_of_devices. by exists t, i.
Qed.

(** The devices of a cluster are remote and have tasks; they are one worker's
    exactly when there is one task. *)
Lemma cluster_single :
  _is_device_list_single_worker (_cluster_spec_to_device_list cluster n)
  = Ok (bool_decide (length all_tasks = 1%nat)).
Proof.
  unfold _is_device_list_single_worker. rewrite cluster_keys. set (ds := _cluster_spec_to_device_list cluster n).
  assert (∀ d, d ∈ ds → ∃ t i, t ∈ ["chief"; "worker"] ∧ of_task t i d) as Hds.
  { intros d (t & i & Ht & Hd)%elem_of_devices. exists t, i.
    split; [by apply elem_of_tasks in Ht as [? _]|by apply device_spec]. }
  assert (∀ f, (∀ d, d ∈ ds → f (from_string d) = false) → existsb f (from_string <$> ds) = false) as Hex.
  { intros f Hf. apply not_true_iff_false. rewrite existsb_exists. intros (sp & Hsp & Hl).
    apply list_elem_of_In, list_elem_of_fmap in Hsp as (d & -> & Hd). rewrite (Hf d Hd) in Hl. done. }
  rewrite (Hex is_local), (Hex (λ d, bool_decide (task d = None))).
  - by rewrite andb_false_r.
  - intros d (t & i & _ & _ & Hj & _)%Hds. by rewrite Hj.
  - intros d (t & i & Ht & Hj & _)%Hds. unfold is_local. rewrite Hj. apply bool_decide_eq_false_2.
    intros ->. set_solver.
Qed.

(** *** The number of GPUs *)

Lemma count_gpus_task t i : t ∈ ["chief"; "worker"] → count_gpus (task_devices n t i) = n.
Proof.
  intros Ht. destruct (Hparse t i Ht) as [H1 H2]. unfold count_gpus, task_devices, _is_gpu_device.
  case_decide as E; [cbn; by rewrite H1|]. rewrite filter_all, length_fmap, length_seq; [done|].
  intros d (g & -> & _)%list_elem_of_fmap. by rewrite H2.
Qed.

Lemma check_indices_task t i : t ∈ ["chief"; "worker"] → check_indices n (task_devices n t i) = Ok ().
Proof.
  intros Ht. destruct (Hparse t i Ht) as [H1 H2]. unfold task_devices.
  case_decide as E; [cbn; unfold _is_gpu_device; by rewrite H1|].
  assert (Forall (λ g, g < n)%nat (seq 0 n)) as Hf by (apply Forall_seq; lia).
  induction Hf as [|g l Hg _ IH]; cbn; [done|]. unfold _is_gpu_device. rewrite H2. cbn.
  rewrite decide_False by lia. exact IH.
Qed.

Lemma infer_rows (ts : list (string * nat)) o :
  (∀ t i, (t, i) ∈ ts → t ∈ ["chief"; "worker"]) → o = None ∨ o = Some n →
  infer_tasks ((λ '(t, i), task_devices n t i) <$> ts) o = Ok (match ts with [] => o | _ => Some n end).
Proof.
  revert o. induction ts as [|[t i] ts IH]; intros o Ht Ho; [done|].
  assert (t ∈ ["chief"; "worker"]) as Hti by (by apply (Ht t i); left). cbn [fmap list_fmap infer_tasks].
  rewrite count_gpus_task by done.
  assert ((match o with None => Ok n | Some m => if decide (m = n) then Ok m else Raise ValueError end) = Ok n) as ->.
  { destruct Ho as [->| ->]; [done|]. by rewrite decide_True. }
  cbn [mbind res_bind]. rewrite check_indices_task by done. cbn [mbind res_bind].
  rewrite IH; [by destruct ts| |by right]. intros t' i' H'. apply (Ht t' i'). by right.
Qed.

(** The device strings made for a cluster are taken apart again: grouping them
    (of at least two tasks) gives every task of the cluster, the chief first, in
    order and with exactly its devices, and the number of GPUs per worker that is
    inferred from the strings of a cluster with at least one task is the one they
    were made with, zero included. *)
Theorem cluster_devices_roundtrip :
  all_tasks ≠ [] →
  _infer_num_gpus_per_worker (_cluster_spec_to_device_list cluster n) = Ok (Some n) ∧
  (length all_tasks ≠ 1%nat → ∃ device_dict,
     _group_device_list (_cluster_spec_to_device_list cluster n) = Ok device_dict ∧
     workers_of device_dict = (λ '(t, i), (task_name t i, task_devices n t i)) <$> all_tasks).
Proof.
  intros Hne. destruct grouped as (dict & Eg & Hrows & Hw).
  assert (length all_tasks ≠ 1%nat → _group_device_list (_cluster_spec_to_device_list cluster n) = Ok dict) as Hgrp.
  { intros Hl. unfold _group_device_list. rewrite cluster_single, bool_decide_eq_false_2 by done. exact Eg. }
  split; [|by eauto]. unfold _infer_num_gpus_per_worker. rewrite cluster_single.
  destruct (decide (length all_tasks = 1%nat)) as [Hl|Hl]; cbn [mbind res_bind].
  - rewrite bool_decide_eq_true_2 by done. rewrite device_list_eq. unfold all_rows.
    destruct all_tasks as [|[t i] [|]] eqn:E; try done. cbn [fmap list_fmap concat]. rewrite app_nil_r, count_gpus_task; [done|].
    apply (elem_of_tasks t i). rewrite E. left.
  - rewrite bool_decide_eq_false_2, Hgrp by done. cbn [mbind res_bind]. rewrite Hrows. unfold all_rows.
    rewrite infer_rows; [by destruct all_tasks| |by left]. intros t i [? _]%elem_of_tasks. done.
Qed.

(** In-graph training on several workers cannot be initialised: for the devices
    of any cluster with at least two tasks, [_initialize_multi_worker] raises an
    [AttributeError], since the class it asks for is not in the package's module,
    and it succeeds for no device list at all. *)
Theorem multi_worker_never_initialised :
  (∀ devices st, _initialize_multi_worker devices ≠ Ok st) ∧
  ((2 ≤ length all_tasks)%nat →
   _initialize_multi_worker (_cluster_spec_to_device_list cluster n) = Raise AttributeError).
Proof.
  assert (module_class "MultiWorkerAllReduce" = Raise AttributeError) as Hm by (vm_compute; reflexivity).
  assert (module_class "NcclAllReduce" = Raise AttributeError) as Hn by (vm_compute; reflexivity).
  split.
  - intros devices st. unfold _initialize_multi_worker. rewrite Hm, Hn.
    destruct (_group_device_list devices) as [dict|]; [|done]. cbn [mbind res_bind].
    destruct (head (workers_of dict)); [|done]. cbn. by case_decide.
  - intros Hl. destruct grouped as (dict & Eg & _ & Hw). unfold _initialize_multi_worker, _group_device_list.
    rewrite cluster_single, bool_decide_eq_false_2 by lia. cbn [negb py_assert mbind res_bind]. rewrite Eg.
    cbn [mbind res_bind]. rewrite Hw, Hm. destruct all_tasks as [|[t i] l]; [simpl in Hl; lia|]. cbn.
    rewrite decide_True; [done|]. rewrite length_fmap. simpl in Hl. lia.
Qed.
End cluster.
End devices.

(** ** Concrete instance *)
Module MirroredDemo.
Definition slash : ascii := "/"%char.
Definition colon : ascii := ":"%char.
Definition to_nat (s : string) : option nat := Z.to_nat <$> py_int_opt s.

(** A reader of device strings. *)
Definition read_part (sp : spec) (part : string) : spec :=
  match py_split colon part with
  | ["job"; j] => Spec (Some j) (replica sp) (task sp) (device_type sp) (device_index sp)
  | ["task"; i] => Spec (job sp) (replica sp) (to_nat i) (device_type sp) (device_index sp)
  | ["device"; t; i] => Spec (job sp) (replica sp) (task sp) (Some t) (to_nat i)
  | _ => sp
  end.
Definition read_spec (s : string) : spec :=
  foldl read_part (Spec None None None None None) (py_split slash s).

Lemma digits_no (c : ascii) (i : nat) :
  is_digit c = false → str_forall (λ x, negb (Ascii.eqb x c)) (py_str (Z.of_nat i)).
Proof.
  intros Hc. apply pretty_nonneg_forall; [|lia]. intros x Hx. destruct (Ascii.eqb_spec x c) as [->|]; [|done].
  by rewrite Hc in Hx.
Qed.

Lemma to_nat_str (i : nat) : to_nat (py_str (Z.of_nat i)) = Some i.
Proof.
  unfold to_nat. pose proof (py_int_str (Z.of_nat i)) as E. unfold py_int in E.
  destruct (py_int_opt (py_str (Z.of_nat i))); [|done]. injection E as ->. simpl. by rewrite Nat2Z.id.
Qed.

Notation free c s := (str_forall (λ x, negb (Ascii.eqb x c)) s).

Lemma split_task_name t x rest :
  free slash t → free slash x →
  py_split slash ("/job:" +:+ t +:+ "/task:" +:+ x +:+ rest)
  = "" :: ("job:" +:+ t) :: py_split slash ("task:" +:+ x +:+ rest).
Proof.
  intros Ht Hx. change ("/job:" +:+ t +:+ "/task:" +:+ x +:+ rest) with
    ("" +:+ String slash ("job:" +:+ t +:+ String slash ("task:" +:+ x +:+ rest))).
  rewrite (py_split_app slash "") by done. f_equal. rewrite <-str_app_assoc. by apply py_split_app.
Qed.

Lemma read_parses : parses read_spec.
Proof.
  intros t i Ht. set (x := py_str (Z.of_nat i)).
  assert (free slash x ∧ free colon x) as [Hx1 Hx2] by (split; by apply digits_no).
  assert (free slash t ∧ free colon t) as [Ht1 Ht2].
  { apply elem_of_cons in Ht as [->|Ht]; [done|]. by apply list_elem_of_singleton in Ht as ->. }
  assert (∀ sp, read_part sp ("job:" +:+ t) =
    Spec (Some t) (replica sp) (task sp) (device_type sp) (device_index sp)) as Hj.
  { intros sp. unfold read_part. change ("job:" +:+ t) with ("job" +:+ String colon t).
    by rewrite py_split_app, py_split_none. }
  assert (∀ sp, read_part sp ("task:" +:+ x) =
    Spec (job sp) (replica sp) (Some i) (device_type sp) (device_index sp)) as Hk.
  { intros sp. unfold read_part. change ("task:" +:+ x) with ("task" +:+ String colon x).
    rewrite py_split_app, py_split_none by done. cbn -[to_nat]. by rewrite (to_nat_str i : to_nat x = Some i). }
  unfold read_spec, gpu_name, task_name. fold x. split.
  - rewrite <-(str_app_nil_r x), split_task_name, str_app_nil_r, py_split_none by done.
    cbn [foldl]. by rewrite Hj, Hk.
  - intros g. set (y := py_str (Z.of_nat g)).
    assert (free slash y ∧ free colon y) as [Hy1 Hy2] by (split; by apply digits_no).
    rewrite !str_app_assoc, split_task_name by done.
    change ("task:" +:+ x +:+ "/device:GPU:" +:+ y) with ("task:" +:+ x +:+ String slash ("device:GPU:" +:+ y)).
    rewrite <-str_app_assoc, py_split_app, py_split_none by done. cbn [foldl]. rewrite Hj, Hk.
    unfold read_part at 1. change ("device:GPU:" +:+ y) with ("device" +:+ String colon ("GPU" +:+ String colon y)).
    rewrite !py_split_app, py_split_none by done. cbn -[to_nat]. by rewrite (to_nat_str g : to_nat y = Some g).
Qed.

Definition two_workers : gmap string nat := {["worker" := 2%nat]}.

Lemma cluster_devices_roundtrip_witness :
  _infer_num_gpus_per_worker read_spec (_cluster_spec_to_device_list two_workers 4) = Ok (Some 4%nat).
Proof. apply (cluster_devices_roundtrip read_spec read_parses 4 two_workers). vm_compute. discriminate. Defined.

Lemma multi_worker_never_initialised_witness :
  _initialize_multi_worker read_spec (_cluster_spec_to_device_list two_workers 0) = Raise AttributeError.
Proof.
  apply (multi_worker_never_initialised read_spec read_parses 0 two_workers). apply Nat.leb_le. vm_compute. reflexivity.
Defined.
End MirroredDemo.
End Mirrored.
