(* ===== verification/Replicas.v ===== *)
(** * Replica threads, [tensorflow/distribute/mirrored_strategy.py]

    [_call_for_each_replica] runs a function once per replica, each in a
    [_MirroredReplicaThread]; a replica may call [merge_call], which hands the
    function and its argument to the main thread and waits for the result. Main
    thread and replica threads hand control to each other with two events per
    thread.

    A replica's function is what it does between these points: it returns, raises,
    or calls [merge_call] and goes on with the result. The events, the flags of the
    threads and the coordinator are the state; a step is one action of one thread,
    and the threads interleave in any way. The coordinator follows
    [tf.train.Coordinator]: it keeps the exception of the first request to stop,
    and [join] raises it. Contexts, scopes and control dependencies of the graph
    are left out. *)

From S2P Require Import Prelude.

Module Replicas.
Section run.
Context {V : Type}.

(** A merge function gets the arguments of all replicas, and its result has a
    value for each replica. *)
Notation mfun := (list V → res (nat → V)).
Inductive prog : Type :=
  | PRet (v : V)
  | PRaise (e : exn)
  | PMerge (f : mfun) (a : V) (k : V → prog).

(** Where a replica thread is: before the first [should_run.wait()], in its
    function, in [merge_call] before and after [has_paused.set()], in the
    [finally] block of [run], or finished. *)
Inductive tpc : Type :=
  | Waiting (p : prog)
  | Running (p : prog)
  | Pausing (k : V → prog)
  | Paused (k : V → prog)
  | Leaving
  | Exited.

(** The attributes of [_MirroredReplicaThread]. *)
Record thread : Type := Thread {
  t_pc : tpc;
  should_run : bool;
  has_paused : bool;
  done : bool;
  merge_data : option (mfun * V);
  merge_result : option V;
  main_result : option V
}.

Definition set_pc pc t :=
  Thread pc (should_run t) (has_paused t) (done t) (merge_data t) (merge_result t) (main_result t).
Definition set_run b t :=
  Thread (t_pc t) b (has_paused t) (done t) (merge_data t) (merge_result t) (main_result t).
Definition set_paused b t :=
  Thread (t_pc t) (should_run t) b (done t) (merge_data t) (merge_result t) (main_result t).
Definition set_merge d t :=
  Thread (t_pc t) (should_run t) (has_paused t) (done t) (Some d) (merge_result t) (main_result t).
Definition set_result v t :=
  Thread (t_pc t) (should_run t) (has_paused t) (done t) (merge_data t) (Some v) (main_result t).
Definition set_main v t :=
  Thread (t_pc t) (should_run t) (has_paused t) true (merge_data t) (merge_result t) (Some v).

(** Where the main thread is: at the top of the loop, before or after
    [should_run.set()] of a thread, after the loop over the threads, in the
    [finally] block, in [coord.join], or back at the caller. *)
Inductive mpc : Type :=
  | MTop
  | MSet (j : nat)
  | MWait (j : nat)
  | MDecide
  | MEnd (j : nat)
  | MJoin
  | MReturned (r : res (list (option V))).

Record state : Type := State {
  m_pc : mpc;
  m_done : list bool;
  threads : list thread;
  stop : bool;
  exc : option exn
}.

Definition set_mpc pc s := State pc (m_done s) (threads s) (stop s) (exc s).
Definition set_threads ts s := State (m_pc s) (m_done s) ts (stop s) (exc s).

(** [coord.request_stop(ex)] *)
Definition request_stop (e : option exn) (s : state) : state :=
  if stop s then s else State (m_pc s) (m_done s) (threads s) true e.

(** [_MirroredReplicaThread.__init__] and the state when the loop is reached. *)
Definition new_thread (p : prog) : thread := Thread (Waiting p) false false false None None None.
Definition start (progs : list prog) : state := State MTop [] (new_thread <$> progs) false None.

(** ** The replica thread: [run] and [_merge_call] *)

Definition put (i : nat) (t : thread) (s : state) : state := set_threads (<[i := t]> (threads s)) s.

(** [_merge_call]: the function and its argument are left in the thread, then
    [has_paused.set()]. *)
Definition merge_begin (i : nat) (t : thread) (f : mfun) (a : V) (k : V → prog) (s : state) : state :=
  put i (set_pc (Pausing k) (set_merge (f, a) t)) s.
Definition merge_pause (i : nat) (t : thread) (k : V → prog) (s : state) : state :=
  put i (set_pc (Paused k) (set_paused true t)) s.

(** [_merge_call] after [should_run.wait()]; [None] when it still waits. A request to
    stop is answered by the exception [_RequestedStop], which the coordinator does
    not record. *)
Definition merge_resume (i : nat) (t : thread) (k : V → prog) (s : state) : option state :=
  if should_run t then
    if stop s then Some (request_stop None (put i (set_pc Leaving (set_run false t)) s))
    else v ← merge_result t; Some (put i (set_pc (Running (k v)) (set_run false t)) s)
  else None.

(** One action of thread [i]; [None] when it waits or has finished. *)
Definition thread_next (i : nat) (s : state) : option state :=
  t ← threads s !! i;
  match t_pc t with
  | Waiting p =>
      if should_run t then
        Some (put i (set_pc (if stop s then Leaving else Running p) (set_run false t)) s)
      else None
  | Running (PRet v) => Some (put i (set_pc Leaving (set_main v t)) s)
  | Running (PRaise e) => Some (request_stop (Some e) (put i (set_pc Leaving t) s))
  | Running (PMerge f a k) => Some (merge_begin i t f a k s)
  | Pausing k => Some (merge_pause i t k s)
  | Paused k => merge_resume i t k s
  | Leaving => Some (put i (set_pc Exited (set_paused true t)) s)
  | Exited => None
  end.

(** ** The main thread: [_call_for_each_replica] *)

(** The results of a merge are stored in the threads. *)
Definition give_results (g : nat → V) (ts : list thread) : list thread :=
  imap (λ r t, set_result (g r) t) ts.

(** [threads[0].merge_fn] on the arguments of all threads. *)
Definition run_merge (ts : list thread) : option (res (nat → V)) :=
  fs ← mapM merge_data ts;
  f ← head fs.*1;
  Some (f fs.*2).

Definition main_next (s : state) : option state :=
  let n := length (threads s) in
  match m_pc s with
  | MTop =>
      if stop s then Some (set_mpc (MEnd 0) s)
      else Some (State (MSet 0) [] (threads s) (stop s) (exc s))
  | MSet j =>
      match threads s !! j with
      | Some t => Some (set_mpc (MWait j) (set_threads (<[j := set_run true t]> (threads s)) s))
      | None => Some (set_mpc MDecide s)
      end
  | MWait j =>
      t ← threads s !! j;
      if has_paused t then
        let ts := <[j := set_paused false t]> (threads s) in
        if stop s then Some (set_mpc (MEnd 0) (set_threads ts s))
        else Some (State (MSet (S j)) (m_done s ++ [done t]) ts (stop s) (exc s))
      else None
  | MDecide =>
      if stop s then Some (set_mpc (MEnd 0) s)
      else if forallb id (m_done s) then Some (set_mpc (MEnd 0) s)
      else if existsb id (m_done s) then Some (set_mpc (MEnd 0) (request_stop (Some RuntimeError) s))
      else
        r ← run_merge (threads s);
        match r with
        | Raise e => Some (set_mpc (MEnd 0) (request_stop (Some e) s))
        | Ok g => Some (set_mpc MTop (set_threads (give_results g (threads s)) s))
        end
  | MEnd j =>
      match threads s !! j with
      | Some t => Some (set_mpc (MEnd (S j)) (set_threads (<[j := set_run true t]> (threads s)) s))
      | None => Some (set_mpc MJoin s)
      end
  | MJoin =>
      if forallb (λ t, match t_pc t with Exited => true | _ => false end) (threads s) then
        Some (set_mpc (MReturned (match exc s with
                                  | Some e => Raise e
                                  | None => Ok (main_result <$> threads s)
                                  end)) s)
      else None
  | MReturned _ => None
  end.

Inductive step (s s' : state) : Prop :=
  | step_main : main_next s = Some s' → step s s'
  | step_thread i : thread_next i s = Some s' → step s s'.

(** ** The specification: replicas in lockstep *)

Definition raises (p : prog) : bool := match p with PRaise _ => true | _ => false end.
Definition returns (p : prog) : bool := match p with PRet _ => true | _ => false end.

Fixpoint first_raise (ps : list prog) : option exn :=
  match ps with
  | [] => None
  | PRaise e :: _ => Some e
  | _ :: ps' => first_raise ps'
  end.
Definition value_of (p : prog) : option V := match p with PRet v => Some v | _ => None end.
Definition merge_part (p : prog) : option (mfun * V * (V → prog)) :=
  match p with PMerge f a k => Some (f, a, k) | _ => None end.

(** One round: the first replica that raises decides; all return; some return and
    others want to merge; or all merge, with the function of the first replica,
    which may raise or lead to the next round. *)
Definition round_result (ps : list prog) : res (list (option V)) + list prog :=
  match first_raise ps with
  | Some e => inl (Raise e)
  | None =>
      if forallb returns ps then inl (Ok (value_of <$> ps))
      else match mapM merge_part ps with
           | None => inl (Raise RuntimeError)
           | Some ms =>
               match head ms.*1.*1 with
               | None => inl (Ok [])
               | Some f =>
                   match f ms.*1.*2 with
                   | Raise e => inl (Raise e)
                   | Ok g => inr (imap (λ r '(_, _, k), k (g r)) ms)
                   end
               end
           end
  end.

Definition verdict (ps : list prog) (r : res (list (option V))) : Prop := round_result ps = inl r.
Definition merged (ps ps' : list prog) : Prop := round_result ps = inr ps'.

Inductive lockstep (ps : list prog) : res (list (option V)) → Prop :=
  | ls_end r : verdict ps r → lockstep ps r
  | ls_round ps' r : merged ps ps' → lockstep ps' r → lockstep ps r.
End run.
Arguments prog : clear implicits.
Arguments thread : clear implicits.
Arguments state : clear implicits.
End Replicas.
