(* ===== verification/ReplicasProofs.v ===== *)
(** * Replica threads: lockstep, absence of deadlock, termination

    In every interleaving the main thread and the replica threads hand control to
    each other one at a time, so that the call returns what the replicas compute
    in lockstep. *)

From S2P Require Import Prelude Replicas.

Module ReplicasProofs.
Import Replicas.

Section proofs.
Context {V : Type}.
Implicit Types (s : state V) (t : thread V) (p : prog V) (cur : list (prog V)).

(** ** The outcomes of a round *)

Notation merge_of := (λ '(f, a, k), PMerge f a k) (only parsing).

Lemma first_raise_none cur : (∀ p, p ∈ cur → raises p = false) → first_raise cur = None.
Proof.
  induction cur as [|p cur IH]; intros Hr; [done|]. pose proof (Hr p ltac:(left)) as Hp. cbn.
  destruct p; try done; apply IH; intros q Hq; apply Hr; by right.
Qed.

Lemma v_ret cur vs : cur = PRet <$> vs → verdict cur (Ok (Some <$> vs)).
Proof.
  intros ->. unfold verdict, round_result. rewrite first_raise_none.
  2: { by intros p (v & -> & _)%list_elem_of_fmap. }
  assert (forallb returns (PRet <$> vs) = true) as -> by (induction vs; by cbn).
  by rewrite <-list_fmap_compose.
Qed.

Lemma v_raise cur i e :
  cur !! i = Some (PRaise e) → (∀ j p, (j < i)%nat → cur !! j = Some p → raises p = false) →
  verdict cur (Raise e).
Proof.
  intros Hi Hj. unfold verdict, round_result. assert (first_raise cur = Some e) as ->; [|done].
  revert i Hi Hj. induction cur as [|p cur IH]; intros [|i] Hi Hj; cbn in *; try done; [by simplify_eq|].
  pose proof (Hj 0%nat p ltac:(lia) eq_refl) as Hp. destruct p; try done;
    (apply (IH i); [done|]; intros j q Hlt Hq; apply (Hj (S j)); [lia|done]).
Qed.

Lemma v_mixed cur :
  (∀ p, p ∈ cur → raises p = false) → forallb returns cur = false → existsb returns cur = true →
  verdict cur (Raise RuntimeError).
Proof.
  intros Hr Hf Hx. unfold verdict, round_result. rewrite first_raise_none, Hf by done.
  assert (mapM merge_part cur = None) as ->; [|done].
  apply existsb_exists in Hx as (p & Hp%list_elem_of_In & Hret).
  apply eq_None_not_Some. intros [ms Hms%mapM_Some_1].
  apply list_elem_of_lookup in Hp as [i Hi].
  destruct (Forall2_lookup_l _ _ _ _ _ Hms Hi) as (m & _ & Hm). by destruct p.
Qed.

Lemma merge_parts_ok (ms : list ((list V → res (nat → V)) * V * (V → prog V))) :
  mapM merge_part (merge_of <$> ms) = Some ms.
Proof. apply mapM_Some. induction ms as [|[[f a] k] ms IH]; constructor; done. Qed.

Lemma merge_round (ms : list ((list V → res (nat → V)) * V * (V → prog V))) f :
  head ms.*1.*1 = Some f →
  round_result (merge_of <$> ms) = match f ms.*1.*2 with
    | Raise e => inl (Raise e)
    | Ok g => inr (imap (λ r '(_, _, k), k (g r)) ms)
    end.
Proof.
  intros Hf. unfold round_result. rewrite first_raise_none.
  2: { by intros p ([[f' a] k] & -> & _)%list_elem_of_fmap. }
  rewrite merge_parts_ok, Hf. by destruct ms as [|[[f' a] k] ms].
Qed.

Lemma v_merge cur ms f e :
  cur = merge_of <$> ms → head ms.*1.*1 = Some f → f ms.*1.*2 = Raise e → verdict cur (Raise e).
Proof. intros -> Hf He. unfold verdict. by rewrite (merge_round ms f Hf), He. Qed.

Lemma m_ok cur ms f g :
  cur = merge_of <$> ms → head ms.*1.*1 = Some f → f ms.*1.*2 = Ok g →
  merged cur (imap (λ r '(_, _, k), k (g r)) ms).
Proof. intros -> Hf He. unfold merged. by rewrite (merge_round ms f Hf), He. Qed.

(** The first replica's function goes on with its result. *)
Lemma merged_cons p cur cur' :
  merged (p :: cur) cur' → ∃ f a k v rest, p = PMerge f a k ∧ cur' = k v :: rest.
Proof.
  unfold merged, round_result. destruct (first_raise _); [done|]. destruct (forallb _ _); [done|].
  cbn [mapM]. destruct (merge_part p) as [[[f a] k]|] eqn:Ep; [|done]. cbn.
  destruct (mapM merge_part cur) as [ms|]; [|done]. cbn. destruct (f _) as [g|e]; [|done].
  intros [= <-]. destruct p; [done..|]. cbn in Ep. simplify_eq. by eexists _, _, _, _, _.
Qed.

(** ** Where the threads are during a round *)

(** [p] is what the replica does in this round. A thread that has not run yet in
    the round, one that has, and the one that has been told to run. *)
Definition fresh p t : Prop :=
  should_run t = false ∧ has_paused t = false ∧ done t = false ∧
  (t_pc t = Waiting p ∨ ∃ k v, t_pc t = Paused k ∧ merge_result t = Some v ∧ k v = p).

Definition finished p t : Prop :=
  should_run t = false ∧ has_paused t = false ∧
  match p with
  | PRet v => t_pc t = Exited ∧ done t = true ∧ main_result t = Some v
  | PRaise _ => False
  | PMerge f a k => t_pc t = Paused k ∧ done t = false ∧ merge_data t = Some (f, a)
  end.

Definition quiet t : Prop := should_run t = false ∧ has_paused t = false.

Inductive active p t : Prop :=
  | act_set : fresh p (set_run false t) → should_run t = true → active p t
  | act_run : t_pc t = Running p → quiet t → done t = false → active p t
  | act_pausing f a k : p = PMerge f a k → t_pc t = Pausing k → quiet t → done t = false →
      merge_data t = Some (f, a) → active p t
  | act_leaving v : p = PRet v → t_pc t = Leaving → quiet t → done t = true → main_result t = Some v → active p t
  | act_paused : finished p (set_paused false t) → has_paused t = true → active p t.

Definition each (P : nat → prog V → thread V → Prop) cur s : Prop :=
  ∀ i t p, threads s !! i = Some t → cur !! i = Some p → P i p t.

Definition before (j i : nat) p t : Prop := if decide (i < j)%nat then finished p t else fresh p t.
Definition around (j i : nat) p t : Prop := if decide (i = j) then active p t else before j i p t.

Record inv cur s : Prop := {
  iv_len : length (threads s) = length cur;
  iv_stop : stop s = false;
  iv_exc : exc s = None;
  iv_main : match m_pc s with
    | MTop => each (before 0) cur s
    | MSet j => (j ≤ length cur)%nat ∧ m_done s = returns <$> take j cur ∧ each (before j) cur s
    | MWait j => (j < length cur)%nat ∧ m_done s = returns <$> take j cur ∧ each (around j) cur s
    | MDecide => m_done s = returns <$> cur ∧ each (before (length cur)) cur s
    | _ => False
    end
}.

(** ** The end of the call *)

Definition calm t : Prop := match t_pc t with Running _ | Pausing _ => False | _ => True end.
Definition woken t : Prop := match t_pc t with Waiting _ | Paused _ => should_run t = true | _ => True end.

Record fin_stop (e : exn) s : Prop := {
  fs_stop : stop s = true;
  fs_exc : exc s = Some e;
  fs_calm i t : threads s !! i = Some t → calm t;
  fs_main : match m_pc s with
    | MWait j => ∃ t, threads s !! j = Some t ∧ (t_pc t = Leaving ∨ has_paused t = true)
    | MEnd j => ∀ i t, (i < j)%nat → threads s !! i = Some t → woken t
    | MJoin => ∀ i t, threads s !! i = Some t → woken t
    | MReturned r => r = Raise e
    | _ => False
    end
}.

Record fin_ok (vs : list V) s : Prop := {
  fo_stop : stop s = false;
  fo_exc : exc s = None;
  fo_res : main_result <$> threads s = Some <$> vs;
  fo_exit i t : threads s !! i = Some t → t_pc t = Exited;
  fo_main : match m_pc s with
    | MEnd _ | MJoin => True
    | MReturned r => r = Ok (Some <$> vs)
    | _ => False
    end
}.

Definition fin (r : res (list (option V))) s : Prop :=
  (∃ e, r = Raise e ∧ fin_stop e s) ∨ (∃ vs, r = Ok (Some <$> vs) ∧ fin_ok vs s).

(** ** A measure of what is left of a round *)

Definition trank t : nat :=
  match t_pc t with
  | Running _ => 3
  | Pausing _ | Leaving => 2
  | Waiting _ | Paused _ => if should_run t then 4 else 0
  | Exited => 0
  end.
Definition mrank (n : nat) (pc : mpc (V := V)) : nat :=
  match pc with
  | MTop => 5 + 5 * n + 6 * n
  | MSet j => 4 + 5 * n + 6 * (n - j)
  | MWait j => 5 * n + 6 * (n - j) - 1
  | MDecide => 3 + 5 * n
  | MEnd j => 2 + 5 * (n - j)
  | MJoin => 1
  | MReturned _ => 0
  end.
Definition measure s : nat := mrank (length (threads s)) (m_pc s) + sum_list_with trank (threads s).

Lemma sum_insert (l : list (thread V)) i t t' :
  l !! i = Some t → (sum_list_with trank (<[i := t']> l) + trank t = sum_list_with trank l + trank t')%nat.
Proof.
  revert i. induction l as [|x l IH]; intros [|i]; simpl; try done; [intros [= ->]; lia|].
  intros Hi. specialize (IH i Hi). lia.
Qed.

(** *** Threads that cannot move *)

Ltac unfold_thread := unfold thread_next, merge_resume, merge_pause, merge_begin, put in *.

Lemma fresh_stuck p t i s : threads s !! i = Some t → fresh p t → thread_next i s = None.
Proof.
  intros Hi (H1 & _ & _ & [H4|(k & v & H4 & _)]); unfold_thread; rewrite Hi; cbn; by rewrite H4, H1.
Qed.
Lemma finished_stuck p t i s : threads s !! i = Some t → finished p t → thread_next i s = None.
Proof.
  intros Hi (H1 & _ & H2). unfold_thread. rewrite Hi. cbn. destruct p; [|done|].
  - destruct H2 as (-> & _). done.
  - destruct H2 as (-> & _). by rewrite H1.
Qed.
Lemma before_stuck j p t i s : threads s !! i = Some t → before j i p t → thread_next i s = None.
Proof. intros Hi. unfold before. case_decide; [by eapply finished_stuck|by eapply fresh_stuck]. Qed.

Lemma before_calm j i p t : before j i p t → calm t.
Proof.
  unfold before, calm. case_decide.
  - intros (_ & _ & Hp). destruct p; [by destruct Hp as (-> & _)|done|by destruct Hp as (-> & _)].
  - intros (_ & _ & _ & [->|(k & v & -> & _)]); done.
Qed.

Lemma inv_lookup cur s i t : inv cur s → threads s !! i = Some t → ∃ p, cur !! i = Some p.
Proof. intros Hi Ht. apply lookup_lt_Some in Ht. apply lookup_lt_is_Some. by rewrite <-(iv_len _ _ Hi). Qed.

(** ** Steps of a replica thread during a round *)

Notation put j t s := (set_threads (<[j := t]> (threads s)) s) (only parsing).

Lemma measure_put s j t t' :
  threads s !! j = Some t → (trank t' < trank t)%nat → (measure (put j t' s) < measure s)%nat.
Proof.
  intros Hj Hr. unfold measure. cbn. rewrite length_insert. pose proof (sum_insert _ j t t' Hj). lia.
Qed.

Lemma inv_put cur s j p t' :
  inv cur s → m_pc s = MWait j → cur !! j = Some p → active p t' → inv cur (put j t' s).
Proof.
  intros [I1 I2 I3 I4] Hm Hp Ha. rewrite Hm in I4. destruct I4 as (Hj & Hd & He).
  split; cbn; [by rewrite length_insert|done..|]. rewrite Hm. split_and!; [done..|].
  intros i t q. cbn. rewrite list_lookup_insert_Some. intros [(<- & <- & _)|[Hne Hi]] Hq.
  - unfold around. rewrite decide_True by done. congruence.
  - by apply He.
Qed.

(** The first replica that raises decides: the earlier ones have run. *)
Lemma inv_raise cur s j e :
  inv cur s → m_pc s = MWait j → cur !! j = Some (PRaise e) → verdict cur (Raise e).
Proof.
  intros [I1 _ _ I4] Hm Hp. rewrite Hm in I4. destruct I4 as (Hj & _ & He).
  apply (v_raise _ j); [done|]. intros i q Hij Hq. destruct (lookup_lt_is_Some_2 (threads s) i) as [t Ht]; [lia|].
  specialize (He i t q Ht Hq). unfold around, before in He. rewrite decide_False, decide_True in He by lia.
  destruct He as (_ & _ & He). by destruct q.
Qed.

Lemma fin_stop_raise cur s j t e :
  inv cur s → m_pc s = MWait j → threads s !! j = Some t →
  fin_stop e (request_stop (Some e) (put j (set_pc Leaving t) s)).
Proof.
  intros Hi Hm Ht. pose proof Hi as [I1 I2 I3 I4]. rewrite Hm in I4. destruct I4 as (Hj & _ & He).
  unfold request_stop. cbn. rewrite I2. split; cbn; [done|done| |].
  - intros i t'. rewrite list_lookup_insert_Some. intros [(<- & <- & _)|[Hne Hi']]; [done|].
    destruct (inv_lookup _ _ _ _ Hi Hi') as [q Hq]. specialize (He i t' q Hi' Hq).
    unfold around in He. rewrite decide_False in He by auto. by eapply before_calm.
  - rewrite Hm. exists (set_pc Leaving t). rewrite list_lookup_insert_eq by (apply lookup_lt_is_Some; by eexists).
    split; [done|by left].
Qed.

Lemma active_step cur s j p t s' :
  inv cur s → m_pc s = MWait j → cur !! j = Some p → threads s !! j = Some t → active p t →
  thread_next j s = Some s' →
  (inv cur s' ∧ (measure s' < measure s)%nat) ∨
  (∃ e, verdict cur (Raise e) ∧ fin_stop e s' ∧ (measure s' < measure s)%nat).
Proof.
  intros Hi Hm Hp Ht Ha. unfold_thread. rewrite Ht. cbn.
  pose proof (iv_stop _ _ Hi) as Hs.
  destruct Ha as [(F1 & F2 & F3 & F4) Hr|Hpc [Q1 Q2] Hd|f a k -> Hpc [Q1 Q2] Hd Hm'|v -> Hpc [Q1 Q2] Hd Hv|Hf Hb].
  - cbn in F2, F3. destruct F4 as [F4|(k & v & F4 & F5 & F6)]; cbn in F4; rewrite F4, Hr, Hs.
    + intros [= <-]. left. split; [|apply (measure_put s j t); [done|unfold trank; cbn; rewrite F4, Hr; lia]].
      eapply inv_put; [done..|]. by apply act_run.
    + cbn in F5. rewrite F5. cbn. intros [= <-]. left.
      split; [|apply (measure_put s j t); [done|unfold trank; cbn; rewrite F4, Hr; lia]].
      eapply inv_put; [done..|]. apply act_run; [by rewrite F6|done..].
  - rewrite Hpc. destruct p as [v|e|f a k]; intros [= <-].
    + left. split; [|apply (measure_put s j t); [done|unfold trank; cbn; rewrite Hpc; lia]].
      eapply inv_put; [done..|]. by eapply act_leaving.
    + right. exists e. split_and!; [by eapply inv_raise| |].
      * by eapply fin_stop_raise.
      * unfold request_stop. cbn. rewrite Hs. apply (measure_put s j t); [done|unfold trank; cbn; rewrite Hpc; lia].
    + left. split; [|apply (measure_put s j t); [done|unfold trank; cbn; rewrite Hpc; lia]].
      eapply inv_put; [done..|]. by eapply act_pausing.
  - rewrite Hpc. intros [= <-]. left.
    split; [|apply (measure_put s j t); [done|unfold trank; cbn; rewrite Hpc, Q1; lia]].
    eapply inv_put; [done..|]. by apply act_paused.
  - rewrite Hpc. intros [= <-]. left.
    split; [|apply (measure_put s j t); [done|unfold trank; cbn; rewrite Hpc; lia]].
    eapply inv_put; [done..|]. by apply act_paused.
  - destruct Hf as (F1 & _ & F3). cbn in *. destruct p; [|done|]; destruct F3 as (-> & _); [done|by rewrite F1].
Qed.

(** ** Steps of the main thread during a round *)

Lemma main_top cur s s' :
  inv cur s → m_pc s = MTop → main_next s = Some s' → inv cur s' ∧ (measure s' < measure s)%nat.
Proof.
  intros [I1 I2 I3 I4] Hm. unfold main_next. rewrite Hm in *. rewrite I2. intros [= <-]. split.
  - split; cbn; [done..|]. split_and!; [lia|done|exact I4].
  - unfold measure. cbn. rewrite Hm. cbn. lia.
Qed.

Lemma main_set cur s s' j :
  inv cur s → m_pc s = MSet j → main_next s = Some s' → inv cur s' ∧ (measure s' < measure s)%nat.
Proof.
  intros [I1 I2 I3 I4] Hm. unfold main_next. rewrite Hm in *. destruct I4 as (Hj & Hd & He).
  destruct (threads s !! j) as [t|] eqn:Ht; intros [= <-].
  - apply lookup_lt_Some in Ht as Hlt. destruct (lookup_lt_is_Some_2 cur j) as [p Hp]; [lia|]. split.
    + split; cbn; [by rewrite length_insert|done..|]. split_and!; [lia|done|].
      intros i t' q. cbn. rewrite list_lookup_insert_Some. intros [(<- & <- & _)|[Hne Hi]] Hq; unfold around.
      * rewrite decide_True by done. specialize (He j t q Ht Hq). unfold before in He.
        rewrite decide_False in He by lia. apply act_set; [|done].
        destruct He as (F1 & F2 & F3 & F4). by split.
      * rewrite decide_False by auto. by apply He.
    + pose proof (sum_insert _ j t (set_run true t) Ht). unfold measure. cbn. rewrite length_insert, Hm. cbn.
      assert (trank (set_run true t) ≤ 4)%nat by (unfold trank; cbn; destruct (t_pc t); lia). lia.
  - apply lookup_ge_None in Ht. assert (j = length cur) as -> by lia. split.
    + split; cbn; [done..|]. split; [|done]. by rewrite Hd, take_ge.
    + unfold measure. cbn. rewrite Hm. cbn. lia.
Qed.

Lemma main_wait cur s s' j :
  inv cur s → m_pc s = MWait j → main_next s = Some s' → inv cur s' ∧ (measure s' < measure s)%nat.
Proof.
  intros [I1 I2 I3 I4] Hm. unfold main_next. rewrite Hm in *. destruct I4 as (Hj & Hd & He).
  destruct (threads s !! j) as [t|] eqn:Ht; [|done]. cbn. rewrite I2.
  destruct (lookup_lt_is_Some_2 cur j Hj) as [p Hp].
  pose proof (He j t p Ht Hp) as Ha. unfold around in Ha. rewrite decide_True in Ha by done.
  destruct (has_paused t) eqn:Hb; [|done]. intros [= <-].
  destruct Ha as [(_ & F & _) _|_ [_ F] _|f a k _ _ [_ F] _ _|v _ _ [_ F] _ _|Hf _]; [cbn in *; congruence..|].
  assert (done t = returns p) as Hret.
  { destruct Hf as (_ & _ & Hf). destruct p; cbn in *; naive_solver. }
  split.
  - split; cbn; [by rewrite length_insert|done..|]. split_and!; [lia| |].
    + rewrite (take_S_r _ _ _ Hp), fmap_app, Hd. cbn. by rewrite Hret.
    + intros i t' q. cbn. rewrite list_lookup_insert_Some. unfold before. intros [(<- & <- & _)|[Hne Hi]] Hq.
      * rewrite decide_True by lia. congruence.
      * pose proof (He i t' q Hi Hq) as H. unfold around, before in H. rewrite decide_False in H by auto.
        destruct (decide (i < j)%nat); [rewrite decide_True by lia|rewrite decide_False by lia]; done.
  - pose proof (sum_insert _ j t (set_paused false t) Ht) as Hsum. unfold measure. cbn. rewrite length_insert, Hm. cbn.
    assert (trank (set_paused false t) = trank t) as E by done. lia.
Qed.

(** *** After the round *)

Lemma forallb_returns cur : forallb id (returns <$> cur) = forallb returns cur.
Proof. induction cur as [|p cur IH]; cbn; [done|]. by rewrite IH. Qed.
Lemma existsb_returns cur : existsb id (returns <$> cur) = existsb returns cur.
Proof. induction cur as [|p cur IH]; cbn; [done|]. by rewrite IH. Qed.

Lemma all_return cur : forallb id (returns <$> cur) = true → ∃ vs, cur = PRet <$> vs.
Proof.
  induction cur as [|p cur IH]; cbn; [by exists []|]. intros [Hp Hc]%andb_true_iff.
  destruct (IH Hc) as [vs ->]. destruct p as [v| |]; [|done..]. by exists (v :: vs).
Qed.

Lemma all_merge cur :
  (∀ p, p ∈ cur → raises p = false) → existsb id (returns <$> cur) = false → ∃ ms, cur = merge_of <$> ms.
Proof.
  induction cur as [|p cur IH]; cbn; intros Hr; [by exists []|]. intros [Hp Hc]%orb_false_iff.
  destruct IH as [ms ->]; [intros q Hq; apply Hr; by right|done|].
  destruct p as [|e|f a k]; [done|by specialize (Hr (PRaise e) ltac:(left))|]. by exists ((f, a, k) :: ms).
Qed.

Section round_end.
Context (cur : list (prog V)) (s : state V).
Context (Hlen : length (threads s) = length cur) (Hall : ∀ i t p, threads s !! i = Some t → cur !! i = Some p → finished p t).

Lemma partner p i : cur !! i = Some p → ∃ t, threads s !! i = Some t ∧ finished p t.
Proof.
  intros Hp. destruct (lookup_lt_is_Some_2 (threads s) i) as [t Ht]; [rewrite Hlen; by eapply lookup_lt_Some|].
  exists t. split; [done|by eapply Hall].
Qed.

Lemma none_raises p : p ∈ cur → raises p = false.
Proof. intros [i Hi]%list_elem_of_lookup. destruct (partner p i Hi) as (t & _ & _ & _ & Hf). by destruct p. Qed.

Lemma round_calm i t : threads s !! i = Some t → calm t.
Proof.
  intros Ht. destruct (lookup_lt_is_Some_2 cur i) as [p Hp]; [rewrite <-Hlen; by eapply lookup_lt_Some|].
  apply (before_calm (S i) i p). unfold before. rewrite decide_True by lia. by eapply Hall.
Qed.

(** All replicas have returned. *)
Lemma replica_round vs :
  cur = PRet <$> vs → main_result <$> threads s = Some <$> vs ∧ ∀ i t, threads s !! i = Some t → t_pc t = Exited.
Proof.
  intros Hc. assert (∀ i t, threads s !! i = Some t → ∃ v, vs !! i = Some v ∧ t_pc t = Exited ∧ main_result t = Some v) as Ht.
  { intros i t Ht. destruct (lookup_lt_is_Some_2 cur i) as [p Hp]; [rewrite <-Hlen; by eapply lookup_lt_Some|].
    pose proof (Hall i t p Ht Hp) as (_ & _ & Hf). rewrite Hc in Hp.
    apply list_lookup_fmap_Some in Hp as (v & -> & Hv). exists v. naive_solver. }
  split; [|by intros i t (v & _ & ? & _)%Ht]. apply list_eq. intros i. rewrite !list_lookup_fmap.
  destruct (threads s !! i) as [t|] eqn:E.
  - destruct (Ht i t E) as (v & -> & _ & Hv). cbn. by rewrite Hv.
  - apply lookup_ge_None in E. rewrite Hlen, Hc, length_fmap in E. by rewrite lookup_ge_None_2.
Qed.

(** All replicas want to merge. *)
Lemma round_merge ms :
  cur = merge_of <$> ms → mapM merge_data (threads s) = Some ms.*1.
Proof.
  intros Hc. apply mapM_Some, Forall2_same_length_lookup. split; [by rewrite Hlen, Hc, !length_fmap|].
  intros i t y Ht Hy. apply list_lookup_fmap_Some in Hy as ([[f a] k] & -> & Hm).
  assert (cur !! i = Some (PMerge f a k)) as Hp by (rewrite Hc, list_lookup_fmap, Hm; done).
  pose proof (Hall i t _ Ht Hp) as (_ & _ & _ & _ & ->). done.
Qed.

Lemma round_fresh ms g :
  cur = merge_of <$> ms →
  ∀ i t p, give_results g (threads s) !! i = Some t → imap (λ r '(_, _, k), k (g r)) ms !! i = Some p → fresh p t.
Proof.
  intros Hc i t p. unfold give_results. rewrite !list_lookup_imap, !fmap_Some.
  intros (t0 & Ht & ->) ([[f a] k] & Hm & ->).
  assert (cur !! i = Some (PMerge f a k)) as Hp by (rewrite Hc, list_lookup_fmap, Hm; done).
  destruct (Hall i t0 _ Ht Hp) as (F1 & F2 & F3 & F4 & F5). split_and!; [done..|]. right. by exists k, (g i).
Qed.
End round_end.

Lemma main_decide cur s s' :
  inv cur s → m_pc s = MDecide → main_next s = Some s' →
  (∃ cur', merged cur cur' ∧ inv cur' s') ∨ (∃ r, verdict cur r ∧ fin r s' ∧ (measure s' < measure s)%nat).
Proof.
  intros [I1 I2 I3 I4] Hm. unfold main_next. rewrite Hm in *. destruct I4 as (Hd & He).
  assert (∀ i t p, threads s !! i = Some t → cur !! i = Some p → finished p t) as Hall.
  { intros i t p Ht Hp. specialize (He i t p Ht Hp). unfold before in He.
    rewrite decide_True in He; [done|by eapply lookup_lt_Some]. }
  assert (∀ s2, m_pc s2 = MEnd 0 → threads s2 = threads s → (measure s2 < measure s)%nat) as Hms.
  { intros s2 E1 E2. unfold measure. rewrite E1, E2, Hm. cbn. lia. }
  assert (∀ e, fin (Raise e) (set_mpc (MEnd 0) (request_stop (Some e) s))) as Hstop.
  { intros e. left. exists e. split; [done|]. unfold request_stop. rewrite I2.
    split; cbn; [done|done|by apply (round_calm cur)|lia]. }
  assert (∀ e, threads (set_mpc (MEnd 0) (request_stop (Some e) s)) = threads s) as Hth
    by (intros e; unfold request_stop; by rewrite I2).
  rewrite I2, Hd. destruct (forallb id (returns <$> cur)) eqn:Ha; [|destruct (existsb id (returns <$> cur)) eqn:Hx].
  - intros [= <-]. right. destruct (all_return cur Ha) as [vs Hc]. exists (Ok (Some <$> vs)).
    split_and!; [by apply v_ret| |by apply Hms]. right. exists vs. split; [done|].
    destruct (replica_round cur s I1 Hall vs Hc). by split.
  - intros [= <-]. right. exists (Raise RuntimeError). split_and!; [|done|by apply Hms].
    apply v_mixed.
    + by apply (none_raises cur s).
    + by rewrite <-forallb_returns.
    + by rewrite <-existsb_returns.
  - destruct (all_merge cur) as [ms Hc]; [by apply (none_raises cur s)|done|].
    unfold run_merge. rewrite (round_merge cur s I1 Hall ms Hc). cbn.
    destruct (head ms.*1.*1) as [f|] eqn:Hf; [|done]. cbn.
    destruct (f ms.*1.*2) as [g|e] eqn:Er; intros [= <-].
    + left. eexists. split; [by eapply m_ok|]. split; cbn; [|done..|].
      { unfold give_results. by rewrite !length_imap, I1, Hc, length_fmap. }
      intros i t p Ht Hp. unfold before. rewrite decide_False by lia. by apply (round_fresh cur s Hall ms g Hc i).
    + right. exists (Raise e). split_and!; [by eapply v_merge|done|by apply Hms].
Qed.

(** ** Rounds *)

Lemma round_step cur s s' :
  inv cur s → step s s' →
  (inv cur s' ∧ (measure s' < measure s)%nat) ∨ (∃ cur', merged cur cur' ∧ inv cur' s') ∨
  (∃ r, verdict cur r ∧ fin r s' ∧ (measure s' < measure s)%nat).
Proof.
  intros Hi [Hn|i Hn].
  - destruct (m_pc s) eqn:Hm.
    + left. by apply main_top.
    + left. by eapply main_set.
    + left. by eapply main_wait.
    + right. by apply main_decide.
    + by pose proof (iv_main _ _ Hi) as H; rewrite Hm in H.
    + by pose proof (iv_main _ _ Hi) as H; rewrite Hm in H.
    + by pose proof (iv_main _ _ Hi) as H; rewrite Hm in H.
  - assert (is_Some (threads s !! i)) as [t Ht] by (unfold_thread; destruct (threads s !! i); [by eexists|done]).
    destruct (inv_lookup _ _ _ _ Hi Ht) as [p Hp]. pose proof (iv_main _ _ Hi) as Hmain.
    assert (∀ j, before j i p t → False) as Hno by (intros j Hb; by rewrite (before_stuck j p t i s) in Hn).
    destruct (m_pc s) as [|j|j| | | |] eqn:Hm; try done.
    + by destruct (Hno 0%nat (Hmain i t p Ht Hp)).
    + destruct Hmain as (_ & _ & He). by destruct (Hno j (He i t p Ht Hp)).
    + destruct Hmain as (_ & _ & He). specialize (He i t p Ht Hp). unfold around in He.
      case_decide as E; [subst i|by destruct (Hno j)].
      destruct (active_step cur s j p t s') as [Hd|(e & Hv & Hf & Hms)]; [done..|by left|].
      right. right. exists (Raise e). split_and!; [done| |done]. left. by exists e.
    + destruct Hmain as (_ & He). by destruct (Hno (length cur) (He i t p Ht Hp)).
Qed.

(** ** The end *)

Lemma fin_ok_step vs s s' :
  fin_ok vs s → step s s' → fin_ok vs s' ∧ (measure s' < measure s)%nat.
Proof.
  intros [F1 F2 F3 F4 F5] [Hn|i Hn].
  - unfold main_next in Hn. destruct (m_pc s) as [|j|j| |j| |r] eqn:Hm; try done.
    + destruct (threads s !! j) as [t|] eqn:Ht; injection Hn as <-.
      * split; [split; cbn; [done|done| | |done]|].
        -- rewrite <-F3. apply list_eq. intros i. rewrite !list_lookup_fmap.
           destruct (decide (i = j)) as [->|]; [|by rewrite list_lookup_insert_ne].
           rewrite list_lookup_insert_eq, Ht by (by eapply lookup_lt_Some). done.
        -- intros i t'. rewrite list_lookup_insert_Some. intros [(-> & <- & _)|[_ Hi]]; [exact (F4 i t Ht)|by eapply F4].
        -- pose proof (sum_insert _ j t (set_run true t) Ht) as Hs. unfold measure. cbn.
           rewrite length_insert, Hm. cbn. apply lookup_lt_Some in Ht as Hlt.
           assert (trank (set_run true t) = 0%nat) by (unfold trank; cbn; by rewrite (F4 j t Ht)). lia.
      * split; [by split|]. unfold measure. cbn. rewrite Hm. cbn. lia.
    + destruct (forallb _ _); [|done]. injection Hn as <-. split; [|unfold measure; cbn; rewrite Hm; cbn; lia].
      split; cbn; [done..|]. by rewrite F2, F3.
  - unfold_thread. destruct (threads s !! i) as [t|] eqn:Ht; [|done]. cbn in Hn. by rewrite (F4 i t Ht) in Hn.
Qed.

(** A thread that leaves is awake, and the one the main thread waits for will
    tell. *)
Lemma fin_stop_put e s i t t' :
  fin_stop e s → threads s !! i = Some t → calm t' → woken t' →
  (t_pc t' = Leaving ∨ has_paused t' = true) → fin_stop e (put i t' s).
Proof.
  intros [F1 F2 F3 F4] Ht Hc Hw Hl. split; cbn; [done|done| |].
  - intros i' t1. rewrite list_lookup_insert_Some. intros [(-> & <- & _)|[_ Hi]]; [done|by eapply F3].
  - apply lookup_lt_Some in Ht as Hlt. destruct (m_pc s) as [|j|j| |j| |r]; try done.
    + destruct F4 as (tj & Hj & Hs). destruct (decide (i = j)) as [->|].
      * exists t'. by rewrite list_lookup_insert_eq.
      * exists tj. by rewrite list_lookup_insert_ne.
    + intros i' t1 Hi'. rewrite list_lookup_insert_Some. intros [(-> & <- & _)|[_ Hi]]; [done|by eapply F4].
    + intros i' t1. rewrite list_lookup_insert_Some. intros [(-> & <- & _)|[_ Hi]]; [done|by eapply F4].
Qed.

Lemma fin_stop_thread e s i s' :
  fin_stop e s → thread_next i s = Some s' → fin_stop e s' ∧ (measure s' < measure s)%nat.
Proof.
  intros Hf Hn. pose proof Hf as [F1 F2 F3 F4]. unfold_thread.
  destruct (threads s !! i) as [t|] eqn:Ht; [|done]. cbn in Hn. pose proof (F3 i t Ht) as Hc. unfold calm in Hc.
  destruct (t_pc t) as [p|p|k|k| |] eqn:Hpc; try done.
  - destruct (should_run t) eqn:Hr; [|done]. rewrite F1 in Hn. injection Hn as <-. split.
    + eapply fin_stop_put; [done..|by left].
    + eapply measure_put; [done|]. unfold trank. cbn. rewrite Hpc, Hr. lia.
  - destruct (should_run t) eqn:Hr; [|done]. rewrite F1 in Hn. unfold request_stop in Hn. cbn in Hn.
    rewrite F1 in Hn. injection Hn as <-. split.
    + eapply fin_stop_put; [done..|by left].
    + eapply measure_put; [done|]. unfold trank. cbn. rewrite Hpc, Hr. lia.
  - injection Hn as <-. split.
    + eapply fin_stop_put; [done..|by right].
    + eapply measure_put; [done|]. unfold trank. cbn. rewrite Hpc. lia.
Qed.

Lemma fin_stop_main e s s' :
  fin_stop e s → main_next s = Some s' → fin_stop e s' ∧ (measure s' < measure s)%nat.
Proof.
  intros [F1 F2 F3 F4] Hn. unfold main_next in Hn. destruct (m_pc s) as [|j|j| |j| |r] eqn:Hm; try done.
  - destruct F4 as (t & Ht & _). rewrite Ht in Hn. cbn in Hn. destruct (has_paused t); [|done].
    rewrite F1 in Hn. injection Hn as <-. apply lookup_lt_Some in Ht as Hlt. split.
    + split; cbn; [done|done| |lia]. intros i' t1. rewrite list_lookup_insert_Some.
      intros [(-> & <- & _)|[_ Hi]]; [exact (F3 i' t Ht)|by eapply F3].
    + pose proof (sum_insert _ j t (set_paused false t) Ht) as Hs. unfold measure. cbn. rewrite length_insert, Hm. cbn.
      assert (trank (set_paused false t) = trank t) by done. lia.
  - destruct (threads s !! j) as [t|] eqn:Ht; injection Hn as <-.
    + apply lookup_lt_Some in Ht as Hlt. split.
      * split; cbn; [done|done| |].
        -- intros i' t1. rewrite list_lookup_insert_Some. intros [(-> & <- & _)|[_ Hi]]; [exact (F3 i' t Ht)|by eapply F3].
        -- intros i' t1 Hi'. rewrite list_lookup_insert_Some. intros [(-> & <- & _)|[Hne Hi]].
           ++ unfold woken. cbn. by destruct (t_pc t).
           ++ eapply F4; [|exact Hi]. lia.
      * pose proof (sum_insert _ j t (set_run true t) Ht) as Hs. unfold measure. cbn. rewrite length_insert, Hm. cbn.
        assert (trank (set_run true t) ≤ 4)%nat by (unfold trank; cbn; destruct (t_pc t); lia). lia.
    + apply lookup_ge_None in Ht. split; [|unfold measure; cbn; rewrite Hm; cbn; lia]. split; cbn; [done..|].
      intros i t Hi. apply (F4 i t); [|done]. apply lookup_lt_Some in Hi. lia.
  - destruct (forallb _ _); [|done]. injection Hn as <-. split; [|unfold measure; cbn; rewrite Hm; cbn; lia].
    split; cbn; [done..|]. by rewrite F2.
Qed.

Lemma fin_step r s s' : fin r s → step s s' → fin r s' ∧ (measure s' < measure s)%nat.
Proof.
  intros [(e & -> & Hf)|(vs & -> & Hf)] Hs.
  - destruct Hs as [Hn|i Hn].
    + destruct (fin_stop_main e s s' Hf Hn). split; [left; by exists e|done].
    + destruct (fin_stop_thread e s i s' Hf Hn). split; [left; by exists e|done].
  - destruct (fin_ok_step vs s s' Hf Hs). split; [right; by exists vs|done].
Qed.

(** ** No deadlock *)

Definition can_step s : Prop := ∃ s', step s s'.

Lemma main_can s s' : main_next s = Some s' → can_step s.
Proof. intros E. exists s'. by apply step_main. Qed.
Lemma thread_can i s s' : thread_next i s = Some s' → can_step s.
Proof. intros E. exists s'. by apply (step_thread s s' i). Qed.

Lemma inv_can cur s : inv cur s → can_step s.
Proof.
  intros Hi. pose proof Hi as [I1 I2 I3 I4]. destruct (m_pc s) as [|j|j| | | |] eqn:Hm; try done.
  - eapply main_can. unfold main_next. by rewrite Hm, I2.
  - destruct (threads s !! j) as [t|] eqn:Ht; eapply main_can; unfold main_next; by rewrite Hm, Ht.
  - destruct I4 as (Hj & _ & He). destruct (lookup_lt_is_Some_2 cur j Hj) as [p Hp].
    destruct (lookup_lt_is_Some_2 (threads s) j) as [t Ht]; [lia|].
    specialize (He j t p Ht Hp). unfold around in He. rewrite decide_True in He by done.
    destruct He as [(_ & _ & _ & F4) Hr|Hpc _ _|f a k _ Hpc _ _ _|v _ Hpc _ _ _|_ Hb].
    + cbn in F4. destruct F4 as [F4|(k & v & F4 & F5 & _)]; eapply (thread_can j); unfold_thread; rewrite Ht;
        cbn; rewrite F4, Hr, I2, ?F5; reflexivity.
    + destruct p; eapply (thread_can j); unfold_thread; rewrite Ht; cbn; by rewrite Hpc.
    + eapply (thread_can j). unfold_thread. rewrite Ht. cbn. by rewrite Hpc.
    + eapply (thread_can j). unfold_thread. rewrite Ht. cbn. by rewrite Hpc.
    + eapply main_can. unfold main_next. rewrite Hm, Ht. cbn. by rewrite Hb, I2.
  - destruct I4 as [Hd He].
    assert (∀ i t p, threads s !! i = Some t → cur !! i = Some p → finished p t) as Hall.
    { intros i t p Ht Hp. specialize (He i t p Ht Hp). unfold before in He.
      rewrite decide_True in He; [done|by eapply lookup_lt_Some]. }
    assert (is_Some (main_next s)) as [s' Hs]; [|by eapply main_can].
    unfold main_next. rewrite Hm, I2, Hd. destruct (forallb id _) eqn:Ha; [done|].
    destruct (existsb id _) eqn:Hx; [done|].
    destruct (all_merge cur) as [ms Hc]; [by apply (none_raises cur s)|done|].
    unfold run_merge. rewrite (round_merge cur s I1 Hall ms Hc). destruct ms as [|[[f a] k] ms]; [by rewrite Hc in Ha|].
    cbn. by destruct (f _).
Qed.

Lemma forallb_false {A} (f : A → bool) (l : list A) :
  forallb f l = false → ∃ i x, l !! i = Some x ∧ f x = false.
Proof.
  induction l as [|x l IH]; cbn; [done|]. intros [Hx|Hl]%andb_false_iff; [by exists 0%nat, x|].
  destruct (IH Hl) as (i & y & Hi & Hy). by exists (S i), y.
Qed.

Lemma fin_can r s : fin r s → (∃ r', m_pc s = MReturned r') ∨ can_step s.
Proof.
  intros [(e & _ & [F1 F2 F3 F4])|(vs & _ & [F1 F2 F3 F4 F5])].
  - destruct (m_pc s) as [|j|j| |j| |r'] eqn:Hm; try done; [..|by left; eauto]; right.
    + destruct F4 as (t & Ht & [Hl|Hb]).
      * eapply (thread_can j). unfold_thread. rewrite Ht. cbn. by rewrite Hl.
      * eapply main_can. unfold main_next. rewrite Hm, Ht. cbn. by rewrite Hb, F1.
    + destruct (threads s !! j) as [t|] eqn:Ht; eapply main_can; unfold main_next; by rewrite Hm, Ht.
    + destruct (forallb (λ t, match t_pc t with Exited => true | _ => false end) (threads s)) eqn:Hx.
      { eapply main_can. unfold main_next. by rewrite Hm, Hx. }
      apply forallb_false in Hx as (i & t & Ht & Hx). pose proof (F3 i t Ht) as Hc. pose proof (F4 i t Ht) as Hw.
      unfold calm, woken in *. destruct (t_pc t) as [p|p|k|k| |] eqn:Hpc; try done;
        eapply (thread_can i); unfold_thread; rewrite Ht; cbn; rewrite Hpc, ?Hw, ?F1; reflexivity.
  - destruct (m_pc s) as [|j|j| |j| |r'] eqn:Hm; try done; [..|by left; eauto]; right.
    + destruct (threads s !! j) as [t|] eqn:Ht; eapply main_can; unfold main_next; by rewrite Hm, Ht.
    + eapply main_can. unfold main_next. rewrite Hm.
      assert (forallb (λ t, match t_pc t with Exited => true | _ => false end) (threads s) = true) as ->; [|done].
      apply forallb_forall. intros t [i Hi]%list_elem_of_In%list_elem_of_lookup. by rewrite (F4 i t Hi).
Qed.

(** ** Termination *)

Notation ends s := (Acc (λ s2 s1, step s1 s2) s) (only parsing).

Lemma fin_ends r s : fin r s → ends s.
Proof.
  remember (measure s) as m eqn:Em. revert s Em. induction m as [m IH] using lt_wf_ind.
  intros s -> Hf. constructor. intros s' Hs. destruct (fin_step r s s' Hf Hs) as [Hf' Hm].
  by apply (IH (measure s')).
Qed.

Lemma inv_ends_next cur :
  (∀ cur' s, merged cur cur' → inv cur' s → ends s) → ∀ s, inv cur s → ends s.
Proof.
  intros Hnext s. remember (measure s) as m eqn:Em. revert s Em. induction m as [m IH] using lt_wf_ind.
  intros s -> Hi. constructor. intros s' Hs.
  destruct (round_step cur s s' Hi Hs) as [[Hi' Hm]|[(cur' & Hmg & Hi')|(r & _ & Hf & _)]].
  - by apply (IH (measure s')).
  - by eapply Hnext.
  - by eapply fin_ends.
Qed.

(** The first replica's function gets shorter with every merge. *)
Lemma inv_ends_cons p : ∀ cur s, inv (p :: cur) s → ends s.
Proof.
  induction p as [v|e|f a k IH]; intros cur; apply inv_ends_next; intros cur' s Hm Hi;
    destruct (merged_cons _ _ _ Hm) as (f' & a' & k' & w & rest & [=] & ->); subst.
  exact (IH w rest s Hi).
Qed.

Lemma inv_ends cur s : inv cur s → ends s.
Proof.
  destruct cur as [|p cur]; [|apply inv_ends_cons]. apply inv_ends_next.
  by intros cur' s' Hm.
Qed.

(** ** The specification has one outcome *)

Lemma lockstep_unique cur r1 r2 : lockstep cur r1 → lockstep cur r2 → r1 = r2.
Proof.
  unfold verdict, merged. intros H1. revert r2. induction H1 as [cur r1 Hv|cur cur' r1 Hm _ IH]; intros r2 H2.
  - destruct H2 as [r2 Hv2|cur2 r2 Hm2 _]; unfold verdict, merged in *; congruence.
  - destruct H2 as [r2 Hv2|cur2 r2 Hm2 Hl2]; unfold verdict, merged in *; [congruence|].
    rewrite Hm in Hm2. injection Hm2 as <-. by apply IH.
Qed.

(** ** All executions *)

Inductive rounds : list (prog V) → list (prog V) → Prop :=
  | rounds_refl cur : rounds cur cur
  | rounds_step cur cur1 cur2 : merged cur cur1 → rounds cur1 cur2 → rounds cur cur2.

Lemma rounds_snoc a b c : rounds a b → merged b c → rounds a c.
Proof. induction 1 as [|a a1 b Hm _ IH]; intros Hc.
  - eapply rounds_step; [exact Hc|apply rounds_refl].
  - eapply rounds_step; [exact Hm|by apply IH]. Qed.

Lemma rounds_lockstep a b r : rounds a b → lockstep b r → lockstep a r.
Proof. induction 1 as [|a a1 b Hm _ IH]; intros Hl; [done|]. eapply ls_round; [exact Hm|by apply IH]. Qed.

Definition reached progs s : Prop :=
  (∃ cur, rounds progs cur ∧ inv cur s) ∨ (∃ r, lockstep progs r ∧ fin r s).

Lemma begin_inv progs : inv progs (start progs).
Proof.
  split; cbn; [by rewrite length_fmap|done..|]. intros i t p Ht Hp. cbn in Ht.
  apply list_lookup_fmap_Some in Ht as (p' & -> & Hp'). simplify_eq. unfold before. rewrite decide_False by lia.
  split_and!; [done..|by left].
Qed.

Lemma reached_step progs s s' : reached progs s → step s s' → reached progs s'.
Proof.
  intros [(cur & Hr & Hi)|(r & Hl & Hf)] Hs.
  - destruct (round_step cur s s' Hi Hs) as [[Hi' _]|[(cur' & Hm & Hi')|(r & Hv & Hf & _)]].
    + left. eauto.
    + left. exists cur'. split; [by eapply rounds_snoc|done].
    + right. exists r. split; [|done]. eapply rounds_lockstep; [done|by apply ls_end].
  - right. exists r. split; [done|]. by eapply fin_step.
Qed.

Lemma reached_rtc progs s : rtc step (start progs) s → reached progs s.
Proof.
  intros Hs. assert (reached progs (start progs)) as H0.
  { left. exists progs. split; [apply rounds_refl|apply begin_inv]. }
  revert H0. induction Hs as [s|s s1 s2 H1 _ IH]; intros H0; [done|]. apply IH. by eapply reached_step.
Qed.

Lemma reached_returned progs s r : reached progs s → m_pc s = MReturned r → lockstep progs r.
Proof.
  intros [(cur & _ & Hi)|(r' & Hl & Hf)] Hm.
  - pose proof (iv_main _ _ Hi) as H. by rewrite Hm in H.
  - destruct Hf as [(e & -> & [_ _ _ F])|(vs & -> & [_ _ _ _ F])]; rewrite Hm in F; by subst.
Qed.

Lemma reached_can progs s : reached progs s → (∃ r, m_pc s = MReturned r) ∨ can_step s.
Proof. intros [(cur & _ & Hi)|(r & _ & Hf)]; [right; by eapply inv_can|by eapply fin_can]. Qed.

(** Some execution returns. *)
Lemma ends_returns progs s : ends s → reached progs s → ∃ r, lockstep progs r.
Proof.
  induction 1 as [s _ IH]. intros Hr. destruct (reached_can progs s Hr) as [[r Hm]|[s' Hs]].
  - exists r. by eapply reached_returned.
  - apply (IH s' Hs). by eapply reached_step.
Qed.

(** C13: [_call_for_each_replica] computes the replicas in lockstep, whatever the
    interleaving of its threads. The lockstep computation has exactly one outcome;
    every execution is finite; no reachable state is a deadlock: as long as the
    call has not returned some thread can go on; and when it returns, its result
    is that outcome: the values of all replicas, the exception of the first
    replica that raises in the earliest round in which one does, a [RuntimeError]
    when some replicas return while others merge, or the merge function's
    exception. *)
Theorem replicas_lockstep (progs : list (prog V)) : ∃ r,
  lockstep progs r ∧ (∀ r', lockstep progs r' → r' = r) ∧ ends (start progs) ∧
  ∀ s, rtc step (start progs) s →
    (∀ r', m_pc s = MReturned r' → r' = r) ∧ ((∃ r', m_pc s = MReturned r') ∨ ∃ s', step s s').
Proof.
  pose proof (inv_ends _ _ (begin_inv progs)) as He.
  destruct (ends_returns progs (start progs) He (reached_rtc progs _ (rtc_refl _ _))) as [r Hr].
  exists r. split_and!; [done|intros; by eapply lockstep_unique|done|].
  intros s Hs%reached_rtc. split; [|by apply (reached_can progs)].
  intros r' Hm. eapply lockstep_unique; [|exact Hr]. by eapply reached_returned.
Qed.
End proofs.

(** ** Concrete runs *)
Module ReplicasDemo.
Definition sum_all (l : list Z) : res (nat → Z) := Ok (λ _, foldr Z.add 0 l).
Definition two : list (prog Z) :=
  [PMerge sum_all 1 (λ v, PRet (v + 1)); PMerge sum_all 2 (λ v, PRet v)].
Definition uneven : list (prog Z) := [PMerge sum_all 1 PRet; PRet 5].

(** A scheduler: the main thread when it can, else the first thread that can. *)
Definition next (s : state Z) : option (state Z) :=
  match main_next s with
  | Some s' => Some s'
  | None => head (omap (λ i, thread_next i s) (seq 0 (length (threads s))))
  end.
Fixpoint run (fuel : nat) (s : state Z) : state Z :=
  match fuel with
  | O => s
  | S fuel' => match next s with Some s' => run fuel' s' | None => s end
  end.

Lemma execution_steps fuel s : rtc step s (run fuel s).
Proof.
  revert s. induction fuel as [|fuel IH]; intros s; cbn; [constructor|].
  destruct (next s) as [s'|] eqn:E; [|constructor]. eapply rtc_l; [|apply IH]. unfold next in E.
  destruct (main_next s) as [s1|] eqn:Em; [simplify_eq; by apply step_main|].
  assert (s' ∈ omap (λ i, thread_next i s) (seq 0 (length (threads s)))) as Hin.
  { destruct (omap _ _); [done|]. injection E as ->. left. }
  apply list_elem_of_omap in Hin as (i & _ & Hi). by apply (step_thread s s' i).
Qed.

Lemma replicas_lockstep_witness :
  m_pc (run 60 (start two)) = MReturned (Ok [Some 4; Some 3]) ∧
  m_pc (run 60 (start uneven)) = MReturned (Raise RuntimeError) ∧
  (∀ s r, rtc step (start two) s → m_pc s = MReturned r → r = Ok [Some 4; Some 3]).
Proof.
  destruct (replicas_lockstep two) as (r & Hl & Hu & _ & Hall).
  assert (Ok [Some 4; Some 3] = r) as <-.
  { apply (proj1 (Hall _ (execution_steps 60 (start two)))). vm_compute. reflexivity. }
  split; [vm_compute; reflexivity|]. split; [vm_compute; reflexivity|].
  intros s r Hs Hm. apply (proj1 (Hall s Hs) r Hm).
Defined.
End ReplicasDemo.
End ReplicasProofs.
