(* ===== verification/Packet.v ===== *)
(** * Packets of the switch, [P4/headers.p4], [P4/struct.p4] and [P4/parse.p4]

    A packet is a list of bits; the parser takes headers off its front, and the
    deparser puts the headers it is given before what the parser has left, the
    payload. The other end of the wire is in [DpdkPkt].

    Deparsing undoes parsing, except for the background packets, which lose a
    header. *)

From S2P Require Import Prelude BitIO.

Module Packet.

(** ** Bits

    The bits of an unsigned or signed number of width [w], and back. *)
Fixpoint emit_bits (w : nat) (x : Z) : list bool :=
  match w with
  | O => []
  | S w' => Z.testbit x (Z.of_nat w') :: emit_bits w' x
  end.
Definition bits_value (l : list bool) : Z := foldl (λ x b, 2 * x + Z.b2z b) 0 l.

(** The [int<w>] with the bits of the [bit<w>] [x]. *)
Definition to_signed (w : nat) (x : Z) : Z :=
  if decide (x < 2 ^ (Z.of_nat w - 1)) then x else x - 2 ^ Z.of_nat w.

(** A parser state; [None] is the end of the packet before the header's. *)
Definition parser (A : Type) : Type := list bool → option (A * list bool).
#[export] Instance parser_ret : MRet parser := λ A a pkt, Some (a, pkt).
#[export] Instance parser_bind : MBind parser := λ A B f m pkt,
  match m pkt with Some (a, pkt') => f a pkt' | None => None end.

Definition extract (w : nat) : parser Z := λ pkt,
  if decide (w ≤ length pkt)%nat then Some (bits_value (take w pkt), drop w pkt) else None.

(** ** Headers *)

Record ethernet_h : Type := Ethernet { dst_addr : Z; src_addr : Z; ether_type : Z }.
Record ipv4_h : Type := Ipv4 {
  ip_version : Z; ihl : Z; diffserv : Z; total_len : Z; identification : Z; flags : Z; frag_offset : Z;
  ttl : Z; protocol : Z; hdr_checksum : Z; ip_src_addr : Z; ip_dst_addr : Z
}.
Record udp_h : Type := Udp { src_port : Z; dst_port : Z; udp_length : Z; checksum : Z }.
Record p4ml_h : Type := P4ml {
  p_bitmap : Z; num_worker : Z; roundNum : Z; max_info : Z; p_norm_info : Z;
  packet_type : Z; dataIndex : Z; p_pad : Z; recirc_time : Z;
  pad_1 : Z; ingress_global : Z; pad_2 : Z; egress_global : Z
}.
Record p4ml_bg_h : Type := P4mlBg { bg_key : Z; len_tensor : Z; bg_bitmap : Z }.

(** [entry_h], the 64 fields [data0] to [data63] of type [int<32>]. *)
Definition entry_h : Type := list Z.
Definition entry_count : nat := 64.

Definition emit_ethernet (h : ethernet_h) : list bool :=
  emit_bits 48 (dst_addr h) ++ emit_bits 48 (src_addr h) ++ emit_bits 16 (ether_type h).
Definition extract_ethernet : parser ethernet_h :=
  d ← extract 48; s ← extract 48; t ← extract 16; mret (Ethernet d s t).

Definition emit_ipv4 (h : ipv4_h) : list bool :=
  emit_bits 4 (ip_version h) ++ emit_bits 4 (ihl h) ++ emit_bits 8 (diffserv h) ++ emit_bits 16 (total_len h) ++
  emit_bits 16 (identification h) ++ emit_bits 3 (flags h) ++ emit_bits 13 (frag_offset h) ++ emit_bits 8 (ttl h) ++
  emit_bits 8 (protocol h) ++ emit_bits 16 (hdr_checksum h) ++ emit_bits 32 (ip_src_addr h) ++
  emit_bits 32 (ip_dst_addr h).
Definition extract_ipv4 : parser ipv4_h :=
  v ← extract 4; i ← extract 4; ds ← extract 8; l ← extract 16; id ← extract 16; f ← extract 3; fo ← extract 13;
  t ← extract 8; p ← extract 8; c ← extract 16; s ← extract 32; d ← extract 32;
  mret (Ipv4 v i ds l id f fo t p c s d).

Definition emit_udp (h : udp_h) : list bool :=
  emit_bits 16 (src_port h) ++ emit_bits 16 (dst_port h) ++ emit_bits 16 (udp_length h) ++ emit_bits 16 (checksum h).
Definition extract_udp : parser udp_h :=
  s ← extract 16; d ← extract 16; l ← extract 16; c ← extract 16; mret (Udp s d l c).

Definition emit_p4ml (h : p4ml_h) : list bool :=
  emit_bits 32 (p_bitmap h) ++ emit_bits 8 (num_worker h) ++ emit_bits 32 (roundNum h) ++ emit_bits 32 (max_info h) ++
  emit_bits 32 (p_norm_info h) ++ emit_bits 1 (packet_type h) ++ emit_bits 1 (dataIndex h) ++ emit_bits 6 (p_pad h) ++
  emit_bits 8 (recirc_time h) ++ emit_bits 16 (pad_1 h) ++ emit_bits 48 (ingress_global h) ++
  emit_bits 16 (pad_2 h) ++ emit_bits 48 (egress_global h).
Definition extract_p4ml : parser p4ml_h :=
  b ← extract 32; n ← extract 8; r ← extract 32; m ← extract 32; i ← extract 32; t ← extract 1; x ← extract 1;
  p ← extract 6; c ← extract 8; p1 ← extract 16; ig ← extract 48; p2 ← extract 16; eg ← extract 48;
  mret (P4ml b n r m i t x p c p1 ig p2 eg).

Definition emit_p4ml_bg (h : p4ml_bg_h) : list bool :=
  emit_bits 64 (bg_key h) ++ emit_bits 32 (len_tensor h) ++ emit_bits 32 (bg_bitmap h).
Definition extract_p4ml_bg : parser p4ml_bg_h :=
  k ← extract 64; l ← extract 32; b ← extract 32; mret (P4mlBg k l b).

Definition emit_entries (l : entry_h) : list bool := l ≫= emit_bits 32.
Fixpoint extract_entries (n : nat) : parser entry_h :=
  match n with
  | O => mret []
  | S n' => x ← extract 32; l ← extract_entries n'; mret (to_signed 32 x :: l)
  end.

(** [switch_header_t]: the headers that are valid. *)
Record switch_header_t : Type := Header {
  ethernet : ethernet_h;
  ipv4 : option ipv4_h;
  udp : option udp_h;
  p4ml : option p4ml_h;
  p4ml_agtr_index : option Z;
  p4ml_bg : option p4ml_bg_h;
  p4ml_entries : option entry_h
}.

(** ** [SwitchIngressParser] and [SwitchIngressDeparser]

    The states of the parser after [parse_ethernet]. *)
Definition parse_p4ml (e : ethernet_h) (ip : option ipv4_h) : parser switch_header_t :=
  h ← extract_p4ml; a ← extract 16; l ← extract_entries entry_count;
  mret (Header e ip None (Some h) (Some a) None (Some l)).
Definition parse_bg (e : ethernet_h) : parser switch_header_t :=
  ip ← extract_ipv4; u ← extract_udp; b ← extract_p4ml_bg;
  mret (Header e (Some ip) (Some u) None None (Some b) None).
Definition SwitchIngressParser : parser switch_header_t :=
  e ← extract_ethernet;
  if decide (ether_type e = 0x0700) then ip ← extract_ipv4; parse_p4ml e (Some ip)
  else if decide (ether_type e = 0x0900) then parse_bg e
  else if decide (ether_type e = 0x0800) then
    ip ← extract_ipv4; mret (Header e (Some ip) None None None None None)
  else if decide (ether_type e = 0x0a00) then parse_p4ml e None
  else mret (Header e None None None None None None).

(** [pkt.emit] of a header, which does nothing if it is not valid. *)
Definition emit {A} (f : A → list bool) (h : option A) : list bool := match h with Some a => f a | None => [] end.
Definition SwitchIngressDeparser (h : switch_header_t) : list bool :=
  emit_ethernet (ethernet h) ++ emit emit_ipv4 (ipv4 h) ++ emit emit_p4ml (p4ml h) ++ emit emit_udp (udp h) ++
  emit (emit_bits 16) (p4ml_agtr_index h) ++ emit emit_entries (p4ml_entries h).

(** ** Lemmas on bits *)

Lemma bits_value_snoc l b : bits_value (l ++ [b]) = 2 * bits_value l + Z.b2z b.
Proof. unfold bits_value. by rewrite foldl_app. Qed.

Lemma pow2_S n : 2 ^ Z.of_nat (S n) = 2 * 2 ^ Z.of_nat n.
Proof. rewrite Nat2Z.inj_succ, Z.pow_succ_r; lia. Qed.

Lemma bits_value_app l1 l2 : bits_value (l1 ++ l2) = bits_value l1 * 2 ^ Z.of_nat (length l2) + bits_value l2.
Proof.
  induction l2 as [|b l IH] using rev_ind; [rewrite app_nil_r; cbn; lia|].
  rewrite app_assoc, !bits_value_snoc, IH, length_app, Nat.add_1_r, pow2_S. lia.
Qed.

Lemma length_emit_bits w x : length (emit_bits w x) = w.
Proof. induction w; cbn; auto. Qed.

Lemma bits_value_bound l : 0 ≤ bits_value l < 2 ^ Z.of_nat (length l).
Proof.
  induction l as [|b l IH] using rev_ind; [by cbn|]. rewrite bits_value_snoc, length_app, Nat.add_1_r, pow2_S.
  destruct b; cbn; lia.
Qed.

Lemma bits_value_emit w x : bits_value (emit_bits w x) = x mod 2 ^ Z.of_nat w.
Proof.
  induction w as [|w IH]; [by rewrite Z.mod_1_r|].
  change (emit_bits (S w) x) with ([Z.testbit x (Z.of_nat w)] ++ emit_bits w x).
  rewrite bits_value_app, IH, length_emit_bits, pow2_S, Z.mul_comm, (Z.mul_comm 2), Z.rem_mul_r by lia.
  unfold bits_value. cbn [foldl]. rewrite Z.testbit_spec' by lia. lia.
Qed.

Lemma emit_bits_value l : emit_bits (length l) (bits_value l) = l.
Proof.
  induction l as [|b l IH]; [done|]. cbn [length emit_bits].
  change (b :: l) with ([b] ++ l). pose proof (bits_value_bound l) as Hb.
  assert (∀ n x y, (n ≤ length l)%nat → emit_bits n (x * 2 ^ Z.of_nat (length l) + y) = emit_bits n y) as Hm.
  { intros n x y. induction n as [|n IHn]; intros Hn; [done|]. cbn [emit_bits]. rewrite IHn by lia. f_equal.
    apply Z.b2z_inj. rewrite !Z.testbit_spec' by lia.
    replace (Z.of_nat (length l)) with (Z.of_nat n + 1 + (Z.of_nat (length l) - Z.of_nat n - 1)) by lia.
    rewrite !Z.pow_add_r, Z.add_comm by lia.
    replace (x * (2 ^ Z.of_nat n * 2 ^ 1 * 2 ^ (Z.of_nat (length l) - Z.of_nat n - 1)))
      with (x * 2 ^ (Z.of_nat (length l) - Z.of_nat n - 1) * 2 * 2 ^ Z.of_nat n) by lia.
    rewrite Z.div_add by lia. by rewrite Z.mod_add by lia. }
  rewrite bits_value_app, Hm, IH by lia. cbn [app]. f_equal.
  apply Z.b2z_inj. rewrite Z.testbit_spec' by lia. rewrite Z.div_add_l, Z.div_small by lia.
  destruct b; done.
Qed.

Lemma extract_emit w x rest : 0 ≤ x < 2 ^ Z.of_nat w → extract w (emit_bits w x ++ rest) = Some (x, rest).
Proof.
  intros Hx. unfold extract. rewrite length_app, length_emit_bits. rewrite decide_True by lia.
  rewrite take_app_length', drop_app_length' by (by rewrite length_emit_bits).
  by rewrite bits_value_emit, Z.mod_small.
Qed.

Lemma extract_inv w pkt x rest : extract w pkt = Some (x, rest) → pkt = emit_bits w x ++ rest.
Proof.
  unfold extract. destruct (decide _) as [Hw|]; [|done]. intros [= <- <-].
  rewrite <-(length_take_le pkt w Hw) at 1. by rewrite emit_bits_value, take_drop.
Qed.

Lemma emit_bits_mod w x y : x mod 2 ^ Z.of_nat w = y mod 2 ^ Z.of_nat w → emit_bits w x = emit_bits w y.
Proof.
  rewrite <-!bits_value_emit. intros E. apply (f_equal (emit_bits w)) in E.
  pose proof (emit_bits_value (emit_bits w x)) as E1. pose proof (emit_bits_value (emit_bits w y)) as E2.
  rewrite !length_emit_bits in E1, E2. by rewrite <-E1, E, E2.
Qed.

Lemma emit_to_signed w x : emit_bits w (to_signed w x) = emit_bits w x.
Proof.
  apply emit_bits_mod. unfold to_signed. case_decide; [done|].
  replace (x - 2 ^ Z.of_nat w) with (x + (-1) * 2 ^ Z.of_nat w) by lia. apply Z.mod_add. lia.
Qed.

(** A parser that returns what a deparser emits. *)
Definition undone_by {A} (p : parser A) (f : A → list bool) : Prop :=
  ∀ pkt a rest, p pkt = Some (a, rest) → pkt = f a ++ rest.

(** Takes the parser in a hypothesis apart. *)
Ltac parse_inv :=
  unfold mbind, parser_bind, mret, parser_ret in *;
  repeat match goal with
  | H : match ?p ?pkt with _ => _ end = Some _ |- _ =>
      let E := fresh "E" in destruct (p pkt) as [[? ?]|] eqn:E; [|done]
  | H : Some _ = Some _ |- _ => injection H as <- <-
  | H : extract _ _ = Some _ |- _ => apply extract_inv in H; subst
  end.

Lemma ethernet_undone : undone_by extract_ethernet emit_ethernet.
Proof. intros pkt a rest H. unfold extract_ethernet in H. parse_inv. unfold emit_ethernet. cbn -[emit_bits]. by rewrite <-?app_assoc. Qed.
Lemma ipv4_undone : undone_by extract_ipv4 emit_ipv4.
Proof. intros pkt a rest H. unfold extract_ipv4 in H. parse_inv. unfold emit_ipv4. cbn -[emit_bits]. by rewrite <-?app_assoc. Qed.
Lemma udp_undone : undone_by extract_udp emit_udp.
Proof. intros pkt a rest H. unfold extract_udp in H. parse_inv. unfold emit_udp. cbn -[emit_bits]. by rewrite <-?app_assoc. Qed.
Lemma p4ml_undone : undone_by extract_p4ml emit_p4ml.
Proof. intros pkt a rest H. unfold extract_p4ml in H. parse_inv. unfold emit_p4ml. cbn -[emit_bits]. by rewrite <-?app_assoc. Qed.
Lemma p4ml_bg_undone : undone_by extract_p4ml_bg emit_p4ml_bg.
Proof. intros pkt a rest H. unfold extract_p4ml_bg in H. parse_inv. unfold emit_p4ml_bg. cbn -[emit_bits]. by rewrite <-?app_assoc. Qed.

Lemma entries_undone n : undone_by (extract_entries n) emit_entries.
Proof.
  induction n as [|n IH]; intros pkt a rest H; cbn [extract_entries] in H; parse_inv; [done|].
  apply IH in E0. subst. unfold emit_entries. cbn -[emit_bits]. by rewrite emit_to_signed, <-app_assoc.
Qed.

Lemma extract_entries_length n pkt l rest : extract_entries n pkt = Some (l, rest) → length l = n.
Proof.
  revert pkt l rest. induction n as [|n IH]; intros pkt l rest H; cbn [extract_entries] in H; parse_inv; [done|].
  cbn. f_equal. by eapply IH.
Qed.

#[local] Opaque emit_bits emit_ethernet emit_ipv4 emit_udp emit_p4ml emit_p4ml_bg emit_entries.

(** Deparsing a parsed packet gives the packet back, bit by bit, whatever its type:
    headers the switch does not change leave it as they came. Background packets
    are the exception: their last header is taken off and not put back. *)
Theorem parse_deparse pkt h rest : SwitchIngressParser pkt = Some (h, rest) →
  pkt = SwitchIngressDeparser h ++ emit emit_p4ml_bg (p4ml_bg h) ++ rest ∧
  (p4ml_bg h = None ↔ ether_type (ethernet h) ≠ 0x0900) ∧
  (p4ml h ≠ None → p4ml_agtr_index h ≠ None ∧ ∃ l, p4ml_entries h = Some l ∧ length l = entry_count).
Proof.
  unfold SwitchIngressParser. intros H. parse_inv. apply ethernet_undone in E. subst.
  unfold SwitchIngressDeparser, parse_p4ml, parse_bg in *. unfold mbind, parser_bind, mret, parser_ret in H.
  repeat match goal with H : context [decide ?P] |- _ => destruct (decide P) end; parse_inv;
    repeat match goal with
    | H : extract_ipv4 _ = Some _ |- _ => apply ipv4_undone in H; subst
    | H : extract_udp _ = Some _ |- _ => apply udp_undone in H; subst
    | H : extract_p4ml _ = Some _ |- _ => apply p4ml_undone in H; subst
    | H : extract_p4ml_bg _ = Some _ |- _ => apply p4ml_bg_undone in H; subst
    | H : extract_entries _ _ = Some _ |- _ =>
        pose proof (extract_entries_length _ _ _ _ H); apply entries_undone in H; subst
    end; cbn [ethernet ipv4 udp p4ml p4ml_agtr_index p4ml_bg p4ml_entries emit];
    rewrite ?app_nil_l, <-?app_assoc; split_and!; try done; try naive_solver congruence.
Qed.
End Packet.
