(* ===== verification/DpdkPkt.v ===== *)
(** * Packets of the workers, [byteps/common/dpdk/common/dpdk_pkt.h]

    The header that workers and the software server assemble, with the numbers in
    network order and the vector as bytes that are copied as they are.

    Theorems: the switch parses from a packet of a worker the fields that the worker
    wrote; sums of the words of a vector, in either byte order, are sums of the
    bytes as long as no byte overflows. *)

From S2P Require Import Prelude BitIO Packet.

Module DpdkPkt.
Import BitIO Packet.

(** ** Constants *)
Definition MAX_ENTRIES_PER_PACKET : nat := 256.
Definition AGTR_SLOT_NUM : Z := 64.
Definition CIRC_TIME : Z := Z.of_nat MAX_ENTRIES_PER_PACKET / AGTR_SLOT_NUM.
Definition DPDK_ELEMENT_NUM : Z := Z.of_nat MAX_ENTRIES_PER_PACKET * 4.
Definition MAX_AGTR_COUNT : Z := 2500.
Definition NORM_SLOT : Z := 300.
Definition TENSOR_COMM : Z := 1.
Definition TENSOR_NORM : Z := 2.
Definition TENSOR_INIT : Z := 3.

(** ** Structures

    [struct p4mlhdr]: the numbers after [ntohl] and [ntohs], the [4 * 256] bytes of
    the vector; [struct TestMessage]. *)
Record p4mlhdr : Type := Hdr {
  m_bitmap : Z; m_num_worker : Z; m_roundNum : Z; m_max_info : Z; m_norm_info : Z;
  m_type_and_index : Z; m_recirc_times : Z; m_agtr : Z; m_vector : list Z
}.
Record TestMessage : Type := Msg { p4ml_hdrs : p4mlhdr; m_key : Z; m_cmd : Z; m_len : Z; m_shutdown : bool }.

(** The header in memory, packed; [SW_PS], compiling for the software server, leaves
    the time stamps of the switch out. The numbers are stored by [htonl] and
    [htons], the most significant byte first. *)
Definition bytes_bits (l : list Z) : list bool := l ≫= emit_bits 8.
Definition p4mlhdr_bits (SW_PS : bool) (h : p4mlhdr) : list bool :=
  emit_bits 32 (m_bitmap h) ++ emit_bits 8 (m_num_worker h) ++ emit_bits 32 (m_roundNum h) ++
  emit_bits 32 (m_max_info h) ++ emit_bits 32 (m_norm_info h) ++ emit_bits 8 (m_type_and_index h) ++
  emit_bits 8 (m_recirc_times h) ++ (if SW_PS then [] else emit_bits 64 0 ++ emit_bits 64 0) ++
  emit_bits 16 (m_agtr h) ++ bytes_bits (m_vector h).

(** ** Assembling a packet

    [assemble_norm_pkt], [norm] being the bits of the number; what is in the vector
    stays. *)
Definition assemble_norm_pkt (SW_PS : bool) (hdr : p4mlhdr) (worker_id num_worker round_num key norm : Z) : p4mlhdr :=
  Hdr (wrap 32 (Z.shiftl 1 worker_id)) num_worker round_num 0 norm (Z.shiftl 1 7) (CIRC_TIME - 1)
    (wrap 16 ((if SW_PS then MAX_AGTR_COUNT else MAX_AGTR_COUNT * CIRC_TIME) + key mod NORM_SLOT)) (m_vector hdr).

(** [memcpy] of [n] bytes to the front of the vector. *)
Definition fill_vector (vector data : list Z) (n : nat) : list Z := take n data ++ drop n vector.

(** The fields that [assemble_dpdk_p4ml_hdrs] and [assemble_normal_hdrs] write. *)
Definition data_hdr (SW_PS : bool) (worker_id num_worker round_num key : Z) (vector : list Z) : p4mlhdr :=
  Hdr (wrap 32 (Z.shiftl 1 worker_id)) num_worker round_num 0 0 0 0
    (wrap 16 (if SW_PS then key mod MAX_AGTR_COUNT else (key mod MAX_AGTR_COUNT) * CIRC_TIME)) vector.

(** For compressed data, a byte an element, and for [float]s; a null pointer leaves
    the vector as it is. *)
Definition assemble_dpdk_p4ml_hdrs (SW_PS : bool) (hdr : p4mlhdr) (worker_id num_worker round_num : Z)
    (input_data : option (list Z)) (key len : Z) : p4mlhdr :=
  let data_len := if decide (len < DPDK_ELEMENT_NUM) then len else DPDK_ELEMENT_NUM in
  data_hdr SW_PS worker_id num_worker round_num key
    (match input_data with Some data => fill_vector (m_vector hdr) data (Z.to_nat data_len) | None => m_vector hdr end).
Definition assemble_normal_hdrs (SW_PS : bool) (hdr : p4mlhdr) (worker_id num_worker round_num : Z)
    (data : option (list Z)) (key len : Z) : p4mlhdr :=
  let data_len := if decide (len < Z.of_nat MAX_ENTRIES_PER_PACKET) then len else Z.of_nat MAX_ENTRIES_PER_PACKET in
  data_hdr SW_PS worker_id num_worker round_num key
    (match data with Some data => fill_vector (m_vector hdr) data (4 * Z.to_nat data_len) | None => m_vector hdr end).

(** ** Words *)

(** [f] of each four bytes. *)
Fixpoint quads {A} (f : Z → Z → Z → Z → A) (l : list Z) : list A :=
  match l with
  | a :: b :: c :: d :: l' => f a b c d :: quads f l'
  | _ => []
  end.
Definition be_word (a b c d : Z) : Z := a * 2 ^ 24 + b * 2 ^ 16 + c * 2 ^ 8 + d.
Definition le_word (a b c d : Z) : Z := be_word d c b a.

(** The bytes of words. *)
Definition be_bytes (x : Z) : list Z := [x / 2 ^ 24 mod 256; x / 2 ^ 16 mod 256; x / 2 ^ 8 mod 256; x mod 256].
Definition le_bytes (x : Z) : list Z := [x mod 256; x / 2 ^ 8 mod 256; x / 2 ^ 16 mod 256; x / 2 ^ 24 mod 256].

Definition is_byte (x : Z) : Prop := 0 ≤ x < 256.

Lemma be_bytes_word a b c d : is_byte a → is_byte b → is_byte c → is_byte d → be_bytes (be_word a b c d) = [a; b; c; d].
Proof. unfold is_byte, be_bytes, be_word. intros. repeat f_equal; Z.to_euclidean_division_equations; lia. Qed.
Lemma le_bytes_word a b c d : is_byte a → is_byte b → is_byte c → is_byte d → le_bytes (le_word a b c d) = [a; b; c; d].
Proof.
  intros. pose proof (be_bytes_word d c b a ltac:(done) ltac:(done) ltac:(done) ltac:(done)) as E.
  unfold be_bytes in E. unfold le_bytes, le_word. by injection E as -> -> -> ->.
Qed.

Lemma be_word_bound a b c d : is_byte a → is_byte b → is_byte c → is_byte d → 0 ≤ be_word a b c d < 2 ^ 32.
Proof. unfold is_byte, be_word. lia. Qed.

(** Induction on the words of a list of [4 * n] bytes. *)
Lemma quads_ind (P : nat → list Z → Prop) :
  P O [] → (∀ n a b c d l, length l = (4 * n)%nat → P n l → P (S n) (a :: b :: c :: d :: l)) →
  ∀ n l, length l = (4 * n)%nat → P n l.
Proof.
  intros H0 HS n. induction n as [|n IH]; intros l Hl; [by destruct l|].
  destruct l as [|a [|b [|c [|d l]]]]; try (simpl in Hl; lia). apply HS; simpl in Hl; [lia|]. apply IH. lia.
Qed.

Lemma length_quads {A} (f : Z → Z → Z → Z → A) n l : length l = (4 * n)%nat → length (quads f l) = n.
Proof. revert n l. apply quads_ind; [done|]. intros n a b c d l _ IH. cbn. by f_equal. Qed.

Lemma quads_bytes n l : length l = (4 * n)%nat → Forall is_byte l →
  (quads be_word l ≫= be_bytes) = l ∧ (quads le_word l ≫= le_bytes) = l.
Proof.
  revert n l. apply (quads_ind (λ _ l, Forall is_byte l → _)); [done|].
  intros n a b c d l _ IH. rewrite !Forall_cons. intros (Ha & Hb & Hc & Hd & Hl). destruct (IH Hl) as [E1 E2].
  cbn [quads mbind list_bind]. rewrite E1, E2, be_bytes_word, le_bytes_word by done. done.
Qed.

(** Adding words is adding their bytes. *)
Lemma quads_add (f : Z → Z → Z → Z → Z) n l : (f = be_word ∨ f = le_word) → length l = (4 * n)%nat → ∀ l', length l' = (4 * n)%nat →
  zip_with Z.add (quads f l) (quads f l') = quads f (zip_with Z.add l l').
Proof.
  intros Hf. revert n l. apply (quads_ind (λ n l, ∀ l', length l' = (4 * n)%nat → _)); [done|].
  intros n a b c d l _ IH l' Hl'. destruct l' as [|a' [|b' [|c' [|d' l']]]]; try (simpl in Hl'; lia).
  cbn [quads zip_with]. rewrite IH by (simpl in Hl'; lia). f_equal. destruct Hf; subst f; unfold le_word, be_word; lia.
Qed.

(** ** Sums of vectors *)

Definition lane (l : list Z) (i : nat) : Z := default 0 (l !! i).
Definition lane_sum (rows : list (list Z)) (i : nat) : Z := foldr (λ l t, lane l i + t) 0 rows.
Definition total (n : nat) (rows : list (list Z)) : list Z := lane_sum rows <$> seq 0 n.

Lemma lane_sum_app rows rows' i : lane_sum (rows ++ rows') i = lane_sum rows i + lane_sum rows' i.
Proof. unfold lane_sum. induction rows; cbn; lia. Qed.

#[export] Instance lane_sum_perm : Proper ((≡ₚ) ==> (=) ==> (=)) lane_sum.
Proof. intros l l' Hp i ? <-. unfold lane_sum. induction Hp; cbn; lia. Qed.

#[export] Instance total_perm n : Proper ((≡ₚ) ==> (=)) (total n).
Proof. intros l l' Hp. unfold total. apply list_fmap_ext. intros ? i _. by rewrite Hp. Qed.

Lemma lane_sum_nonneg rows i : Forall (Forall (λ x, 0 ≤ x)) rows → 0 ≤ lane_sum rows i.
Proof.
  unfold lane_sum. induction 1 as [|l rows Hl _ IH]; cbn; [done|].
  assert (0 ≤ lane l i); [|lia]. unfold lane. destruct (l !! i) as [x|] eqn:E; cbn; [|done].
  by apply (Forall_lookup_1 _ _ _ _ Hl) in E.
Qed.

Lemma length_total n rows : length (total n rows) = n.
Proof. unfold total. by rewrite length_fmap, length_seq. Qed.

Lemma total_lookup n rows i : (i < n)%nat → total n rows !! i = Some (lane_sum rows i).
Proof. intros. unfold total. by rewrite list_lookup_fmap, lookup_seq_lt. Qed.

Lemma total_eq n rows l : length l = n → (∀ i, (i < n)%nat → lane l i = lane_sum rows i) → l = total n rows.
Proof.
  intros Hl H. apply (list_eq_same_length _ _ n); [by rewrite length_total|done|].
  intros i x y Hi Hx Hy. rewrite total_lookup in Hy by done. specialize (H i Hi). unfold lane in H. rewrite Hx in H.
  simpl in H. congruence.
Qed.

Lemma total_one n l : length l = n → total n [l] = l.
Proof. intros Hl. symmetry. apply total_eq; [done|]. intros. cbn. lia. Qed.

(** One more row. *)
Lemma zip_with_lane f l l' i : (i < length l)%nat → length l = length l' → lane (zip_with f l l') i = f (lane l i) (lane l' i).
Proof.
  intros Hi Hl. unfold lane. rewrite lookup_zip_with.
  destruct (lookup_lt_is_Some_2 l i Hi) as [x ->], (lookup_lt_is_Some_2 l' i) as [y ->]; [lia|done].
Qed.

Lemma total_lane n rows i : (i < n)%nat → lane (total n rows) i = lane_sum rows i.
Proof. intros. unfold lane. by rewrite total_lookup. Qed.

Lemma total_snoc n rows l : length l = n → zip_with Z.add (total n rows) l = total n (rows ++ [l]).
Proof.
  intros Hl. apply total_eq; [rewrite length_zip_with, length_total; lia|]. intros i Hi.
  rewrite zip_with_lane by (rewrite length_total; lia). rewrite total_lane, lane_sum_app by done. cbn. lia.
Qed.

(** ** A worker's packet in the switch *)

Lemma emit_bits_split a b x : emit_bits (a + b) x = emit_bits a (x / 2 ^ Z.of_nat b) ++ emit_bits b x.
Proof.
  induction a as [|a IH]; [done|]. cbn [emit_bits Nat.add app]. rewrite IH. f_equal.
  rewrite Z.div_pow2_bits by lia. f_equal. lia.
Qed.

Lemma word_bits a b c d : is_byte b → is_byte c → is_byte d →
  emit_bits 32 (be_word a b c d) = emit_bits 8 a ++ emit_bits 8 b ++ emit_bits 8 c ++ emit_bits 8 d.
Proof.
  unfold is_byte, be_word. intros. change 32%nat with (8 + (8 + (8 + 8)))%nat. rewrite !emit_bits_split.
  do 2 (f_equal; [apply emit_bits_mod; change (Z.of_nat (8 + (8 + 8))) with 24; change (Z.of_nat (8 + 8)) with 16;
    change (Z.of_nat 8) with 8; Z.to_euclidean_division_equations; lia|]).
  f_equal; apply emit_bits_mod; change (Z.of_nat 8) with 8; Z.to_euclidean_division_equations; lia.
Qed.

Lemma extract_entries_bytes n l rest : length l = (4 * n)%nat → Forall is_byte l →
  extract_entries n (bytes_bits l ++ rest) = Some (to_signed 32 <$> quads be_word l, rest).
Proof.
  revert n l. apply (quads_ind (λ n l, Forall is_byte l → _)); [done|].
  intros n a b c d l _ IH. rewrite !Forall_cons. intros (Ha & Hb & Hc & Hd & Hl).
  assert (bytes_bits (a :: b :: c :: d :: l) ++ rest
    = emit_bits 32 (be_word a b c d) ++ bytes_bits l ++ rest) as ->.
  { rewrite word_bits by done. unfold bytes_bits. cbn [mbind list_bind]. by rewrite <-!app_assoc. }
  cbn [extract_entries quads fmap list_fmap]. unfold mbind, parser_bind.
  rewrite extract_emit by (by apply be_word_bound). by rewrite IH.
Qed.

(** The numbers of a header fit their fields. *)
Record hdr_wf (h : p4mlhdr) : Prop := {
  wf_bitmap : 0 ≤ m_bitmap h < 2 ^ 32; wf_workers : 0 ≤ m_num_worker h < 2 ^ 8;
  wf_round : 0 ≤ m_roundNum h < 2 ^ 32; wf_max : 0 ≤ m_max_info h < 2 ^ 32;
  wf_norm : 0 ≤ m_norm_info h < 2 ^ 32; wf_type : 0 ≤ m_type_and_index h < 2 ^ 8;
  wf_recirc : 0 ≤ m_recirc_times h < 2 ^ 8; wf_agtr : 0 ≤ m_agtr h < 2 ^ 16;
  wf_length : length (m_vector h) = (4 * MAX_ENTRIES_PER_PACKET)%nat; wf_vector : Forall is_byte (m_vector h)
}.

Lemma fill_vector_length vector data n : (n ≤ length vector)%nat → (n ≤ length data)%nat →
  length (fill_vector vector data n) = length vector.
Proof. intros. unfold fill_vector. rewrite length_app, length_take, length_drop. lia. Qed.

Lemma fill_vector_bytes vector data n : Forall is_byte vector → Forall is_byte data →
  Forall is_byte (fill_vector vector data n).
Proof. intros. apply Forall_app_2; [by apply Forall_take|by apply Forall_drop]. Qed.

(** What a worker assembles for a piece of compressed data is well formed. *)
Lemma assembled_wf SW_PS hdr id n r data key len :
  hdr_wf hdr → 0 ≤ n < 2 ^ 8 → 0 ≤ r < 2 ^ 32 → 0 ≤ len ≤ Z.of_nat (length data) → Forall is_byte data →
  hdr_wf (assemble_dpdk_p4ml_hdrs SW_PS hdr id n r (Some data) key len).
Proof.
  intros Hh Hn Hr Hlen Hd. unfold assemble_dpdk_p4ml_hdrs, data_hdr.
  set (k := Z.to_nat _).
  assert (k ≤ length (m_vector hdr) ∧ k ≤ length data)%nat as [H1 H2].
  { rewrite (wf_length _ Hh). unfold k, DPDK_ELEMENT_NUM, MAX_ENTRIES_PER_PACKET. case_decide; lia. }
  split; cbn; try lia; try apply wrap_bound.
  - rewrite fill_vector_length by done. apply wf_length, Hh.
  - apply fill_vector_bytes; [apply wf_vector, Hh|done].
Qed.

(** The headers of the switch that hold the fields of a worker's header. *)
Definition parsed (h : p4mlhdr) : p4ml_h * entry_h :=
  (P4ml (m_bitmap h) (m_num_worker h) (m_roundNum h) (m_max_info h) (m_norm_info h)
     (m_type_and_index h / 128) (m_type_and_index h / 64 mod 2) (m_type_and_index h mod 64) (m_recirc_times h) 0 0 0 0,
   to_signed 32 <$> quads be_word (take 256 (m_vector h))).

(** C15: The switch reads from a packet what a worker has written into it, when the worker
    is compiled for the switch: every number, the kind of packet from the first bit
    of its byte, and the first 64 words of the vector; the other 192 stay in the
    payload. *)
Theorem worker_packet_parses e h rest :
  0 ≤ dst_addr e < 2 ^ 48 → 0 ≤ src_addr e < 2 ^ 48 → ether_type e = 0x0a00 → hdr_wf h →
  SwitchIngressParser (emit_ethernet e ++ p4mlhdr_bits false h ++ rest) =
    Some (Header e None None (Some (parsed h).1) (Some (m_agtr h)) None (Some (parsed h).2),
          bytes_bits (drop 256 (m_vector h)) ++ rest).
Proof.
  intros Hd Hs Ht []. unfold SwitchIngressParser, extract_ethernet, emit_ethernet, mbind, parser_bind, mret, parser_ret.
  rewrite <-!app_assoc, !extract_emit by (rewrite ?Ht; done). cbn [ether_type]. rewrite Ht.
  rewrite !decide_False, decide_True by done.
  unfold parse_p4ml, extract_p4ml, mbind, parser_bind, mret, parser_ret, p4mlhdr_bits.
  change (emit_bits 8 (m_type_and_index h)) with (emit_bits (1 + (1 + 6)) (m_type_and_index h)).
  change (emit_bits 64 0) with (emit_bits (16 + 48) 0). rewrite !emit_bits_split, <-!app_assoc.
  rewrite (emit_bits_mod 1 (_ / 2 ^ Z.of_nat 6) (m_type_and_index h / 64 mod 2)) by (by rewrite Z.mod_mod).
  rewrite (emit_bits_mod 6 (m_type_and_index h) (m_type_and_index h mod 64)) by (by rewrite Z.mod_mod).
  rewrite !extract_emit by (try done; change (Z.of_nat 48) with 48; change (Z.of_nat (1 + 6)) with 7;
    change (Z.of_nat 6) with 6; change (Z.of_nat 1) with 1; Z.to_euclidean_division_equations; lia).
  rewrite <-(take_drop 256 (m_vector h)) at 1. unfold bytes_bits at 1. rewrite bind_app, <-app_assoc.
  fold (bytes_bits (take 256 (m_vector h))). unfold entry_count.
  rewrite extract_entries_bytes; [by destruct e; simpl in Ht; subst|unfold MAX_ENTRIES_PER_PACKET in *; rewrite length_take; lia|by apply Forall_take].
Qed.
End DpdkPkt.
