(* ===== verification/Switch.v ===== *)
(** * The switch's data plane, [P4/atp.p4], [P4/data.p4], [P4/route.p4], [P4/main.p4]

    The registers of the aggregators and the ingress control: which round an
    aggregator is in, how many workers it has heard from, the sums of the 64 lanes
    of a packet, and where the packet goes.

    The entries of the match-action tables, which the control plane installs, are
    parameters. The register actions that no control applies are left out. *)

From S2P Require Import Prelude BitIO Packet.

Module Switch.
Import BitIO Packet.

Definition total_aggregator_cnt : Z := 0x4fff.

(** ** Registers

    [pair_t] of two [int<32>], of which only the first is used. *)
Record pair_t : Type := Pair { first : Z; second : Z }.

(** One aggregator: an element of each register array. *)
Record slot : Type := Slot {
  roundNumbers : Z; bitmap : Z; norm_info : Z; receive_count : Z; registers : list pair_t
}.
Definition empty_slot : slot := Slot 0 0 0 0 (replicate entry_count (Pair 0 0)).

(** The arrays; what has not been written is 0. *)
Notation regs := (gmap Z slot).
Definition slot_at (st : regs) (agtr : Z) : slot := default empty_slot (st !! agtr).

(** ** Register actions: the value of the register, and the new one with the result *)

Definition normal_check_roundNum (round value : Z) : Z * Z :=
  if decide (value > round) then (value, 0)
  else if decide (value = round) then (value, 1)
  else (round, 2).
Definition normal_read_write_bitmap (bits value : Z) : Z * Z := let value := Z.lor value bits in (value, value).
Definition clean_bitmap (value : Z) : Z * Z := (0, value).
Definition normal_incr_check_count (workers value : Z) : Z * Z :=
  if decide (value = workers) then (1, 1) else (wrap 8 (value + 1), wrap 8 (value + 1)).
Definition reset_check_count (value : Z) : Z * Z := (1, 1).
Definition update_norm (norm value : Z) : Z * Z := let value := if decide (norm > value) then norm else value in (value, value).
Definition set_norm (norm value : Z) : Z * Z := (norm, norm).

(** [|+|] on [int<32>] and [value[30:0]]. *)
Definition sat_add (x y : Z) : Z := Z.max (- 2 ^ 31) (Z.min (2 ^ 31 - 1) (x + y)).
Definition low31 (x : Z) : Z := Z.land x 0x7fffffff.

(** [noequ0_write_read_data_entry##n] and [write_data_entry##n]. *)
Definition noequ0_write_read_data_entry (data : Z) (value : pair_t) : pair_t * Z :=
  let value := if decide (low31 (first value) ≠ 0x7fffffff) then Pair (sat_add (first value) data) (second value)
               else value in
  (value, first value).
Definition write_data_entry (data : Z) (value : pair_t) : pair_t := Pair data (second value).

(** [PROCESS_ENTRY]: the 64 controls [ProcessData##n]. *)
Definition process_entries (seen_isAggregate : Z) (registers : list pair_t) (entries : entry_h) : list pair_t * entry_h :=
  if decide (seen_isAggregate = 1) then (zip_with write_data_entry entries registers, entries)
  else let rs := zip_with noequ0_write_read_data_entry entries registers in (rs.*1, rs.*2).

(** ** Intrinsic metadata that the controls set *)
Record tm_md : Type := TM { ucast_egress_port : option Z; mcast_grp_a : Z; bypass_egress : bool; drop_ctl : Z }.
Definition tm0 : tm_md := TM None 0 false 0.

Section tables.
(** [dmac] of [main.p4], [dmac] of [route.p4] and [recirc_port], and which ports are
    set up to loop back. *)
Context (main_dmac route_dmac recirc_port : Z → option Z) (loopback : Z → bool).

(** ** [Route] *)
Definition Route (dst : Z) (entries : entry_h) : entry_h * tm_md :=
  match route_dmac dst with
  | Some port => ((λ _, 0) <$> entries, TM (Some port) 0 false 0)
  | None => (entries, TM (Some 176) 0 false 0)
  end.

(** ** [AppIdSeq] *)
Definition with_round (r : Z) (h : p4ml_h) : p4ml_h :=
  P4ml (p_bitmap h) (num_worker h) r (max_info h) (p_norm_info h) (packet_type h) (dataIndex h) (p_pad h)
    (recirc_time h) (pad_1 h) (ingress_global h) (pad_2 h) (egress_global h).
Definition with_norm (n : Z) (h : p4ml_h) : p4ml_h :=
  P4ml (p_bitmap h) (num_worker h) (roundNum h) (max_info h) n (packet_type h) (dataIndex h) (p_pad h)
    (recirc_time h) (pad_1 h) (ingress_global h) (pad_2 h) (egress_global h).
Definition with_bitmap (b : Z) (h : p4ml_h) : p4ml_h :=
  P4ml b (num_worker h) (roundNum h) (max_info h) (p_norm_info h) (packet_type h) (dataIndex h) (p_pad h)
    (recirc_time h) (pad_1 h) (ingress_global h) (pad_2 h) (egress_global h).
Definition with_recirc (c : Z) (h : p4ml_h) : p4ml_h :=
  P4ml (p_bitmap h) (num_worker h) (roundNum h) (max_info h) (p_norm_info h) (packet_type h) (dataIndex h) (p_pad h)
    c (pad_1 h) (ingress_global h) (pad_2 h) (egress_global h).
Definition with_ingress (t : Z) (h : p4ml_h) : p4ml_h :=
  P4ml (p_bitmap h) (num_worker h) (roundNum h) (max_info h) (p_norm_info h) (packet_type h) (dataIndex h) (p_pad h)
    (recirc_time h) (pad_1 h) t (pad_2 h) (egress_global h).
Definition with_egress (t : Z) (h : p4ml_h) : p4ml_h :=
  P4ml (p_bitmap h) (num_worker h) (roundNum h) (max_info h) (p_norm_info h) (packet_type h) (dataIndex h) (p_pad h)
    (recirc_time h) (pad_1 h) (ingress_global h) (pad_2 h) t.

(** The three headers it changes. *)
Definition fields : Type := p4ml_h * Z * entry_h.

Definition AppIdSeq (dst : Z) (st : regs) (f : fields) : cres (regs * fields * tm_md) :=
  let '(p4ml, agtr, entries) := f in
  if decide (0 ≤ agtr < total_aggregator_cnt) then
    let s := slot_at st agtr in
    let '(round, match_roundnum) := normal_check_roundNum (roundNum p4ml) (roundNumbers s) in
    if decide (match_roundnum = 0) then
      let '(entries, tm) := Route dst entries in
      mret (st, (with_round 0 p4ml, agtr, entries), tm)
    else
      let '((count, seen_isAggregate), (norm, rv)) :=
        if decide (match_roundnum = 2) then (reset_check_count (receive_count s), set_norm (p_norm_info p4ml) (norm_info s))
        else (normal_incr_check_count (num_worker p4ml) (receive_count s), update_norm (p_norm_info p4ml) (norm_info s)) in
      let p4ml := with_norm rv p4ml in
      let '(rs, entries) :=
        if decide (packet_type p4ml = 0) then process_entries seen_isAggregate (registers s) entries
        else (registers s, entries) in
      if decide (recirc_time p4ml = 3) then
        if decide (seen_isAggregate = num_worker p4ml) then
          let '(b, rv) := clean_bitmap (bitmap s) in
          mret (<[agtr := Slot round b norm count rs]> st, (with_bitmap rv p4ml, agtr, entries), TM None 1 false 0)
        else
          let '(b, rv) := normal_read_write_bitmap (p_bitmap p4ml) (bitmap s) in
          mret (<[agtr := Slot round b norm count rs]> st, (with_bitmap rv p4ml, agtr, entries), TM None 0 false 1)
      else
        let p4ml := with_recirc (wrap 8 (recirc_time p4ml + 1)) p4ml in
        mret (<[agtr := Slot round (bitmap s) norm count rs]> st, (p4ml, wrap 16 (agtr + 1), entries),
          match recirc_port (recirc_time p4ml) with
          | Some port => TM (Some port) 0 true 0
          | None => TM None 0 true 1
          end)
  else Undef.

(** ** [SwitchIngress], with the time stamp of the parser *)
Definition SwitchIngress (tstamp : Z) (st : regs) (h : switch_header_t) : cres (regs * switch_header_t * tm_md) :=
  match p4ml h, p4ml_agtr_index h, p4ml_entries h with
  | Some p, Some agtr, Some entries =>
      let p := if decide (recirc_time p = 0) then with_ingress tstamp p else p in
      '(st, (p, agtr, entries), tm) ← AppIdSeq (dst_addr (ethernet h)) st (p, agtr, entries);
      mret (st, Header (ethernet h) (ipv4 h) (udp h) (Some p) (Some agtr) (p4ml_bg h) (Some entries), tm)
  | Some _, _, _ => Undef
  | None, _, _ =>
      if decide (ether_type (ethernet h) = 0x0d00) then mret (st, h, TM None 1 false 0)
      else match main_dmac (dst_addr (ethernet h)) with
           | Some port => mret (st, h, TM (Some port) 0 true 0)
           | None => mret (st, h, TM None 0 false 1)
           end
  end.

(** ** The ingress pipeline

    What becomes of the packet: it is dropped, goes out of one port, past the egress
    pipeline or through it, or to a multicast group. A packet too short for its
    headers is dropped. *)
Inductive fate := Drop | Unicast (port : Z) (bypass : bool) | Multicast (grp : Z).
Definition fate_of (tm : tm_md) : fate :=
  if decide (drop_ctl tm ≠ 0) then Drop
  else if decide (mcast_grp_a tm ≠ 0) then Multicast (mcast_grp_a tm)
  else match ucast_egress_port tm with Some port => Unicast port (bypass_egress tm) | None => Drop end.

Definition ingress (tstamp : Z) (st : regs) (pkt : list bool) : cres (regs * list bool * fate) :=
  match SwitchIngressParser pkt with
  | None => mret (st, pkt, Drop)
  | Some (h, payload) =>
      '(st, h, tm) ← SwitchIngress tstamp st h;
      mret (st, SwitchIngressDeparser h ++ payload, fate_of tm)
  end.

(** A packet that is sent to a port that loops back comes in again; [n] passes at
    most. *)
Fixpoint passes (n : nat) (tstamp : Z) (st : regs) (pkt : list bool) : cres (regs * list bool * fate) :=
  match n with
  | O => OutOfFuel
  | S n' =>
      '(st, pkt, f) ← ingress tstamp st pkt;
      match f with
      | Unicast port _ => if loopback port then passes n' tstamp st pkt else mret (st, pkt, f)
      | _ => mret (st, pkt, f)
      end
  end.
End tables.
End Switch.
