(* ===== verification/SwitchProofs.v ===== *)
(** * Aggregation in the switch

    Theorems: a round of packets to an aggregator, one of each worker, ends with one
    multicast packet that holds the sums and the largest norm; packets of earlier
    rounds change nothing and come back as zeros; rounds only grow, and counters stay
    within the number of workers; and three behaviours that limit this: packets are
    counted, not workers; a partial sum of -1 sticks; a packet that recirculates is
    added to four aggregators one after the other, with the sum of the last one. *)

From S2P Require Import Prelude BitIO Packet DpdkPkt Switch.

Module SwitchProofs.
Import BitIO Packet DpdkPkt Switch.

(** ** Lanes *)

Definition lanes (s : slot) : list Z := first <$> registers s.

Lemma sat_add_exact x y : - 2 ^ 31 ≤ x + y < 2 ^ 31 → sat_add x y = x + y.
Proof. unfold sat_add. lia. Qed.

Lemma low31_small x : 0 ≤ x < 2 ^ 31 - 1 → low31 x ≠ 0x7fffffff.
Proof. intros Hx. unfold low31. change 0x7fffffff with (Z.ones 31). rewrite Z.land_ones, Z.mod_small by lia. change (Z.ones 31) with (2 ^ 31 - 1). lia. Qed.

(** The first packet of a round is stored as it is. *)
Lemma process_first rs entries : length entries = length rs →
  (process_entries 1 rs entries).2 = entries ∧ first <$> (process_entries 1 rs entries).1 = entries ∧
  length (process_entries 1 rs entries).1 = length rs.
Proof.
  intros Hl. unfold process_entries. rewrite decide_True by done. cbn. rewrite length_zip_with. split_and!; [done| |lia].
  revert rs Hl. induction entries as [|x l IH]; intros [|y rs] [=]; cbn; [done|]. f_equal. by apply IH.
Qed.

(** The others are added, exactly if the sums are small enough. *)
Definition small (x : Z) : Prop := 0 ≤ x < 2 ^ 31 - 1.

Lemma process_next seen rs entries : seen ≠ 1 → length entries = length rs →
  Forall (λ x, 0 ≤ x) entries → Forall (λ v, 0 ≤ first v) rs → Forall small (zip_with Z.add (first <$> rs) entries) →
  (process_entries seen rs entries).2 = zip_with Z.add (first <$> rs) entries ∧
  first <$> (process_entries seen rs entries).1 = zip_with Z.add (first <$> rs) entries ∧
  length (process_entries seen rs entries).1 = length rs.
Proof.
  intros Hs Hl He Hr Hz. unfold process_entries. rewrite decide_False by done. cbn.
  rewrite length_fmap, length_zip_with. rewrite <-list_fmap_compose.
  cut (snd <$> zip_with noequ0_write_read_data_entry entries rs = zip_with Z.add (first <$> rs) entries ∧
       (first ∘ fst) <$> zip_with noequ0_write_read_data_entry entries rs = zip_with Z.add (first <$> rs) entries).
  { intros [-> ->]. split_and!; [done..|lia]. }
  revert rs Hl Hr Hz. induction He as [|x l Hx _ IH]; intros [|y rs] Hl Hr Hz; try done. simpl in Hl.
  apply Forall_cons in Hr as [Hy Hr]. cbn in Hz. apply Forall_cons in Hz as [Hz1 Hz].
  destruct (IH rs) as [E1 E2]; [lia|done..|]. cbn. rewrite E1, E2. unfold noequ0_write_read_data_entry, small in *.
  rewrite decide_True by (apply low31_small; lia). cbn. rewrite sat_add_exact by lia. done.
Qed.

Section rounds.
Context (route_dmac recirc_port : Z → option Z) (dst : Z).
Notation AppIdSeq := (Switch.AppIdSeq route_dmac recirc_port dst).

(** Packets to one aggregator, one after the other, with what comes out. *)
Fixpoint run (agtr : Z) (st : regs) (ps : list (p4ml_h * entry_h)) : cres (regs * list (fields * tm_md)) :=
  match ps with
  | [] => mret (st, [])
  | (h, e) :: ps' =>
      '(st, f, tm) ← AppIdSeq st (h, agtr, e);
      '(st, outs) ← run agtr st ps';
      mret (st, (f, tm) :: outs)
  end.

(** A worker's gradients in their pass number [c], for round [r] of [W] workers. *)
Record gradient (c r W : Z) (p : p4ml_h * entry_h) : Prop := {
  gr_recirc : recirc_time p.1 = c; gr_type : packet_type p.1 = 0; gr_round : roundNum p.1 = r;
  gr_workers : num_worker p.1 = W; gr_norm : 0 ≤ p_norm_info p.1;
  gr_length : length p.2 = entry_count; gr_nonneg : Forall (λ x, 0 ≤ x) p.2
}.
Definition max_norm (ps : list (p4ml_h * entry_h)) : Z := foldr (λ p m, Z.max (p_norm_info p.1) m) 0 ps.

(** The aggregator before round [r]: in an earlier round, or not used. *)
Definition starts (s : slot) (r : Z) : Prop :=
  length (registers s) = entry_count ∧
  (roundNumbers s < r ∨ roundNumbers s = r ∧ receive_count s = 0 ∧ norm_info s = 0).
(** And in it, with the packets so far. *)
Definition in_round (s : slot) (r : Z) (ps : list (p4ml_h * entry_h)) : Prop :=
  match ps with
  | [] => starts s r
  | _ => length (registers s) = entry_count ∧ roundNumbers s = r ∧ receive_count s = Z.of_nat (length ps) ∧
         lanes s = total entry_count ps.*2 ∧ norm_info s = max_norm ps
  end.

(** What is done with the packet that is the [n]-th of [W]. *)
Definition verdict (n W : Z) : tm_md := if decide (n = W) then TM None 1 false 0 else TM None 0 false 1.
Definition again (c : Z) : tm_md := match recirc_port c with Some port => TM (Some port) 0 true 0 | None => TM None 0 true 1 end.

(** What leaves the control in pass [c]. *)
Definition leaves (c agtr seen W : Z) (h : p4ml_h) (e : entry_h) : fields * tm_md :=
  if decide (c = 3) then ((h, agtr, e), verdict seen W)
  else ((with_recirc (wrap 8 (c + 1)) h, wrap 16 (agtr + 1), e), again (wrap 8 (c + 1))).

Lemma max_norm_snoc ps p : 0 ≤ p_norm_info p.1 → max_norm (ps ++ [p]) = Z.max (max_norm ps) (p_norm_info p.1).
Proof. intros Hp. unfold max_norm. induction ps; cbn; lia. Qed.

(** The control on a packet whose round is not over. *)
Definition lanes_after (seen : Z) (s : slot) (h : p4ml_h) (e : entry_h) : list pair_t * entry_h :=
  if decide (packet_type h = 0) then process_entries seen (registers s) e else (registers s, e).

Lemma accepted st agtr h e round m count seen norm rv :
  let s := slot_at st agtr in
  let rs := lanes_after seen s h e in
  let b := if decide (recirc_time h = 3) then if decide (seen = num_worker h) then 0 else Z.lor (bitmap s) (p_bitmap h)
           else bitmap s in
  0 ≤ agtr < total_aggregator_cnt →
  normal_check_roundNum (roundNum h) (roundNumbers s) = (round, m) → m ≠ 0 →
  (if decide (m = 2) then (reset_check_count (receive_count s), set_norm (p_norm_info h) (norm_info s))
   else (normal_incr_check_count (num_worker h) (receive_count s), update_norm (p_norm_info h) (norm_info s)))
    = ((count, seen), (norm, rv)) →
  ∃ h', let out := leaves (recirc_time h) agtr seen (num_worker h) h' rs.2 in
    AppIdSeq st (h, agtr, e) = Done (<[agtr := Slot round b norm count rs.1]> st, out.1, out.2) ∧
    roundNum h' = roundNum h ∧ p_norm_info h' = rv ∧ packet_type h' = packet_type h ∧ num_worker h' = num_worker h ∧
    recirc_time h' = recirc_time h.
Proof.
  intros s rs b Ha Er Hm E. unfold Switch.AppIdSeq. rewrite decide_True by done. fold s. rewrite Er.
  rewrite decide_False, E by done. cbn [packet_type with_norm]. fold (lanes_after seen s h e). fold rs.
  destruct rs as [rs' e'] eqn:Ep. cbn. subst b. unfold leaves.
  destruct (decide (recirc_time h = 3)) as [Hc|Hc].
  - unfold verdict. destruct (decide (seen = num_worker h)); eexists (with_bitmap _ (with_norm rv h)); split; try done.
  - exists (with_norm rv h). done.
Qed.

Lemma lanes_nonneg s (ps : list (p4ml_h * entry_h)) : lanes s = total entry_count ps.*2 → Forall (Forall (λ x, 0 ≤ x)) ps.*2 →
  Forall (λ v, 0 ≤ first v) (registers s).
Proof.
  intros Hl Hps. change (Forall ((λ x, 0 ≤ x) ∘ first) (registers s)). rewrite <-Forall_fmap.
  fold (lanes s). rewrite Hl. unfold total.
  apply Forall_fmap, Forall_true. intros i. by apply lane_sum_nonneg.
Qed.

Lemma round_packet c r W st agtr (ps : list (p4ml_h * entry_h)) (p : p4ml_h * entry_h) :
  let s := slot_at st agtr in
  let sums := total entry_count (ps ++ [p]).*2 in
  0 ≤ agtr < total_aggregator_cnt → 0 < W < 256 → in_round s r ps → Z.of_nat (length ps) < W →
  gradient c r W p → Forall (λ p, Forall (λ x, 0 ≤ x) p.2) ps → Forall small sums →
  ∃ s' h, let out := leaves c agtr (Z.of_nat (length (ps ++ [p]))) W h sums in
    AppIdSeq st (p.1, agtr, p.2) = Done (<[agtr := s']> st, out.1, out.2) ∧
    in_round s' r (ps ++ [p]) ∧ gradient c r W (h, sums) ∧ p_norm_info h = max_norm (ps ++ [p]).
Proof.
  intros s sums Ha HW Hs Hl Hp Hps Hsmall. destruct p as [h e], Hp as [Hc Ht Hr Hn Hnorm Hle Hnn]. cbv zeta. cbn [fst snd] in *.
  assert (length sums = entry_count) as Hsl by apply length_total.
  assert (Forall (λ x, 0 ≤ x) sums) as Hsn by (eapply Forall_impl; [exact Hsmall|]; unfold small; lia).
  destruct ps as [|q ps].
  - destruct Hs as (Hlen & Hs). destruct (process_first (registers s) e) as (E1 & E2 & E3); [congruence|].
    assert (∃ m, normal_check_roundNum (roundNum h) (roundNumbers s) = (r, m) ∧ m ≠ 0 ∧
      (if decide (m = 2) then (reset_check_count (receive_count s), set_norm (p_norm_info h) (norm_info s))
       else (normal_incr_check_count (num_worker h) (receive_count s), update_norm (p_norm_info h) (norm_info s)))
      = ((1, 1), (p_norm_info h, p_norm_info h))) as (m & Er & Hm & E).
    { unfold normal_check_roundNum. rewrite Hr. destruct Hs as [Hs|(Hs & Hcnt & Hno)].
      - exists 2. rewrite !decide_False by lia. done.
      - exists 1. rewrite decide_False, decide_True, Hs by lia. split_and!; [done..|]. rewrite decide_False by done.
        unfold normal_incr_check_count, update_norm. rewrite Hcnt, Hno, decide_False by lia.
        replace (if decide _ then _ else _) with (p_norm_info h) by (case_decide; lia). done. }
    destruct (accepted st agtr h e r m 1 1 _ _ Ha Er Hm E) as (h' & EA & Hh). cbv zeta in EA. rewrite EA. fold s.
    unfold lanes_after. rewrite (decide_True (P:=packet_type h = 0)) by done.
    assert (sums = e) as Et by (by apply total_one). rewrite Et in *.
    rewrite Hn, E1, Hc. eexists _, h'. split; [done|]. cbn -[total]. unfold lanes. cbn -[total].
    rewrite (total_one _ e) by done. destruct Hh as (Hh1 & Hh2 & Hh3 & Hh4 & Hh5).
    split_and!; try done; try congruence; try lia; split; cbn; try done; congruence.
  - destruct Hs as (Hlen & Hro & Hcnt & Hla & Hno).
    assert (normal_check_roundNum (roundNum h) (roundNumbers s) = (r, 1)) as Er.
    { unfold normal_check_roundNum. rewrite Hr, Hro, decide_False, decide_True by lia. done. }
    set (n := Z.of_nat (length ((q :: ps) ++ [(h, e)]))).
    assert (n = Z.of_nat (length (q :: ps)) + 1) as Hnn' by (unfold n; rewrite length_app; cbn; lia).
    set (mx := max_norm ((q :: ps) ++ [(h, e)])).
    assert (mx = Z.max (max_norm (q :: ps)) (p_norm_info h)) as Hmx by (unfold mx; by rewrite max_norm_snoc).
    destruct (accepted st agtr h e r 1 n n mx mx Ha Er ltac:(done)) as (h' & EA & Hh).
    { rewrite decide_False by done. fold s. unfold normal_incr_check_count, update_norm. rewrite Hn, Hcnt, decide_False by lia.
      unfold wrap. rewrite Z.mod_small by lia. rewrite Hno, <-Hnn'. do 2 f_equal; case_decide; lia. }
    cbv zeta in EA. rewrite EA. fold s. unfold lanes_after. rewrite (decide_True (P:=packet_type h = 0)) by done.
    assert (zip_with Z.add (lanes s) e = sums) as Hz by (rewrite Hla, total_snoc by done; by rewrite <-(fmap_app snd _ [(h, e)])).
    destruct (process_next n (registers s) e) as (E1 & E2 & E3).
    { cbn [length] in Hnn'. lia. } { congruence. } { done. }
    { eapply lanes_nonneg; [exact Hla|]. by apply Forall_fmap. }
    { fold (lanes s). by rewrite Hz. }
    fold (lanes s) in E1, E2. rewrite Hz in E1, E2. rewrite Hn, E1, Hc. eexists _, h'. split; [done|].
    destruct Hh as (Hh1 & Hh2 & Hh3 & Hh4 & Hh5).
    split_and!; [by cbn; split_and!; try congruence|split; cbn; try done; try congruence|congruence].
    rewrite Hh2. lia.
Qed.
(** ** Rounds *)

Lemma total_small (a b : list (list Z)) : Forall (Forall (λ x, 0 ≤ x)) a → Forall (Forall (λ x, 0 ≤ x)) b →
  Forall small (total entry_count (a ++ b)) → Forall small (total entry_count a).
Proof.
  intros Ha Hb. unfold total. rewrite !Forall_fmap. intros H. eapply Forall_impl; [exact H|]. intros i. unfold small, compose.
  rewrite lane_sum_app. pose proof (lane_sum_nonneg a i Ha). pose proof (lane_sum_nonneg b i Hb). lia.
Qed.

Lemma gradients_nonneg c r W ps : Forall (gradient c r W) ps → Forall (Forall (λ x, 0 ≤ x)) ps.*2.
Proof. intros H. apply Forall_fmap. eapply Forall_impl; [exact H|]. intros p Hp. apply Hp. Qed.

Lemma slot_at_insert st agtr s a : slot_at (<[agtr:=s]> st) a = if decide (a = agtr) then s else slot_at st a.
Proof. unfold slot_at. case_decide; [subst; by rewrite lookup_insert_eq|by rewrite lookup_insert_ne]. Qed.

(** What leaves the control when the packets [ps] of a round come after those of [acc]. *)
Definition leaving (c r W agtr : Z) (acc ps : list (p4ml_h * entry_h)) (outs : list (fields * tm_md)) : Prop :=
  length outs = length ps ∧ ∀ i, (i < length ps)%nat →
    let qs := acc ++ take (S i) ps in
    ∃ h, outs !! i = Some (leaves c agtr (Z.of_nat (length qs)) W h (total entry_count qs.*2)) ∧
      gradient c r W (h, total entry_count qs.*2) ∧ p_norm_info h = max_norm qs.

Lemma run_rounds c r W agtr ps acc st :
  0 ≤ agtr < total_aggregator_cnt → 0 < W < 256 → in_round (slot_at st agtr) r acc →
  Z.of_nat (length (acc ++ ps)) ≤ W → Forall (gradient c r W) (acc ++ ps) →
  Forall small (total entry_count (acc ++ ps).*2) →
  ∃ st' outs, run agtr st ps = Done (st', outs) ∧ leaving c r W agtr acc ps outs ∧
    in_round (slot_at st' agtr) r (acc ++ ps) ∧ ∀ a, a ≠ agtr → slot_at st' a = slot_at st a.
Proof.
  intros Ha HW. revert acc st. induction ps as [|p ps IH]; intros acc st Hin Hl Hg Hsm.
  { exists st, []. rewrite app_nil_r. split_and!; [done| |done..]. split; [done|]. intros i Hi. simpl in Hi. lia. }
  replace (acc ++ p :: ps) with ((acc ++ [p]) ++ ps) in * by (by rewrite <-app_assoc).
  pose proof Hg as ((Hacc & Hps1)%Forall_app & Hps)%Forall_app.
  pose proof (Forall_inv Hps1) as Hp.
  assert (Forall small (total entry_count (acc ++ [p]).*2)) as Hsm'.
  { rewrite fmap_app in Hsm. eapply total_small; [| |exact Hsm]; eapply gradients_nonneg; [|exact Hps].
    apply Forall_app_2; [exact Hacc|exact Hps1]. }
  destruct (round_packet c r W st agtr acc p Ha HW Hin) as (s' & h & EA & Hs' & Hh & Hn); [..|done|].
  { rewrite !length_app in Hl. cbn in Hl. lia. }
  { done. }
  { eapply Forall_impl; [exact Hacc|]. intros q Hq. by eapply gr_nonneg. }
  destruct p as [hp ep]. cbn [run]. cbn [fst snd] in EA. rewrite EA. unfold mbind, cres_bind.
  destruct (IH (acc ++ [(hp, ep)]) (<[agtr:=s']> st)) as (st' & outs & Er & [Hlo Hout] & H3 & H4); try done.
  { by rewrite slot_at_insert, decide_True. }
  rewrite Er. eexists st', (_ :: outs). split; [done|]. split; [|split; [done|]].
  - split; [cbn; lia|]. intros [|i] Hi; [exists h; cbn [take lookup list_lookup]; rewrite take_0; split_and!; [f_equal; by rewrite <-surjective_pairing|done..]|]. cbn [length] in Hi.
    destruct (Hout i) as (h' & E & Hg' & Hn'); [lia|]. exists h'. cbn [take lookup list_lookup].
    replace (acc ++ (hp, ep) :: take (S i) ps) with ((acc ++ [(hp, ep)]) ++ take (S i) ps) by (by rewrite <-app_assoc). done.
  - intros a Hna. rewrite H4, slot_at_insert, decide_False; done.
Qed.

(** C6: A round at one aggregator, in which [W] workers take part ([0 < W < 256]), each with one packet of
    gradients of the same pass [c] (the value of [recirc_time]) and of the same round; the
    aggregator is unused or in an earlier round, the entries are not negative and their sums stay below
    [2^31 - 1], the value at which a lane is taken for saturated. The [n]-th packet leaves with the sums of
    the first [n] packets in its lanes and the largest of their norms. In the last pass ([c = 3]) the packets
    are dropped up to the [W]-th, which goes to all workers: it holds the sums of the whole
    round. In the other passes every packet recirculates, with these sums, to the next aggregator (so over four passes the sums
    are summed again). The aggregator is then ready for any later round, and no other aggregator changes. *)
Theorem switch_aggregates c r W agtr ps st :
  0 ≤ agtr < total_aggregator_cnt → 0 < W < 256 → starts (slot_at st agtr) r →
  Z.of_nat (length ps) = W → Forall (gradient c r W) ps → Forall small (total entry_count ps.*2) →
  ∃ st' outs, run agtr st ps = Done (st', outs) ∧ length outs = length ps ∧
    (∀ i, (i < length ps)%nat → ∃ h, let sums := total entry_count (take (S i) ps).*2 in
       outs !! i = Some (if decide (c = 3) then
           ((h, agtr, sums), if decide (S i = length ps) then TM None 1 false 0 else TM None 0 false 1)
         else ((with_recirc (wrap 8 (c + 1)) h, wrap 16 (agtr + 1), sums), again (wrap 8 (c + 1)))) ∧
       roundNum h = r ∧ num_worker h = W ∧ p_norm_info h = max_norm (take (S i) ps)) ∧
    (∀ r', r < r' → starts (slot_at st' agtr) r') ∧ ∀ a, a ≠ agtr → slot_at st' a = slot_at st a.
Proof.
  intros Ha HW Hst Hl Hg Hsm.
  destruct (run_rounds c r W agtr ps [] st) as (st' & outs & E & [H1 H2] & H3 & H4); try done; [cbn; lia|].
  exists st', outs. split_and!; try done.
  - intros i Hi. destruct (H2 i Hi) as (h & Eo & Hgr & Hn). cbn [app] in *. exists h. cbv zeta.
    split; [|split_and!; [apply Hgr|apply Hgr|done]]. etrans; [exact Eo|]. f_equal. unfold leaves, verdict. case_decide; [|done].
    f_equal. rewrite length_take. repeat case_decide; done || lia.
  - intros r' Hr'. destruct ps; [simpl in Hl; lia|].
    destruct H3 as (Hlen & Hro & _). split; [done|]. left. cbn in *. lia.
Qed.

(** ** Any traffic *)

(** A packet of an earlier round changes no register; it goes to the port of its
    destination, with all values and the round 0. *)
Theorem stale_packet st h agtr e :
  0 ≤ agtr < total_aggregator_cnt → roundNum h < roundNumbers (slot_at st agtr) →
  AppIdSeq st (h, agtr, e) = Done (st, (with_round 0 h, agtr, match route_dmac dst with Some _ => (λ _, 0) <$> e | None => e end),
    TM (Some (default 176 (route_dmac dst))) 0 false 0).
Proof.
  intros Ha Hr. unfold Switch.AppIdSeq. rewrite decide_True by done. unfold normal_check_roundNum.
  rewrite decide_True by lia. rewrite decide_True by done. unfold Route. by destruct (route_dmac dst).
Qed.

(** The counters of the aggregators. *)
Definition counters_ok (W : Z) (st : regs) : Prop := ∀ a, 0 ≤ receive_count (slot_at st a) ≤ W.

(** C17: Whatever the packet, the round of an aggregator never decreases, and its counter stays a number
    of 8 bits. If the packet names a number [W] of workers, [0 < W < 256], and no counter is above [W],
    then none is afterwards. *)
Theorem registers_inv st f st' f' tm :
  AppIdSeq st f = Done (st', f', tm) →
  (∀ a, roundNumbers (slot_at st a) ≤ roundNumbers (slot_at st' a)) ∧
  (counters_ok 255 st → counters_ok 255 st') ∧
  ∀ W, 0 < W < 256 → num_worker f.1.1 = W → counters_ok W st → counters_ok W st'.
Proof.
  destruct f as [[h agtr] e]. unfold Switch.AppIdSeq, mret, cres_ret. cbn [fst snd].
  case_decide; [|done]. destruct (normal_check_roundNum _ _) as [round m] eqn:Er.
  destruct (decide (m = 0)); [unfold Route; destruct (route_dmac dst); by intros [= <- _ _]|].
  destruct (if decide (m = 2) then _ else _) as [[count seen] [norm rv]] eqn:E.
  assert (roundNumbers (slot_at st agtr) ≤ round) as Hround.
  { unfold normal_check_roundNum in Er. repeat case_decide; simplify_eq; lia. }
  assert (0 ≤ count ≤ 255 ∧ ∀ W, 0 < W < 256 → num_worker h = W → counters_ok W st → 0 ≤ count ≤ W) as [Hbyte Hcount].
  { unfold reset_check_count, normal_incr_check_count in E. pose proof (wrap_bound 8 (receive_count (slot_at st agtr) + 1)).
    split; [repeat case_decide; simplify_eq; lia|]. intros W HW Hn Hc. specialize (Hc agtr).
    repeat case_decide; simplify_eq; try lia. unfold wrap. rewrite Z.mod_small by lia. lia. }
  assert (∀ b rs, let st2 := <[agtr:=Slot round b norm count rs]> st in
    (∀ a, roundNumbers (slot_at st a) ≤ roundNumbers (slot_at st2 a)) ∧ (counters_ok 255 st → counters_ok 255 st2) ∧
    ∀ W, 0 < W < 256 → num_worker h = W → counters_ok W st → counters_ok W st2) as Hok.
  { intros b rs st2. unfold st2. split; [|split].
    - intros a. rewrite slot_at_insert. by destruct (decide (a = agtr)) as [->|].
    - intros Hc a. rewrite slot_at_insert. destruct (decide (a = agtr)) as [->|]; [done|apply Hc].
    - intros W HW Hn Hc a. rewrite slot_at_insert. destruct (decide (a = agtr)) as [->|]; [by apply Hcount|apply Hc]. }
  destruct (if decide (packet_type _ = 0) then _ else _) as [rs e'].
  repeat case_decide; intros [= <- _ _]; apply Hok.
Qed.

(** ** Recirculation *)

(** The passes of a packet through the control: it comes again as long as it is sent
    to a port, [n] times more at most. *)
Fixpoint recirculate (n : nat) (st : regs) (f : fields) : cres (regs * fields * tm_md) :=
  '(st, f, tm) ← AppIdSeq st f;
  match n, ucast_egress_port tm with
  | S n', Some _ => recirculate n' st f
  | _, _ => mret (st, f, tm)
  end.

Context (Hport : ∀ c, 1 ≤ c ≤ 3 → recirc_port c ≠ None).

Lemma gradient_recirc c c' r W h e : gradient c r W (h, e) → gradient c' r W (with_recirc c' h, e).
Proof. intros []. by split. Qed.

Lemma total_two e0 e : length e0 = entry_count → length e = entry_count → total entry_count [e0; e] = zip_with Z.add e0 e.
Proof. intros H0 He. change [e0; e] with ([e0] ++ [e]). by rewrite <-total_snoc, total_one. Qed.

(** A pass that is not the last. *)
Lemma leaves_again c agtr n W h e : 0 ≤ c < 3 → 0 ≤ agtr < total_aggregator_cnt →
  (leaves c agtr n W h e).1 = (with_recirc (c + 1) h, agtr + 1, e) ∧
  ∃ port, ucast_egress_port (leaves c agtr n W h e).2 = Some port.
Proof.
  intros Hc Ha. unfold leaves, total_aggregator_cnt in *. rewrite decide_False by lia. unfold wrap.
  rewrite !Z.mod_small by lia. split; [done|]. cbn. unfold again. specialize (Hport (c + 1)).
  destruct (recirc_port (c + 1)) as [port|]; [by exists port|]. by destruct Hport; [lia|].
Qed.

Lemma first_passes r W n c agtr st h e :
  c + Z.of_nat n = 3 → 0 ≤ c → 0 ≤ agtr → agtr + Z.of_nat n < total_aggregator_cnt → 1 < W < 256 →
  gradient c r W (h, e) → Forall small e → (∀ i, 0 ≤ i ≤ Z.of_nat n → starts (slot_at st (agtr + i)) r) →
  ∃ st' f, recirculate n st (h, agtr, e) = Done (st', f, TM None 0 false 1) ∧
    (∀ i, 0 ≤ i ≤ Z.of_nat n → ∃ h', in_round (slot_at st' (agtr + i)) r [(h', e)]) ∧
    ∀ a, a < agtr → slot_at st' a = slot_at st a.
Proof.
  revert c agtr st h. induction n as [|n IH]; intros c agtr st h Hc H0 Ha Hn HW Hg Hsm Hst;
    (destruct (round_packet c r W st agtr [] (h, e)) as (s' & h' & EA & Hin & Hg' & _);
     [lia|lia|by rewrite <-(Z.add_0_r agtr); apply Hst; lia|cbn; lia|done|done|
      change (([] ++ [(h, e)]).*2) with [e]; by rewrite total_one by apply Hg|]);
    change (([] ++ [(h, e)]).*2) with [e] in *; rewrite total_one in EA, Hg' by apply Hg; cbn [fst snd] in EA;
    cbn [recirculate]; rewrite EA; unfold mbind, cres_bind.
  - unfold leaves. rewrite decide_True by lia. unfold verdict. rewrite decide_False by (cbn; lia).
    eexists _, _. split; [done|]. split; [|intros a Hlt; rewrite slot_at_insert, decide_False by lia; done].
    intros i Hi. exists h. replace (agtr + i) with agtr by lia. by rewrite slot_at_insert, decide_True.
  - destruct (leaves_again c agtr (Z.of_nat (length ([] ++ [(h, e)]))) W h' e) as [-> [port ->]]; [lia..|].
    destruct (IH (c + 1) (agtr + 1) (<[agtr:=s']> st) (with_recirc (c + 1) h')) as (st' & f & E & Hs & Ho);
      [lia..| |done| |].
    { by eapply gradient_recirc. }
    { intros i Hi. rewrite slot_at_insert, decide_False by lia. rewrite <-Z.add_assoc. apply Hst. lia. }
    exists st', f. split; [done|]. split.
    + intros i Hi. destruct (decide (i = 0)) as [->|].
      * exists h. rewrite Z.add_0_r, Ho, slot_at_insert, decide_True by lia. done.
      * destruct (Hs (i - 1)) as [h2 H2]; [lia|]. exists h2. by replace (agtr + i) with (agtr + 1 + (i - 1)) by lia.
    + intros a Hlt. rewrite Ho, slot_at_insert, decide_False by lia. done.
Qed.

(** [n * x + y] in each lane. *)
Definition times_plus (n : nat) (e0 e : list Z) : list Z := zip_with (λ x y, Z.of_nat n * x + y) e0 e.

Lemma times_plus_S n e0 e : length e0 = length e → times_plus n e0 (zip_with Z.add e0 e) = times_plus (S n) e0 e.
Proof.
  revert e. unfold times_plus. induction e0 as [|x e0 IH]; intros [|y e] [=]; cbn; [done|]. rewrite IH by done. f_equal. lia.
Qed.

Lemma times_plus_1 e0 e : times_plus 1 e0 e = zip_with Z.add e0 e.
Proof. unfold times_plus. apply zip_with_ext; [|done..]. intros x y. lia. Qed.

Lemma times_plus_small n e0 e : Forall (λ x, 0 ≤ x) e0 → Forall (λ x, 0 ≤ x) e → length e0 = length e →
  Forall small (times_plus (S n) e0 e) → Forall small (zip_with Z.add e0 e).
Proof.
  unfold times_plus. intros H0. revert e. induction H0 as [|x e0 Hx _ IH]; intros [|y e] He; try done; cbn.
  apply Forall_cons in He as [Hy He]. intros [=] [Hs Hr]%Forall_cons. constructor; [|by apply IH].
  unfold small in *. nia.
Qed.

Lemma second_passes r n c agtr st h e0 e :
  c + Z.of_nat n = 3 → 0 ≤ c → 0 ≤ agtr → agtr + Z.of_nat n < total_aggregator_cnt →
  gradient c r 2 (h, e) → length e0 = entry_count → Forall (λ x, 0 ≤ x) e0 → Forall small (times_plus (S n) e0 e) →
  (∀ i, 0 ≤ i ≤ Z.of_nat n → ∃ h0, in_round (slot_at st (agtr + i)) r [(h0, e0)]) →
  ∃ st' h', recirculate n st (h, agtr, e)
    = Done (st', (h', agtr + Z.of_nat n, times_plus (S n) e0 e), TM None 1 false 0).
Proof.
  revert c agtr st h e. induction n as [|n IH]; intros c agtr st h e Hc H0 Ha Hn Hg Hl0 Hp0 Hsm Hst;
    (destruct (Hst 0) as [h0 Hs0]; [lia|]; rewrite Z.add_0_r in Hs0;
     assert (length e = entry_count) as Hle by apply Hg;
     pose proof (times_plus_small _ _ _ Hp0 (gr_nonneg _ _ _ _ Hg) ltac:(cbn; congruence) Hsm) as Hz;
     destruct (round_packet c r 2 st agtr [(h0, e0)] (h, e)) as (s' & h' & EA & Hin & Hg' & _);
     [lia|lia|done|cbn; lia|done|by constructor|
      change (([(h0, e0)] ++ [(h, e)]).*2) with [e0; e]; by rewrite total_two by done|]);
    change (([(h0, e0)] ++ [(h, e)]).*2) with [e0; e] in *; rewrite total_two in EA, Hg' by done;
    cbn [fst snd] in EA; cbn [recirculate]; rewrite EA; unfold mbind, cres_bind.
  - unfold leaves. rewrite decide_True by lia. unfold verdict. rewrite decide_True by done.
    eexists _, h'. by rewrite Z.add_0_r, times_plus_1.
  - edestruct (leaves_again c agtr) as [-> [port ->]]; [lia..|].
    destruct (IH (c + 1) (agtr + 1) (<[agtr:=s']> st) (with_recirc (c + 1) h') (zip_with Z.add e0 e)) as (st' & h2 & E);
      [lia..| |done|done| | |].
    { by eapply gradient_recirc. }
    { by rewrite times_plus_S by congruence. }
    { intros i Hi. destruct (Hst (i + 1)) as [h3 H3]; [lia|]. exists h3. rewrite slot_at_insert, decide_False by lia.
      by replace (agtr + 1 + i) with (agtr + (i + 1)) by lia. }
    exists st', h2. rewrite E, times_plus_S by congruence.
    by replace (agtr + Z.of_nat (S n)) with (agtr + 1 + Z.of_nat n) by lia.
Qed.

(** C16: A packet that goes through the pipeline four times carries the same 64 values
    each time, as the parser reads them from the same place: they are added to four
    aggregators in turn, and what comes out of one goes into the next. Of two workers
    the second one's packet returns four times the first one's values plus its own,
    which is the sum only where the first one's are 0. *)
Theorem recirculation_recounts r agtr st h0 h1 e0 e1 :
  0 ≤ agtr → agtr + 3 < total_aggregator_cnt → (∀ i, 0 ≤ i ≤ 3 → starts (slot_at st (agtr + i)) r) →
  gradient 0 r 2 (h0, e0) → gradient 0 r 2 (h1, e1) → Forall small (times_plus 4 e0 e1) → Forall small e0 →
  ∃ st1 f st2 h, recirculate 3 st (h0, agtr, e0) = Done (st1, f, TM None 0 false 1) ∧
    recirculate 3 st1 (h1, agtr, e1) = Done (st2, (h, agtr + 3, times_plus 4 e0 e1), TM None 1 false 0).
Proof.
  intros Ha Hn Hst H0 H1 Hsm Hs0.
  destruct (first_passes r 2 3 0 agtr st h0 e0) as (st1 & f & E1 & Hs1 & _); [done|lia..|done|done|done|].
  destruct (second_passes r 3 0 agtr st1 h1 e0 e1) as (st2 & h & E2);
    [done|lia|lia|lia|done|apply H0|apply H0|done|done|].
  by exists st1, f, st2, h.
Qed.
End rounds.

(** ** Saturation

    A lane whose 31 low bits are all ones is taken for saturated. That is so of the
    largest number, and of -1: a partial sum of -1 ignores all that follows. *)
Theorem minus_one_sticks data y : noequ0_write_read_data_entry data (Pair (-1) y) = (Pair (-1) y, -1).
Proof. done. Qed.
End SwitchProofs.
