(* ===== verification/SoftPS.v ===== *)
(** * The software server, [byteps/common/dpdk/server]

    [ParameterServer.h] and [ParameterServer.cc]: a server that does in software what
    the switch does, with arrays in the place of the registers. The receiving
    thread handles one packet at a time; the reply of a round goes to the switch,
    which sends it to all workers. *)

From S2P Require Import Prelude BitIO Packet DpdkPkt.

Module SoftPS.
Import BitIO Packet DpdkPkt.

Definition TOTAL_AGTR_CNT : Z := 3000.

(** ** The arrays

    An element of each: [roundNumbers], [bitmap], [norm_info], [receive_count] and the
    column of [data_slots]; and the flag [should_shutdown]. *)
Record ps_slot : Type := PsSlot {
  ps_round : Z; ps_bitmap : Z; ps_norm : Z; ps_count : Z; data_slots : list Z
}.
Record ps : Type := Ps { ps_slots : gmap Z ps_slot; should_shutdown : bool }.
Definition zero_slot : ps_slot := PsSlot 0 0 0 0 (replicate MAX_ENTRIES_PER_PACKET 0).
Definition ps_at (st : gmap Z ps_slot) (agtr : Z) : ps_slot := default zero_slot (st !! agtr).
Definition ps_init : ps := Ps ∅ false.

Section ps.
(** [NUM_WORKER], and what is in the memory of a local variable before it is
    written. *)
Context (NUM_WORKER : Z) (junk : bool).

(** ** [process_data]: the words of the vector, as the machine reads them. *)
Definition process_data (count : Z) (data : list Z) (h : p4mlhdr) : list Z :=
  let vector := quads le_word (m_vector h) in
  if decide (count = 1) then vector else zip_with (λ x y, wrap 32 (x + y)) data vector.

(** ** [assemble_reply_p4ml_hdrs] and [broadcast_packet] *)
Definition assemble_reply_p4ml_hdrs (worker_id num_worker round_num : Z) (data : list Z) (max_norm agtr_index : Z) : p4mlhdr :=
  Hdr (wrap 32 (Z.shiftl 1 worker_id)) num_worker round_num 0 max_norm 0 7 agtr_index (data ≫= le_bytes).
Definition broadcast_packet (s : ps_slot) (msg : TestMessage) : TestMessage :=
  let h := p4ml_hdrs msg in
  Msg (assemble_reply_p4ml_hdrs 0 NUM_WORKER (m_roundNum h) (data_slots s) (ps_norm s) (m_agtr h))
    (m_key msg) (m_cmd msg) (m_len msg) junk.

(** ** [RxThread] on one packet with the Ethernet type [ether_type], in the receiving
    thread of the first queue; the reply it sends, if any. *)
Definition ps_receive (ether_type : Z) (msg : TestMessage) (st : ps) : cres (ps * option TestMessage) :=
  let h := p4ml_hdrs msg in
  if m_shutdown msg then mret (Ps (ps_slots st) true, None)
  else if decide ((m_cmd msg ≠ TENSOR_COMM ∧ m_cmd msg ≠ TENSOR_NORM ∧ m_cmd msg ≠ TENSOR_INIT) ∨ ether_type ≠ 0x0c00)
  then mret (st, None)
  else
    let agtr_idx := m_agtr h in
    if decide (0 ≤ agtr_idx < TOTAL_AGTR_CNT) then
      let s := ps_at (ps_slots st) agtr_idx in
      if decide (m_roundNum h < ps_round s) then mret (st, None)
      else
        let '(round, count, norm) :=
          if decide (m_roundNum h > ps_round s) then (m_roundNum h, 1, m_norm_info h)
          else (ps_round s,
                (if decide (ps_count s = m_num_worker h) then 1 else wrap 8 (ps_count s + 1)),
                (if decide (ps_norm s < m_norm_info h) then m_norm_info h else ps_norm s)) in
        let data := if decide (m_cmd msg = TENSOR_COMM) then process_data count (data_slots s) h else data_slots s in
        let '(b, reply) :=
          if decide (count = m_num_worker h) then (0, true) else (Z.lor (ps_bitmap s) (m_bitmap h), false) in
        let s := PsSlot round b norm count data in
        mret (Ps (<[agtr_idx := s]> (ps_slots st)) (should_shutdown st),
              if reply : bool then Some (broadcast_packet s msg) else None)
    else Undef.

(** A burst of packets: a shutdown ends the loop, and the rest is not looked at. *)
Fixpoint ps_burst (pkts : list (Z * TestMessage)) (st : ps) : cres (ps * list TestMessage) :=
  match pkts with
  | [] => mret (st, [])
  | (t, msg) :: pkts' =>
      '(st, reply) ← ps_receive t msg st;
      if should_shutdown st then mret (st, [])
      else '(st, replies) ← ps_burst pkts' st; mret (st, option_list reply ++ replies)
  end.
End ps.
End SoftPS.
