(* ===== verification/SoftPSProofs.v ===== *)
(** * The software server and the switch

    Theorems: the arrays of the software server follow the registers of the switch,
    packet by packet, and where the switch multicasts the server replies with the
    same round, norm and values; and rounds of the software server alone. *)

From S2P Require Import Prelude BitIO Packet DpdkPkt Switch SwitchProofs SoftPS.

Module SoftPSProofs.
Import BitIO Packet DpdkPkt Switch SwitchProofs SoftPS.

(** ** Vectors *)

Lemma take_zip_with {A B C} (f : A → B → C) n l l' : take n (zip_with f l l') = zip_with f (take n l) (take n l').
Proof. revert l l'. induction n as [|n IH]; intros [|x l] [|y l']; cbn; try done. by rewrite IH. Qed.

Lemma to_signed_small x : small (to_signed 32 x) → 0 ≤ x < 2 ^ 32 → to_signed 32 x = x.
Proof. unfold small, to_signed. change (Z.of_nat 32) with 32. case_decide; lia. Qed.

Lemma quads_nonneg f n l : (f = be_word ∨ f = le_word) → length l = (4 * n)%nat → Forall (λ x, 0 ≤ x) l →
  Forall (λ x, 0 ≤ x) (quads f l).
Proof.
  intros Hf. revert n l. apply (quads_ind (λ _ l, Forall _ l → Forall _ (quads f l))); [done|].
  intros n a b c d l _ IH. rewrite !Forall_cons. intros (Ha & Hb & Hc & Hd & Hl). cbn [quads]. constructor; [|by apply IH].
  destruct Hf; subst f; unfold le_word, be_word; lia.
Qed.

Lemma quads_bytes_bound n l : length l = (4 * n)%nat → Forall is_byte l → Forall (λ x, 0 ≤ x < 2 ^ 32) (quads be_word l).
Proof.
  revert n l. apply (quads_ind (λ _ l, Forall _ l → Forall _ (quads be_word l))); [done|].
  intros n a b c d l _ IH. rewrite !Forall_cons. intros (Ha & Hb & Hc & Hd & Hl). cbn [quads].
  constructor; [by apply be_word_bound|by apply IH].
Qed.

Lemma quads_wrap n l : length l = (4 * n)%nat → Forall is_byte l → wrap 32 <$> quads le_word l = quads le_word l.
Proof.
  revert n l. apply (quads_ind (λ _ l, Forall is_byte l → _)); [done|].
  intros n a b c d l _ IH. rewrite !Forall_cons. intros (Ha & Hb & Hc & Hd & Hl). cbn [quads fmap list_fmap].
  rewrite IH by done. f_equal. apply Z.mod_small. by apply be_word_bound.
Qed.

Lemma wrap_add_l w x y : wrap w (wrap w x + y) = wrap w (x + y).
Proof. unfold wrap. by rewrite Z.add_mod_idemp_l by lia. Qed.

Lemma wrapped_sum n s v : length s = (4 * n)%nat → length v = (4 * n)%nat →
  zip_with (λ x y, wrap 32 (x + y)) (wrap 32 <$> quads le_word s) (quads le_word v)
  = wrap 32 <$> quads le_word (zip_with Z.add s v).
Proof.
  intros Hs Hv. rewrite <-(quads_add le_word n) by tauto. generalize (quads le_word s) (quads le_word v).
  intros l l'. revert l'. induction l as [|x l IH]; intros [|y l']; cbn; try done.
  f_equal; [apply wrap_add_l|apply IH].
Qed.

Lemma signed_entries h : hdr_wf h → Forall small (parsed h).2 → (parsed h).2 = quads be_word (take 256 (m_vector h)).
Proof.
  intros Hh. cbn [parsed snd]. intros Hs. rewrite Forall_fmap in Hs. pose proof (wf_length _ Hh) as Hl. unfold MAX_ENTRIES_PER_PACKET in Hl.
  assert (Forall (λ x, 0 ≤ x < 2 ^ 32) (quads be_word (take 256 (m_vector h)))) as Hn.
  { apply (quads_bytes_bound 64); [rewrite length_take; lia|]. apply Forall_take, Hh. }
  revert Hs Hn. generalize (quads be_word (take 256 (m_vector h))). clear. intros l Hs.
  induction Hs as [|x l' Hx _ IH]; [done|]. intros [Hn1 Hn2]%Forall_cons. cbn. f_equal; [|by apply IH].
  by apply to_signed_small.
Qed.

(** ** The simulation *)

(** [sums] are the sums of the bytes; they may be larger than a byte. *)
Definition holds (sums : list Z) (sw : slot) (p : ps_slot) : Prop :=
  length sums = (4 * MAX_ENTRIES_PER_PACKET)%nat ∧
  lanes sw = quads be_word (take 256 sums) ∧ data_slots p = wrap 32 <$> quads le_word sums.
Definition slots_agree (sw : slot) (p : ps_slot) : Prop :=
  roundNumbers sw = ps_round p ∧ receive_count sw = ps_count p ∧ norm_info sw = ps_norm p ∧ bitmap sw = ps_bitmap p ∧
  ∃ sums, Forall (λ x, 0 ≤ x) sums ∧ holds sums sw p.
Definition agree (st : regs) (st' : ps) : Prop :=
  ∀ a, slots_agree (slot_at st a) (ps_at (ps_slots st') a).

Lemma agree_init : agree ∅ ps_init.
Proof.
  intros a. unfold slot_at, ps_at. cbn. rewrite !lookup_empty. cbn. split_and!; try done.
  exists (replicate (4 * MAX_ENTRIES_PER_PACKET) 0). split; [by apply Forall_replicate|].
  split_and!; [by rewrite length_replicate|by vm_compute..].
Qed.

Lemma ps_at_insert st agtr s a : ps_at (<[agtr:=s]> st) a = if decide (a = agtr) then s else ps_at st a.
Proof. unfold ps_at. case_decide; [subst; by rewrite lookup_insert_eq|by rewrite lookup_insert_ne]. Qed.

Lemma agree_insert st st' agtr s s' b : agree st st' → slots_agree s s' →
  agree (<[agtr:=s]> st) (Ps (<[agtr:=s']> (ps_slots st')) b).
Proof. intros Ha Hs a. cbn. rewrite slot_at_insert, ps_at_insert. destruct (decide (a = agtr)); [done|apply Ha]. Qed.

(** The values, after a packet, of an aggregator that held [sums]. *)
Lemma values_agree sums sw p h seen :
  holds sums sw p → Forall (λ x, 0 ≤ x) sums → hdr_wf h → packet_type (parsed h).1 = 0 →
  Forall small (parsed h).2 → (seen ≠ 1 → Forall small (zip_with Z.add (lanes sw) (parsed h).2)) →
  let rs := lanes_after seen sw (parsed h).1 (parsed h).2 in
  ∃ sums', Forall (λ x, 0 ≤ x) sums' ∧ length sums' = (4 * MAX_ENTRIES_PER_PACKET)%nat ∧
    first <$> rs.1 = quads be_word (take 256 sums') ∧ rs.2 = quads be_word (take 256 sums') ∧
    process_data seen (data_slots p) h = wrap 32 <$> quads le_word sums'.
Proof.
  intros (Hl & Hla & Hd) Hpos Hh Ht He Hsm rs. pose proof (signed_entries h Hh He) as Ee.
  pose proof (wf_length _ Hh) as Hv. pose proof (wf_vector _ Hh) as Hb.
  assert (∀ l : list Z, length l = (4 * MAX_ENTRIES_PER_PACKET)%nat → length (take 256 l) = (4 * 64)%nat) as Htake.
  { intros l El. rewrite length_take, El. done. }
  assert (length (registers sw) = 64%nat) as Hreg.
  { rewrite <-(length_fmap first). fold (lanes sw). rewrite Hla. apply length_quads. by apply Htake. }
  assert (length (parsed h).2 = 64%nat) as Hlen by (rewrite Ee; apply length_quads; by apply Htake).
  unfold process_data. subst rs. unfold lanes_after. rewrite decide_True by done.
  destruct (decide (seen = 1)) as [->|Hs].
  - destruct (process_first (registers sw) (parsed h).2) as (E1 & E2 & _); [congruence|]. exists (m_vector h).
    split_and!; [|done|congruence|congruence|by rewrite (quads_wrap MAX_ENTRIES_PER_PACKET)].
    eapply Forall_impl; [exact Hb|]. unfold is_byte. lia.
  - destruct (process_next seen (registers sw) (parsed h).2) as (E1 & E2 & _); [done|congruence| | |by apply Hsm|].
    + eapply Forall_impl; [exact He|]. unfold small. lia.
    + change (Forall ((λ x, 0 ≤ x) ∘ first) (registers sw)). rewrite <-Forall_fmap. fold (lanes sw). rewrite Hla.
      apply (quads_nonneg _ 64); [tauto|by apply Htake|by apply Forall_take].
    + fold (lanes sw) in E1, E2.
      assert (zip_with Z.add (lanes sw) (parsed h).2 = quads be_word (take 256 (zip_with Z.add sums (m_vector h)))) as Ez.
      { rewrite Hla, Ee, take_zip_with. apply (quads_add _ 64); [by left|by apply Htake..]. }
      rewrite Ez in E1, E2.
      exists (zip_with Z.add sums (m_vector h)).
      split_and!; [|by rewrite length_zip_with, Hl, Hv|done|done|by rewrite Hd, (wrapped_sum MAX_ENTRIES_PER_PACKET)].
      clear -Hpos Hb. revert Hb. generalize (m_vector h). induction Hpos; intros [|y v]; cbn; try done.
      rewrite !Forall_cons. unfold is_byte. intros [??]. split; [lia|]. by apply IHHpos.
Qed.

(** How many workers have been heard from, with a packet that is not of an earlier
    round. *)
Definition heard (s : slot) (h : p4mlhdr) : Z :=
  if decide (m_roundNum h > roundNumbers s) then 1
  else if decide (receive_count s = m_num_worker h) then 1 else wrap 8 (receive_count s + 1).

(** A message that is the same to both: the switch looks at the first bit of its
    type, the server at its command. *)
Record mirrored (s : slot) (msg : TestMessage) : Prop := {
  mi_wf : hdr_wf (p4ml_hdrs msg); mi_shutdown : m_shutdown msg = false;
  mi_agtr : m_agtr (p4ml_hdrs msg) < TOTAL_AGTR_CNT;
  mi_cmd : m_cmd msg = TENSOR_COMM ∧ m_type_and_index (p4ml_hdrs msg) / 128 = 0 ∨
           m_cmd msg = TENSOR_NORM ∧ m_type_and_index (p4ml_hdrs msg) / 128 = 1;
  mi_small : Forall small (parsed (p4ml_hdrs msg)).2;
  mi_sums : heard s (p4ml_hdrs msg) ≠ 1 → Forall small (zip_with Z.add (lanes s) (parsed (p4ml_hdrs msg)).2)
}.

(** The values that leave the switch and the values of the server's reply. *)
Definition same_values (e : entry_h) (r : p4mlhdr) : Prop :=
  ∃ sums, e = quads be_word (take 256 sums) ∧ m_vector r = ((wrap 32 <$> quads le_word sums) ≫= le_bytes) ∧
    (Forall is_byte sums → (e ≫= be_bytes) = take 256 sums ∧ m_vector r = sums).

Lemma same_values_intro e r sums : length sums = (4 * MAX_ENTRIES_PER_PACKET)%nat →
  e = quads be_word (take 256 sums) → m_vector r = ((wrap 32 <$> quads le_word sums) ≫= le_bytes) → same_values e r.
Proof.
  intros Hl He Hr. exists sums. split_and!; [done..|]. intros Hb. rewrite He, Hr.
  rewrite (quads_wrap MAX_ENTRIES_PER_PACKET) by done.
  split; [apply (quads_bytes 64); [by rewrite length_take, Hl|by apply Forall_take]|].
  by apply (quads_bytes MAX_ENTRIES_PER_PACKET).
Qed.

Section simulation.
Context (route_dmac recirc_port : Z → option Z) (dst NUM_WORKER : Z) (junk : bool).
Notation AppIdSeq := (Switch.AppIdSeq route_dmac recirc_port dst).
Notation ps_receive := (SoftPS.ps_receive NUM_WORKER junk 0x0c00).

(** A packet that is not of an earlier round, in the switch and in the server. *)
Definition norm_after (s : slot) (h : p4mlhdr) : Z :=
  if decide (roundNumbers s < m_roundNum h) then m_norm_info h
  else if decide (norm_info s < m_norm_info h) then m_norm_info h else norm_info s.
Definition bitmap_after (s : slot) (h : p4mlhdr) : Z :=
  if decide (heard s h = m_num_worker h) then 0 else Z.lor (bitmap s) (m_bitmap h).

Lemma switch_accepts st h :
  let s := slot_at st (m_agtr h) in
  let hs := with_recirc 3 (parsed h).1 in
  let rs := lanes_after (heard s h) s hs (parsed h).2 in
  0 ≤ m_agtr h < total_aggregator_cnt → roundNumbers s ≤ m_roundNum h →
  ∃ h', AppIdSeq st (hs, m_agtr h, (parsed h).2) =
      Done (<[m_agtr h := Slot (m_roundNum h) (bitmap_after s h) (norm_after s h) (heard s h) rs.1]> st,
            (h', m_agtr h, rs.2), verdict (heard s h) (m_num_worker h)) ∧
    roundNum h' = m_roundNum h ∧ p_norm_info h' = norm_after s h.
Proof.
  intros s hs rs Hag Hr.
  destruct (accepted route_dmac recirc_port dst st (m_agtr h) hs (parsed h).2 (m_roundNum h)
    (if decide (roundNumbers s < m_roundNum h) then 2 else 1) (heard s h) (heard s h) (norm_after s h) (norm_after s h))
    as (h' & EA & H1 & H2 & _); [done| |by case_decide| |by exists h'].
  - fold s. unfold normal_check_roundNum. cbn. rewrite decide_False by lia.
    destruct (decide (roundNumbers s < m_roundNum h)); [by rewrite decide_False by lia|]. rewrite decide_True by lia.
    f_equal. lia.
  - fold s. unfold heard, norm_after, reset_check_count, set_norm, normal_incr_check_count, update_norm. cbn.
    destruct (decide (roundNumbers s < m_roundNum h)).
    + rewrite decide_True by done. by rewrite decide_True by lia.
    + rewrite decide_False by done. rewrite (decide_False (P:=_ > roundNumbers s)) by lia.
      rewrite (decide_ext (m_norm_info h > norm_info s) (norm_info s < m_norm_info h)) by lia. by repeat case_decide.
Qed.

Lemma ps_accepts st st' s msg :
  let h := p4ml_hdrs msg in
  let p := ps_at (ps_slots st') (m_agtr h) in
  let data := if decide (m_cmd msg = TENSOR_COMM) then process_data (heard s h) (data_slots p) h else data_slots p in
  let p' := PsSlot (m_roundNum h) (bitmap_after s h) (norm_after s h) (heard s h) data in
  s = slot_at st (m_agtr h) → agree st st' → mirrored s msg → 0 ≤ m_agtr h → roundNumbers s ≤ m_roundNum h →
  ps_receive msg st' = Done (Ps (<[m_agtr h := p']> (ps_slots st')) (should_shutdown st'),
    if decide (heard s h = m_num_worker h) then Some (broadcast_packet NUM_WORKER junk p' msg) else None).
Proof.
  intros h p data p' -> Ha [Hh Hsh Hag Hcmd _ _] Hag0 Hround. set (s := slot_at st (m_agtr h)) in *.
  destruct (Ha (m_agtr h)) as (Hr & Hc & Hn & Hb & _). fold s p in Hr, Hc, Hn, Hb.
  unfold SoftPS.ps_receive. rewrite Hsh. rewrite decide_False by (unfold TENSOR_COMM, TENSOR_NORM, TENSOR_INIT in *; lia).
  fold h. rewrite decide_True by (subst h; lia). fold p. rewrite decide_False by lia.
  assert ((if decide (m_roundNum h > ps_round p) then (m_roundNum h, 1, m_norm_info h)
     else (ps_round p, (if decide (ps_count p = m_num_worker h) then 1 else wrap 8 (ps_count p + 1)),
           (if decide (ps_norm p < m_norm_info h) then m_norm_info h else ps_norm p)))
    = (m_roundNum h, heard s h, norm_after s h)) as ->.
  { unfold norm_after, heard. rewrite <-Hr, <-Hc, <-Hn.
    destruct (decide (m_roundNum h > roundNumbers s)); [by rewrite decide_True by lia|].
    rewrite (decide_False (P:=roundNumbers s < m_roundNum h)) by lia. f_equal. f_equal. lia. }
  subst p'. unfold bitmap_after. rewrite Hb. by destruct (decide (heard s h = m_num_worker h)).
Qed.

End simulation.
End SoftPSProofs.
