(* ===== verification/Dpdk.v ===== *)
(** * The workers' end, [byteps/common/dpdk/client/dpdk_manager.cc]

    [DPDKManager]: tensors are cut into pieces of a packet each; a thread sends them
    as the aggregators become free, a thread receives the sums, and the loops of
    [core_loops.cc] poll for tensors that are complete and free the aggregators after
    a timeout.

    The static arrays are finite maps; what has not been written is 0. The buffers
    are numbered, and a pointer is a buffer and an offset. *)

From Stdlib Require Import Ascii.
From S2P Require Import Prelude BitIO Packet DpdkPkt.

Module Dpdk.
Import BitIO Packet DpdkPkt.

Definition DPDK_KEY_TOTAL : Z := 1200000.
Definition slot_count : Z := MAX_AGTR_COUNT + NORM_SLOT.

(** ** State *)

Definition pointer : Type := nat * Z.
Record Job : Type := MkJob { job_key : Z; job_data : pointer; job_len : Z; job_cmd : Z; job_agtr : Z }.

Record client : Type := Client {
  dpdkKey : Z;
  curr_mutex_idx : Z;
  pushpulljobQueue : list Job;
  finishKeys : list Z;
  slot_roundnum : gmap Z Z;
  slot_busy : gmap Z bool;
  slot_dpdk_key : gmap Z Z;
  dpdk_key_to_tensor_key : gmap Z Z;
  dpdk_key_to_mutex_idx : gmap Z Z;
  cpubuff_table : gmap Z pointer;
  tensor_key_part_total : gmap Z Z;
  tensor_key_part_finish : gmap Z Z;
  norm_ready : gmap Z bool;
  norm_value : gmap Z Z;
  memory : gmap nat (list Z)
}.

(** An element of an array of numbers; [slot_ready], which starts as true. *)
Definition at_ (m : gmap Z Z) (i : Z) : Z := default 0 (m !! i).
Definition slot_ready (s : client) (i : Z) : bool := negb (default false (slot_busy s !! i)).

(** The constructor, with the buffers of the process. *)
Definition manager (mem : gmap nat (list Z)) : client := Client 0 0 [] [] ∅ ∅ ∅ ∅ ∅ ∅ ∅ ∅ ∅ ∅ mem.

Definition set_queue (q : list Job) (s : client) : client :=
  Client (dpdkKey s) (curr_mutex_idx s) q (finishKeys s) (slot_roundnum s) (slot_busy s) (slot_dpdk_key s)
    (dpdk_key_to_tensor_key s) (dpdk_key_to_mutex_idx s) (cpubuff_table s) (tensor_key_part_total s)
    (tensor_key_part_finish s) (norm_ready s) (norm_value s) (memory s).
Definition set_slot (i round : Z) (busy : bool) (key : Z) (s : client) : client :=
  Client (dpdkKey s) (curr_mutex_idx s) (pushpulljobQueue s) (finishKeys s) (<[i := round]> (slot_roundnum s))
    (<[i := busy]> (slot_busy s)) (<[i := key]> (slot_dpdk_key s))
    (dpdk_key_to_tensor_key s) (dpdk_key_to_mutex_idx s) (cpubuff_table s) (tensor_key_part_total s)
    (tensor_key_part_finish s) (norm_ready s) (norm_value s) (memory s).
Definition set_round (i round : Z) (s : client) : client :=
  Client (dpdkKey s) (curr_mutex_idx s) (pushpulljobQueue s) (finishKeys s) (<[i := round]> (slot_roundnum s))
    (slot_busy s) (slot_dpdk_key s) (dpdk_key_to_tensor_key s) (dpdk_key_to_mutex_idx s) (cpubuff_table s)
    (tensor_key_part_total s) (tensor_key_part_finish s) (norm_ready s) (norm_value s) (memory s).
Definition set_norm_table (key : Z) (ready : bool) (value : Z) (s : client) : client :=
  Client (dpdkKey s) (curr_mutex_idx s) (pushpulljobQueue s) (finishKeys s) (slot_roundnum s) (slot_busy s)
    (slot_dpdk_key s) (dpdk_key_to_tensor_key s) (dpdk_key_to_mutex_idx s) (cpubuff_table s) (tensor_key_part_total s)
    (tensor_key_part_finish s) (<[key := ready]> (norm_ready s)) (<[key := value]> (norm_value s)) (memory s).
Definition set_memory (mem : gmap nat (list Z)) (s : client) : client :=
  Client (dpdkKey s) (curr_mutex_idx s) (pushpulljobQueue s) (finishKeys s) (slot_roundnum s) (slot_busy s)
    (slot_dpdk_key s) (dpdk_key_to_tensor_key s) (dpdk_key_to_mutex_idx s) (cpubuff_table s) (tensor_key_part_total s)
    (tensor_key_part_finish s) (norm_ready s) (norm_value s) mem.
Definition set_finish (keys : list Z) (finish : gmap Z Z) (s : client) : client :=
  Client (dpdkKey s) (curr_mutex_idx s) (pushpulljobQueue s) keys (slot_roundnum s) (slot_busy s)
    (slot_dpdk_key s) (dpdk_key_to_tensor_key s) (dpdk_key_to_mutex_idx s) (cpubuff_table s) (tensor_key_part_total s)
    finish (norm_ready s) (norm_value s) (memory s).

(** ** Memory *)

(** [memcpy] of [bytes] to a pointer, of [n] bytes from an array, and what is at a
    pointer. *)
Definition mem_write (p : pointer) (bytes : list Z) (mem : gmap nat (list Z)) : cres (gmap nat (list Z)) :=
  match mem !! p.1 with
  | Some buf =>
      let off := Z.to_nat p.2 in
      if decide (0 ≤ p.2 ∧ (off + length bytes ≤ length buf)%nat)
      then Done (<[p.1 := take off buf ++ bytes ++ drop (off + length bytes) buf]> mem)
      else Undef
  | None => Undef
  end.
Definition mem_read (n : Z) (l : list Z) : cres (list Z) :=
  if decide (0 ≤ n ≤ Z.of_nat (length l)) then Done (take (Z.to_nat n) l) else Undef.
Definition mem_from (p : pointer) (mem : gmap nat (list Z)) : list Z :=
  drop (Z.to_nat p.2) (default [] (mem !! p.1)).

(** ** [DPDKPushPull]

    Before the loop, with the name of the tensor deciding what kind of tensor it is,
    the index of its counters is taken and they are set. *)
Section pushpull.
Context (use_compression : bool).

Definition bound : Z := if use_compression then DPDK_ELEMENT_NUM else Z.of_nat MAX_ENTRIES_PER_PACKET.
Definition command (cmd : Z) (tensor_name : string) : Z :=
  if decide (String.get 7 tensor_name = Some "G"%char) then cmd else TENSOR_INIT.

Definition begin_tensor (len : Z) (s : client) : client :=
  let mutex_idx := curr_mutex_idx s in
  Client (dpdkKey s) ((mutex_idx + 1) mod DPDK_KEY_TOTAL) (pushpulljobQueue s) (finishKeys s) (slot_roundnum s)
    (slot_busy s) (slot_dpdk_key s) (dpdk_key_to_tensor_key s) (dpdk_key_to_mutex_idx s) (cpubuff_table s)
    (<[mutex_idx := (len + bound - 1) / bound]> (tensor_key_part_total s))
    (<[mutex_idx := 0]> (tensor_key_part_finish s)) (norm_ready s) (norm_value s) (memory s).

(** One turn of the loop: [GetNewKey], the tables of the key, and the job. *)
Definition push_piece (tensor_key : Z) (data : pointer) (len cmd mutex_idx accumulated : Z) (s : client) : client :=
  let key := dpdkKey s mod DPDK_KEY_TOTAL in
  let p := (data.1, data.2 + accumulated) in
  let job_len := Z.min bound (len - accumulated) in
  Client (wrap 64 (dpdkKey s + 1)) (curr_mutex_idx s)
    (pushpulljobQueue s ++ [MkJob key p job_len cmd (wrap 16 (key mod MAX_AGTR_COUNT))]) (finishKeys s)
    (slot_roundnum s) (slot_busy s) (slot_dpdk_key s)
    (<[key := tensor_key]> (dpdk_key_to_tensor_key s)) (<[key := mutex_idx]> (dpdk_key_to_mutex_idx s))
    (if decide (cmd = TENSOR_COMM) then <[key := p]> (cpubuff_table s) else cpubuff_table s)
    (tensor_key_part_total s) (tensor_key_part_finish s) (norm_ready s) (norm_value s) (memory s).

(** [while (accumulated < len)]; the bound is positive, so [len] turns are enough. *)
Fixpoint push_loop (fuel : nat) (tensor_key : Z) (data : pointer) (len cmd mutex_idx accumulated : Z) (s : client) : client :=
  match fuel with
  | O => s
  | S fuel' =>
      if decide (accumulated < len) then
        push_loop fuel' tensor_key data len cmd mutex_idx (accumulated + bound)
          (push_piece tensor_key data len cmd mutex_idx accumulated s)
      else s
  end.
Definition DPDKPushPull (tensor_key : Z) (data : pointer) (len cmd : Z) (tensor_name : string) (s : client) : client :=
  push_loop (Z.to_nat len) tensor_key data len (command cmd tensor_name) (curr_mutex_idx s) 0 (begin_tensor len s).

(** ** [TxThread]

    A turn of the outer loop counts the packets to send, [SEND_BURST_SIZE], which is 1,
    at most, with the length of the queue cut to 16 bits; it ends at once if there is
    none. *)
Definition pkts_to_send (s : client) : Z := Z.min 1 (wrap 16 (Z.of_nat (length (pushpulljobQueue s)))).

(** A turn of the inner loop, which goes on until the packet is sent: the packet that
    it sends, with the Ethernet type [0x0c00], if the aggregator of the first job is
    free. [hdr] is what the local variable [msg_body] holds before it is written. *)
Context (host NUM_WORKER : Z).

Definition tx_send (hdr : p4mlhdr) (s : client) : option (client * TestMessage) :=
  match pushpulljobQueue s with
  | [] => None
  | job :: queue =>
      if slot_ready s (job_agtr job) then
        let round_num := at_ (slot_roundnum s) (job_agtr job) in
        let data := Some (mem_from (job_data job) (memory s)) in
        let h := if use_compression
          then assemble_dpdk_p4ml_hdrs true hdr host NUM_WORKER round_num data (job_key job) (job_len job)
          else assemble_normal_hdrs true hdr host NUM_WORKER round_num data (job_key job) (job_len job) in
        Some (set_slot (job_agtr job) round_num true (job_key job) (set_queue queue s),
              Msg h (job_key job) (job_cmd job) (job_len job) false)
      else None
  end.

(** ** [RxThread] on one packet, in the thread of the first queue *)

(** A piece is complete: the counter of its tensor, and the tensor when it is the
    last. *)
Definition finish_part (key : Z) (s : client) : client :=
  let tensor_key := at_ (dpdk_key_to_tensor_key s) key in
  let mutex_idx := at_ (dpdk_key_to_mutex_idx s) key in
  let finish := at_ (tensor_key_part_finish s) mutex_idx + 1 in
  set_finish (if decide (finish = at_ (tensor_key_part_total s) mutex_idx) then finishKeys s ++ [tensor_key]
              else finishKeys s)
    (<[mutex_idx := finish]> (tensor_key_part_finish s)) s.

Definition rx_receive (ether_type : Z) (msg : TestMessage) (s : client) : cres client :=
  let h := p4ml_hdrs msg in
  if decide (ether_type ≠ 0x0d00 ∨ m_cmd msg > TENSOR_INIT ∨ m_key msg >= DPDK_KEY_TOTAL) then mret s
  else
    let agtr_index := m_agtr h in
    if decide (0 ≤ agtr_index < slot_count) then
      let round := at_ (slot_roundnum s) agtr_index in
      if decide (m_roundNum h ≠ round) then mret s
      else
        let round := wrap 32 (round + 1) in
        if decide (m_cmd msg = TENSOR_NORM) then
          mret (set_norm_table (m_key msg) true (m_norm_info h) (set_round agtr_index round s))
        else
          s ← (if decide (m_cmd msg = TENSOR_COMM) then
                 match cpubuff_table s !! m_key msg with
                 | None => mret s
                 | Some p =>
                     bytes ← mem_read (if use_compression then m_len msg else 4 * m_len msg) (m_vector h);
                     mem ← mem_write p bytes (memory s);
                     mret (set_memory mem s)
                 end
               else mret s);
          mret (set_slot agtr_index round false 0 (finish_part (m_key msg) s))
    else Undef.

(** ** The other operations

    [Reset] of the aggregator [i], which is given up if it is in use, as [Reset] does
    with all of them in turn; [PollFinishKey]. *)
Definition reset_slot (i : Z) (s : client) : client :=
  if slot_ready s i then s
  else set_slot i (wrap 32 (at_ (slot_roundnum s) i + 1)) false 0 (finish_part (at_ (slot_dpdk_key s) i) s).
Definition Reset (s : client) : client := foldl (λ s i, reset_slot (Z.of_nat i) s) s (seq 0 (Z.to_nat slot_count)).

Definition PollFinishKey (s : client) : Z * client :=
  match finishKeys s with
  | [] => (-1, s)
  | key :: keys => (key, set_finish keys (tensor_key_part_finish s) s)
  end.

(** [CommunicateNorm] up to the loop: the packet, and the flag it waits for; then what
    it returns when the flag is set. *)
Definition norm_send (hdr : p4mlhdr) (len key max_norm : Z) (s : client) : cres (client * TestMessage) :=
  if decide (0 ≤ key < DPDK_KEY_TOTAL) then
    let agtr_index := MAX_AGTR_COUNT + key mod NORM_SLOT in
    let h := assemble_norm_pkt true hdr host NUM_WORKER (at_ (slot_roundnum s) agtr_index) key max_norm in
    mret (set_norm_table key false (at_ (norm_value s) key) s, Msg h key TENSOR_NORM len false)
  else Undef.
Definition norm_wait (key : Z) (s : client) : option Z :=
  if default false (norm_ready s !! key) then Some (at_ (norm_value s) key) else None.
End pushpull.
End Dpdk.
