(* ===== verification/IncaDemo.v ===== *)
(** * The data plane and the software server, run on packets

    Two workers with a packet each, in the switch and in the software server; packets
    of both kinds parsed. *)

From S2P Require Import Prelude BitIO Packet DpdkPkt Switch SwitchProofs SoftPS SoftPSProofs.

Module IncaDemo.
Import BitIO Packet DpdkPkt Switch SwitchProofs SoftPS SoftPSProofs.

(** ** Parsing *)

(** A background packet, whose last header the deparser does not put back. *)
Definition bg : switch_header_t :=
  Header (Ethernet 1 2 0x0900) (Some (Ipv4 4 5 0 60 7 2 0 64 17 0 167772161 167772162)) (Some (Udp 1000 2000 16 0))
    None None (Some (P4mlBg 12 1024 3)) None.
Definition bg_packet : list bool := SwitchIngressDeparser bg ++ emit_bits 64 12 ++ emit_bits 32 1024 ++ emit_bits 32 3 ++ emit_bits 8 255.

Lemma parse_deparse_witness :
  bg_packet = SwitchIngressDeparser bg ++ emit emit_p4ml_bg (p4ml_bg bg) ++ emit_bits 8 255 ∧ p4ml_bg bg ≠ None.
Proof.
  destruct (parse_deparse bg_packet bg (emit_bits 8 255)) as (E & H & _); [by vm_compute|].
  split; [exact E|done].
Defined.

(** A worker's packet. *)
Definition bytes (b : Z) : list Z := replicate 1024 b.
Definition hdr (w r b : Z) : p4mlhdr := data_hdr true w 2 r 7 (bytes b).

Lemma bytes_ok b : is_byte b → Forall is_byte (bytes b).
Proof. intros. by apply Forall_replicate. Qed.

Lemma hdr_ok w r b : is_byte b → 0 ≤ r < 2 ^ 32 → hdr_wf (hdr w r b).
Proof. intros. split; cbn -[bytes]; try apply wrap_bound; try lia; [done|by apply bytes_ok]. Qed.

Lemma worker_packet_parses_witness :
  SwitchIngressParser (emit_ethernet (Ethernet 1 2 0x0a00) ++ p4mlhdr_bits false (hdr 1 3 9) ++ []) =
    Some (Header (Ethernet 1 2 0x0a00) None None (Some (parsed (hdr 1 3 9)).1) (Some 7) None
      (Some (parsed (hdr 1 3 9)).2), bytes_bits (drop 256 (bytes 9)) ++ []).
Proof. apply worker_packet_parses; [done..|]. apply hdr_ok; [done|lia]. Defined.

(** ** A round in the switch *)

Definition row (x : Z) : entry_h := replicate entry_count x.
Definition grad (c r W n : Z) (e : entry_h) : p4ml_h * entry_h := (P4ml 1 W r 0 n 0 0 0 c 0 0 0 0, e).

Lemma grad_ok c r W n x : 0 ≤ n → 0 ≤ x → gradient c r W (grad c r W n (row x)).
Proof. intros. split; try done. by apply Forall_replicate. Qed.

Definition is_small (x : Z) : bool := (0 <=? x) && (x <? 2 ^ 31 - 1).
Lemma small_all l : forallb is_small l = true → Forall small l.
Proof.
  rewrite forallb_forall, Forall_forall. intros H x Hx%list_elem_of_In. apply H in Hx. unfold is_small, small in *. lia.
Qed.

Definition port : Z → option Z := λ c, if decide (1 ≤ c ≤ 3) then Some (64 + c) else None.
Definition dmac : Z → option Z := λ a, if decide (a = 5) then Some 132 else None.

Lemma starts_empty r a : 0 < r → starts (slot_at ∅ a) r.
Proof. intros. unfold slot_at. rewrite lookup_empty. split; [done|]. left. cbn. lia. Qed.

(** The first pass and the last. *)
Lemma switch_aggregates_witness :
  (∃ st' out h, run dmac port 5 7 ∅ [grad 3 1 2 10 (row 4); grad 3 1 2 30 (row 5)]
     = Done (st', [out; ((h, 7, row 9), TM None 1 false 0)]) ∧ p_norm_info h = 30) ∧
  ∃ st' out h, run dmac port 5 7 ∅ [grad 0 1 2 10 (row 4); grad 0 1 2 30 (row 5)]
     = Done (st', [out; ((with_recirc 1 h, 8, row 9), TM (Some 65) 0 true 0)]) ∧ p_norm_info h = 30.
Proof.
  assert (∀ c, ∃ st' outs, run dmac port 5 7 ∅ [grad c 1 2 10 (row 4); grad c 1 2 30 (row 5)] = Done (st', outs) ∧ length outs = 2%nat ∧
    ∃ h, outs !! 1%nat = Some (if decide (c = 3) then ((h, 7, row 9), TM None 1 false 0)
      else ((with_recirc (wrap 8 (c + 1)) h, 8, row 9), again port (wrap 8 (c + 1)))) ∧ p_norm_info h = 30) as Hc.
  { intros c. destruct (switch_aggregates dmac port 5 c 1 2 7 [grad c 1 2 10 (row 4); grad c 1 2 30 (row 5)] ∅)
      as (st' & outs & E & Hl & Ho & _); [done|done|by apply starts_empty|done| | |].
    - repeat constructor; try done; by apply Forall_replicate.
    - by apply small_all.
    - exists st', outs. split; [exact E|]. split; [exact Hl|]. destruct (Ho 1%nat) as (h & Eo & _ & _ & Hn); [cbn; lia|].
      exists h. split; [exact Eo|exact Hn]. }
  split; [destruct (Hc 3) as (st' & outs & E & Hl & h & Eo & Hn)|destruct (Hc 0) as (st' & outs & E & Hl & h & Eo & Hn)];
    (destruct outs as [|o [|o' [|]]]; [done|done| |done]; injection Eo as ->; by exists st', o, h).
Defined.

(** Packets of an earlier round. *)
Definition later : gmap Z slot := {[7 := Slot 5 0 0 1 (replicate entry_count (Pair 3 0))]}.

Lemma stale_packet_witness :
  Switch.AppIdSeq dmac port 5 later ((grad 3 1 2 10 (row 4)).1, 7, row 4)
  = Done (later, (with_round 0 (grad 3 1 2 10 (row 4)).1, 7, row 0), TM (Some 132) 0 false 0).
Proof. rewrite stale_packet; [done|done|by vm_compute]. Defined.

Lemma later_ok : counters_ok 2 later.
Proof.
  intros a. unfold slot_at, later. destruct (decide (a = 7)) as [->|]; [by rewrite lookup_singleton_eq|].
  by rewrite lookup_singleton_ne.
Qed.

Lemma registers_inv_witness :
  ∃ st' f' tm, Switch.AppIdSeq dmac port 5 later ((grad 3 6 2 10 (row 4)).1, 7, row 4) = Done (st', f', tm) ∧
    counters_ok 2 st' ∧ ∀ a, roundNumbers (slot_at later a) ≤ roundNumbers (slot_at st' a).
Proof.
  destruct (Switch.AppIdSeq dmac port 5 later ((grad 3 6 2 10 (row 4)).1, 7, row 4)) as [[[st' f'] tm]| | |] eqn:E;
    [|exfalso; by vm_compute in E..].
  exists st', f', tm. split; [done|]. destruct (registers_inv dmac port 5 later _ _ _ _ E) as (Hr & _ & Hc).
  split; [apply (Hc 2); [done|done|apply later_ok]|exact Hr].
Defined.

(** Two workers' packets through four passes. *)
Lemma recirculation_recounts_witness :
  ∃ st1 f st2 h, recirculate dmac port 5 3 ∅ ((grad 0 1 2 0 (row 10)).1, 8, row 10) = Done (st1, f, TM None 0 false 1) ∧
    recirculate dmac port 5 3 st1 ((grad 0 1 2 0 (row 1)).1, 8, row 1) = Done (st2, (h, 8 + 3, row 41), TM None 1 false 0).
Proof.
  apply (recirculation_recounts dmac port 5 ltac:(intros c Hc; unfold port; by rewrite decide_True by done) 1 8 ∅ _ _ (row 10) (row 1)).
  - lia.
  - done.
  - intros i Hi. by apply starts_empty.
  - by apply grad_ok.
  - by apply grad_ok.
  - by apply small_all.
  - by apply small_all.
Defined.

(** ** The software server beside the switch *)

Definition msg1 : TestMessage := Msg (hdr 1 1 60) 7 TENSOR_COMM 1024 false.

Lemma mirrored_first : mirrored (slot_at ∅ 7) msg1.
Proof.
  split; [apply hdr_ok; [done|lia]|done|done|by left| |].
  - apply small_all. by vm_compute.
  - intros H. contradict H. by vm_compute.
Qed.

End IncaDemo.
