(* ===== verification/Aggregation.v ===== *)
(** * Aggregation of gradients by the software server

    The workers' managers, the server and the network between them as a transition
    system: tensors are pushed piece by piece, the sending threads, the server and the
    receiving threads take their steps in any order, and the network may deliver
    packets in any order. In the lossy system it may also lose them, and workers may
    give an aggregator up after a timeout.

    All workers push the same tensors in the same order, each tensor from a buffer of
    its own, with a byte an element. A key is used again only when the piece it was
    used for is complete. *)

From S2P Require Import Prelude BitIO Packet DpdkPkt SoftPS Dpdk.

Module Aggregation.
Import BitIO Packet DpdkPkt SoftPS Dpdk.

(** ** Pieces of tensors

    A call of [DPDKPushPull] with its pieces; the pieces of all calls, numbered from
    0. *)
Record piece : Type := Piece { pc_call : nat; pc_key : Z; pc_off : Z; pc_len : Z }.
Definition piece_count (len : Z) : nat := Z.to_nat ((len + DPDK_ELEMENT_NUM - 1) / DPDK_ELEMENT_NUM).
Definition pieces_of (c : nat) (call : Z * Z) : list piece :=
  (λ i, let off := DPDK_ELEMENT_NUM * Z.of_nat i in Piece c call.1 off (Z.min DPDK_ELEMENT_NUM (call.2 - off)))
    <$> seq 0 (piece_count call.2).

Section system.
(** The number of workers, the tensors as key and length, the bytes of worker [w] in
    tensor [c]; and what is in the server's memory. *)
Context (W : nat) (program : list (Z * Z)) (data : nat → nat → list Z) (junk : bool).

Definition pieces : list piece := concat (imap pieces_of program).

(** Key, aggregator and round of piece [n]. *)
Definition key_n (n : nat) : Z := Z.of_nat n mod DPDK_KEY_TOTAL.
Definition slot_n (n : nat) : Z := Z.of_nat n mod MAX_AGTR_COUNT.
Definition round_n (n : nat) : Z := Z.of_nat n / MAX_AGTR_COUNT.
Definition job_n (n : nat) (pc : piece) : Job :=
  MkJob (key_n n) (pc_call pc, pc_off pc) (pc_len pc) TENSOR_COMM (slot_n n).

(** A piece is complete when its aggregator is in a later round. *)
Definition finished (s : client) (n : nat) : Prop := round_n n < at_ (slot_roundnum s) (slot_n n).

(** ** The system

    A worker: its manager, the tensors it has begun to push and the pieces it has
    pushed; whether its sending thread has counted a packet that it is to send; and
    the keys of tensors that have been polled. *)
Record worker : Type := Worker {
  w_client : client; w_begun : nat; w_pushed : nat; w_tx : bool; w_done : list Z
}.
Record sys : Type := Sys {
  y_workers : list worker; y_ps : ps; y_requests : list TestMessage; y_replies : list (nat * TestMessage)
}.

(** The key of the next piece is free. *)
Definition key_free (s : client) (p : nat) : Prop :=
  ∀ n, Z.of_nat n + DPDK_KEY_TOTAL = Z.of_nat p → finished s n.

(** The number of the first piece of tensor [c]. *)
Definition base (c : nat) : nat := length (concat (imap pieces_of (take c program))).

(** What a worker does on its own, with the message it sends. *)
Inductive wstep (w : nat) : worker → option TestMessage → worker → Prop :=
  | ws_begin s b t d tk len :
      program !! b = Some (tk, len) → key_free s (base b) →
      wstep w (Worker s b (base b) t d) None (Worker (begin_tensor true len s) (S b) (base b) t d)
  | ws_push s b p t d tk len pc :
      program !! b = Some (tk, len) → pieces !! p = Some pc → pc_call pc = b → key_free s p →
      wstep w (Worker s (S b) p t d) None
        (Worker (push_piece true tk (b, 0) len TENSOR_COMM (Z.of_nat b mod DPDK_KEY_TOTAL) (pc_off pc) s) (S b) (S p) t d)
  | ws_count s b p d :
      pkts_to_send s ≠ 0 → wstep w (Worker s b p false d) None (Worker s b p true d)
  | ws_send s b p d hdr s' m :
      hdr_wf hdr → tx_send true (Z.of_nat w) (Z.of_nat W) hdr s = Some (s', m) →
      wstep w (Worker s b p true d) (Some m) (Worker s' b p false d)
  | ws_poll s b p t d key s' :
      finishKeys s ≠ [] → PollFinishKey s = (key, s') →
      wstep w (Worker s b p t d) None (Worker s' b p t (d ++ [key])).

Inductive step (lossy : bool) : sys → sys → Prop :=
  | st_worker w ws k k' m srv reqs reps :
      ws !! w = Some k → wstep w k m k' →
      step lossy (Sys ws srv reqs reps) (Sys (<[w := k']> ws) srv (reqs ++ option_list m) reps)
  | st_serve ws srv srv' m reply reqs1 reqs2 reps :
      ps_receive (Z.of_nat W) junk 0x0c00 m srv = Done (srv', reply) →
      step lossy (Sys ws srv (reqs1 ++ m :: reqs2) reps)
        (Sys ws srv' (reqs1 ++ reqs2)
           (reps ++ match reply with Some r => (λ w, (w, r)) <$> seq 0 W | None => [] end))
  | st_receive w ws s s' b p t d srv reqs m reps1 reps2 :
      ws !! w = Some (Worker s b p t d) → rx_receive true 0x0d00 m s = Done s' →
      step lossy (Sys ws srv reqs (reps1 ++ (w, m) :: reps2)) (Sys (<[w := Worker s' b p t d]> ws) srv reqs (reps1 ++ reps2))
  | st_lose_request ws srv reqs1 m reqs2 reps :
      lossy = true → step lossy (Sys ws srv (reqs1 ++ m :: reqs2) reps) (Sys ws srv (reqs1 ++ reqs2) reps)
  | st_lose_reply ws srv reqs reps1 wm reps2 :
      lossy = true → step lossy (Sys ws srv reqs (reps1 ++ wm :: reps2)) (Sys ws srv reqs (reps1 ++ reps2))
  | st_reset w ws s b p t d i srv reqs reps :
      lossy = true → 0 ≤ i < slot_count → ws !! w = Some (Worker s b p t d) →
      step lossy (Sys ws srv reqs reps) (Sys (<[w := Worker (reset_slot i s) b p t d]> ws) srv reqs reps).

(** The buffers of a worker, one of each tensor. *)
Definition buffers (w : nat) : gmap nat (list Z) := list_to_map (imap (λ c _, (c, data w c)) program).
Definition init : sys := Sys ((λ w, Worker (manager (buffers w)) 0 0 false []) <$> seq 0 W) ps_init [] [].

(** A range of a buffer. *)
Definition range (off len : Z) (l : list Z) : list Z := take (Z.to_nat len) (drop (Z.to_nat off) l).
(** The sum over the workers of tensor [c]. *)
Definition sum_of (c : nat) (len : Z) : list Z := total (Z.to_nat len) ((λ w, data w c) <$> seq 0 W).
End system.
End Aggregation.
