(* ===== verification/AggPieces.v ===== *)
(** * Pieces of tensors

    The pieces of all tensors with their keys, aggregators and rounds: pieces with
    the same key are far apart, an aggregator's pieces are its rounds, and the pieces
    of a tensor divide it. *)

From Stdlib Require Import Ascii.
From S2P Require Import Prelude BitIO Packet DpdkPkt SoftPS Dpdk Aggregation.

Module AggPieces.
Import BitIO Packet DpdkPkt SoftPS Dpdk Aggregation.

(** ** Arrays *)

Lemma at_insert m i x j : at_ (<[i:=x]> m) j = if decide (j = i) then x else at_ m j.
Proof. unfold at_. destruct (decide (j = i)) as [->|]; [by rewrite lookup_insert_eq|by rewrite lookup_insert_ne]. Qed.

Lemma element_num : DPDK_ELEMENT_NUM = 1024.
Proof. done. Qed.

(** ** Keys *)

Lemma key_slot n : wrap 16 (key_n n mod MAX_AGTR_COUNT) = slot_n n.
Proof.
  unfold wrap, key_n, slot_n, MAX_AGTR_COUNT, DPDK_KEY_TOTAL. rewrite (Z.mod_mod_divide (Z.of_nat n) 1200000 2500) by (exists 480; lia).
  apply Z.mod_small. change (2 ^ Z.of_nat 16) with 65536. pose proof (Z.mod_pos_bound (Z.of_nat n) 2500). lia.
Qed.

Lemma slot_bound n : 0 ≤ slot_n n < MAX_AGTR_COUNT.
Proof. unfold slot_n. by apply Z.mod_pos_bound. Qed.

Lemma round_slot n : Z.of_nat n = MAX_AGTR_COUNT * round_n n + slot_n n.
Proof. unfold round_n, slot_n. apply Z.div_mod. done. Qed.

Lemma round_slot_inj n m : slot_n n = slot_n m → round_n n = round_n m → n = m.
Proof. intros Hs Hr. pose proof (round_slot n). pose proof (round_slot m). lia. Qed.

Lemma slot_round_ex a r : 0 ≤ a < MAX_AGTR_COUNT → 0 ≤ r → ∃ n, slot_n n = a ∧ round_n n = r.
Proof.
  intros Ha Hr. exists (Z.to_nat (MAX_AGTR_COUNT * r + a)). unfold slot_n, round_n, MAX_AGTR_COUNT in *.
  rewrite !Z2Nat.id by lia. split; Z.to_euclidean_division_equations; lia.
Qed.

Lemma round_nonneg n : 0 ≤ round_n n.
Proof. unfold round_n. apply Z.div_pos; [lia|done]. Qed.

Lemma key_inj n m : key_n n = key_n m → (n < m)%nat → Z.of_nat n + DPDK_KEY_TOTAL ≤ Z.of_nat m.
Proof. unfold key_n, DPDK_KEY_TOTAL. intros. Z.to_euclidean_division_equations. lia. Qed.

(** ** [DPDKPushPull]

    A tensor of gradients is pushed piece by piece, as the steps of the system do. *)

Definition push_pieces (tk : Z) (data : pointer) (len mutex_idx : Z) (s : client) (pcs : list piece) : client :=
  foldl (λ s pc, push_piece true tk data len TENSOR_COMM mutex_idx (pc_off pc) s) s pcs.

Lemma push_loop_pieces c tk data len mutex_idx k : ∀ fuel i s, (i + k = piece_count len)%nat → (k ≤ fuel)%nat →
  push_loop true fuel tk data len TENSOR_COMM mutex_idx (DPDK_ELEMENT_NUM * Z.of_nat i) s =
  push_pieces tk data len mutex_idx s
    ((λ i, let off := DPDK_ELEMENT_NUM * Z.of_nat i in Piece c tk off (Z.min DPDK_ELEMENT_NUM (len - off))) <$> seq i k).
Proof.
  unfold piece_count. rewrite element_num. induction k as [|k IH]; intros fuel i s Hi Hf; cbn [seq fmap list_fmap push_pieces foldl].
  - destruct fuel as [|fuel]; [done|]. cbn [push_loop]. rewrite decide_False; [done|]. Z.to_euclidean_division_equations; lia.
  - destruct fuel as [|fuel]; [lia|]. cbn [push_loop]. rewrite decide_True by (Z.to_euclidean_division_equations; lia).
    unfold bound at 1. rewrite element_num. replace (1024 * Z.of_nat i + 1024) with (1024 * Z.of_nat (S i)) by lia.
    apply IH; lia.
Qed.

Lemma DPDKPushPull_pieces c tk data len name s : 0 < len → String.get 7 name = Some "G"%char →
  DPDKPushPull true tk data len TENSOR_COMM name s =
  push_pieces tk data len (curr_mutex_idx s) (begin_tensor true len s) (pieces_of c (tk, len)).
Proof.
  intros Hlen Hn. unfold DPDKPushPull, command. rewrite decide_True by done.
  etransitivity; [|apply (push_loop_pieces c tk data len (curr_mutex_idx s) (piece_count len) (Z.to_nat len) 0)]; [done|done|].
  unfold piece_count. rewrite element_num. Z.to_euclidean_division_equations; lia.
Qed.

(** ** Pieces *)

Section pieces.
Context (program : list (Z * Z)).
Context (Hprog : ∀ c tk len, program !! c = Some (tk, len) → 0 < len).
Notation pieces := (Aggregation.pieces program).

Notation base := (Aggregation.base program).

Lemma piece_count_pos len : 0 < len → (0 < piece_count len)%nat.
Proof. intros. unfold piece_count. rewrite element_num. Z.to_euclidean_division_equations. lia. Qed.

Lemma base_S c tk len : program !! c = Some (tk, len) → base (S c) = (base c + piece_count len)%nat.
Proof.
  intros Hc. unfold Aggregation.base. rewrite (take_S_r _ _ _ Hc), imap_app, concat_app, length_app. f_equal. cbn.
  rewrite app_nil_r. unfold pieces_of. by rewrite length_fmap, length_seq.
Qed.

Lemma base_le c d : (c ≤ d)%nat → (d ≤ length program)%nat → (base c + (d - c) ≤ base d)%nat.
Proof.
  intros Hcd Hd. induction d as [|d IH]; [replace c with O by lia; lia|].
  destruct (decide (c = S d)) as [->|]; [lia|].
  destruct (lookup_lt_is_Some_2 program d) as [[tk len] E]; [lia|]. rewrite (base_S _ _ _ E).
  pose proof (piece_count_pos len (Hprog _ _ _ E)). lia.
Qed.

Lemma base_length : base (length program) = length pieces.
Proof. unfold Aggregation.base. by rewrite take_ge by lia. Qed.

(** Piece [i] of tensor [c]. *)
Lemma piece_at c tk len i : program !! c = Some (tk, len) → (i < piece_count len)%nat →
  pieces !! (base c + i)%nat =
    Some (Piece c tk (DPDK_ELEMENT_NUM * Z.of_nat i) (Z.min DPDK_ELEMENT_NUM (len - DPDK_ELEMENT_NUM * Z.of_nat i))).
Proof.
  intros Hc Hi. unfold Aggregation.pieces, Aggregation.base. pose proof (lookup_lt_Some _ _ _ Hc) as Hlt.
  rewrite <-(take_drop_middle program c (tk, len) Hc) at 2. rewrite imap_app, concat_app.
  rewrite lookup_app_r by lia.
  replace (_ + i - _)%nat with i by lia. cbn. rewrite length_take, Nat.min_l, Nat.add_0_r by lia.
  rewrite lookup_app_l by (unfold pieces_of; by rewrite length_fmap, length_seq).
  unfold pieces_of. by rewrite list_lookup_fmap, lookup_seq_lt.
Qed.

(** Every piece is one of a tensor. *)
Lemma piece_inv n : (n < length pieces)%nat → ∃ c tk len i, program !! c = Some (tk, len) ∧ (i < piece_count len)%nat ∧
  n = (base c + i)%nat.
Proof.
  intros Hn. assert (∀ d, (d ≤ length program)%nat → (n < base d)%nat → ∃ c tk len i, program !! c = Some (tk, len) ∧
    (i < piece_count len)%nat ∧ n = (base c + i)%nat) as H.
  { induction d as [|d IH]; intros Hd Hb; [change (base 0) with 0%nat in Hb; lia|].
    destruct (decide (n < base d)%nat); [apply IH; lia|].
    destruct (lookup_lt_is_Some_2 program d) as [[tk len] E]; [lia|]. rewrite (base_S _ _ _ E) in Hb.
    exists d, tk, len, (n - base d)%nat. split_and!; [done|lia..]. }
  apply (H (length program)); [done|]. by rewrite base_length.
Qed.

Definition piece_n (n : nat) : piece := default (Piece 0 0 0 0) (pieces !! n).

Lemma piece_n_at c tk len i : program !! c = Some (tk, len) → (i < piece_count len)%nat →
  piece_n (base c + i) = Piece c tk (DPDK_ELEMENT_NUM * Z.of_nat i) (Z.min DPDK_ELEMENT_NUM (len - DPDK_ELEMENT_NUM * Z.of_nat i)).
Proof. intros. unfold piece_n. by erewrite piece_at. Qed.

(** The numbers of the pieces of tensor [c]. *)
Definition pieces_at (c : nat) : list nat := seq (base c) (base (S c) - base c).

Lemma pieces_at_call c n tk len : program !! c = Some (tk, len) →
  n ∈ pieces_at c ↔ (n < length pieces)%nat ∧ pc_call (piece_n n) = c.
Proof.
  intros Hc. unfold pieces_at. rewrite elem_of_seq, (base_S _ _ _ Hc). pose proof (lookup_lt_Some _ _ _ Hc) as Hlt. split.
  - intros Hn. split.
    + pose proof (base_le (S c) (length program)). rewrite (base_S _ _ _ Hc), base_length in H. lia.
    + replace n with (base c + (n - base c))%nat by lia. by erewrite piece_n_at by (done || lia).
  - intros [Hn Hcall]. destruct (piece_inv n Hn) as (c' & tk' & len' & i & Hc' & Hi & ->).
    erewrite piece_n_at in Hcall by done. simpl in Hcall. subst c'. simplify_eq. lia.
Qed.

Lemma pieces_at_NoDup c : NoDup (pieces_at c).
Proof. apply NoDup_seq. Qed.

(** What is known of a piece, with the tensor it belongs to. *)
Record piece_spec (n : nat) (pc : piece) (tk len : Z) : Prop := {
  pp_program : program !! pc_call pc = Some (tk, len);
  pp_key : pc_key pc = tk;
  pp_off : 0 ≤ pc_off pc;
  pp_len : 0 < pc_len pc ≤ 1024;
  pp_end : pc_off pc + pc_len pc ≤ len;
  pp_base : (base (pc_call pc) ≤ n < base (S (pc_call pc)))%nat;
  pp_at : n ∈ pieces_at (pc_call pc);
  pp_number : pc_off pc = 1024 * Z.of_nat (n - base (pc_call pc))
}.

Lemma piece_n_spec n : (n < length pieces)%nat → ∃ tk len, piece_spec n (piece_n n) tk len.
Proof.
  intros Hn. destruct (piece_inv n Hn) as (c & tk & len & i & Hc & Hi & ->). exists tk, len.
  erewrite piece_n_at by done. rewrite element_num. unfold piece_count in Hi. rewrite element_num in Hi.
  assert (1024 * Z.of_nat i < len) by (Z.to_euclidean_division_equations; lia).
  assert (base (S c) = (base c + piece_count len)%nat) as Hb by by eapply base_S.
  unfold piece_count in Hb. rewrite element_num in Hb.
  split; cbn [pc_call pc_key pc_off pc_len]; try done; try lia.
  unfold pieces_at. apply elem_of_seq. lia.
Qed.

Lemma piece_lookup n : (n < length pieces)%nat → pieces !! n = Some (piece_n n).
Proof. intros Hn. unfold piece_n. by destruct (lookup_lt_is_Some_2 pieces n Hn) as [pc ->]. Qed.

(** Pieces do not overlap, and together they are the tensor. *)
Definition in_piece (pc : piece) (j : nat) : Prop := pc_off pc ≤ Z.of_nat j < pc_off pc + pc_len pc.

Lemma in_piece_same n m j : (n < length pieces)%nat → (m < length pieces)%nat →
  pc_call (piece_n n) = pc_call (piece_n m) → in_piece (piece_n n) j → in_piece (piece_n m) j → n = m.
Proof.
  intros Hn Hm Hc Hjn Hjm. destruct (piece_n_spec n Hn) as (tk & len & []), (piece_n_spec m Hm) as (tk' & len' & []).
  unfold in_piece in *. rewrite Hc in *. lia.
Qed.

Lemma in_piece_ex c tk len j : program !! c = Some (tk, len) → Z.of_nat j < len →
  ∃ n, n ∈ pieces_at c ∧ (n < length pieces)%nat ∧ pc_call (piece_n n) = c ∧ in_piece (piece_n n) j.
Proof.
  intros Hc Hj. set (i := Z.to_nat (Z.of_nat j / 1024)).
  assert (i < piece_count len)%nat as Hi.
  { subst i. unfold piece_count. rewrite element_num. Z.to_euclidean_division_equations. lia. }
  pose proof (piece_n_at c tk len i Hc Hi) as E. exists (base c + i)%nat.
  assert ((base c + i)%nat ∈ pieces_at c) as Hin by (unfold pieces_at; rewrite elem_of_seq, (base_S _ _ _ Hc); lia).
  pose proof Hin as [Hlt _]%(pieces_at_call c _ tk len Hc). split_and!; [done..|by rewrite E|].
  rewrite E. unfold in_piece. rewrite element_num. cbn. subst i. Z.to_euclidean_division_equations. lia.
Qed.

Lemma pieces_at_bound c tk len n : program !! c = Some (tk, len) → n ∈ pieces_at c →
  (base c ≤ n < base (S c))%nat ∧ (n < length pieces)%nat ∧ pc_call (piece_n n) = c.
Proof.
  intros Hc Hn. pose proof Hn as [? ?]%(pieces_at_call c n tk len Hc). split_and!; try done.
  - unfold pieces_at in Hn. apply elem_of_seq in Hn. lia.
  - unfold pieces_at in Hn. apply elem_of_seq in Hn. lia.
Qed.

Lemma pieces_at_owner c n : n ∈ pieces_at c → pc_call (piece_n n) = c.
Proof.
  intros Hn. destruct (decide (c < length program)%nat) as [Hc|].
  - destruct (lookup_lt_is_Some_2 program c Hc) as [[tk len] Ec]. by destruct (pieces_at_bound _ _ _ _ Ec Hn) as (_ & _ & E).
  - unfold pieces_at in Hn. apply elem_of_seq in Hn. unfold Aggregation.base in Hn. rewrite !take_ge in Hn by lia. lia.
Qed.

Lemma base_mono c d : (c ≤ d)%nat → (d ≤ length program)%nat → (base c ≤ base d)%nat.
Proof. intros. pose proof (base_le c d). lia. Qed.
End pieces.
End AggPieces.
