(* ===== verification/AggWorker.v ===== *)
(** * A worker of the aggregation

    What holds of a worker's manager between any two of its steps, and that each step
    keeps it: the keys in use are apart, an aggregator is busy with one piece, the
    counters count the complete pieces, and the buffers hold the worker's own bytes
    where a piece is not complete. *)

From S2P Require Import Prelude BitIO Packet DpdkPkt SoftPS Dpdk Aggregation AggPieces.

Module AggWorker.
Import BitIO Packet DpdkPkt SoftPS Dpdk Aggregation AggPieces.

Notation round_at s a := (at_ (slot_roundnum s) a).
Definition busy (s : client) (a : Z) : bool := default false (slot_busy s !! a).

#[export] Instance finished_dec s n : Decision (finished s n).
Proof. unfold finished. apply _. Defined.

(** Piece [n] has been sent and its sum is waited for. *)
Definition in_flight (s : client) (n : nat) : Prop :=
  round_at s (slot_n n) = round_n n ∧ busy s (slot_n n) = true ∧ at_ (slot_dpdk_key s) (slot_n n) = key_n n.

Lemma in_flight_unfinished s n : in_flight s n → ¬ finished s n.
Proof. intros (E & _). unfold finished. lia. Qed.

(** The next round of an aggregator ends one piece. *)
Lemma finished_next (m : gmap Z Z) n k : at_ m (slot_n n) = round_n n →
  (round_n k < at_ (<[slot_n n := round_n n + 1]> m) (slot_n k) ↔ round_n k < at_ m (slot_n k) ∨ k = n).
Proof.
  intros E. rewrite at_insert. destruct (decide (slot_n k = slot_n n)) as [Es|Hne].
  - rewrite Es, E. split.
    + intros H. destruct (decide (round_n k = round_n n)); [right; by apply round_slot_inj|left; lia].
    + intros [H| ->]; lia.
  - split; [by left|]. by intros [H| ->].
Qed.

Section worker.
Context (program : list (Z * Z)) (data : nat → nat → list Z) (sum : nat → list Z).
Context (Hprog : ∀ c tk len, program !! c = Some (tk, len) → 0 < len).
Notation pieces := (Aggregation.pieces program).
Notation base := (Aggregation.base program).
Notation piece_n := (AggPieces.piece_n program).
Notation pieces_at := (AggPieces.pieces_at program).
Context (HN : Z.of_nat (length pieces) ≤ MAX_AGTR_COUNT * (2 ^ 32 - 1)).
Context (Hdata : ∀ w c tk len, program !! c = Some (tk, len) → length (data w c) = Z.to_nat len ∧ Forall is_byte (data w c)).
Context (Hsum : ∀ c tk len, program !! c = Some (tk, len) → length (sum c) = Z.to_nat len).

Lemma round_bound n : (n < length pieces)%nat → round_n n + 1 < 2 ^ 32.
Proof. intros Hn. pose proof (round_slot n). pose proof (slot_bound n). unfold MAX_AGTR_COUNT in *. lia. Qed.

(** ** Buffers *)

Definition lengths_ok (mem : gmap nat (list Z)) : Prop :=
  ∀ c tk len, program !! c = Some (tk, len) → ∃ buf, mem !! c = Some buf ∧ length buf = Z.to_nat len.
(** The bytes of piece [n] are those of [src]. *)
Definition holds_piece (mem : gmap nat (list Z)) (n : nat) (src : nat → list Z) : Prop :=
  ∃ buf, mem !! pc_call (piece_n n) = Some buf ∧
    ∀ j, in_piece (piece_n n) j → buf !! j = src (pc_call (piece_n n)) !! j.
(** What may be in a buffer at a piece. *)
Definition piece_value (lossy : bool) (w : nat) (mem : gmap nat (list Z)) (n : nat) : Prop :=
  holds_piece mem n sum ∨ lossy = true ∧ holds_piece mem n (data w).

(** Writing a piece's bytes over it. *)
Lemma write_piece mem n bytes : (n < length pieces)%nat → lengths_ok mem →
  bytes = range (pc_off (piece_n n)) (pc_len (piece_n n)) (sum (pc_call (piece_n n))) →
  ∃ mem', mem_write (pc_call (piece_n n), pc_off (piece_n n)) bytes mem = Done mem' ∧ lengths_ok mem' ∧
    holds_piece mem' n sum ∧
    ∀ m src, m ≠ n → (m < length pieces)%nat → holds_piece mem m src → holds_piece mem' m src.
Proof.
  intros Hn Hmem ->. destruct (piece_n_spec program n Hn) as (tk & len & [Hp Hk Ho Hl He _ _ _]).
  set (pc := piece_n n) in *. destruct (Hmem _ _ _ Hp) as (buf & Hb & Hlb).
  pose proof (Hsum _ _ _ Hp) as Hls.
  assert (length (range (pc_off pc) (pc_len pc) (sum (pc_call pc))) = Z.to_nat (pc_len pc)) as Hlr.
  { unfold range. rewrite length_take, length_drop, Hls. lia. }
  unfold mem_write. cbn [fst snd]. rewrite Hb, decide_True by lia. eexists. split; [done|].
  set (buf' := take _ buf ++ _).
  assert (length buf' = length buf) as Hlb'.
  { subst buf'. rewrite !length_app, length_take, length_drop, Hlr. lia. }
  assert (∀ j, buf' !! j = if decide (in_piece pc j) then sum (pc_call pc) !! j else buf !! j) as Hlook.
  { intros j. subst buf'. unfold in_piece. destruct (decide (Z.to_nat (pc_off pc) ≤ j)%nat).
    - rewrite lookup_app_r by (rewrite length_take; lia). rewrite length_take, Nat.min_l by lia.
      case_decide.
      + rewrite lookup_app_l by lia. unfold range. rewrite lookup_take_lt, lookup_drop by lia. f_equal. lia.
      + rewrite lookup_app_r by lia. rewrite lookup_drop, Hlr. f_equal. lia.
    - rewrite decide_False by lia. rewrite lookup_app_l by (rewrite length_take; lia). by rewrite lookup_take_lt by lia. }
  split_and!.
  - intros c tk' len' Hc. destruct (decide (c = pc_call pc)) as [->|].
    + rewrite lookup_insert_eq. exists buf'. split; [done|]. simplify_eq. lia.
    + rewrite lookup_insert_ne by done. by eapply Hmem.
  - exists buf'. fold pc. rewrite lookup_insert_eq. split; [done|]. intros j Hj. by rewrite Hlook, decide_True.
  - intros m src Hmn Hm (b & Hbm & Hv). destruct (decide (pc_call (piece_n m) = pc_call pc)) as [Ec|].
    + exists buf'. rewrite Ec, lookup_insert_eq. split; [done|]. intros j Hj. rewrite Ec in Hbm, Hv. simplify_eq.
      rewrite Hlook, decide_False; [by apply Hv|]. intros Hj'. apply Hmn. by eapply in_piece_same.
    + exists b. by rewrite lookup_insert_ne.
Qed.
(** ** Counting the complete pieces of a tensor *)

Definition counted (F : nat → Prop) (c : nat) (k : Z) : Prop :=
  ∃ l, NoDup l ∧ (∀ n, n ∈ l ↔ n ∈ pieces_at c ∧ F n) ∧ k = Z.of_nat (length l).

Lemma counted_ext F F' c k : (∀ n, n ∈ pieces_at c → F n ↔ F' n) → counted F c k → counted F' c k.
Proof. intros H (l & Hl & Hin & ->). exists l. split_and!; [done| |done]. intros n. rewrite Hin. naive_solver. Qed.

Lemma counted_all F c k : counted F c k → k = Z.of_nat (length (pieces_at c)) ↔ ∀ n, n ∈ pieces_at c → F n.
Proof.
  intros (l & Hl & Hin & ->). split.
  - intros Hk n Hn. apply Hin. assert (l ⊆+ pieces_at c) as Hs by (apply NoDup_submseteq; [done|]; naive_solver).
    assert (l ≡ₚ pieces_at c) as -> by (apply submseteq_length_Permutation; [done|lia]). done.
  - intros Hall. f_equal. apply Permutation_length, NoDup_Permutation; [done|apply pieces_at_NoDup|]. naive_solver.
Qed.

Lemma counted_add F c k n : n ∈ pieces_at c → ¬ F n → counted F c k → counted (λ m, F m ∨ m = n) c (k + 1).
Proof.
  intros Hn Hf (l & Hl & Hin & ->). exists (n :: l). split_and!; [|intros m; rewrite elem_of_cons, Hin; naive_solver|cbn; lia].
  constructor; [|done]. rewrite Hin. tauto.
Qed.

Lemma counted_none F c : (∀ n, n ∈ pieces_at c → ¬ F n) → counted F c 0.
Proof. intros H. exists []. split_and!; [constructor| |done]. intros n. rewrite elem_of_nil. naive_solver. Qed.

(** ** The invariant

    [b] tensors have been begun, [p] pieces pushed, [q] sent; [d] are the keys that
    have been polled. *)
Definition call_key (c : nat) : Z := default 0 (fst <$> program !! c).
Definition all_finished (s : client) (c : nat) : Prop := ∀ n, n ∈ pieces_at c → finished s n.

Record winv (lossy : bool) (w : nat) (s : client) (b p q : nat) (d : list Z) : Prop := {
  wi_key : dpdkKey s = Z.of_nat p;
  wi_mutex : curr_mutex_idx s = Z.of_nat b mod DPDK_KEY_TOTAL;
  wi_le : (q ≤ p ≤ length pieces)%nat;
  wi_begun : (b ≤ length program)%nat ∧ (p ≤ base b)%nat ∧ ∀ c, b = S c → (base c ≤ p)%nat;
  wi_queue : pushpulljobQueue s = (λ n, job_n n (piece_n n)) <$> seq q (p - q);
  wi_rounds : ∀ a, 0 ≤ round_at s a;
  wi_finished : ∀ n, finished s n → (n < q)%nat;
  wi_sent : ∀ n, (n < q)%nat → finished s n ∨ in_flight s n;
  wi_busy : ∀ a, busy s a = true → ∃ n, (n < q)%nat ∧ slot_n n = a ∧ in_flight s n;
  wi_tables : ∀ n, (n < p)%nat → ¬ finished s n →
    at_ (dpdk_key_to_tensor_key s) (key_n n) = pc_key (piece_n n) ∧
    at_ (dpdk_key_to_mutex_idx s) (key_n n) = Z.of_nat (pc_call (piece_n n)) mod DPDK_KEY_TOTAL ∧
    cpubuff_table s !! key_n n = Some ((pc_call (piece_n n), pc_off (piece_n n)) : pointer);
  wi_free : ∀ n, Z.of_nat n + DPDK_KEY_TOTAL < Z.of_nat p → finished s n;
  wi_free_call : ∀ c n, (c < b)%nat → Z.of_nat n + DPDK_KEY_TOTAL ≤ Z.of_nat (base c) → finished s n;
  wi_counts : ∀ c, (c < b)%nat → ¬ all_finished s c →
    at_ (tensor_key_part_total s) (Z.of_nat c mod DPDK_KEY_TOTAL) = Z.of_nat (length (pieces_at c)) ∧
    counted (finished s) c (at_ (tensor_key_part_finish s) (Z.of_nat c mod DPDK_KEY_TOTAL));
  wi_done : ∃ L, d ++ finishKeys s = call_key <$> L ∧ NoDup L ∧ ∀ c, c ∈ L ↔ (c < b)%nat ∧ all_finished s c;
  wi_lengths : lengths_ok (memory s);
  wi_memory : ∀ n, (n < length pieces)%nat →
    (¬ finished s n → holds_piece (memory s) n (data w)) ∧ (finished s n → piece_value lossy w (memory s) n)
}.

(** Two tensors that are not complete have counters of their own. *)
Lemma live_calls_apart lossy w s b p q d c c' : winv lossy w s b p q d →
  (c < b)%nat → (c' < b)%nat → ¬ all_finished s c → ¬ all_finished s c' →
  Z.of_nat c mod DPDK_KEY_TOTAL = Z.of_nat c' mod DPDK_KEY_TOTAL → c = c'.
Proof.
  intros Hw. assert (∀ c c', (c < c')%nat → (c' < b)%nat → ¬ all_finished s c →
    Z.of_nat c mod DPDK_KEY_TOTAL ≠ Z.of_nat c' mod DPDK_KEY_TOTAL) as H.
  { clear c c'. intros c c' Hlt Hc' Hu E. apply Hu. intros n Hn. destruct (wi_begun _ _ _ _ _ _ _ Hw) as (Hb & _).
    assert (Z.of_nat c + DPDK_KEY_TOTAL ≤ Z.of_nat c') as Hfar by by apply key_inj.
    destruct (lookup_lt_is_Some_2 program c) as [[tk len] Ec]; [lia|].
    destruct (pieces_at_bound _ Hprog _ _ _ _ Ec Hn) as (Hr & _).
    apply (wi_free_call _ _ _ _ _ _ _ Hw c'); [done|].
    pose proof (base_le _ Hprog (S c) c'). unfold DPDK_KEY_TOTAL in *. lia. }
  intros Hc Hc' Hu Hu' E. destruct (decide (c < c')%nat); [by destruct (H c c')|].
  destruct (decide (c' < c)%nat); [by destruct (H c' c)|lia].
Qed.

(** ** The steps *)

Lemma begin_total len : 0 < len → (len + Dpdk.bound true - 1) / Dpdk.bound true = Z.of_nat (piece_count len).
Proof. intros. unfold Dpdk.bound, piece_count. rewrite Z2Nat.id; [done|]. apply Z.div_pos; [|done]. rewrite element_num. lia. Qed.

Lemma length_pieces_at c tk len : program !! c = Some (tk, len) → length (pieces_at c) = piece_count len.
Proof. intros Hc. unfold AggPieces.pieces_at. rewrite length_seq, (base_S _ _ _ _ Hc). lia. Qed.

Lemma free_pieces lossy w s b p q d n : winv lossy w s b p q d → key_free s p →
  Z.of_nat n + DPDK_KEY_TOTAL ≤ Z.of_nat p → finished s n.
Proof.
  intros Hw Hk Hn. destruct (decide (Z.of_nat n + DPDK_KEY_TOTAL = Z.of_nat p)); [by apply Hk|].
  apply (wi_free _ _ _ _ _ _ _ Hw). lia.
Qed.

Lemma winv_begin lossy w s b q d tk len : winv lossy w s b (base b) q d →
  program !! b = Some (tk, len) → key_free s (base b) → winv lossy w (begin_tensor true len s) (S b) (base b) q d.
Proof.
  intros Hw Hb Hk. pose proof (Hprog _ _ _ Hb) as Hlen. pose proof (lookup_lt_Some _ _ _ Hb) as Hlt.
  pose proof (wi_le _ _ _ _ _ _ _ Hw) as Hle.
  assert (∀ n, n ∈ pieces_at b → ¬ finished s n) as Hnone.
  { intros n Hn Hf. apply (wi_finished _ _ _ _ _ _ _ Hw) in Hf.
    destruct (pieces_at_bound _ Hprog _ _ _ _ Hb Hn) as (? & _). lia. }
  assert (¬ all_finished s b) as Hu.
  { intros H. pose proof (piece_count_pos len Hlen) as Hpos. apply (Hnone (base b)); [|apply H];
      unfold AggPieces.pieces_at; rewrite elem_of_seq, (base_S _ _ _ _ Hb); lia. }
  pose proof Hw as []. split; try done.
  - cbn. rewrite wi_mutex0, Zplus_mod_idemp_l. f_equal. lia.
  - split_and!; [done|apply (base_mono _ Hprog); lia|]. by intros c [= <-].
  - intros c n Hc Hn. destruct (decide (c = b)) as [->|]; [by apply (free_pieces lossy w s b (base b) q d)|].
    apply (wi_free_call0 c); [lia|done].
  - intros c Hc Hac. cbn. rewrite !at_insert, wi_mutex0. case_decide as E.
    + assert (c = b) as ->.
      { destruct (decide (c = b)); [done|]. exfalso. apply Hac. intros m Hm.
        destruct (lookup_lt_is_Some_2 program c) as [[tk' len'] Ec]; [lia|].
        destruct (pieces_at_bound _ Hprog _ _ _ _ Ec Hm) as (Hr & _).
        assert (Z.of_nat c + DPDK_KEY_TOTAL ≤ Z.of_nat b) by (apply key_inj; [done|lia]).
        pose proof (base_le _ Hprog (S c) b). apply (free_pieces lossy w s b (base b) q d); [done|done|]. unfold DPDK_KEY_TOTAL in *. lia. }
      split; [|by apply counted_none]. by rewrite begin_total, (length_pieces_at _ _ _ Hb).
    + assert (c ≠ b) by (intros ->; done). apply wi_counts0; [lia|done].
  - destruct wi_done0 as (L & E & HL & Hin). exists L. split_and!; [done..|]. intros c. rewrite Hin. split.
    + intros [? ?]. split; [lia|done].
    + intros [? Hall]. split; [|done]. assert (c ≠ b) by (intros ->; done). lia.
Qed.

(** The job of a piece is pushed. *)
Lemma push_piece_job s b p tk len : (p < length pieces)%nat → program !! b = Some (tk, len) →
  pc_call (piece_n p) = b → dpdkKey s = Z.of_nat p →
  push_piece true tk (b, 0) len TENSOR_COMM (Z.of_nat b mod DPDK_KEY_TOTAL) (pc_off (piece_n p)) s =
  Client (Z.of_nat (S p)) (curr_mutex_idx s) (pushpulljobQueue s ++ [job_n p (piece_n p)]) (finishKeys s)
    (slot_roundnum s) (slot_busy s) (slot_dpdk_key s)
    (<[key_n p := pc_key (piece_n p)]> (dpdk_key_to_tensor_key s))
    (<[key_n p := Z.of_nat (pc_call (piece_n p)) mod DPDK_KEY_TOTAL]> (dpdk_key_to_mutex_idx s))
    (<[key_n p := (pc_call (piece_n p), pc_off (piece_n p))]> (cpubuff_table s))
    (tensor_key_part_total s) (tensor_key_part_finish s) (norm_ready s) (norm_value s) (memory s).
Proof.
  intros Hp Hb Hc Hk. destruct (piece_inv program p Hp) as (c & tk' & len' & i & Hc' & Hi & ->).
  rewrite (piece_n_at program c tk' len' i Hc' Hi) in *. cbn [pc_call pc_key pc_off pc_len] in *. subst c. simplify_eq.
  unfold push_piece. rewrite Hk. cbn [fst snd]. fold (key_n (base b + i)). rewrite key_slot, Z.add_0_l.
  rewrite decide_True by done. f_equal.
  unfold wrap. rewrite Z.mod_small; [lia|]. unfold MAX_AGTR_COUNT in HN. change (2 ^ Z.of_nat 64) with 18446744073709551616.
  lia.
Qed.

Lemma winv_push lossy w s b p q d tk len : winv lossy w s (S b) p q d →
  program !! b = Some (tk, len) → (p < length pieces)%nat → pc_call (piece_n p) = b → key_free s p →
  winv lossy w (push_piece true tk (b, 0) len TENSOR_COMM (Z.of_nat b mod DPDK_KEY_TOTAL) (pc_off (piece_n p)) s)
    (S b) (S p) q d.
Proof.
  intros Hw Hb Hp Hc Hk. rewrite push_piece_job by (done || apply Hw).
  destruct (piece_n_spec program p Hp) as (tk' & len' & Hs). pose proof (pp_base _ _ _ _ _ Hs) as Hbase. rewrite Hc in Hbase.
  pose proof (wi_le _ _ _ _ _ _ _ Hw) as Hle.
  pose proof Hw as []. split; try done; cbn.
  - lia.
  - split_and!; [tauto|lia|]. intros c E. destruct wi_begun0 as (_ & _ & H). specialize (H c E). lia.
  - rewrite wi_queue0. replace (S p - q)%nat with (S (p - q)) by lia. rewrite seq_S, fmap_app. cbn.
    by replace (q + (p - q))%nat with p by lia.
  - intros n Hn Hu. rewrite !at_insert. destruct (decide (n = p)) as [->|].
    + rewrite !decide_True by done. by rewrite lookup_insert_eq.
    + assert (key_n n ≠ key_n p).
      { intros E. apply Hu. apply (free_pieces lossy w s (S b) p q d); [done|done|]. apply key_inj; [done|lia]. }
      rewrite !decide_False, lookup_insert_ne by done. apply wi_tables0; [lia|done].
  - intros n Hn. apply (free_pieces lossy w s (S b) p q d); [done|done|lia].
Qed.

Lemma winv_poll lossy w s b p q d key s' : winv lossy w s b p q d → finishKeys s ≠ [] →
  PollFinishKey s = (key, s') → winv lossy w s' b p q (d ++ [key]).
Proof.
  intros [] Hne. unfold PollFinishKey. destruct (finishKeys s) as [|key0 keys] eqn:E; [done|]. intros [= <- <-].
  split; try done. cbn. by rewrite <-app_assoc.
Qed.

(** The first job of the queue is sent: the aggregator is free, and its round is the
    piece's. *)
Lemma ready_round lossy w s b p q d : winv lossy w s b p q d → busy s (slot_n q) = false → round_at s (slot_n q) = round_n q.
Proof.
  intros [] Hb. set (R := round_at s (slot_n q)). assert (R ≤ round_n q) as Hle.
  { destruct (decide (R ≤ round_n q)); [done|]. assert (q < q)%nat; [|lia]. apply wi_finished0. unfold finished. lia. }
  destruct (decide (R = round_n q)); [done|]. exfalso.
  pose proof (round_slot q) as Hq. pose proof (slot_bound q) as Hsq. pose proof (wi_rounds0 (slot_n q)) as H0. fold R in H0.
  destruct (slot_round_ex (slot_n q) R Hsq H0) as (m & E1 & E2). pose proof (round_slot m) as Hm. rewrite E1, E2 in Hm.
  assert (m < q)%nat as Hn by (unfold MAX_AGTR_COUNT in *; lia).
  destruct (wi_sent0 m Hn) as [Hf|(_ & Hbn & _)]; [|congruence].
  unfold finished in Hf. rewrite E1, E2 in Hf. fold R in Hf. lia.
Qed.

(** The message of worker [w] for piece [n], with the vector [v]; it begins with the
    bytes of the piece. *)
Definition request (W w n : nat) (v : list Z) : TestMessage :=
  Msg (data_hdr true (Z.of_nat w) (Z.of_nat W) (round_n n) (key_n n) v) (key_n n) TENSOR_COMM (pc_len (piece_n n)) false.
Record packet_ok (w n : nat) (v : list Z) : Prop := {
  pk_piece : (n < length pieces)%nat; pk_length : length v = (4 * MAX_ENTRIES_PER_PACKET)%nat; pk_bytes : Forall is_byte v;
  pk_data : ∀ j, in_piece (piece_n n) j →
    v !! (j - Z.to_nat (pc_off (piece_n n)))%nat = data w (pc_call (piece_n n)) !! j
}.

Lemma fill_piece w mem n vector : (n < length pieces)%nat → lengths_ok mem → holds_piece mem n (data w) →
  length vector = (4 * MAX_ENTRIES_PER_PACKET)%nat → Forall is_byte vector →
  packet_ok w n (fill_vector vector (mem_from (pc_call (piece_n n), pc_off (piece_n n)) mem) (Z.to_nat (pc_len (piece_n n)))).
Proof.
  intros Hn Hmem (buf & Hb & Hv) Hl Hbytes. destruct (piece_n_spec program n Hn) as (tk & len & [Hp Hk Ho Hlen He _ _ _]).
  set (pc := piece_n n) in *. destruct (Hmem _ _ _ Hp) as (buf' & Hb' & Hlb). simplify_eq.
  destruct (Hdata w (pc_call pc) _ _ Hp) as [Hld Hbd]. unfold mem_from. cbn [fst snd]. rewrite Hb. change (default [] (Some buf)) with buf.
  unfold MAX_ENTRIES_PER_PACKET in *. set (from := drop (Z.to_nat (pc_off pc)) buf). set (k := Z.to_nat (pc_len pc)).
  assert (k ≤ length from)%nat as Hkl by (subst from k; rewrite length_drop; lia).
  assert (k ≤ 1024)%nat as Hk2 by (subst k; lia).
  assert (∀ i, (i < k)%nat → from !! i = data w (pc_call pc) !! (Z.to_nat (pc_off pc) + i)%nat) as Hfrom.
  { intros i Hi. subst from. rewrite lookup_drop. apply Hv. unfold in_piece. lia. }
  split; [done|by rewrite fill_vector_length by lia| |].
  - unfold fill_vector. apply Forall_app_2; [|by apply Forall_drop]. apply Forall_lookup. intros i x Hi.
    apply lookup_take_Some in Hi as [Hi Hik]. rewrite Hfrom in Hi by done. by apply (Forall_lookup_1 _ _ _ _ Hbd) in Hi.
  - fold pc. intros j Hj. unfold in_piece in Hj. unfold fill_vector.
    rewrite lookup_app_l by (rewrite length_take; subst k; lia). rewrite lookup_take_lt, Hfrom by (subst k; lia). f_equal. lia.
Qed.

Lemma send_message W lossy w s b p q d hdr s' m : winv lossy w s b p q d → hdr_wf hdr →
  tx_send true (Z.of_nat w) (Z.of_nat W) hdr s = Some (s', m) →
  (q < p)%nat ∧ busy s (slot_n q) = false ∧
  s' = set_slot (slot_n q) (round_n q) true (key_n q) (set_queue ((λ n, job_n n (piece_n n)) <$> seq (S q) (p - S q)) s) ∧
  ∃ v, m = request W w q v ∧ packet_ok w q v.
Proof.
  intros Hw Hh. pose proof Hw as []. unfold tx_send. rewrite wi_queue0. destruct (decide (q < p)%nat) as [Hq|]; [|by replace (p - q)%nat with 0%nat by lia].
  replace (p - q)%nat with (S (p - S q)) by lia. cbn [seq fmap list_fmap job_n job_agtr job_data job_key job_len job_cmd].
  unfold slot_ready. fold (busy s (slot_n q)). destruct (busy s (slot_n q)) eqn:Eb; [done|]. cbn [negb].
  rewrite (ready_round _ _ _ _ _ _ _ Hw Eb). intros [= <- <-].
  assert (q < length pieces)%nat as Hqn by lia.
  destruct (piece_n_spec program q Hqn) as (tk & len & [Hp Hk Ho Hlen He _ _ _]).
  split_and!; [done..|]. eexists. split.
  - unfold request, assemble_dpdk_p4ml_hdrs. rewrite element_num.
    replace (if decide _ then _ else _) with (pc_len (piece_n q)) by (case_decide; lia). done.
  - apply fill_piece; [done|done| |apply Hh|apply Hh]. apply wi_memory0; [done|].
    intros Hf%wi_finished0. lia.
Qed.

Lemma winv_send lossy w s b p q d : winv lossy w s b p q d → (q < p)%nat → busy s (slot_n q) = false →
  winv lossy w (set_slot (slot_n q) (round_n q) true (key_n q)
    (set_queue ((λ n, job_n n (piece_n n)) <$> seq (S q) (p - S q)) s)) b p (S q) d.
Proof.
  intros Hw Hq Hb. pose proof (ready_round _ _ _ _ _ _ _ Hw Hb) as Hround. pose proof Hw as [].
  set (s' := set_slot _ _ _ _ _).
  assert (∀ a, round_at s' a = round_at s a) as Hr by (intros a; cbn; rewrite at_insert; case_decide; congruence).
  assert (∀ n, finished s' n ↔ finished s n) as Hf by (intros n; unfold finished; by rewrite Hr).
  assert (∀ a, busy s' a = if decide (a = slot_n q) then true else busy s a) as Hbusy.
  { intros a. unfold busy. cbn. case_decide; [subst; by rewrite lookup_insert_eq|by rewrite lookup_insert_ne]. }
  assert (in_flight s' q) as Hq'.
  { split_and!; [by rewrite Hr|by rewrite Hbusy, decide_True|cbn; by rewrite at_insert, decide_True]. }
  assert (∀ n, in_flight s n → in_flight s' n) as Hfl.
  { intros n (H1 & H2 & H3). assert (slot_n n ≠ slot_n q) by congruence.
    split_and!; [by rewrite Hr|by rewrite Hbusy, decide_False|cbn; by rewrite at_insert, decide_False]. }
  split; try done.
  - lia.
  - intros a. by rewrite Hr.
  - intros n Hn%Hf%wi_finished0. lia.
  - intros n Hn. rewrite Hf. destruct (decide (n = q)) as [->|]; [by right|]. destruct (wi_sent0 n); [lia|by left|right; auto].
  - intros a. rewrite Hbusy. case_decide as Ea; [intros _; exists q; split_and!; [lia|done|done]|].
    intros (n & ? & ? & ?)%wi_busy0. exists n. split_and!; [lia|done|auto].
  - intros n Hn. rewrite Hf. by apply wi_tables0.
  - intros n Hn. rewrite Hf. by apply wi_free0.
  - intros c n Hc Hn. rewrite Hf. by eapply wi_free_call0.
  - intros c Hc Hu. destruct (wi_counts0 c Hc) as [H1 H2]; [intros H; apply Hu; intros n Hn; by apply Hf, H|].
    split; [done|]. eapply counted_ext; [|exact H2]. intros n _. by rewrite Hf.
  - destruct wi_done0 as (L & E & HL & Hin). exists L. split_and!; [done..|]. intros c. rewrite Hin. unfold all_finished. by setoid_rewrite Hf.
  - intros n Hn. rewrite Hf. by apply wi_memory0.
Qed.

(** ** A piece is complete *)

(** The client after the piece, with the buffers [mem]. *)
Definition after (s : client) (n : nat) (mem : gmap nat (list Z)) : client :=
  set_slot (slot_n n) (round_n n + 1) false 0 (finish_part (key_n n) (set_memory mem s)).

Lemma after_slots s n mem :
  slot_roundnum (after s n mem) = <[slot_n n := round_n n + 1]> (slot_roundnum s) ∧
  slot_busy (after s n mem) = <[slot_n n := false]> (slot_busy s) ∧
  slot_dpdk_key (after s n mem) = <[slot_n n := 0]> (slot_dpdk_key s).
Proof. done. Qed.

Lemma after_finished s n mem : in_flight s n → ∀ m, finished (after s n mem) m ↔ finished s m ∨ m = n.
Proof. intros (E & _) m. unfold finished. apply finished_next. exact E. Qed.

Lemma after_in_flight s n mem m : in_flight s n → in_flight s m → m ≠ n → in_flight (after s n mem) m.
Proof.
  intros (En & _) (Em & Hb & Hk) Hne. destruct (after_slots s n mem) as (E1 & E2 & E3).
  assert (slot_n m ≠ slot_n n) by (intros E; apply Hne, round_slot_inj; congruence).
  unfold in_flight, busy. rewrite E1, E2, E3, !at_insert, !decide_False, lookup_insert_ne by done. done.
Qed.

(** The tensor the piece belongs to is complete with it. *)
Lemma last_piece lossy w s b p q d n c : winv lossy w s b p q d → (n < q)%nat → in_flight s n → c = pc_call (piece_n n) →
  at_ (dpdk_key_to_tensor_key s) (key_n n) = call_key c ∧
  at_ (dpdk_key_to_mutex_idx s) (key_n n) = Z.of_nat c mod DPDK_KEY_TOTAL ∧ (c < b)%nat ∧ n ∈ pieces_at c ∧
  ¬ all_finished s c ∧
  counted (λ m, finished s m ∨ m = n) c (at_ (tensor_key_part_finish s) (Z.of_nat c mod DPDK_KEY_TOTAL) + 1) ∧
  (at_ (tensor_key_part_finish s) (Z.of_nat c mod DPDK_KEY_TOTAL) + 1
     = at_ (tensor_key_part_total s) (Z.of_nat c mod DPDK_KEY_TOTAL) ↔
   ∀ m, m ∈ pieces_at c → finished s m ∨ m = n).
Proof.
  intros Hw Hn Hf ->. pose proof Hw as []. pose proof (in_flight_unfinished _ _ Hf) as Hu.
  assert (n < length pieces)%nat as Hnl by lia. destruct (piece_n_spec program n Hnl) as (tk & len & []).
  set (c := pc_call (piece_n n)) in *.
  assert (c < b)%nat as Hc.
  { destruct (decide (c < b)%nat); [done|]. exfalso. destruct wi_begun0 as (_ & Hb & _).
    pose proof (lookup_lt_Some _ _ _ pp_program0). pose proof (base_mono _ Hprog b c). lia. }
  destruct (wi_tables0 n) as (Ht & Hm & _); [lia|done|]. fold c in Hm.
  assert (¬ all_finished s c) as Hnc by (intros H; by apply Hu, H).
  destruct (wi_counts0 c Hc Hnc) as (Htot & Hcnt).
  pose proof (counted_add _ _ _ n pp_at0 Hu Hcnt) as Hcnt'.
  split_and!; try done.
  - rewrite Ht, pp_key0. unfold call_key. by rewrite pp_program0.
  - rewrite Htot. by apply counted_all.
Qed.

Lemma after_done lossy w s b p q d n mem : winv lossy w s b p q d → (n < q)%nat → in_flight s n →
  ∃ L, d ++ finishKeys (after s n mem) = call_key <$> L ∧ NoDup L ∧
    ∀ c, c ∈ L ↔ (c < b)%nat ∧ all_finished (after s n mem) c.
Proof.
  intros Hw Hn Hf. set (c0 := pc_call (piece_n n)).
  destruct (last_piece _ _ _ _ _ _ _ n c0 Hw Hn Hf eq_refl) as (Ek & Em & Hc0 & Hin0 & Hu0 & _ & Hlast).
  pose proof (after_finished s n mem Hf) as Hfin.
  assert (∀ c, c ≠ c0 → all_finished (after s n mem) c ↔ all_finished s c) as Hoth.
  { intros c Hne. unfold all_finished. split; intros H m Hm.
    - pose proof (H m Hm) as [?| ->]%Hfin; [done|]. by destruct Hne; apply pieces_at_owner in Hm.
    - apply Hfin. left. by apply H. }
  assert (all_finished (after s n mem) c0 ↔ ∀ m, m ∈ pieces_at c0 → finished s m ∨ m = n) as Hc0'.
  { unfold all_finished. by setoid_rewrite Hfin. }
  destruct (wi_done _ _ _ _ _ _ _ Hw) as (L & E & HL & Hin). cbn. rewrite Ek, Em.
  case_decide as Hd.
  - exists (L ++ [c0]). rewrite app_assoc, E, fmap_app. split_and!; [done| |].
    + apply NoDup_app. split_and!; [done| |apply NoDup_singleton]. intros c Hc ->%list_elem_of_singleton.
      apply Hin in Hc as [_ ?]. done.
    + intros c. rewrite elem_of_app, list_elem_of_singleton, Hin. destruct (decide (c = c0)) as [->|Hne].
      * rewrite Hc0'. split; [|by right]. intros _. split; [done|]. by apply Hlast.
      * rewrite Hoth by done. naive_solver.
  - exists L. split_and!; [done..|]. intros c. rewrite Hin. destruct (decide (c = c0)) as [->|Hne]; [|by rewrite Hoth].
    rewrite Hc0'. rewrite <-Hlast. naive_solver.
Qed.

Lemma winv_after lossy w s b p q d n mem : winv lossy w s b p q d → (n < q)%nat → in_flight s n →
  lengths_ok mem → piece_value lossy w mem n →
  (∀ m src, m ≠ n → (m < length pieces)%nat → holds_piece (memory s) m src → holds_piece mem m src) →
  winv lossy w (after s n mem) b p q d.
Proof.
  intros Hw Hn Hf Hlen Hval Hkeep. pose proof (after_finished s n mem Hf) as Hfin.
  pose proof (after_slots s n mem) as (E1 & E2 & E3).
  pose proof (after_done _ _ _ _ _ _ _ n mem Hw Hn Hf) as Hdone. pose proof Hw as [].
  set (c0 := pc_call (piece_n n)).
  destruct (last_piece _ _ _ _ _ _ _ n c0 Hw Hn Hf eq_refl) as (Ek & Em & Hc0 & Hin0 & Hu0 & Hcnt & _).
  split; try done.
  - intros a. rewrite E1, at_insert. case_decide; [pose proof (round_nonneg n); lia|done].
  - intros m [?| ->]%Hfin; [by apply wi_finished0|done].
  - intros m Hm. rewrite Hfin. destruct (decide (m = n)) as [->|]; [by left; right|].
    destruct (wi_sent0 m Hm); [by left; left|right; by apply after_in_flight].
  - intros a Hb. unfold busy in Hb. rewrite E2 in Hb. destruct (decide (a = slot_n n)) as [->|Hne].
    + by rewrite lookup_insert_eq in Hb.
    + rewrite lookup_insert_ne in Hb by done. destruct (wi_busy0 a Hb) as (m & ? & Hsm & ?). exists m. split_and!; [done..|].
      apply after_in_flight; [done..|]. congruence.
  - intros m Hm Hu. apply wi_tables0; [done|]. intros H. apply Hu, Hfin. by left.
  - intros m Hm. apply Hfin. left. by apply wi_free0.
  - intros c m Hc Hm. apply Hfin. left. by eapply wi_free_call0.
  - intros c Hc Hu. cbn. rewrite Em, at_insert.
    assert (¬ all_finished s c) as Hu' by (intros H; apply Hu; intros m Hm; apply Hfin; left; by apply H).
    destruct (wi_counts0 c Hc Hu') as (Htot & Hcn). split; [done|].
    destruct (decide (c = c0)) as [->|Hne].
    + rewrite decide_True by done. eapply counted_ext; [|exact Hcnt]. intros m _. by rewrite Hfin.
    + rewrite decide_False by (intros E; by apply Hne, (live_calls_apart _ _ _ _ _ _ _ _ _ Hw)).
      eapply counted_ext; [|exact Hcn]. intros m Hm. rewrite Hfin. split; [by left|]. intros [?| ->]; [done|].
      by destruct Hne; apply pieces_at_owner in Hm.
  - intros m Hm. destruct (wi_memory0 m Hm) as [Hno Hyes]. split.
    + intros Hu. assert (m ≠ n) by (intros ->; apply Hu, Hfin; by right).
      apply Hkeep; [done..|]. apply Hno. intros Hm'. apply Hu, Hfin. by left.
    + intros [Hm'| ->]%Hfin; [|done]. assert (m ≠ n) by (intros ->; by eapply in_flight_unfinished).
      destruct (Hyes Hm') as [?|[? ?]]; [left|right; split; [done|]]; by apply Hkeep.
Qed.

Lemma round_wrap n : (n < length pieces)%nat → wrap 32 (round_n n + 1) = round_n n + 1.
Proof. intros Hn. apply Z.mod_small. pose proof (round_bound n Hn). pose proof (round_nonneg n). change (2 ^ Z.of_nat 32) with (2 ^ 32). lia. Qed.

(** Giving up an aggregator. *)
Lemma winv_reset w s b p q d i : winv true w s b p q d → winv true w (reset_slot i s) b p q d.
Proof.
  intros Hw. unfold reset_slot, slot_ready. fold (busy s i). destruct (busy s i) eqn:Eb; [|done]. cbn [negb].
  destruct (wi_busy _ _ _ _ _ _ _ Hw i Eb) as (n & Hn & <- & Hf).
  assert (n < length pieces)%nat as Hnl by (pose proof (wi_le _ _ _ _ _ _ _ Hw); lia).
  assert (set_slot (slot_n n) (wrap 32 (round_at s (slot_n n) + 1)) false 0
    (finish_part (at_ (slot_dpdk_key s) (slot_n n)) s) = after s n (memory s)) as ->.
  { destruct Hf as (-> & _ & ->). rewrite round_wrap by done. unfold after. by destruct s. }
  apply winv_after; [done..|apply Hw| |done].
  right. split; [done|]. apply (wi_memory _ _ _ _ _ _ _ Hw); [done|]. by apply in_flight_unfinished.
Qed.

(** A reply with the sum of piece [n]. *)
Record reply_ok (n : nat) (r : TestMessage) : Prop := {
  rp_piece : (n < length pieces)%nat;
  rp_agtr : m_agtr (p4ml_hdrs r) = slot_n n; rp_round : m_roundNum (p4ml_hdrs r) = round_n n;
  rp_key : m_key r = key_n n; rp_cmd : m_cmd r = TENSOR_COMM; rp_len : m_len r = pc_len (piece_n n);
  rp_length : length (m_vector (p4ml_hdrs r)) = (4 * MAX_ENTRIES_PER_PACKET)%nat;
  rp_sum : take (Z.to_nat (pc_len (piece_n n))) (m_vector (p4ml_hdrs r))
    = range (pc_off (piece_n n)) (pc_len (piece_n n)) (sum (pc_call (piece_n n)))
}.

Lemma receive_other s n r : reply_ok n r → round_at s (slot_n n) ≠ round_n n → rx_receive true 0x0d00 r s = Done s.
Proof.
  intros [] Hne. unfold rx_receive. case_decide as Hd; [done|]. rewrite rp_agtr0, rp_round0.
  rewrite decide_True by (pose proof (slot_bound n); unfold slot_count, NORM_SLOT; lia).
  by rewrite decide_True by done.
Qed.

Lemma receive_reply lossy w s b p q d n r : winv lossy w s b p q d → (n < q)%nat → reply_ok n r → in_flight s n →
  ∃ mem, rx_receive true 0x0d00 r s = Done (after s n mem) ∧ winv lossy w (after s n mem) b p q d.
Proof.
  intros Hw Hn [] Hf. pose proof (wi_le _ _ _ _ _ _ _ Hw) as Hle.
  destruct (wi_tables _ _ _ _ _ _ _ Hw n) as (_ & _ & Hp); [lia|by apply in_flight_unfinished|].
  destruct (piece_n_spec program n rp_piece0) as (tk & len & [_ _ _ Hlen _ _ _ _]).
  destruct (write_piece (memory s) n _ rp_piece0 (wi_lengths _ _ _ _ _ _ _ Hw) rp_sum0) as (mem & Em & Hl & Hh & Hk).
  exists mem. split; [|apply winv_after; [done..|by left|done]].
  unfold rx_receive. rewrite rp_agtr0, rp_round0, rp_key0, rp_cmd0, rp_len0.
  rewrite decide_False by (unfold TENSOR_COMM, TENSOR_INIT, key_n; pose proof (Z.mod_pos_bound (Z.of_nat n) DPDK_KEY_TOTAL ltac:(done)); lia).
  rewrite decide_True by (pose proof (slot_bound n); unfold slot_count, NORM_SLOT; lia).
  destruct Hf as (Er & _). rewrite Er, decide_False by tauto. rewrite decide_False, decide_True by done. rewrite Hp.
  unfold mem_read. rewrite rp_length0, decide_True by (unfold MAX_ENTRIES_PER_PACKET; lia).
  unfold mbind, cres_bind, mret, cres_ret. rewrite Em, round_wrap by done. done.
Qed.

(** ** The beginning and the end *)

Lemma buffers_lookup w c tk len : program !! c = Some (tk, len) → buffers program data w !! c = Some (data w c).
Proof.
  intros Hc%lookup_lt_Some. unfold buffers. rewrite (imap_seq_0 _ (λ c, (c, data w c))). apply elem_of_list_to_map.
  - rewrite <-list_fmap_compose. change (fst ∘ _) with (@id nat). rewrite list_fmap_id. apply NoDup_seq.
  - apply list_elem_of_fmap. exists c. split; [done|]. apply elem_of_seq. lia.
Qed.

Lemma winv_init lossy w : winv lossy w (manager (buffers program data w)) 0 0 0 [].
Proof.
  assert (∀ a, round_at (manager (buffers program data w)) a = 0) as Hr.
  { intros a. cbn. unfold at_. by rewrite lookup_empty. }
  assert (∀ n, ¬ finished (manager (buffers program data w)) n) as Hn.
  { intros n. unfold finished. rewrite Hr. pose proof (round_nonneg n). lia. }
  split; try done; try (intros; lia).
  - split_and!; [lia|lia|done].
  - intros n Hf. by apply Hn in Hf.
  - intros n Hlt. unfold DPDK_KEY_TOTAL in Hlt. lia.
  - exists []. split_and!; [done|constructor|]. intros c. split; [by intros ?%elem_of_nil|]. intros [? _]. lia.
  - intros c tk len Hc. exists (data w c). split; [by eapply buffers_lookup|]. by eapply Hdata.
  - intros n Hl. split; [|by intros ?%Hn]. intros _.
    destruct (piece_n_spec program n Hl) as (tk & len & [Hp _ _ _ _ _ _ _]). eexists. split; [by eapply buffers_lookup|done].
Qed.

(** The buffer of a tensor that is complete, and of one that is not. *)
Lemma tensor_bytes w s b p q d c tk len lossy : winv lossy w s b p q d → program !! c = Some (tk, len) →
  ∃ buf, memory s !! c = Some buf ∧ length buf = Z.to_nat len ∧
    ∀ n, n ∈ pieces_at c →
      (∀ j, in_piece (piece_n n) j → buf !! j = data w c !! j) ∧ (lossy = false → ¬ finished s n) ∨
      (∀ j, in_piece (piece_n n) j → buf !! j = sum c !! j) ∧ finished s n.
Proof.
  intros [] Hc. destruct (wi_lengths0 _ _ _ Hc) as (buf & Hb & Hl). exists buf. split_and!; [done..|]. intros n Hn.
  destruct (pieces_at_bound _ Hprog _ _ _ _ Hc Hn) as (_ & Hnl & Ecall). destruct (wi_memory0 n Hnl) as [Hno Hyes].
  destruct (decide (finished s n)) as [Hf|Hf].
  - destruct (Hyes Hf) as [(buf' & E & Hv)|[-> (buf' & E & Hv)]]; rewrite Ecall in E, Hv; simplify_eq; [by right|by left].
  - destruct (Hno Hf) as (buf' & E & Hv). rewrite Ecall in E, Hv. simplify_eq. by left.
Qed.

Lemma complete_tensor w s b p q d c tk len : winv false w s b p q d → program !! c = Some (tk, len) → all_finished s c →
  memory s !! c = Some (sum c).
Proof.
  intros Hw Hc Hall. destruct (tensor_bytes _ _ _ _ _ _ _ _ _ _ Hw Hc) as (buf & -> & Hl & Hv). f_equal.
  apply list_eq. intros j. destruct (decide (Z.of_nat j < len)) as [Hj|].
  - destruct (in_piece_ex _ Hprog _ _ _ _ Hc Hj) as (n & Hn & _ & _ & Hin).
    destruct (Hv n Hn) as [[_ Hu]|[H _]]; [|by apply H]. by destruct (Hu eq_refl (Hall n Hn)).
  - pose proof (Hsum _ _ _ Hc). by rewrite !lookup_ge_None_2 by lia.
Qed.
End worker.
End AggWorker.
