(* ===== verification/AggServer.v ===== *)
(** * The server of the aggregation

    The software server on the workers' packets, in any order: an aggregator holds the
    sums of the packets of its round, and it replies to the last worker's with the
    sum of the piece over all workers. *)

From S2P Require Import Prelude BitIO Packet DpdkPkt SoftPS SoftPSProofs Dpdk Aggregation AggPieces AggWorker.

Module AggServer.
Import BitIO Packet DpdkPkt SoftPS SoftPSProofs Dpdk Aggregation AggPieces AggWorker.

(** ** Bytes of sums *)

(** The first bytes of a word that is a sum: those that do not overflow are right,
    whatever is in the bytes after them. *)
Lemma wrapped_word a b c d : is_byte a → 0 ≤ b → 0 ≤ c → 0 ≤ d → wrap 32 (le_word a b c d) mod 256 = a ∧
  (is_byte b → wrap 32 (le_word a b c d) / 2 ^ 8 mod 256 = b ∧
    (is_byte c → wrap 32 (le_word a b c d) / 2 ^ 16 mod 256 = c ∧
      (is_byte d → wrap 32 (le_word a b c d) / 2 ^ 24 mod 256 = d))).
Proof.
  unfold is_byte, wrap, le_word, be_word. intros. change (2 ^ Z.of_nat 32) with 4294967296.
  repeat (split; [Z.to_euclidean_division_equations; lia|intros]). Z.to_euclidean_division_equations; lia.
Qed.

Lemma wrapped_bytes n l : length l = (4 * n)%nat → Forall (λ x, 0 ≤ x) l → ∀ k, Forall is_byte (take k l) →
  take k ((wrap 32 <$> quads le_word l) ≫= le_bytes) = take k l.
Proof.
  revert n l. apply (quads_ind (λ _ l, Forall _ l → ∀ k, Forall _ (take k l) → _)); [by intros _ [|]|].
  intros n a b c d l _ IH. rewrite !Forall_cons. intros (Ha & Hb & Hc & Hd & Hl) k.
  cbn [quads fmap list_fmap mbind list_bind le_bytes app].
  destruct k as [|[|[|[|k]]]]; cbn [take]; rewrite ?Forall_cons; [done|..].
  - intros (H1 & _). by destruct (wrapped_word a b c d H1 Hb Hc Hd) as (-> & _).
  - intros (H1 & H2 & _). destruct (wrapped_word a b c d H1 Hb Hc Hd) as (-> & H). by destruct (H H2) as (-> & _).
  - intros (H1 & H2 & H3 & _). destruct (wrapped_word a b c d H1 Hb Hc Hd) as (-> & H). destruct (H H2) as (-> & H').
    by destruct (H' H3) as (-> & _).
  - intros (H1 & H2 & H3 & H4 & H5). destruct (wrapped_word a b c d H1 Hb Hc Hd) as (-> & H). destruct (H H2) as (-> & H').
    destruct (H' H3) as (-> & H''). rewrite (H'' H4). do 4 f_equal. by apply IH.
Qed.

(** ** Packets that the server has received *)

(** Worker, piece and vector. *)
Definition packet : Type := nat * nat * list Z.
Notation sender x := (fst (fst x)).
Notation number x := (snd (fst x)).

Definition of_piece (n : nat) (S : list packet) : list packet := filter (λ x, number x = n) S.
Definition served (W : nat) (S : list packet) (n : nat) : Prop := ∀ w, (w < W)%nat → ∃ v, (w, n, v) ∈ S.

Lemma of_piece_app n S S' : of_piece n (S ++ S') = of_piece n S ++ of_piece n S'.
Proof. apply filter_app. Qed.

Lemma of_piece_elem n S x : x ∈ of_piece n S ↔ number x = n ∧ x ∈ S.
Proof. unfold of_piece. by rewrite list_elem_of_filter. Qed.

Lemma senders_NoDup n (S : list packet) : NoDup S.*1 → NoDup (fst <$> (of_piece n S).*1).
Proof.
  intros HS. rewrite <-list_fmap_compose. induction S as [|x S IH]; [constructor|].
  cbn in HS. apply NoDup_cons in HS as [Hx HS]. unfold of_piece. rewrite filter_cons. case_decide as Hn; [|by apply IH].
  cbn. constructor; [|by apply IH]. intros (y & Ey & Hy%of_piece_elem)%list_elem_of_fmap. destruct Hy as [Hyn Hy].
  apply Hx, list_elem_of_fmap. exists y. split; [|done]. destruct x as [[? ?] ?], y as [[? ?] ?]. cbn in *. congruence.
Qed.

Lemma of_piece_bound W n S : NoDup S.*1 → (∀ x, x ∈ S → (sender x < W)%nat) → (length (of_piece n S) ≤ W)%nat.
Proof.
  intros HS HW. transitivity (length (fst <$> (of_piece n S).*1)); [by rewrite !length_fmap|].
  rewrite <-(length_seq W 0). apply submseteq_length, NoDup_submseteq; [by apply senders_NoDup|]. intros w Hw. rewrite <-list_fmap_compose in Hw.
  apply list_elem_of_fmap in Hw as (x & -> & [_ Hx]%of_piece_elem). apply elem_of_seq. pose proof (HW x Hx). cbn. lia.
Qed.

(** All workers are served when their packets are as many as they are. *)
Lemma served_count W n S : NoDup S.*1 → (∀ x, x ∈ S → (sender x < W)%nat) →
  (length (of_piece n S) = W → fst <$> (of_piece n S).*1 ≡ₚ seq 0 W) ∧ (length (of_piece n S) = W ↔ served W S n).
Proof.
  intros HS HW. set (l := fst <$> (of_piece n S).*1).
  assert (length l = length (of_piece n S)) as El by (unfold l; by rewrite !length_fmap).
  assert (l ⊆+ seq 0 W) as Hsub.
  { apply NoDup_submseteq; [by apply senders_NoDup|]. intros w Hw. unfold l in Hw. rewrite <-list_fmap_compose in Hw.
    apply list_elem_of_fmap in Hw as (x & -> & [_ Hx]%of_piece_elem). apply elem_of_seq. pose proof (HW x Hx). cbn. lia. }
  assert (length (of_piece n S) = W → l ≡ₚ seq 0 W) as Hperm.
  { intros E. apply submseteq_length_Permutation; [done|]. rewrite length_seq. lia. }
  split; [done|]. split.
  - intros E w Hw. assert (w ∈ l) as Hl by (rewrite Hperm, elem_of_seq by done; lia).
    unfold l in Hl. rewrite <-list_fmap_compose in Hl. apply list_elem_of_fmap in Hl as ([[w' n'] v] & -> & [Hn Hx]%of_piece_elem).
    cbn in *. subst n'. by exists v.
  - intros Hs. rewrite <-El, <-(length_seq W 0). apply Permutation_length, NoDup_Permutation; [by apply senders_NoDup|apply NoDup_seq|].
    intros w. split; [intros Hw; by eapply elem_of_submseteq|]. intros Hw%elem_of_seq. destruct (Hs w) as [v Hv]; [lia|].
    unfold l. rewrite <-list_fmap_compose. apply list_elem_of_fmap. exists (w, n, v). split; [done|]. by apply of_piece_elem.
Qed.

Section server.
Context (W : nat) (program : list (Z * Z)) (data : nat → nat → list Z) (junk : bool).
Notation pieces := (Aggregation.pieces program).
Notation piece_n := (AggPieces.piece_n program).
Notation sum_of := (Aggregation.sum_of W data).
Context (HW : (0 < W < 256)%nat).
Context (Hdata : ∀ w c tk len, program !! c = Some (tk, len) → length (data w c) = Z.to_nat len ∧ Forall is_byte (data w c)).
Context (Hsmall : ∀ c tk len, program !! c = Some (tk, len) → Forall is_byte (sum_of c len)).

Definition sums (c : nat) : list Z := match program !! c with Some (_, len) => sum_of c len | None => [] end.
Notation packet_ok := (AggWorker.packet_ok program data).
Notation reply_ok := (AggWorker.reply_ok program sums).
Notation request := (AggWorker.request program W).

Lemma sums_length c tk len : program !! c = Some (tk, len) → length (sums c) = Z.to_nat len.
Proof. intros Hc. unfold sums. rewrite Hc. apply length_total. Qed.

(** The sum of the packets of all workers for a piece is the sum of its bytes. *)
Lemma piece_sum n (C : list packet) j : (∀ x, x ∈ C → number x = n ∧ packet_ok (sender x) n x.2) →
  fst <$> C.*1 ≡ₚ seq 0 W → in_piece (piece_n n) j →
  lane_sum C.*2 (j - Z.to_nat (pc_off (piece_n n))) = lane_sum ((λ w, data w (pc_call (piece_n n))) <$> seq 0 W) j.
Proof.
  intros HC <- Hj. rewrite <-!list_fmap_compose. induction C as [|x C IH]; [done|].
  cbn [fmap list_fmap]. unfold lane_sum in *. cbn [foldr]. rewrite IH by (intros y Hy; apply HC; by right). f_equal.
  destruct (HC x) as [_ Hx]; [by left|]. unfold lane. cbn. by rewrite (pk_data _ _ _ _ _ Hx).
Qed.

(** The vector of the reply. *)
Lemma reply_sum n (C : list packet) : (n < length pieces)%nat → (∀ x, x ∈ C → number x = n ∧ packet_ok (sender x) n x.2) →
  fst <$> C.*1 ≡ₚ seq 0 W →
  let v := (wrap 32 <$> quads le_word (total (4 * MAX_ENTRIES_PER_PACKET) C.*2)) ≫= le_bytes in
  length v = (4 * MAX_ENTRIES_PER_PACKET)%nat ∧
  take (Z.to_nat (pc_len (piece_n n))) v = range (pc_off (piece_n n)) (pc_len (piece_n n)) (sums (pc_call (piece_n n))).
Proof.
  intros Hn HC HP v. destruct (piece_n_spec program n Hn) as (tk & len & [Hp _ Ho Hlen He _ _ _]). set (pc := piece_n n) in *.
  set (l := total (4 * MAX_ENTRIES_PER_PACKET) C.*2) in v.
  assert (length l = (4 * MAX_ENTRIES_PER_PACKET)%nat) as Hl by apply length_total.
  assert (length v = (4 * MAX_ENTRIES_PER_PACKET)%nat) as Hlv.
  { subst v. pose proof (length_quads le_word _ _ Hl) as Hq. revert Hq. generalize (quads le_word l) MAX_ENTRIES_PER_PACKET.
    intros q k <-. induction q as [|y q IH]; [done|]. cbn [fmap list_fmap mbind list_bind le_bytes app length]. rewrite IH. lia. }
  split; [done|].
  assert (Forall (λ x, 0 ≤ x) l) as Hpos.
  { subst l. unfold total. apply Forall_fmap, Forall_true. intros i. apply lane_sum_nonneg. apply Forall_fmap, Forall_forall.
    intros x Hx. destruct (HC x Hx) as [_ Hok]. eapply Forall_impl; [apply (pk_bytes _ _ _ _ _ Hok)|]. unfold is_byte. cbn. lia. }
  assert (take (Z.to_nat (pc_len pc)) l = range (pc_off pc) (pc_len pc) (sums (pc_call pc))) as E.
  { apply list_eq. intros i. unfold range, sums. rewrite Hp. destruct (decide (i < Z.to_nat (pc_len pc))%nat) as [Hi|].
    - rewrite !lookup_take_lt, lookup_drop by lia. subst l. unfold Aggregation.sum_of.
      rewrite !total_lookup by (unfold MAX_ENTRIES_PER_PACKET; lia). f_equal.
      pose proof (piece_sum n C (Z.to_nat (pc_off pc) + i) HC HP) as E. fold pc in E.
      rewrite <-E by (unfold in_piece; lia). f_equal. lia.
    - by rewrite !lookup_take_ge by lia. }
  subst v. rewrite wrapped_bytes with (n := MAX_ENTRIES_PER_PACKET); [done..|]. rewrite E. unfold range, sums. rewrite Hp.
  apply Forall_take, Forall_drop. by eapply Hsmall.
Qed.

(** ** The invariant *)

Record slot_inv (S : list packet) (a : Z) (p : ps_slot) : Prop := {
  si_round : 0 ≤ ps_round p;
  si_past : ∀ x, x ∈ S → slot_n (number x) = a → round_n (number x) ≤ ps_round p;
  si_reached : ps_round p = 0 ∨ ∃ x, x ∈ S ∧ slot_n (number x) = a ∧ round_n (number x) = ps_round p;
  si_count : ∀ n, slot_n n = a → round_n n = ps_round p → ps_count p = Z.of_nat (length (of_piece n S));
  si_data : ∀ n, slot_n n = a → round_n n = ps_round p → of_piece n S ≠ [] →
    data_slots p = wrap 32 <$> quads le_word (total (4 * MAX_ENTRIES_PER_PACKET) (of_piece n S).*2)
}.
Definition server_inv (S : list packet) (srv : ps) : Prop := ∀ a, slot_inv S a (ps_at (ps_slots srv) a).

Lemma server_init : server_inv [] ps_init.
Proof. intros a. unfold ps_at. cbn. rewrite lookup_empty. cbn. split; try done; [by intros ? ?%elem_of_nil|by left]. Qed.

(** A packet of a piece in another aggregator, or in another round. *)
Lemma slot_inv_other S x a p : slot_inv S a p → (slot_n (number x) = a → round_n (number x) < ps_round p) →
  slot_inv (S ++ [x]) a p.
Proof.
  intros [] Hx.
  assert (∀ n, slot_n n = a → round_n n = ps_round p → of_piece n (S ++ [x]) = of_piece n S) as Hof.
  { intros n Hs Hr. rewrite of_piece_app. unfold of_piece at 2. rewrite filter_cons, decide_False, filter_nil, app_nil_r; [done|].
    intros E. subst n. specialize (Hx Hs). lia. }
  split; [done| | | |].
  - intros y [Hy| ->%list_elem_of_singleton]%elem_of_app Hs; [by apply si_past0|]. specialize (Hx Hs). lia.
  - destruct si_reached0 as [?|(y & ? & ?)]; [by left|right]. exists y. split; [|done]. apply elem_of_app. by left.
  - intros n Hs Hr. rewrite Hof by done. by apply si_count0.
  - intros n Hs Hr. rewrite Hof by done. by apply si_data0.
Qed.

Context (S : list packet) (w n : nat) (v : list Z).
Context (HS : NoDup (S ++ [(w, n, v)]).*1) (HSW : ∀ x, x ∈ S ++ [(w, n, v)] → (sender x < W)%nat).
Context (Hok : ∀ x, x ∈ S ++ [(w, n, v)] → packet_ok (sender x) (number x) x.2).

Lemma of_new : of_piece n (S ++ [(w, n, v)]) = of_piece n S ++ [(w, n, v)].
Proof. rewrite of_piece_app. unfold of_piece at 2. by rewrite filter_cons, decide_True, filter_nil by done. Qed.

(** What the server stores for a packet that is not of an earlier round. *)
Lemma stored (p : ps_slot) : slot_inv S (slot_n n) p → ps_round p ≤ round_n n →
  let count := if decide (round_n n > ps_round p) then 1
    else if decide (ps_count p = Z.of_nat W) then 1 else wrap 8 (ps_count p + 1) in
  count = Z.of_nat (length (of_piece n (S ++ [(w, n, v)]))) ∧
  process_data count (data_slots p) (p4ml_hdrs (request w n v)) =
    wrap 32 <$> quads le_word (total (4 * MAX_ENTRIES_PER_PACKET) (of_piece n (S ++ [(w, n, v)])).*2).
Proof.
  intros [] Hr count. assert (packet_ok w n v) as [_ Hl Hb _] by (apply (Hok (w, n, v)), elem_of_app; right; by left).
  pose proof (of_piece_bound W n _ HS HSW) as Hbound. rewrite of_new, length_app in *. cbn [length] in *.
  rewrite fmap_app. cbn [fmap list_fmap snd]. unfold process_data, request. cbn [p4ml_hdrs data_hdr m_vector].
  assert (of_piece n S = [] → count = 1 ∧ quads le_word v = wrap 32 <$> quads le_word (total (4 * MAX_ENTRIES_PER_PACKET) [v])) as Hfirst.
  { intros E. rewrite total_one, (quads_wrap MAX_ENTRIES_PER_PACKET) by done. split; [|done]. subst count. case_decide; [done|].
    rewrite (si_count0 n) by (done || lia). rewrite E. cbn. rewrite decide_False by lia. done. }
  destruct (decide (of_piece n S = [])) as [E|Hne].
  - destruct (Hfirst E) as [-> Hq]. rewrite E. split; [done|]. by rewrite decide_True.
  - assert (round_n n = ps_round p) as Er.
    { destruct (of_piece n S) as [|x l] eqn:E; [done|]. assert (x ∈ of_piece n S) as Hx by (rewrite E; by left).
      apply of_piece_elem in Hx as [Hn Hx]. pose proof (si_past0 x Hx) as H. rewrite Hn in H. specialize (H eq_refl). lia. }
    assert (count = Z.of_nat (length (of_piece n S)) + 1) as Hc.
    { subst count. rewrite decide_False, (si_count0 n), decide_False by (done || lia). unfold wrap. rewrite Z.mod_small; [done|].
      change (2 ^ Z.of_nat 8) with 256. lia. }
    rewrite Hc. split; [lia|]. assert (length (of_piece n S) ≠ 0%nat) by (by destruct (of_piece n S)).
    rewrite decide_False, (si_data0 n) by (done || lia).
    rewrite (wrapped_sum MAX_ENTRIES_PER_PACKET) by (done || apply length_total). do 2 f_equal. by apply total_snoc.
Qed.

Lemma serve srv : server_inv S srv →
  ∃ srv' reply, ps_receive (Z.of_nat W) junk 0x0c00 (request w n v) srv = Done (srv', reply) ∧
    server_inv (S ++ [(w, n, v)]) srv' ∧
    (∀ r, reply = Some r → served W (S ++ [(w, n, v)]) n ∧ reply_ok n r) ∧
    (ps_round (ps_at (ps_slots srv) (slot_n n)) ≤ round_n n → served W (S ++ [(w, n, v)]) n → is_Some reply).
Proof.
  intros Hinv. set (p := ps_at (ps_slots srv) (slot_n n)). pose proof (Hinv (slot_n n)) as Hp. fold p in Hp.
  destruct (served_count W n _ HS HSW) as [Hperm Hserved].
  pose proof (slot_bound n) as Hslot. unfold MAX_AGTR_COUNT in Hslot.
  unfold ps_receive. change (m_agtr (p4ml_hdrs (request w n v))) with (wrap 16 (key_n n mod MAX_AGTR_COUNT)). rewrite key_slot.
  cbn [request m_shutdown m_cmd]. rewrite decide_False by (intros [(? & _)|?]; done). rewrite decide_True by (unfold TOTAL_AGTR_CNT; lia).
  fold p. change (m_roundNum (p4ml_hdrs (request w n v))) with (round_n n). change (m_num_worker (p4ml_hdrs (request w n v))) with (Z.of_nat W). destruct (decide (round_n n < ps_round p)) as [Hold|Hnew].
  - eexists _, _. split; [done|]. split_and!; [|done|lia]. intros a. apply slot_inv_other; [done|]. cbn. by intros <-.
  - destruct (stored p Hp) as [Hcount Hdat]; [lia|]. set (S' := S ++ [(w, n, v)]) in *.
    match goal with |- context [if decide (round_n n > ps_round p) then ?x else ?y] =>
      assert (∃ norm, (if decide (round_n n > ps_round p) then x else y) = (round_n n, Z.of_nat (length (of_piece n S')), norm))
        as [norm ->]
    end.
    { rewrite <-Hcount. destruct (decide (round_n n > ps_round p)); eexists; [done|].
      repeat f_equal; lia. }
    cbv beta iota zeta. rewrite (decide_True (P:=TENSOR_COMM = TENSOR_COMM)) by done.
    rewrite Hcount in Hdat. rewrite Hdat. 
    set (p' := λ b, PsSlot (round_n n) b norm (Z.of_nat (length (of_piece n S')))
      (wrap 32 <$> quads le_word (total (4 * MAX_ENTRIES_PER_PACKET) (of_piece n S').*2))).
    assert (∀ b, slot_inv S' (slot_n n) (p' b)) as Hp'.
    { intros b. split; cbn.
      - apply round_nonneg.
      - intros x [Hx| ->%list_elem_of_singleton]%elem_of_app Hs; [|done]. destruct Hp as [_ Hpast _ _ _].
        specialize (Hpast x Hx Hs). lia.
      - right. exists (w, n, v). split; [|done]. apply elem_of_app. right. by left.
      - intros m Hs Hr. by rewrite (round_slot_inj m n).
      - intros m Hs Hr _. by rewrite (round_slot_inj m n). }
    assert (∀ b sh, server_inv S' (Ps (<[slot_n n := p' b]> (ps_slots srv)) sh)) as Hsrv.
    { intros b sh a. cbn. rewrite ps_at_insert. destruct (decide (a = slot_n n)) as [->|Ha]; [apply Hp'|].
      apply slot_inv_other; [done|]. cbn. intros E. by destruct Ha. }
    destruct (decide (Z.of_nat (length (of_piece n S')) = Z.of_nat W)) as [Hall|Hall].
    + assert (served W S' n) as Hs by (apply Hserved; lia).
      eexists _, _. split; [done|]. split_and!; [apply Hsrv| |by eexists]. intros r [= <-]. split; [done|].
      destruct (reply_sum n (of_piece n S')) as [Hl Hv]; [| |by apply Hperm; lia|].
      * apply (Hok (w, n, v)), elem_of_app. right. by left.
      * intros x [Hx Hin]%of_piece_elem. split; [done|]. rewrite <-Hx. by apply Hok.
      * split; try done; [apply (Hok (w, n, v)), elem_of_app; right; by left|apply key_slot].
    + eexists _, _. split; [done|]. split_and!; [apply Hsrv|done|]. intros _ Hs. apply Hserved in Hs. lia.
Qed.
End server.
End AggServer.
