(* ===== verification/AggSystem.v ===== *)
(** * Workers, server and network together

    What holds of every state the system reaches, whatever the interleaving: the
    packets in flight are of pieces that their sender has sent, each one once; the
    replies in flight are sums over all workers; and what the workers and the server
    hold. From it, that the buffers hold nothing but own gradients and sums over all
    workers, and that without losses every tensor that is reported is the sum. *)

From S2P Require Import Prelude BitIO Packet DpdkPkt SoftPS SoftPSProofs Dpdk Aggregation AggPieces AggWorker AggServer.

Module AggSystem.
Import BitIO Packet DpdkPkt SoftPS SoftPSProofs Dpdk Aggregation AggPieces AggWorker AggServer.

Section system.
Context (W : nat) (program : list (Z * Z)) (data : nat → nat → list Z) (junk : bool).
Notation pieces := (Aggregation.pieces program).
Notation base := (Aggregation.base program).
Notation piece_n := (AggPieces.piece_n program).
Notation pieces_at := (AggPieces.pieces_at program).
Notation sums := (AggServer.sums W program data).
Notation packet_ok := (AggWorker.packet_ok program data).
Notation reply_ok := (AggWorker.reply_ok program sums).
Notation request := (AggWorker.request program W).
Notation winv := (AggWorker.winv program data sums).
Notation wstep := (Aggregation.wstep W program).
Notation step := (Aggregation.step W program junk).
Notation init := (Aggregation.init W program data).

(** The conditions: tensors are not empty and fit the rounds that 32 bits can number,
    and no sum of bytes overflows. *)
Record conditions : Prop := {
  co_workers : (0 < W < 256)%nat;
  co_program : ∀ c tk len, program !! c = Some (tk, len) → 0 < len;
  co_rounds : Z.of_nat (length pieces) ≤ MAX_AGTR_COUNT * (2 ^ 32 - 1);
  co_data : ∀ w c tk len, program !! c = Some (tk, len) → length (data w c) = Z.to_nat len ∧ Forall is_byte (data w c);
  co_sums : ∀ c tk len, program !! c = Some (tk, len) → Forall is_byte (sum_of W data c len)
}.
Context (Hco : conditions).

Lemma sums_len c tk len : program !! c = Some (tk, len) → length (sums c) = Z.to_nat len.
Proof. apply sums_length. Qed.

(** ** Workers *)

Definition sent (k : worker) : nat := w_pushed k - length (pushpulljobQueue (w_client k)).
Record worker_ok (lossy : bool) (w : nat) (k : worker) : Prop := {
  wo_inv : winv lossy w (w_client k) (w_begun k) (w_pushed k) (sent k) (w_done k);
  wo_tx : w_tx k = true → (sent k < w_pushed k)%nat
}.

Lemma worker_intro lossy w s b p q t d : winv lossy w s b p q d → (t = true → (q < p)%nat) →
  worker_ok lossy w (Worker s b p t d) ∧ sent (Worker s b p t d) = q.
Proof.
  intros Hw Ht. assert (sent (Worker s b p t d) = q) as E.
  { unfold sent. cbn. rewrite (wi_queue _ _ _ _ _ _ _ _ _ _ Hw), length_fmap, length_seq.
    pose proof (wi_le _ _ _ _ _ _ _ _ _ _ Hw). lia. }
  split; [|done]. split; rewrite E; done.
Qed.

(** A step of a worker on its own: pieces are sent in order, none is finished. *)
Lemma worker_step lossy w k m k' : worker_ok lossy w k → wstep w k m k' →
  worker_ok lossy w k' ∧ (∀ n, finished (w_client k') n ↔ finished (w_client k) n) ∧
  match m with
  | None => sent k' = sent k
  | Some r => sent k' = S (sent k) ∧ ∃ v, r = request w (sent k) v ∧ packet_ok w (sent k) v
  end.
Proof.
  destruct Hco as [HW Hprog HN Hdata Hsums]. intros [Hw Ht] Hstep.
  destruct Hstep as [s b t d tk len Hb Hk|s b p t d tk len pc Hb Hp Hc Hk|s b p d Hn|s b p d hdr s' m Hh Htx|s b p t d key s' Hne Hpoll];
    cbn [w_client w_begun w_pushed w_tx w_done] in *.
  - destruct (worker_intro lossy w _ _ _ _ t _ (winv_begin program data sums Hprog Hdata _ _ _ _ _ _ _ _ Hw Hb Hk) Ht) as [? E]. done.
  - assert (p < length pieces)%nat as Hpl by by eapply lookup_lt_Some.
    assert (pc = piece_n p) as -> by (unfold AggPieces.piece_n; by rewrite Hp).
    pose proof (winv_push program data sums HN _ _ _ _ _ _ _ _ _ Hw Hb Hpl Hc Hk) as Hw'.
    destruct (worker_intro _ _ _ _ _ _ t _ Hw') as [? E]; [intros Ht'; specialize (Ht Ht'); lia|].
    split_and!; [done| |done]. by rewrite (push_piece_job program HN _ _ _ _ _ Hpl Hb Hc (wi_key _ _ _ _ _ _ _ _ _ _ Hw)).
  - destruct (worker_intro _ _ _ _ _ _ true _ Hw) as [? E]; [|done]. intros _.
    destruct (decide (sent (Worker s b p false d) < p)%nat) as [|Hge]; [done|]. contradict Hn.
    unfold pkts_to_send. rewrite (wi_queue _ _ _ _ _ _ _ _ _ _ Hw). by replace (p - _)%nat with 0%nat by lia.
  - set (q := sent (Worker s b p true d)) in *. clearbody q.
    destruct (send_message program data sums Hdata _ _ _ _ _ _ _ _ _ _ _ Hw Hh Htx) as (Hq & Hb & -> & v & -> & Hok).
    destruct (worker_intro _ _ _ _ _ _ false _ (winv_send _ _ _ Hdata _ _ _ _ _ _ _ Hw Hq Hb)) as [? E]; [done|].
    split_and!; [done| |done|by exists v]. intros n. unfold finished. cbn. rewrite at_insert.
    destruct (decide (slot_n n = slot_n q)) as [->|]; [|done]. by rewrite (ready_round _ _ _ _ _ _ _ _ _ _ Hw Hb).
  - pose proof (winv_poll _ _ _ _ _ _ _ _ _ _ _ _ Hw Hne Hpoll) as Hw'.
    destruct (worker_intro _ _ _ _ _ _ t _ Hw') as [? E]; [done|]. split_and!; [done| |done].
    intros n. unfold PollFinishKey in Hpoll. destruct (finishKeys s); [done|]. by injection Hpoll as <- <-.
Qed.

(** ** The system

    The packets in flight, as the requests of the system, and those that the server
    has received. *)
Definition has_sent (ws : list worker) (x : packet) : Prop := ∃ k, ws !! sender x = Some k ∧ (number x < sent k)%nat.

Record lossless (ws : list worker) (reps : list (nat * TestMessage)) (G D : list packet) : Prop := {
  ll_sent : ∀ w k n, ws !! w = Some k → (n < sent k)%nat → ∃ v, (w, n, v) ∈ G ++ D;
  ll_served : ∀ w k n, ws !! w = Some k → served W D n →
    finished (w_client k) n ∨ ∃ r, (w, r) ∈ reps ∧ reply_ok n r;
  ll_finished : ∀ w k n, ws !! w = Some k → finished (w_client k) n → served W D n
}.
Record sinv (lossy : bool) (y : sys) (G D : list packet) : Prop := {
  iv_length : length (y_workers y) = W;
  iv_workers : ∀ w k, y_workers y !! w = Some k → worker_ok lossy w k;
  iv_requests : y_requests y = (λ x, request (sender x) (number x) x.2) <$> G;
  iv_packets : ∀ x, x ∈ G ++ D → packet_ok (sender x) (number x) x.2 ∧ has_sent (y_workers y) x;
  iv_once : NoDup (G ++ D).*1;
  iv_server : server_inv D (y_ps y);
  iv_replies : ∀ w r, (w, r) ∈ y_replies y → (w < W)%nat ∧ ∃ n, reply_ok n r ∧ served W D n;
  iv_lossless : lossy = false → lossless (y_workers y) (y_replies y) G D
}.
Definition inv (lossy : bool) (y : sys) : Prop := ∃ G D, sinv lossy y G D.

Lemma has_sent_update ws w k k' x : ws !! w = Some k → (sent k ≤ sent k')%nat → has_sent ws x → has_sent (<[w:=k']> ws) x.
Proof.
  intros Hk Hle (j & Hj & Hx). destruct (decide (sender x = w)) as [E|Hne].
  - exists k'. rewrite E, list_lookup_insert_eq by by eapply lookup_lt_Some. split; [done|]. rewrite E in Hj. simplify_eq. lia.
  - exists j. by rewrite list_lookup_insert_ne.
Qed.

Lemma worker_update (P : nat → worker → Prop) (ws : list worker) w k' :
  (∀ i k, ws !! i = Some k → P i k) → P w k' → ∀ i k, <[w:=k']> ws !! i = Some k → P i k.
Proof. intros H Hk' i k [(-> & <- & _)|[Hne Hi]]%list_lookup_insert_Some; [done|by apply H]. Qed.

Lemma reply_unique n n' r : reply_ok n r → reply_ok n' r → n = n'.
Proof. intros [] []. apply round_slot_inj; congruence. Qed.

(** Of the pieces of an aggregator that a worker has sent, all but the last one are
    finished. *)
Lemma sent_before lossy w k n n' : worker_ok lossy w k → (n < n')%nat → (n' < sent k)%nat → slot_n n = slot_n n' →
  finished (w_client k) n.
Proof.
  intros [Hw _] Hlt Hn' Es. destruct (wi_sent _ _ _ _ _ _ _ _ _ _ Hw n) as [?|(En & _)]; [lia|done|]. exfalso.
  assert (round_n n < round_n n') as Hr.
  { pose proof (round_slot n). pose proof (round_slot n'). unfold MAX_AGTR_COUNT in *. lia. }
  destruct (wi_sent _ _ _ _ _ _ _ _ _ _ Hw n') as [Hf|(En' & _)]; [lia| |]; unfold finished in *; rewrite Es in *; lia.
Qed.

Lemma served_sent y G D lossy w k n : sinv lossy y G D → y_workers y !! w = Some k → served W D n → (n < sent k)%nat.
Proof.
  intros Hy Hk Hs. pose proof (lookup_lt_Some _ _ _ Hk) as Hw. rewrite (iv_length _ _ _ _ Hy) in Hw.
  destruct (Hs w Hw) as [v Hv]. destruct (iv_packets _ _ _ _ Hy (w, n, v)) as (_ & k' & Hk' & Hn); [apply elem_of_app; by right|].
  cbn in *. by simplify_eq.
Qed.

Lemma served_mono D D' n : D ⊆ D' → served W D n → served W D' n.
Proof. intros H Hs w Hw. destruct (Hs w Hw) as [v Hv]. exists v. by apply H. Qed.

Lemma inv_init lossy : inv lossy init.
Proof.
  destruct Hco as [HW Hprog HN Hdata Hsums]. exists [], [].
  assert (∀ w k, y_workers init !! w = Some k → k = Worker (manager (buffers program data w)) 0 0 false []) as Hk.
  { intros w k. cbn. rewrite list_lookup_fmap. intros (i & Hi & ->)%fmap_Some. by apply lookup_seq in Hi as [-> _]. }
  split; try done.
  - cbn. by rewrite length_fmap, length_seq.
  - intros w k ->%Hk. eapply worker_intro; [by apply winv_init|done].
  - by intros x ?%elem_of_nil.
  - constructor.
  - apply server_init.
  - by intros w r ?%elem_of_nil.
  - intros _. split.
    + intros w k n ->%Hk. cbn. lia.
    + intros w k n _ Hs. destruct (Hs 0%nat) as [v ?%elem_of_nil]; [lia|done].
    + intros w k n ->%Hk Hf. apply (wi_finished _ _ _ _ _ _ _ _ _ _ (winv_init program data sums Hdata lossy w)) in Hf. lia.
Qed.

(** ** Each step keeps it *)

Lemma inv_worker lossy w ws k k' m srv reqs reps : ws !! w = Some k → wstep w k m k' →
  inv lossy (Sys ws srv reqs reps) → inv lossy (Sys (<[w:=k']> ws) srv (reqs ++ option_list m) reps).
Proof.
  intros Hk Hstep (G & D & Hy). destruct Hy as [Hl Hws Hreq Hp Hn Hsrv Hrep Hll]. cbn in *.
  destruct (worker_step lossy w k m k' (Hws _ _ Hk) Hstep) as (Hok & Hfin & Hm).
  assert (sent k ≤ sent k')%nat as Hle by (destruct m; lia).
  assert (∃ new : list packet, option_list m = (λ x, request (sender x) (number x) x.2) <$> new ∧
    (∀ x, x ∈ new → sender x = w ∧ number x = sent k ∧ packet_ok (sender x) (number x) x.2 ∧ (number x < sent k')%nat) ∧
    NoDup new.*1 ∧ (∀ n, (n < sent k')%nat → (n < sent k)%nat ∨ ∃ v, (w, n, v) ∈ new)) as (new & Hnew & Hin & Hnd & Hall).
  { destruct m as [r|].
    - destruct Hm as (E & v & -> & Hv). exists [(w, sent k, v)]. split_and!; [done| |apply NoDup_singleton|].
      + intros x ->%list_elem_of_singleton. cbn. split_and!; [done..|lia].
      + intros n Hlt. destruct (decide (n = sent k)) as [->|]; [right; exists v; by left|left; lia].
    - exists []. split_and!; [done|by intros x ?%elem_of_nil|constructor|]. intros n Hlt. left. lia. }
  exists (G ++ new), D.
  assert (∀ x, x ∈ (G ++ new) ++ D ↔ x ∈ G ++ D ∨ x ∈ new) as Hmem by (intros x; rewrite !elem_of_app; tauto).
  split; cbn.
  - by rewrite length_insert.
  - by apply worker_update.
  - by rewrite Hreq, Hnew, fmap_app.
  - intros x [Hx|Hx]%Hmem.
    + destruct (Hp x Hx) as [? ?]. split; [done|]. by eapply has_sent_update.
    + destruct (Hin x Hx) as (E & _ & ? & ?). split; [done|]. exists k'. rewrite E, list_lookup_insert_eq; [done|].
      by eapply lookup_lt_Some.
  - rewrite <-app_assoc, (Permutation_app_comm new), app_assoc, fmap_app. apply NoDup_app. split_and!; [done| |done].
    intros ? (x & -> & Hx)%list_elem_of_fmap (z & Ez & Hz)%list_elem_of_fmap.
    destruct (Hp x Hx) as (_ & j & Hj & Hlt). destruct (Hin z Hz) as (E1 & E2 & _). rewrite Ez, E1 in Hj. rewrite Ez, E2 in Hlt.
    simplify_eq. lia.
  - done.
  - done.
  - intros Hlossy. destruct (Hll Hlossy) as [H1 H2 H3]. split.
    + intros i j n Hj Hlt. apply list_lookup_insert_Some in Hj as [(<- & <- & _)|[Hne Hj]].
      * destruct (Hall n Hlt) as [Hlt'|[v Hv]]; [|exists v; apply Hmem; by right].
        destruct (H1 _ _ _ Hk Hlt') as [v Hv]. exists v. apply Hmem. by left.
      * destruct (H1 _ _ _ Hj Hlt) as [v Hv]. exists v. apply Hmem. by left.
    + intros i j n Hj Hs. apply list_lookup_insert_Some in Hj as [(<- & <- & _)|[Hne Hj]]; [rewrite Hfin|]; by eapply H2.
    + intros i j n Hj Hf. apply list_lookup_insert_Some in Hj as [(<- & <- & _)|[Hne Hj]]; [apply Hfin in Hf|]; by eapply H3.
Qed.

(** A packet that the server has not received is not of an earlier round, as the
    workers in a later one would have finished its piece. *)
Lemma not_stale ws srv reqs reps G1 x G2 D : sinv false (Sys ws srv reqs reps) (G1 ++ x :: G2) D →
  ps_round (ps_at (ps_slots srv) (slot_n (number x))) ≤ round_n (number x).
Proof.
  intros Hy. set (p := ps_at _ _). destruct (decide (ps_round p ≤ round_n (number x))) as [|Hgt]; [done|]. exfalso.
  destruct (si_reached _ _ _ (iv_server _ _ _ _ Hy (slot_n (number x)))) as [E|(z & Hz & Es & Er)]; cbn in *; fold p in E || fold p in Er.
  { pose proof (round_nonneg (number x)). lia. }
  destruct (iv_packets _ _ _ _ Hy z) as (_ & k & Hk & Hlt); [apply elem_of_app; by right|].
  assert (finished (w_client k) (number x)) as Hf.
  { eapply sent_before; [by apply (iv_workers _ _ _ _ Hy)| |exact Hlt|done].
    pose proof (round_slot (number x)). pose proof (round_slot (number z)). unfold MAX_AGTR_COUNT in *. lia. }
  pose proof (ll_finished _ _ _ _ (iv_lossless _ _ _ _ Hy eq_refl) _ _ _ Hk Hf) as Hs.
  destruct (iv_packets _ _ _ _ Hy x) as (_ & k' & Hk' & _); [apply elem_of_app; left; apply elem_of_app; right; by left|].
  pose proof (lookup_lt_Some _ _ _ Hk') as Hw. pose proof (iv_length _ _ _ _ Hy) as Hl. cbn in *. rewrite Hl in Hw.
  destruct (Hs _ Hw) as [v Hv]. pose proof (iv_once _ _ _ _ Hy) as Hn. rewrite !fmap_app, <-app_assoc in Hn.
  apply NoDup_app in Hn as (_ & _ & Hn). cbn in Hn. apply NoDup_cons in Hn as [Hn _]. apply Hn, elem_of_app. right.
  apply list_elem_of_fmap. exists (sender x, number x, v). split; [by destruct x as [[]]|done].
Qed.

Lemma inv_serve lossy ws srv srv' m reply reqs1 reqs2 reps : ps_receive (Z.of_nat W) junk 0x0c00 m srv = Done (srv', reply) →
  inv lossy (Sys ws srv (reqs1 ++ m :: reqs2) reps) →
  inv lossy (Sys ws srv' (reqs1 ++ reqs2) (reps ++ match reply with Some r => (λ w, (w, r)) <$> seq 0 W | None => [] end)).
Proof.
  intros Hps (G & D & Hy). pose proof Hy as [Hl Hws Hreq Hp Hn Hsrv Hrep Hll]. cbn [y_workers y_ps y_requests y_replies] in *.
  symmetry in Hreq. apply fmap_app_inv in Hreq as (G1 & G2' & -> & Ereq & ->). symmetry in Ereq.
  apply fmap_cons_inv in Ereq as (x & G2 & -> & -> & ->).
  exists (G1 ++ G2), (D ++ [x]).
  assert ((G1 ++ x :: G2) ++ D ≡ₚ (G1 ++ G2) ++ D ++ [x]) as Hperm by solve_Permutation.
  assert (∀ z, z ∈ D ++ [x] → packet_ok (sender z) (number z) z.2 ∧ has_sent ws z) as HD.
  { intros z Hz. apply Hp. rewrite Hperm. apply elem_of_app. by right. }
  destruct x as [[w n] v]. cbn [fst snd] in Hps.
  destruct (serve W program data junk (co_workers Hco) (co_sums Hco) D w n v) with (srv := srv)
    as (srv1 & reply1 & E & Hsrv' & Hr & Hsome).
  { rewrite Hperm, fmap_app in Hn. by apply NoDup_app in Hn as (_ & _ & Hn). }
  { intros z Hz. destruct (HD z Hz) as (_ & k & Hk & _). rewrite <-Hl. by eapply lookup_lt_Some. }
  { intros z Hz. by apply HD. }
  { done. }
  rewrite E in Hps. injection Hps as <- <-.
  assert (D ⊆ D ++ [(w, n, v)]) as Hsub by (intros z Hz; apply elem_of_app; by left).
  split; cbn; try done.
  - by rewrite fmap_app.
  - intros z. rewrite <-Hperm. apply Hp.
  - by rewrite <-Hperm.
  - intros i r [Hi|Hi]%elem_of_app.
    + destruct (Hrep i r Hi) as (? & n' & ? & Hs). split; [done|]. exists n'. split; [done|]. by eapply served_mono.
    + destruct reply1 as [r'|]; [|by apply elem_of_nil in Hi]. apply list_elem_of_fmap in Hi as (j & [= -> ->] & Hj%elem_of_seq).
      split; [lia|]. exists n. destruct (Hr r' eq_refl). done.
  - intros ->. destruct (Hll eq_refl) as [H1 H2 H3]. split.
    + intros i k n' Hk Hlt. destruct (H1 i k n' Hk Hlt) as [v' Hv']. exists v'. by rewrite <-Hperm.
    + intros i k n' Hk Hs. destruct (decide (n' = n)) as [->|Hne].
      * right. destruct (Hsome (not_stale _ _ _ _ _ _ _ _ Hy) Hs) as [r ->]. exists r. split; [|by destruct (Hr r eq_refl)].
        apply elem_of_app. right. apply list_elem_of_fmap. exists i. split; [done|]. apply elem_of_seq.
        pose proof (lookup_lt_Some _ _ _ Hk). lia.
      * destruct (H2 i k n' Hk) as [?|(r & ? & ?)]; [|by left|right; exists r; split; [apply elem_of_app; by left|done]].
        intros j Hj. destruct (Hs j Hj) as [v' [Hv'|Hv']%elem_of_app]; [by exists v'|].
        apply list_elem_of_singleton in Hv'. congruence.
    + intros i k n' Hk Hf. eapply served_mono; [done|by eapply H3].
Qed.

(** The worker a reply is for waits for it, or has finished the piece. *)
Lemma inv_receive lossy w ws s s' b p t d srv reqs m reps1 reps2 : ws !! w = Some (Worker s b p t d) →
  rx_receive true 0x0d00 m s = Done s' → inv lossy (Sys ws srv reqs (reps1 ++ (w, m) :: reps2)) →
  inv lossy (Sys (<[w := Worker s' b p t d]> ws) srv reqs (reps1 ++ reps2)).
Proof.
  destruct Hco as [HW Hprog HN Hdata Hsums]. intros Hk Hrx (G & D & Hy). pose proof Hy as [Hl Hws Hreq Hp Hn Hsrv Hrep Hll]. cbn in *.
  destruct (Hrep w m) as (_ & n & Hr & Hs); [apply elem_of_app; right; by left|].
  pose proof (served_sent _ _ _ _ _ _ _ Hy Hk Hs) as Hlt. pose proof (Hws _ _ Hk) as [Hw Ht]. cbn in Hw, Ht.
  set (k := Worker s b p t d) in *.
  assert (worker_ok lossy w (Worker s' b p t d) ∧ sent (Worker s' b p t d) = sent k ∧
    (∀ n', finished s' n' ↔ finished s n' ∨ n' = n)) as (Hok & Es & Hfin).
  { destruct (wi_sent _ _ _ _ _ _ _ _ _ _ Hw n Hlt) as [Hf|Hf].
    - rewrite (receive_other program sums s n m Hr) in Hrx by (unfold finished in Hf; lia). injection Hrx as <-.
      split_and!; [by split|done|]. intros n'. split; [by left|]. by intros [?| ->].
    - destruct (receive_reply program data sums Hprog HN Hdata sums_len _ _ _ _ _ _ _ _ _ Hw Hlt Hr Hf) as (mem & E & Hw').
      rewrite E in Hrx. injection Hrx as <-. destruct (worker_intro _ _ _ _ _ _ t _ Hw' Ht) as [? ?].
      split_and!; [done..|]. by apply after_finished. }
  exists G, D. split; cbn; try done.
  - by rewrite length_insert.
  - by apply worker_update.
  - intros x Hx. destruct (Hp x Hx) as [? ?]. split; [done|]. eapply has_sent_update; [exact Hk|lia|done].
  - intros i r Hi. apply Hrep. rewrite elem_of_app, elem_of_cons in *. tauto.
  - intros Hlossy. destruct (Hll Hlossy) as [H1 H2 H3]. split.
    + intros i j n' Hj Hlt'. apply list_lookup_insert_Some in Hj as [(<- & <- & _)|[Hne Hj]]; [|by eapply H1].
      rewrite Es in Hlt'. by eapply H1.
    + intros i j n' Hj Hs'. apply list_lookup_insert_Some in Hj as [(<- & <- & _)|[Hne Hj]].
      * cbn. rewrite Hfin. destruct (decide (n' = n)); [left; by right|].
        destruct (H2 _ _ _ Hk Hs') as [?|(r & Hin & ?)]; [left; by left|right]. exists r. split; [|done].
        rewrite elem_of_app, elem_of_cons in *. destruct Hin as [?|[[= ->]|?]]; [by left| |by right].
        by assert (n' = n) by by eapply reply_unique.
      * destruct (H2 _ _ _ Hj Hs') as [?|(r & Hin & ?)]; [by left|right]. exists r. split; [|done].
        rewrite elem_of_app, elem_of_cons in *. destruct Hin as [?|[[= -> ->]|?]]; [by left|done|by right].
    + intros i j n' Hj Hf. apply list_lookup_insert_Some in Hj as [(<- & <- & _)|[Hne Hj]]; [|by eapply H3].
      apply Hfin in Hf as [?| ->]; [by eapply (H3 _ k)|done].
Qed.

Lemma inv_step lossy y y' : inv lossy y → step lossy y y' → inv lossy y'.
Proof.
  intros Hy Hstep. destruct Hstep as [w ws k k' m srv reqs reps Hk Hw|ws srv srv' m reply reqs1 reqs2 reps Hps
    |w ws s s' b p t d srv reqs m reps1 reps2 Hk Hrx|ws srv reqs1 m reqs2 reps Hlossy|ws srv reqs reps1 wm reps2 Hlossy
    |w ws s b p t d i srv reqs reps Hlossy Hi Hk].
  - by eapply inv_worker.
  - by eapply inv_serve.
  - by eapply inv_receive.
  - subst lossy. destruct Hy as (G & D & [Hl Hws Hreq Hp Hn Hsrv Hrep _]). cbn in *.
    symmetry in Hreq. apply fmap_app_inv in Hreq as (G1 & G2' & -> & Ereq & ->). symmetry in Ereq.
    apply fmap_cons_inv in Ereq as (x & G2 & -> & -> & ->).
    assert ((G1 ++ x :: G2) ++ D ≡ₚ x :: (G1 ++ G2) ++ D) as Hperm by solve_Permutation.
    exists (G1 ++ G2), D. split; cbn; try done.
    + by rewrite fmap_app.
    + intros z Hz. apply Hp. rewrite Hperm. by right.
    + rewrite Hperm in Hn. by apply NoDup_cons in Hn as [_ ?].
  - subst lossy. destruct Hy as (G & D & [Hl Hws Hreq Hp Hn Hsrv Hrep _]). cbn in *.
    exists G, D. split; cbn; try done. intros i r Hi. apply Hrep. rewrite elem_of_app, elem_of_cons in *. tauto.
  - subst lossy. destruct Hy as (G & D & [Hl Hws Hreq Hp Hn Hsrv Hrep _]). cbn in *. pose proof (Hws _ _ Hk) as [Hw Ht]. cbn [w_client w_begun w_pushed w_tx w_done] in Hw, Ht.
    destruct Hco as [HW Hprog HN Hdata Hsums].
    destruct (worker_intro _ _ _ _ _ _ t _ (winv_reset program data sums Hprog HN Hdata _ _ _ _ _ _ i Hw) Ht) as [Hok Es].
    exists G, D. split; cbn; try done.
    + by rewrite length_insert.
    + by apply worker_update.
    + intros x Hx. destruct (Hp x Hx) as [? ?]. split; [done|]. eapply has_sent_update; [exact Hk|lia|done].
Qed.

Lemma system_inv lossy y : rtc (step lossy) init y → inv lossy y.
Proof. intros H. eapply rtc_ind_r; [apply inv_init| |exact H]. intros ? ? _ ? ?. by eapply inv_step. Qed.

(** ** What is in the buffers *)

(** The pieces of a tensor are its blocks of 1024 bytes. *)
Lemma block_pieces c tk len buf src i : program !! c = Some (tk, len) →
  length buf = Z.to_nat len → length src = Z.to_nat len →
  (∀ n, n ∈ pieces_at c → n = (base c + i)%nat → ∀ j, in_piece (piece_n n) j → buf !! j = src !! j) →
  range (DPDK_ELEMENT_NUM * Z.of_nat i) DPDK_ELEMENT_NUM buf = range (DPDK_ELEMENT_NUM * Z.of_nat i) DPDK_ELEMENT_NUM src.
Proof.
  intros Hc Hl Hls H. apply list_eq. intros j. unfold range. rewrite element_num.
  destruct (decide (j < Z.to_nat 1024)%nat) as [Hj|]; [|by rewrite !lookup_take_ge by lia].
  rewrite !lookup_take_lt, !lookup_drop by done. set (a := (Z.to_nat (1024 * Z.of_nat i) + j)%nat).
  destruct (decide (Z.of_nat a < len)) as [Ha|]; [|by rewrite !lookup_ge_None_2 by lia].
  destruct (in_piece_ex _ (co_program Hco) _ _ _ _ Hc Ha) as (n & Hn & Hnl & Ecall & Hin). apply (H n Hn); [|done].
  destruct (piece_n_spec program n Hnl) as (tk' & len' & Hs). pose proof (pp_number _ _ _ _ _ Hs) as Eo.
  pose proof (pp_base _ _ _ _ _ Hs) as Hb. pose proof (pp_len _ _ _ _ _ Hs) as Hlen. rewrite Ecall in *.
  unfold in_piece in Hin. subst a. lia.
Qed.


(** C1: Without losses, the keys that are reported are those of different tensors, and
    their buffers hold the sum over all workers. *)
Theorem aggregation_exact y w k : rtc (step false) init y → y_workers y !! w = Some k →
  ∃ L, w_done k ++ finishKeys (w_client k) = call_key program <$> L ∧ NoDup L ∧
    ∀ c, c ∈ L → ∃ len, program !! c = Some (call_key program c, len) ∧ memory (w_client k) !! c = Some (sum_of W data c len).
Proof.
  intros (G & D & Hy)%system_inv Hk. pose proof (iv_workers _ _ _ _ Hy _ _ Hk) as [Hw _].
  destruct (wi_done _ _ _ _ _ _ _ _ _ _ Hw) as (L & E & HL & Hin). exists L. split_and!; [done..|].
  intros c [Hc Hall]%Hin. destruct (wi_begun _ _ _ _ _ _ _ _ _ _ Hw) as (Hb & _).
  destruct (lookup_lt_is_Some_2 program c) as [[tk len] Ec]; [lia|]. exists len. unfold call_key. rewrite Ec. split; [done|].
  rewrite (complete_tensor program data sums (co_program Hco) sums_len _ _ _ _ _ _ _ _ _ Hw Ec Hall).
  unfold AggServer.sums. by rewrite Ec.
Qed.
End system.
End AggSystem.
