(* ===== verification/AggLive.v ===== *)
(** * The aggregation makes progress

    Without losses: the system is never stuck before all tensors are reported, unless
    a sending thread has a queue whose length is a multiple of 65536; and it takes a
    bounded number of steps. *)

From S2P Require Import Prelude BitIO Packet DpdkPkt SoftPS SoftPSProofs Dpdk Aggregation AggPieces AggWorker AggServer AggSystem.

Module AggLive.
Import BitIO Packet DpdkPkt SoftPS SoftPSProofs Dpdk Aggregation AggPieces AggWorker AggServer AggSystem.

(** A worker that has sent least. *)
Lemma least_ex {A} (f : A → nat) (l : list A) : l ≠ [] → ∃ i x, l !! i = Some x ∧ ∀ y, y ∈ l → (f x ≤ f y)%nat.
Proof.
  induction l as [|x l IH]; [done|]. intros _. destruct l as [|z l].
  - exists 0%nat, x. split; [done|]. by intros y ->%list_elem_of_singleton.
  - destruct IH as (i & u & Hi & Hu); [done|]. destruct (decide (f x ≤ f u)%nat) as [Hle|Hgt].
    + exists 0%nat, x. split; [done|]. intros y [->|Hy]%elem_of_cons; [done|]. specialize (Hu y Hy). lia.
    + exists (S i), u. split; [done|]. intros y [->|Hy]%elem_of_cons; [lia|by apply Hu].
Qed.

Section live.
Context (W : nat) (program : list (Z * Z)) (data : nat → nat → list Z) (junk : bool).
Notation pieces := (Aggregation.pieces program).
Notation base := (Aggregation.base program).
Notation piece_n := (AggPieces.piece_n program).
Notation pieces_at := (AggPieces.pieces_at program).
Notation sums := (AggServer.sums W program data).
Notation step := (Aggregation.step W program junk).
Notation wstep := (Aggregation.wstep W program).
Notation init := (Aggregation.init W program data).
Notation conditions := (AggSystem.conditions W program data).

(** ** The number of steps *)

Definition worker_work (k : worker) : nat :=
  (length program - w_begun k) + (length pieces - w_pushed k) * (2 * W + 4) +
  length (pushpulljobQueue (w_client k)) * (2 * W + 3) + (if w_tx k then 0 else 1) + length (finishKeys (w_client k)).
Definition work (y : sys) : nat :=
  sum_list_with worker_work (y_workers y) + length (y_requests y) * (2 * W + 1) + length (y_replies y) * 2.

Lemma sum_list_update (ws : list worker) w k k' : ws !! w = Some k →
  (sum_list_with worker_work (<[w:=k']> ws) + worker_work k = sum_list_with worker_work ws + worker_work k')%nat.
Proof.
  intros Hk. rewrite <-(take_drop_middle ws w k Hk) at 2. pose proof (lookup_lt_Some _ _ _ Hk).
  rewrite insert_take_drop, !sum_list_with_app by done. cbn. lia.
Qed.

(** The receiving thread reports one key at most. *)
Lemma receive_work m s s' : rx_receive true 0x0d00 m s = Done s' →
  pushpulljobQueue s' = pushpulljobQueue s ∧ (length (finishKeys s') ≤ S (length (finishKeys s)))%nat.
Proof.
  assert (∀ key s, pushpulljobQueue (finish_part key s) = pushpulljobQueue s ∧
    (length (finishKeys (finish_part key s)) ≤ S (length (finishKeys s)))%nat) as Hf.
  { intros key t. split; [done|]. cbn. case_decide; [rewrite length_app; cbn|]; lia. }
  unfold rx_receive, mret, cres_ret. case_decide; [intros [= <-]; split; [done|lia]|].
  case_decide; [|done]. case_decide; [intros [= <-]; split; [done|lia]|].
  case_decide; [intros [= <-]; cbn; split; [done|lia]|].
  case_decide; [|unfold mbind, cres_bind; intros [= <-]; apply Hf].
  destruct (cpubuff_table s !! m_key m) as [p|]; [|unfold mbind, cres_bind; intros [= <-]; apply Hf].
  unfold mbind, cres_bind. destruct (mem_read _ _) as [bytes| | |]; try done.
  destruct (mem_write _ _ _) as [mem| | |]; try done. intros [= <-]. apply (Hf (m_key m) (set_memory mem s)).
Qed.

Lemma wstep_work w k m k' : wstep w k m k' →
  (worker_work k' + match m with Some _ => 2 * W + 1 | None => 0 end < worker_work k)%nat.
Proof.
  intros [s b t d tk len Hb Hk|s b p t d tk len pc Hb Hp Hc Hk|s b p d Hn|s b p d hdr s' r Hh Htx|s b p t d key s' Hne Hpoll];
    unfold worker_work; cbn [w_client w_begun w_pushed w_tx w_done option_list length].
  - apply lookup_lt_Some in Hb. cbn. lia.
  - apply lookup_lt_Some in Hp. cbn [push_piece pushpulljobQueue finishKeys]. rewrite length_app. cbn [length].
    destruct (length pieces - p)%nat as [|j] eqn:E; [lia|]. replace (length pieces - S p)%nat with j by lia. lia.
  - lia.
  - unfold tx_send in Htx. destruct (pushpulljobQueue s) as [|job q]; [done|]. destruct (slot_ready s _); [|done].
    injection Htx as <- <-. cbn [set_slot set_queue pushpulljobQueue finishKeys length]. lia.
  - unfold PollFinishKey in Hpoll. destruct (finishKeys s) as [|key0 keys] eqn:E; [done|]. injection Hpoll as <- <-.
    cbn [set_finish pushpulljobQueue finishKeys length]. lia.
Qed.

Lemma step_work y y' : step false y y' → (work y' < work y)%nat.
Proof.
  intros [w ws k k' m srv reqs reps Hk Hw|ws srv srv' m reply reqs1 reqs2 reps Hps
    |w ws s s' b p t d srv reqs m reps1 reps2 Hk Hrx|?|?|?]; try done; unfold work; cbn [y_workers y_requests y_replies].
  - pose proof (sum_list_update ws w k k' Hk). pose proof (wstep_work w k m k' Hw). rewrite length_app.
    assert (length (option_list m) = match m with Some _ => 1 | None => 0 end)%nat as -> by by destruct m.
    destruct m; lia.
  - rewrite !length_app. cbn [length]. destruct reply; rewrite ?length_fmap, ?length_seq; cbn [length]; lia.
  - pose proof (sum_list_update ws w _ (Worker s' b p t d) Hk) as E. destruct (receive_work m s s' Hrx) as [E1 E2].
    unfold worker_work at 2 4 in E. cbn [w_client w_begun w_pushed w_tx w_done] in E. rewrite E1 in E.
    rewrite !length_app. cbn [length]. lia.
Qed.

(** C8: Without losses every execution ends, after a number of steps that is linear in the
    number of pieces and, for each of them, in the number of workers. *)
Theorem aggregation_terminates n y : nsteps (step false) n init y →
  (n ≤ W * (length program + length pieces * (2 * W + 4) + 1))%nat.
Proof.
  assert (∀ x, nsteps (step false) n x y → n + work y ≤ work x)%nat as H.
  { intros x Hn. induction Hn as [|n x x' y Hs _ IH]; [lia|]. pose proof (step_work _ _ Hs). lia. }
  intros Hn%H. assert (work init = W * (length program + length pieces * (2 * W + 4) + 1))%nat as E; [|lia].
  unfold work. cbn [y_workers y_requests y_replies Aggregation.init length]. rewrite !Nat.mul_0_l, !Nat.add_0_r.
  rewrite <-(length_seq W 0) at 2. generalize (seq 0 W). intros l. induction l as [|i l IH]; [done|].
  cbn [fmap list_fmap length]. cbn [sum_list_with]. rewrite IH. unfold worker_work. cbn. lia.
Qed.

(** ** Progress *)

Definition complete (y : sys) : Prop :=
  y_requests y = [] ∧ y_replies y = [] ∧ ∀ w k, y_workers y !! w = Some k →
    finishKeys (w_client k) = [] ∧ w_done k ≡ₚ program.*1 ∧
    ∀ c tk len, program !! c = Some (tk, len) → memory (w_client k) !! c = Some (sum_of W data c len).

(** A sending thread that finds nothing to send although there is. *)
Definition stalled (y : sys) : Prop :=
  ∃ w k, y_workers y !! w = Some k ∧ w_tx k = false ∧ pushpulljobQueue (w_client k) ≠ [] ∧ pkts_to_send (w_client k) = 0.

Context (Hco : conditions).
Notation worker_ok := (AggSystem.worker_ok W program data).
Notation sinv := (AggSystem.sinv W program data).

Lemma serve_enabled ws srv x G reps D : sinv false (Sys ws srv ((λ x, AggWorker.request program W (sender x) (number x) x.2) <$> x :: G) reps) (x :: G) D →
  ∃ y', step false (Sys ws srv ((λ x, AggWorker.request program W (sender x) (number x) x.2) <$> x :: G) reps) y'.
Proof.
  intros Hy. destruct x as [[w n] v]. cbn [fmap list_fmap fst snd]. pose proof (iv_once _ _ _ _ _ _ _ Hy) as Hn.
  pose proof (iv_packets _ _ _ _ _ _ _ Hy) as Hp. pose proof (iv_length _ _ _ _ _ _ _ Hy) as Hl. cbn [y_workers] in *.
  assert (((w, n, v) :: G) ++ D ≡ₚ G ++ D ++ [(w, n, v)]) as Hperm by solve_Permutation.
  destruct (serve W program data junk (co_workers _ _ _ Hco) (co_sums _ _ _ Hco) D w n v) with (srv := srv)
    as (srv1 & reply & E & _).
  - rewrite Hperm, fmap_app in Hn. by apply NoDup_app in Hn as (_ & _ & Hn).
  - intros z Hz. destruct (Hp z) as (_ & k & Hk & _); [rewrite Hperm; apply elem_of_app; by right|].
    rewrite <-Hl. by eapply lookup_lt_Some.
  - intros z Hz. apply Hp. rewrite Hperm. apply elem_of_app. by right.
  - apply (iv_server _ _ _ _ _ _ _ Hy).
  - eexists. by apply (st_serve W program junk false ws srv srv1 _ reply []).
Qed.

Lemma receive_enabled ws srv reqs w r reps G D : sinv false (Sys ws srv reqs ((w, r) :: reps)) G D →
  ∃ y', step false (Sys ws srv reqs ((w, r) :: reps)) y'.
Proof.
  intros Hy. pose proof Hco as [HW Hprog HN Hdata Hsums].
  destruct (iv_replies _ _ _ _ _ _ _ Hy w r) as (Hw & n & Hr & Hs); [by left|].
  pose proof (iv_length _ _ _ _ _ _ _ Hy) as Hl. cbn [y_workers] in Hl.
  destruct (lookup_lt_is_Some_2 ws w) as [[s b p t d] Hk]; [lia|].
  pose proof (served_sent _ _ _ _ _ _ _ _ _ _ Hy Hk Hs) as Hlt.
  destruct (iv_workers _ _ _ _ _ _ _ Hy _ _ Hk) as [Hwi _].
  assert (∃ s', rx_receive true 0x0d00 r s = Done s') as [s' E].
  { destruct (wi_sent _ _ _ _ _ _ _ _ _ _ Hwi n Hlt) as [Hf|Hf].
    - exists s. apply (receive_other program sums s n r Hr). unfold finished in Hf. cbn in Hf. lia.
    - destruct (receive_reply program data sums Hprog HN Hdata (sums_len W program data) _ _ _ _ _ _ _ _ _ Hwi Hlt Hr Hf)
        as (mem & E & _). by eexists. }
  eexists. by apply (st_receive W program junk false w ws s s' b p t d srv reqs r []).
Qed.

Lemma worker_enabled ws srv reqs reps w k m k' : ws !! w = Some k → wstep w k m k' →
  ∃ y', step false (Sys ws srv reqs reps) y'.
Proof. intros Hk Hs. eexists. by eapply st_worker. Qed.

Definition zero_hdr : p4mlhdr := Hdr 0 0 0 0 0 0 0 0 (replicate (4 * MAX_ENTRIES_PER_PACKET) 0).
Lemma zero_hdr_wf : hdr_wf zero_hdr.
Proof. split; try done. by apply Forall_replicate. Qed.

(** A worker all whose sent pieces are finished can send the next one, push it, or
    begin the tensor it belongs to. *)
Lemma idle_worker w k : worker_ok false w k → (∀ n, (n < sent k)%nat → finished (w_client k) n) →
  (∃ m k', wstep w k m k') ∨
  w_tx k = false ∧ pushpulljobQueue (w_client k) ≠ [] ∧ pkts_to_send (w_client k) = 0 ∨
  sent k = length pieces ∧ w_begun k = length program.
Proof.
  pose proof (co_program _ _ _ Hco) as Hprog. intros [Hw Ht] Hall. pose proof (wi_le _ _ _ _ _ _ _ _ _ _ Hw) as Hle.
  destruct k as [s b p t d]. set (q := sent _) in *. cbn [w_client w_begun w_pushed w_tx w_done] in *.
  destruct (decide (q < p)%nat) as [Hq|Hq].
  - destruct t.
    + left. assert (busy s (slot_n q) = false) as Hb.
      { destruct (busy s (slot_n q)) eqn:Eb; [|done]. destruct (wi_busy _ _ _ _ _ _ _ _ _ _ Hw _ Eb) as (n & Hn & _ & Hf).
        by apply in_flight_unfinished in Hf; destruct Hf; apply Hall. }
      pose proof (wi_queue _ _ _ _ _ _ _ _ _ _ Hw) as Eq. replace (p - q)%nat with (S (p - S q)) in Eq by lia.
      destruct (tx_send true (Z.of_nat w) (Z.of_nat W) zero_hdr s) as [[s' m]|] eqn:E.
      * exists (Some m), (Worker s' b p false d). eapply ws_send; [apply zero_hdr_wf|exact E].
      * unfold tx_send in E. rewrite Eq in E. cbn [seq fmap list_fmap job_n job_agtr] in E. unfold slot_ready in E.
        fold (busy s (slot_n q)) in E. by rewrite Hb in E.
    + destruct (decide (pkts_to_send s = 0)) as [E|Hne]; [right; left|left; eexists _, _; by apply ws_count].
      split_and!; [done| |done]. rewrite (wi_queue _ _ _ _ _ _ _ _ _ _ Hw). by replace (p - q)%nat with (S (p - S q)) by lia.
  - assert (q = p) as Eqp by lia. destruct (wi_begun _ _ _ _ _ _ _ _ _ _ Hw) as (Hbl & Hpb & Hbp).
    assert (key_free s p) as Hfree by (intros n Hn; apply Hall; unfold DPDK_KEY_TOTAL in *; lia).
    destruct (decide (p < length pieces)%nat) as [Hp|].
    + left. destruct (piece_n_spec program p Hp) as (tk & len & Hs). set (c := pc_call (piece_n p)) in *.
      pose proof (pp_program _ _ _ _ _ Hs) as Hc. pose proof (pp_base _ _ _ _ _ Hs) as Hbase. fold c in Hc, Hbase.
      pose proof (lookup_lt_Some _ _ _ Hc) as Hcl. destruct (decide (b ≤ c)%nat) as [Hbc|Hbc].
      * pose proof (base_le _ Hprog b c Hbc). assert (b = c) as Ebc by lia. assert (p = base b) as Epb by (rewrite Ebc in *; lia).
        rewrite Epb in Hfree |- *. eexists _, _. eapply ws_begin; [by rewrite Ebc|done].
      * destruct b as [|b]; [lia|]. specialize (Hbp b eq_refl). assert (b = c) as Ebc.
        { destruct (decide (S c ≤ b)%nat) as [H|]; [|lia]. pose proof (base_le _ Hprog (S c) b H). lia. }
        eexists _, _. eapply ws_push; [by rewrite Ebc|by apply piece_lookup|done|done].
    + right. right. split; [lia|]. pose proof (base_length program) as Hend.
      destruct (decide (b < length program)%nat); [|lia]. pose proof (base_le _ Hprog b (length program)). lia.
Qed.

(** A worker that has sent everything, and whose pieces are all finished. *)
Lemma idle_complete w k : worker_ok false w k → sent k = length pieces → w_begun k = length program →
  finishKeys (w_client k) = [] → (∀ n, (n < length pieces)%nat → finished (w_client k) n) →
  w_done k ≡ₚ program.*1 ∧
  ∀ c tk len, program !! c = Some (tk, len) → memory (w_client k) !! c = Some (sum_of W data c len).
Proof.
  pose proof (co_program _ _ _ Hco) as Hprog. intros [Hw _] Hs Hb Hf Hall. pose proof (wi_le _ _ _ _ _ _ _ _ _ _ Hw) as Hle.
  assert (∀ c, (c < length program)%nat → all_finished program (w_client k) c) as Hfin.
  { intros c Hc n Hn. destruct (lookup_lt_is_Some_2 program c Hc) as [[tk len] Ec].
    destruct (pieces_at_bound _ Hprog _ _ _ _ Ec Hn) as (_ & Hn' & _). by apply Hall. }
  split.
  - destruct (wi_done _ _ _ _ _ _ _ _ _ _ Hw) as (L & E & HL & Hin). rewrite Hf, app_nil_r in E. rewrite E.
    assert (L ≡ₚ seq 0 (length program)) as ->.
    { apply NoDup_Permutation; [done|apply NoDup_seq|]. intros c. rewrite Hin, elem_of_seq, Hb. split; [lia|].
      intros Hc. split; [lia|]. apply Hfin. lia. }
    enough (call_key program <$> seq 0 (length program) = program.*1) as -> by done. apply list_eq. intros c. rewrite !list_lookup_fmap. destruct (decide (c < length program)%nat) as [Hc|Hc].
    + rewrite lookup_seq_lt by done. cbn. unfold call_key. by destruct (lookup_lt_is_Some_2 program c Hc) as [[tk len] ->].
    + rewrite lookup_seq_ge by lia. by rewrite lookup_ge_None_2 by lia.
  - intros c tk len Hc. rewrite (complete_tensor program data sums Hprog (sums_len W program data) _ _ _ _ _ _ _ _ _ Hw Hc).
    + unfold AggServer.sums. by rewrite Hc.
    + apply Hfin. by eapply lookup_lt_Some.
Qed.

Lemma system_progress y : inv W program data false y → (∃ y', step false y y') ∨ complete y ∨ stalled y.
Proof.
  intros (G & D & Hy). destruct y as [ws srv reqs reps]. pose proof (iv_requests _ _ _ _ _ _ _ Hy) as Hreq. cbn [y_requests] in Hreq.
  subst reqs. destruct G as [|x G]; [|left; by eapply serve_enabled]. cbn [fmap list_fmap] in *.
  destruct reps as [|[w r] reps]; [|left; by eapply receive_enabled].
  pose proof (iv_workers _ _ _ _ _ _ _ Hy) as Hws. pose proof (iv_length _ _ _ _ _ _ _ Hy) as Hl. cbn [y_workers] in *.
  destruct (iv_lossless _ _ _ _ _ _ _ Hy eq_refl) as [Hsent Hserved _]. cbn [y_workers y_replies app] in *.
  destruct (decide (Exists (λ k, finishKeys (w_client k) ≠ []) ws)) as [Hp|Hp].
  { left. apply Exists_exists in Hp as ([s b p t d] & Hin & Hne). apply list_elem_of_lookup in Hin as [w Hk].
    destruct (PollFinishKey s) as [key s'] eqn:E. eapply worker_enabled; [exact Hk|]. by eapply ws_poll. }
  assert (∀ w k, ws !! w = Some k → finishKeys (w_client k) = []) as Hkeys.
  { intros w k Hk. destruct (decide (finishKeys (w_client k) = [])) as [|Hne]; [done|]. destruct Hp. apply Exists_exists.
    exists k. split; [by eapply list_elem_of_lookup_2|done]. }
  destruct (least_ex sent ws) as (w0 & k0 & Hk0 & Hmin).
  { intros ->. pose proof (co_workers _ _ _ Hco). cbn in Hl. lia. }
  assert (∀ w k n, ws !! w = Some k → (n < sent k0)%nat → finished (w_client k) n) as Hfin.
  { intros w k n Hk Hn. destruct (Hserved w k n Hk) as [?|(r & ?%elem_of_nil & _)]; [|done|done]. intros j Hj.
    destruct (lookup_lt_is_Some_2 ws j) as [k' Hk']; [lia|]. apply (Hsent j k' n Hk').
    pose proof (Hmin k' (list_elem_of_lookup_2 _ _ _ Hk')). lia. }
  destruct (idle_worker w0 k0 (Hws _ _ Hk0)) as [(m & k' & Hs)|[(Ht & Hq & Hn)|[Hs Hb]]]; [by intros n; apply (Hfin w0)|..].
  - left. by eapply worker_enabled.
  - right. right. by exists w0, k0.
  - right. left. split_and!; [done..|]. intros w k Hk. split; [by eapply Hkeys|].
    pose proof (Hws _ _ Hk) as Hok. pose proof (Hmin k (list_elem_of_lookup_2 _ _ _ Hk)) as Hge.
    pose proof (wi_le _ _ _ _ _ _ _ _ _ _ (wo_inv _ _ _ _ _ _ Hok)) as Hle.
    assert (sent k = length pieces) as Hs' by lia.
    assert (∀ n, (n < length pieces)%nat → finished (w_client k) n) as Hall by (intros n Hn; eapply Hfin; [done|lia]).
    apply (idle_complete w k Hok Hs'); [|by eapply Hkeys|done].
    destruct (wi_begun _ _ _ _ _ _ _ _ _ _ (wo_inv _ _ _ _ _ _ Hok)) as (Hbl & Hpb & _). pose proof (base_length program) as Hend.
    destruct (decide (w_begun k < length program)%nat); [|lia].
    pose proof (base_le _ (co_program _ _ _ Hco) (w_begun k) (length program)). lia.
Qed.

(** A sending thread does not stall as long as there are less than 65536 pieces. *)
Lemma short_queues y : inv W program data false y → Z.of_nat (length pieces) < 65536 → ¬ stalled y.
Proof.
  intros (G & D & Hy) Hn (w & k & Hk & _ & Hq & E). destruct (iv_workers _ _ _ _ _ _ _ Hy _ _ Hk) as [Hw _].
  pose proof (wi_le _ _ _ _ _ _ _ _ _ _ Hw) as Hle. pose proof (wi_queue _ _ _ _ _ _ _ _ _ _ Hw) as Eq.
  unfold pkts_to_send in E. apply (f_equal length) in Eq. rewrite length_fmap, length_seq in Eq.
  assert (length (pushpulljobQueue (w_client k)) ≠ 0%nat) by (by destruct (pushpulljobQueue (w_client k))).
  unfold wrap in E. change (2 ^ Z.of_nat 16) with 65536 in E. rewrite Z.mod_small in E by lia. lia.
Qed.

(** By induction on the work that is left. *)
Lemma runs_to_end y : rtc (step false) init y → ∃ y', rtc (step false) y y' ∧
  (complete y' ∨ stalled y') ∧ (Z.of_nat (length pieces) < 65536 → complete y').
Proof.
  intros Hy%(system_inv W program data junk Hco). remember (work y) as n eqn:En. revert y Hy En.
  induction (lt_wf n) as [n _ IH]. intros y Hy ->. destruct (system_progress y Hy) as [(y1 & Hs)|Hend].
  - destruct (IH _ (step_work _ _ Hs) y1) as (y' & Hs' & H); [by eapply inv_step|done|].
    exists y'. split; [by eapply rtc_l|done].
  - exists y. split_and!; [done..|]. intros Hn. destruct Hend as [?|Hst]; [done|]. by apply short_queues in Hst.
Qed.

(** C5: Without losses the system can always go on until every worker has reported every
    tensor, each with the sum over all workers in its buffer, or until a sending
    thread finds nothing in a queue of a multiple of 65536 jobs, which takes that
    many pieces. *)
Theorem aggregation_live y : rtc (step false) init y → ∃ y', rtc (step false) y y' ∧
  (complete y' ∨ stalled y') ∧ (Z.of_nat (length pieces) < 65536 → complete y').
Proof. exact (runs_to_end y). Qed.
End live.
End AggLive.
