(* ===== verification/AggDemo.v ===== *)
(** * The aggregation, run

    Two workers and two tensors, the second of two pieces; and behaviours that the
    conditions of the theorems leave out: a packet that arrives twice, a queue of 65536
    jobs, and tensors of floats. *)

From S2P Require Import Prelude BitIO Packet DpdkPkt SoftPS SoftPSProofs Dpdk Aggregation AggPieces AggWorker AggServer AggSystem AggLive.

Module AggDemo.
Import BitIO Packet DpdkPkt SoftPS SoftPSProofs Dpdk Aggregation AggPieces AggWorker AggServer AggSystem AggLive.

Definition program : list (Z * Z) := [(5, 3); (6, 1030)].
Definition data (w c : nat) : list Z :=
  let b := match w with O => 0 | _ => 1 end in
  match c with O => [b + 1; 7; 100 + b] | _ => replicate 1030 (20 + b) end.

(** ** The conditions hold *)

Definition is_byteb (b : Z) : bool := (0 <=? b) && (b <? 256).
Lemma bytes_all l : forallb is_byteb l = true → Forall is_byte l.
Proof. rewrite forallb_forall, Forall_forall. intros H x Hx%list_elem_of_In. apply H in Hx. unfold is_byteb, is_byte in *. lia. Qed.

Lemma program_at c tk len : program !! c = Some (tk, len) → c = 0%nat ∧ tk = 5 ∧ len = 3 ∨ c = 1%nat ∧ tk = 6 ∧ len = 1030.
Proof. destruct c as [|[|c]]; cbn; [intros [= <- <-]; by left|intros [= <- <-]; by right|done]. Qed.

Lemma demo_data w c tk len : program !! c = Some (tk, len) → length (data w c) = Z.to_nat len ∧ Forall is_byte (data w c).
Proof.
  intros [(-> & _ & ->)|(-> & _ & ->)]%program_at; (split; [by vm_compute|apply bytes_all]); by destruct w.
Qed.

Lemma demo_conditions : conditions 2 program data.
Proof.
  split.
  - lia.
  - intros c tk len [(_ & _ & ->)|(_ & _ & ->)]%program_at; lia.
  - change (length (pieces program)) with 3%nat. unfold MAX_AGTR_COUNT. lia.
  - intros w. apply demo_data.
  - intros c tk len [(-> & _ & ->)|(-> & _ & ->)]%program_at; apply bytes_all; by vm_compute.
Qed.

Lemma few_pieces : Z.of_nat (length (pieces program)) < 65536.
Proof. by vm_compute. Qed.

Notation start := (init 2 program data).

(** ** The theorems at work *)

Lemma first_worker (l : list worker) : length l = 2%nat → ∃ k, l !! 0%nat = Some k.
Proof. destruct l as [|k l]; [done|]. by exists k. Qed.

Lemma run_length lossy y : rtc (step 2 program false lossy) start y → length (y_workers y) = 2%nat.
Proof. intros (G & D & Hy)%(system_inv _ _ _ _ demo_conditions). exact (iv_length _ _ _ _ _ _ _ Hy). Qed.

(** The system without losses is a part of the lossy one. *)
Lemma lossless_lossy y y' : rtc (step 2 program false false) y y' → rtc (step 2 program false true) y y'.
Proof.
  induction 1 as [|y y' z Hs _ IH]; [done|]. eapply rtc_l; [|exact IH].
  destruct Hs; try done; [by eapply st_worker|by eapply st_serve|by eapply st_receive].
Qed.

Lemma aggregation_live_witness : ∃ y, rtc (step 2 program false false) start y ∧ complete 2 program data y.
Proof.
  destruct (aggregation_live 2 program data false demo_conditions start (rtc_refl _ _)) as (y & Hy & _ & H).
  exists y. split; [exact Hy|apply H, few_pieces].
Defined.

(** A run of a step, which is at most as long as the bound. *)
Lemma begins : step 2 program false false start
  (Sys [Worker (begin_tensor true 3 (manager (buffers program data 0))) 1 0 false [];
        Worker (manager (buffers program data 1)) 0 0 false []] ps_init [] []).
Proof.
  change start with (Sys (y_workers start) ps_init [] []).
  apply (st_worker 2 program false false 0 (y_workers start) (Worker (manager (buffers program data 0)) 0 0 false [])
    (Worker (begin_tensor true 3 (manager (buffers program data 0))) 1 0 false []) None ps_init [] []); [done|].
  apply (ws_begin 2 program 0 _ 0 false [] 5 3); [done|]. intros n Hn. change (Z.of_nat (base program 0)) with 0 in Hn.
  unfold DPDK_KEY_TOTAL in Hn. lia.
Qed.

Lemma aggregation_terminates_witness : ∃ y, nsteps (step 2 program false false) 1 start y ∧ (1 <= 2 * (2 + 3 * (2 * 2 + 4) + 1))%nat.
Proof.
  eexists. split; [exact (nsteps_once _ _ begins)|].
  exact (aggregation_terminates 2 program data false 1 _ (nsteps_once _ _ begins)).
Defined.

(** At the end of a run the buffer of tensor 5 holds the sum of the gradients. *)
Lemma aggregation_exact_witness : ∃ y k, rtc (step 2 program false false) start y ∧ y_workers y !! 0%nat = Some k ∧
  w_done k ≡ₚ [5; 6] ∧ memory (w_client k) !! 0%nat = Some [3; 14; 201].
Proof.
  destruct (runs_to_end 2 program data false demo_conditions start (rtc_refl _ _)) as (y & Hy & _ & H).
  destruct (H few_pieces) as (_ & _ & Hw). destruct (first_worker _ (run_length _ _ Hy)) as (k & Hk).
  exists y, k. destruct (Hw _ _ Hk) as (Hf & Hd & _). split_and!; [exact Hy|exact Hk|exact Hd|].
  destruct (aggregation_exact 2 program data false demo_conditions y 0 k Hy Hk) as (L & E & _ & HL).
  rewrite Hf, app_nil_r in E. rewrite E in Hd.
  assert (5 ∈ call_key program <$> L) as (c & Ec & Hc)%list_elem_of_fmap by (rewrite Hd; by left).
  destruct (HL c Hc) as (len & Hp & Hm). apply program_at in Hp as [(-> & _ & ->)|(-> & E6 & _)]; [exact Hm|].
  rewrite <-Ec in E6. done.
Defined.


(** ** Beyond the conditions *)

(** A packet of one worker that arrives twice is counted twice: the reply of the round
    is twice its gradient. *)
Definition again : TestMessage := Msg (data_hdr true 0 2 0 0 (replicate 1024 9)) 0 TENSOR_COMM 1024 false.
Definition twice : cres (ps * option TestMessage) :=
  r ← ps_receive 2 false 0x0c00 again ps_init; ps_receive 2 false 0x0c00 again r.1.
Definition reply_vector (r : cres (ps * option TestMessage)) : option (list Z) :=
  match r with Done (_, Some m) => Some (m_vector (p4ml_hdrs m)) | _ => None end.
Example duplicate_counted_twice : reply_vector twice = Some (replicate 1024 18).
Proof. by vm_compute. Qed.

(** The sending thread sees no packets in a queue whose length is a multiple of
    65536. *)
Lemma full_queue_unseen s : Z.of_nat (length (pushpulljobQueue s)) mod 65536 = 0 → pkts_to_send s = 0.
Proof. intros E. unfold pkts_to_send, wrap. change (2 ^ Z.of_nat 16) with 65536. by rewrite E. Qed.

(** Without compression a piece has 256 floats, which are 1024 bytes, but the pieces
    of a tensor are 256 bytes apart: a sum is written over most of the next
    pieces. *)
Example float_pieces_overlap :
  (λ j, (job_data j, 4 * job_len j)) <$> pushpulljobQueue (DPDKPushPull false 5 (0%nat, 0) 768 TENSOR_COMM "BytePS.Gradient" (manager ∅)) =
  [(0%nat, 0, 1024); (0%nat, 256, 1024); (0%nat, 512, 1024)].
Proof. by vm_compute. Qed.
End AggDemo.
